(* ===== verification/_CoqProject ===== *)
-Q . S2P
Prelude.v
Wire.v
Checksum.v
Codec.v
HeaderRules.v
Crypto.v
SessionMsg.v
Replay.v
SessionCrypto.v
Directional.v
Client.v
Limiter.v
Server.v
ServerInv.v
Handshake.v
Scenario.v
Manifest.v
Forward.v
Native.v
Bpf.v
Text.v
Loc.v
Udp.v
Responder.v
Ping.v
SessionCli.v
SessionProgram.v
SessionServe.v
SessionScenario.v
Linux.v
Topology.v
LinuxInv.v
Launcher.v
LinuxScenario.v
Control.v
Mobility.v
MobilityInv.v
Migration.v
MobilityRuns.v
DeliveryWindow.v
Redundant.v
RedundantInv.v
RedundantRuns.v
RedundantDelivery.v
Activation.v
RedundantScenario.v
MoveCli.v
MoveIo.v
MoveClient.v
MoveServer.v
MoveInv.v
MoveScenario.v
Device.v
NativeLoop.v
NativeRelay.v
NativeLab.v
RedundantIo.v
RedundantNative.v
RedundantFrames.v
RedundantEndpoint.v
RedundantLab.v
