(* ===== verification/Prelude.v ===== *)
(** * A verification library for the R8 protocol

    R8 is an experimental network protocol in Rust (src/rust/crates): a wire
    format, an authenticated session layer, a forwarding daemon, mobility of a
    session between carriers, and redundant delivery over two paths.  This
    library embeds the libraries of the workspace in Rocq, function by function,
    and proves what makes each of them correct, and so it does with the programs
    that run them over sockets and clocks.

    ** Conventions (Prelude.v)

    A [Result] is an [outcome]: [Ok], [Err] with the error of the source, or
    [Panic] for an index out of range, a failed [expect], an arithmetic overflow
    (the counters of r8ping alone have one, which their runs do not reach).  The
    one [debug_assert!] of the workspace, in the candidate manager, depends on the
    build: the class [Build] is a parameter of what calls it, so the theorems hold
    for debug and release builds alike unless they name one.
    A method that takes [&mut self] is a computation in the state monad [st],
    which returns the state also when the call fails.  Integers are [Z] with
    their ranges as predicates ([is_u8] ... [is_u64]) and checked, saturating or
    wrapping arithmetic where the source has it; byte strings are lists of [Z].
    Objects that Rust shares ([Arc] with a flag) or drops with an effect are
    names in an explicit world: the sessions alive and their leases
    ([Directional.World]), the admission capabilities ([Mobility.Capabilities]),
    the inbound leases ([Redundant.RWorld]).  Consuming a value is dropping it:
    the world changes where the destructor of the source runs.  Functions of
    other crates are parameters: the class [Crypto] with the laws [CryptoLaws]
    (lengths, totality, signature verification, agreement, decryption inverts
    encryption; nothing about secrecy), the JSON decoder of the manifest, the
    traits of the native runtime, which are classes, and the operating system:
    the class [Kernel] answers system calls, a family indexed by the type of the
    answer, with the documented behaviour the launcher relies on in [KernelLaws]
    and [ClassicBpfLaws].  The programs run over a network of the class [Net], in
    the same style: sockets, clocks, descriptors and random bytes are calls with
    answers, and the [logged] version of a network keeps the trace of what a
    program received and sent, of which its theorems speak.  [Crypto.Toy] is an instance of the cryptographic laws
    by arithmetic and [LinuxScenario.Demo] a small kernel; the witnesses are
    evaluated at them.

    ** The parts and their files

    - Wire format, r8-proto/src/lib.rs: Wire.v (header, checksum, CTL, DGRAM and
      SES rules, packing and parsing under a budget); Checksum.v, Codec.v,
      HeaderRules.v: packing and parsing are inverse, parsing is canonical, the
      cascade of checks decides declarative rules, the builders round-trip.
    - Session layer, r8-session/src/lib.rs: SessionMsg.v (identities, observed
      bindings, messages), Replay.v (the sliding window refines a finite set of
      accepted counters), Crypto.v and SessionCrypto.v (cookies, transcripts, key
      schedule, packet protection), Directional.v (directional sessions, previews
      and their commits, profile-3 datagrams, the bootstrap of the second slot),
      Client.v, Server.v, ServerInv.v, Limiter.v (the two machines and the
      limiter of unvalidated traffic), Handshake.v (an honest handshake
      completes with crossed keys; what the server demands before it keeps state)
      and Scenario.v (a concrete handshake).
    - Forwarding daemon, r8d/src/manifest.rs, forward.rs, native.rs: Manifest.v
      (validation decides declarative rules, longest-prefix routing), Forward.v
      (frame admission; a relayed packet stays intact and opens at the peer),
      Native.v (the runtime over its traits: fail-stop, accounting).
    - Its Linux binding, r8d/src/linux.rs, and launcher, bin/r8-native.rs: Bpf.v
      (the ingress filter against the frames that are forwarded), Text.v (the
      string functions of the standard library), Linux.v (the functions over
      system calls), Topology.v (the isolation check decides declarative rules),
      LinuxInv.v (privileges, filters, the sealed manifest), Launcher.v
      (arguments and startup; what readiness guarantees), LinuxScenario.v (a
      concrete kernel that runs the launcher), NativeLoop.v (the runtime over the
      launcher's descriptors in the endless loop; the process stays confined),
      NativeRelay.v (the calls of a whole run: every frame sent is the frame just
      read, forwarded) and NativeLab.v (a run that relays).
    - Mobility, r8-mobility/src/lib.rs: Control.v (the control codec and the
      inputs that are signed or authenticated), Mobility.v (the candidate
      manager: preview of a control into a transition, commit with the replay
      proof, settlement of a cohort, expiry), MobilityInv.v (runs of a manager
      with the history of what it probed and received, and their invariants: the
      peer is where an update and a response that were received say), Migration.v (arbitration against its rule, an honest
      move from end to end), MobilityRuns.v (concrete runs).
    - Redundancy, r8-redundant/src/lib.rs: DeliveryWindow.v (the two arrays of
      the delivered window refine a finite map), Redundant.v (the dual-path
      session), RedundantInv.v and RedundantRuns.v (well-formedness along every
      run, no identifier accepted twice, all-or-nothing sending),
      RedundantDelivery.v (delivery between two sessions, the verdict on every
      copy), Activation.v (the authority for the second path) and
      RedundantScenario.v (concrete sessions).

    - The text of locators and endpoints, r8-proto/src/lib.rs: Loc.v (parser and
      printer of the standard library; what is printed parses back).
    - Programs: Udp.v (calls, traces, the helpers of r8d/src/main.rs that r8ping
      repeats), Responder.v (r8d/src/main.rs: what it answers on any network),
      Ping.v (r8ping/src/main.rs: what a successful run shows, and when a run
      succeeds, with the responder as the other end), SessionCli.v and
      SessionProgram.v (r8-session/src/main.rs: options, sockets, the client and
      server modes), SessionServe.v (the invariant of the serving loop; only the
      endpoint that opened a session touches it), SessionScenario.v (client and
      server on one network); and the mobility program, r8-mobility/src/main.rs:
      MoveCli.v (options; the arguments are unambiguous), MoveIo.v (clocks,
      descriptors, the counting of echoes), MoveClient.v (handshake, the moving
      client, the responder; what becomes of a missed retry), MoveServer.v
      (associations, the moving server, the program), MoveInv.v (the invariant
      of the serving loop: what a server that ends well has seen, down to the
      packets in its trace), MoveScenario.v
      (a client moves while a server serves it).
    - The redundant endpoint, r8-redundant/src/bin/r8-redundant-native.rs, over
      raw packet sockets: Device.v (the calls of both families in one kernel, and
      the trace of a run), RedundantIo.v (arguments, keys, frames, the
      retransmissions of the handshake), RedundantNative.v (the two roles),
      RedundantFrames.v (the frames of a role, counted along its trace),
      RedundantEndpoint.v (a whole run: no frame before the privileges are gone),
      RedundantLab.v (both endpoints, from the first frame to the last).

    They interact as the crates do: Forward.v, Client.v, Server.v and
    Directional.v use the packets of Wire.v; the machines hold the directional
    sessions of Directional.v, whose replay windows are those of Replay.v; the
    manager of Mobility.v commits a transition by handing the proof of the
    packet that carried it to a session, a client or a server; and the redundant
    session owns two directional sessions, the bootstrap a handshake leaves, and
    consumes the admission the manager mints.

    ** The theorems

    The statements numbered C1, C2, ... in the comments are the properties; the
    others are lemmas, most of them shared.  They are of these groups.
    Completion: an honest handshake, an honest move, an echo run.  Delivery: a packet or
    datagram is recovered by the peer after any relays, a redundant datagram
    exactly once.  Refinement and equivalence: replay window, delivered window,
    header rules, manifest, frame admission, ingress filter, host isolation.  Invariants along runs, by
    induction on a step relation: server, client, manager, native runtime,
    redundant session.  Authority: who may create state, install a locator or
    carrier, activate a path.  Replay: counters, transitions, admissions and
    delivery identifiers are used once.  Codecs: round trips and injective
    inputs.  Programs: what is answered, to whom, and on whose behalf;
    which frames a daemon or an endpoint sends, counted or paired along the trace
    of its calls.  Startup: what holds when the launcher is ready, and while the
    daemon serves.  Bounds and errors: the limiter, expiry, the verdict on a copy.

    ** Loops, bounds and fuel

    The write and read loops of the sealed manifest run on fuel, one more than
    the bytes left, of which every pass moves at least one; [manifest_sealed]
    shows that it is never exhausted.  The
    loops of the programs have no bound of their own and run for a given
    number of passes; a run that has used them up is [Running].  Safety holds for
    every number of passes, and completion says how many are enough.  Loops
    over lists and over byte offsets are structural; the shifts of the replay window and the clearing of the
    delivered window recurse on a distance that is below the size of the window
    (4096) wherever the source enters the loop.  The step relations are
    inductive, so their theorems hold for runs of every length.  Capacities are
    those of the source (4096 counters and identifiers, 256 packets and 256 KiB
    per queue, two proposals and results, 64 events, the configured limits of
    the server) and appear in the invariants; that of the cached results of a
    manager is kept by the assertion of a debug build, and a release build has a
    larger one ([MobilityInv.wf_bounds]).

    ** Not modelled

    Zeroization of secrets and the Debug implementations, which change no value
    that the model keeps.  Poisoning of the manager's mutex: a panic ends a run.
    Interleaving of threads inside one call: every method takes the object
    exclusively, and the only shared flags, the leases and capabilities, change
    between calls (the steps of other holders are in the step relations).  The
    usage texts, and the progress messages of r8-native. *)

From stdpp Require Export base tactics option list numbers strings.
From Stdlib Require Export ZArith Lia.

#[global] Open Scope Z_scope.

(** ** Outcomes: [Result] values, and the panics of the language

    [Ok] and [Err] are the two constructors of [Result].  [Panic] is an
    unwinding computation: an index or a slice out of range, a failed
    [expect], an [unreachable!], an arithmetic overflow. *)

Inductive outcome (E A : Type) : Type :=
| Ok (a : A)
| Err (e : E)
| Panic.
Arguments Ok {E A} a.
Arguments Err {E A} e.
Arguments Panic {E A}.

#[global] Instance outcome_ret {E} : MRet (outcome E) := λ A a, Ok a.
#[global] Instance outcome_bind {E} : MBind (outcome E) := λ A B f m,
  match m with Ok a => f a | Err e => Err e | Panic => Panic end.
#[global] Instance outcome_fmap {E} : FMap (outcome E) := λ A B f m,
  match m with Ok a => Ok (f a) | Err e => Err e | Panic => Panic end.

#[global] Instance outcome_eq_dec {E A} `{EqDecision E, EqDecision A} :
  EqDecision (outcome E A).
Proof. solve_decision. Defined.

Definition map_err {E F A} (f : E → F) (m : outcome E A) : outcome F A :=
  match m with Ok a => Ok a | Err e => Err (f e) | Panic => Panic end.

Definition ok_or {E A} (o : option A) (e : E) : outcome E A :=
  match o with Some a => Ok a | None => Err e end.

Definition expect {E A} (o : option A) : outcome E A :=
  match o with Some a => Ok a | None => Panic end.

Definition is_ok {E A} (m : outcome E A) : bool :=
  match m with Ok _ => true | _ => false end.

(** Short-circuit disjunction and conjunction of conditions that may panic. *)
Definition orM {E} (a b : outcome E bool) : outcome E bool :=
  x ← a; if x : bool then Ok true else b.
Definition andM {E} (a b : outcome E bool) : outcome E bool :=
  x ← a; if x : bool then b else Ok false.

Declare Scope r8_scope.
Delimit Scope r8_scope with r8.
Infix "||?" := orM (at level 50, left associativity) : r8_scope.
Infix "&&?" := andM (at level 40, left associativity) : r8_scope.
#[global] Open Scope r8_scope.

(** The configuration of the build: [cfg!(debug_assertions)].  A [debug_assert!] panics where it is
    on and is no code at all where it is off, as in a release build. *)
Class Build : Set := { debug_assertions : bool }.
Definition debug_build : Build := {| debug_assertions := true |}.
Definition release_build : Build := {| debug_assertions := false |}.

(** Operations with a mutable receiver: they return the receiver's state after the call also
    when they fail or unwind. *)
Definition st (S E A : Type) : Type := S → outcome E A * S.

#[global] Instance st_ret {S E} : MRet (st S E) := λ A a s, (Ok a, s).
#[global] Instance st_bind {S E} : MBind (st S E) := λ A B f m s,
  match m s with
  | (Ok a, s') => f a s'
  | (Err e, s') => (Err e, s')
  | (Panic, s') => (Panic, s')
  end.

Definition get {S E} : st S E S := λ s, (Ok s, s).
Definition put {S E} (s' : S) : st S E unit := λ _, (Ok (), s').
Definition lift {S E A} (m : outcome E A) : st S E A := λ s, (m, s).
Definition throw {S E A} (e : E) : st S E A := λ s, (Err e, s).
(** Run an operation on a part of the state. *)
Definition zoom {S T E A} (view : S → T) (set : T → S → S) (m : st T E A) : st S E A := λ s,
  let '(r, t) := m (view s) in (r, set t s).

(** ** Machine integers

    Every integer of the source is a [Z] with its range as a predicate. *)

Definition u8_max : Z := 255.
Definition u16_max : Z := 65535.
Definition u32_max : Z := 4294967295.
Definition u64_max : Z := 18446744073709551615.
Definition usize_max : Z := u64_max.

Definition is_u8 (z : Z) : Prop := 0 ≤ z ≤ u8_max.
Definition is_u16 (z : Z) : Prop := 0 ≤ z ≤ u16_max.
Definition is_u32 (z : Z) : Prop := 0 ≤ z ≤ u32_max.
Definition is_u64 (z : Z) : Prop := 0 ≤ z ≤ u64_max.

#[global] Instance is_u8_dec z : Decision (is_u8 z).
Proof. apply _. Defined.
#[global] Instance is_u16_dec z : Decision (is_u16 z).
Proof. apply _. Defined.
#[global] Instance is_u32_dec z : Decision (is_u32 z).
Proof. apply _. Defined.
#[global] Instance is_u64_dec z : Decision (is_u64 z).
Proof. apply _. Defined.

Ltac unfold_widths :=
  unfold is_u8, is_u16, is_u32, is_u64, u8_max, u16_max, u32_max, usize_max, u64_max in *.
Ltac solve_width := unfold_widths; lia.

Definition sat_add (a b : Z) : Z := Z.min (a + b) u64_max.
Definition sat_sub (a b : Z) : Z := Z.max 0 (a - b).
Definition sat_mul (a b : Z) : Z := Z.min (a * b) u64_max.
Definition checked_add (a b : Z) : option Z :=
  if a + b <=? u64_max then Some (a + b) else None.
Definition checked_sub (a b : Z) : option Z :=
  if b <=? a then Some (a - b) else None.
(** [u16::try_from] and [u32::try_from] of a non-negative value. *)
Definition try_u16 (a : Z) : option Z := if a <=? u16_max then Some a else None.
Definition try_u32 (a : Z) : option Z := if a <=? u32_max then Some a else None.

(** ** Bytes and slices *)

Abbreviation bytes := (list Z).

Definition len {A} (l : list A) : Z := Z.of_nat (length l).
#[global] Arguments len : simpl never.
Definition wf_bytes (l : bytes) : Prop := Forall is_u8 l.
Definition wf_array (n : nat) (l : bytes) : Prop := length l = n ∧ wf_bytes l.

#[global] Instance wf_bytes_dec l : Decision (wf_bytes l).
Proof. apply _. Defined.
#[global] Instance wf_array_dec n l : Decision (wf_array n l).
Proof. apply _. Defined.

(** [data[i]] *)
Definition idx {E A} (l : list A) (i : nat) : outcome E A :=
  match l !! i with Some b => Ok b | None => Panic end.
(** [data[i] = v] *)
Definition idx_set {E A} (l : list A) (i : nat) (v : A) : outcome E (list A) :=
  if decide (i < length l)%nat then Ok (<[i := v]> l) else Panic.
(** [&data[a..b]] *)
Definition slice {E A} (l : list A) (a b : nat) : outcome E (list A) :=
  if decide (a ≤ b ≤ length l)%nat then Ok (take (b - a) (drop a l)) else Panic.
(** [&data[a..]] *)
Definition slice_from {E A} (l : list A) (a : nat) : outcome E (list A) :=
  slice l a (length l).
(** [data[a..b].copy_from_slice(src)] *)
Definition copy_slice {E A} (l : list A) (a b : nat) (src : list A) : outcome E (list A) :=
  if decide ((a ≤ b ≤ length l)%nat ∧ length src = (b - a)%nat)
  then Ok (take a l ++ src ++ drop b l) else Panic.

(** [data[i] != v] and [data[a..b] != v], which index before they compare. *)
Definition byte_ne {E} (l : bytes) (i : nat) (v : Z) : outcome E bool :=
  b ← idx l i; Ok (negb (b =? v)).
Definition slice_ne {E} (l : bytes) (a b : nat) (v : bytes) : outcome E bool :=
  s ← slice l a b; Ok (negb (bool_decide (s = v))).

(** Structural equality of byte strings ([==] on slices and arrays). *)
Definition beq (a b : bytes) : bool := bool_decide (a = b).

(** [to_be_bytes] at a width of [n] bytes, and [from_be_bytes]. *)
Fixpoint be_bytes (n : nat) (z : Z) : bytes :=
  match n with
  | O => []
  | S n => be_bytes n (z / 256) ++ [z mod 256]
  end.
Definition be_value (l : bytes) : Z := foldl (λ acc b, acc * 256 + b) 0 l.

(** A byte-string literal [b"..."]. *)
Fixpoint ascii_bytes (s : string) : bytes :=
  match s with
  | EmptyString => []
  | String a s => Z.of_N (Ascii.N_of_ascii a) :: ascii_bytes s
  end.

(** [m] does not panic. *)
Definition safe {E A} (m : outcome E A) : Prop := m ≠ Panic.

(** ** Lemmas on outcomes *)

Section Outcome.
Context {E A B : Type}.
Implicit Types (m : outcome E A) (k : A → outcome E B).

Lemma Ok_inj (a b : A) : Ok (E:=E) a = Ok b → a = b.
Proof. by intros [= ->]. Qed.

Lemma bind_Ok m k b : (m ≫= k) = Ok b ↔ ∃ a, m = Ok a ∧ k a = Ok b.
Proof. destruct m; naive_solver. Qed.

Lemma bind_Err m k e :
  (m ≫= k) = Err e ↔ m = Err e ∨ ∃ a, m = Ok a ∧ k a = Err e.
Proof. destruct m; naive_solver. Qed.

Lemma safe_bind m k : safe m → (∀ a, m = Ok a → safe (k a)) → safe (m ≫= k).
Proof. unfold safe. destruct m; naive_solver. Qed.

Lemma safe_Ok (a : A) : safe (E:=E) (Ok a).
Proof. done. Qed.

Lemma safe_Err (e : E) : safe (A:=A) (Err e).
Proof. done. Qed.

Lemma safe_map_err {F} (f : E → F) m : safe (map_err f m) ↔ safe m.
Proof. unfold safe. destruct m; naive_solver. Qed.

Lemma safe_ok_or (o : option A) (e : E) : safe (ok_or o e).
Proof. by destruct o. Qed.

Lemma map_err_Ok {F} (f : E → F) m a : map_err f m = Ok a ↔ m = Ok a.
Proof. destruct m; naive_solver. Qed.

Lemma ok_or_Ok (o : option A) (e : E) a : ok_or o e = Ok a ↔ o = Some a.
Proof. destruct o; naive_solver. Qed.
End Outcome.

Lemma orM_Ok_false {E} (a b : outcome E bool) :
  orM a b = Ok false ↔ a = Ok false ∧ b = Ok false.
Proof. destruct a as [[]| |]; naive_solver. Qed.

Lemma safe_orM {E} (a b : outcome E bool) :
  safe a → (a = Ok false → safe b) → safe (orM a b).
Proof. destruct a as [[]| |]; naive_solver. Qed.

(** Computation rules of the state monad. *)
Section State.
Context {S E A B : Type}.
Implicit Types (s : S) (k : A → st S E B).

Lemma st_bind_lift (m : outcome E A) k s :
  (lift m ≫= k) s = match m with Ok a => k a s | Err e => (Err e, s) | Panic => (Panic, s) end.
Proof. done. Qed.

Lemma st_bind_Ok (m : st S E A) k s b s' :
  (m ≫= k) s = (Ok b, s') ↔ ∃ a s1, m s = (Ok a, s1) ∧ k a s1 = (Ok b, s').
Proof.
  unfold mbind, st_bind. destruct (m s) as [[a|e|] s1]; [|naive_solver..].
  split; [eauto|]. intros (?&?&[= <- <-]&?). done.
Qed.
End State.

(** ** Lemmas on slices *)

Section Slices.
Context {E A : Type}.
Implicit Types (l src : list A).

Lemma idx_Ok l i x : idx (E:=E) l i = Ok x ↔ l !! i = Some x.
Proof. unfold idx. destruct (l !! i); naive_solver. Qed.

Lemma idx_safe l i : (i < length l)%nat → ∃ x, idx (E:=E) l i = Ok x ∧ l !! i = Some x.
Proof. intros [x Hx]%lookup_lt_is_Some. exists x. by rewrite idx_Ok. Qed.

Lemma safe_idx l i : (i < length l)%nat → safe (idx (E:=E) l i).
Proof. intros (x & -> & _)%idx_safe. done. Qed.

Lemma slice_Ok l a b :
  (a ≤ b ≤ length l)%nat → slice (E:=E) l a b = Ok (take (b - a) (drop a l)).
Proof. intros. unfold slice. by rewrite decide_True. Qed.

Lemma slice_inv l a b r :
  slice (E:=E) l a b = Ok r →
  (a ≤ b ≤ length l)%nat ∧ r = take (b - a) (drop a l) ∧ length r = (b - a)%nat.
Proof.
  unfold slice. case_decide; [|done]. intros [= <-].
  rewrite length_take, length_drop. split_and!; [lia..|done|lia].
Qed.

Lemma safe_slice l a b : (a ≤ b ≤ length l)%nat → safe (slice (E:=E) l a b).
Proof. intros. by rewrite slice_Ok. Qed.

Lemma safe_slice_from l a : (a ≤ length l)%nat → safe (slice_from (E:=E) l a).
Proof. intros. apply safe_slice. lia. Qed.

Lemma slice_from_Ok l a : (a ≤ length l)%nat → slice_from (E:=E) l a = Ok (drop a l).
Proof.
  intros. unfold slice_from. rewrite slice_Ok by lia.
  by rewrite take_ge by (rewrite length_drop; lia).
Qed.

Lemma idx_set_Ok l i x : (i < length l)%nat → idx_set (E:=E) l i x = Ok (<[i := x]> l).
Proof. intros. unfold idx_set. by rewrite decide_True. Qed.

Lemma copy_slice_Ok l a b src :
  (a ≤ b ≤ length l)%nat → length src = (b - a)%nat →
  copy_slice (E:=E) l a b src = Ok (take a l ++ src ++ drop b l).
Proof. intros. unfold copy_slice. by rewrite decide_True. Qed.

(** Slices of a concatenation of fields whose lengths are known. *)
Lemma slice_app_l l1 l2 a b :
  (a ≤ b ≤ length l1)%nat → slice (E:=E) (l1 ++ l2) a b = slice l1 a b.
Proof.
  intros. rewrite !slice_Ok by (rewrite ?length_app; lia).
  by rewrite drop_app_le, take_app_le by (rewrite ?length_drop; lia).
Qed.

Lemma slice_app_r l1 l2 a b :
  (length l1 ≤ a ≤ b)%nat →
  slice (E:=E) (l1 ++ l2) a b = slice l2 (a - length l1) (b - length l1).
Proof.
  intros. destruct (decide (b ≤ length l1 + length l2)%nat).
  - rewrite !slice_Ok by (rewrite ?length_app; lia).
    rewrite drop_app_ge by lia. do 2 f_equal. lia.
  - unfold slice. rewrite !decide_False; [done| |]; rewrite ?length_app; lia.
Qed.

Lemma slice_all l n : length l = n → slice (E:=E) l 0 n = Ok l.
Proof. intros <-. rewrite slice_Ok by lia. rewrite drop_0, take_ge; [done|lia]. Qed.
End Slices.

Lemma byte_ne_false {E} (l : bytes) i v : byte_ne (E:=E) l i v = Ok false ↔ l !! i = Some v.
Proof.
  unfold byte_ne, idx. destruct (l !! i) as [b|]; simpl; [|naive_solver].
  destruct (Z.eqb_spec b v); naive_solver.
Qed.

Lemma slice_ne_false {E} (l : bytes) a b v :
  slice_ne (E:=E) l a b v = Ok false ↔ slice (E:=E) l a b = Ok v.
Proof.
  unfold slice_ne. destruct (slice l a b) as [s| |]; simpl; [|naive_solver..].
  destruct (bool_decide_reflect (s = v)); naive_solver.
Qed.

Lemma safe_byte_ne {E} (l : bytes) i v : (i < length l)%nat → safe (byte_ne (E:=E) l i v).
Proof. intros. apply safe_bind; [by apply safe_idx|]. done. Qed.

Lemma safe_slice_ne {E} (l : bytes) a b v :
  (a ≤ b ≤ length l)%nat → safe (slice_ne (E:=E) l a b v).
Proof. intros. apply safe_bind; [by apply safe_slice|]. done. Qed.

Lemma len_nonneg {A} (l : list A) : 0 ≤ len l.
Proof. unfold len. lia. Qed.

Lemma len_app {A} (l1 l2 : list A) : len (l1 ++ l2) = len l1 + len l2.
Proof. unfold len. rewrite length_app. lia. Qed.

Lemma len_fmap {A B} (f : A → B) (l : list A) : len (f <$> l) = len l.
Proof. unfold len. by rewrite length_fmap. Qed.

Lemma len_insert {A} (l : list A) i x : len (<[i := x]> l) = len l.
Proof. unfold len. by rewrite length_insert. Qed.

Lemma len_delete {A} (l : list A) i x : l !! i = Some x → len (delete i l) = len l - 1.
Proof.
  intros Hi. pose proof (lookup_lt_Some _ _ _ Hi). unfold len.
  rewrite length_delete by (by eexists). lia.
Qed.

Lemma len_filter {A} (P : A → Prop) `{!∀ x, Decision (P x)} (l : list A) : len (filter P l) ≤ len l.
Proof. unfold len. pose proof (length_filter P l). lia. Qed.

Lemma beq_true a b : beq a b = true ↔ a = b.
Proof. unfold beq. apply bool_decide_eq_true. Qed.

Lemma beq_false a b : beq a b = false ↔ a ≠ b.
Proof. unfold beq. apply bool_decide_eq_false. Qed.

Lemma beq_refl a : beq a a = true.
Proof. by apply beq_true. Qed.

Lemma NoDup_fmap_inj_on {A B} (f : A → B) l x y :
  NoDup (f <$> l) → x ∈ l → y ∈ l → f x = f y → x = y.
Proof.
  intros Hnd [i Hi]%list_elem_of_lookup [j Hj]%list_elem_of_lookup Hf.
  assert (i = j) as -> by (eapply (NoDup_lookup (f <$> l));
    [done|by rewrite list_lookup_fmap, Hi|by rewrite list_lookup_fmap, Hj, Hf]).
  congruence.
Qed.

(** ** Checked arithmetic *)

Lemma checked_add_Some a b : a + b ≤ u64_max → checked_add a b = Some (a + b).
Proof. intros. unfold checked_add. by assert (a + b <=? u64_max = true) as -> by lia. Qed.

Lemma checked_add_inv a b c : checked_add a b = Some c → c = a + b ∧ a + b ≤ u64_max.
Proof. unfold checked_add. case_match; [|done]. intros [= <-]. lia. Qed.

Lemma try_u16_Some a : a ≤ u16_max → try_u16 a = Some a.
Proof. intros. unfold try_u16. by assert (a <=? u16_max = true) as -> by lia. Qed.

Lemma try_u16_inv a b : try_u16 a = Some b → b = a ∧ a ≤ u16_max.
Proof. unfold try_u16. case_match; [|done]. intros [= <-]. lia. Qed.

Lemma try_u32_Some a : a ≤ u32_max → try_u32 a = Some a.
Proof. intros. unfold try_u32. by assert (a <=? u32_max = true) as -> by lia. Qed.

(** ** Well-formed byte strings *)

Lemma wf_bytes_nil : wf_bytes [].
Proof. constructor. Qed.

Lemma wf_bytes_cons b l : is_u8 b → wf_bytes l → wf_bytes (b :: l).
Proof. by constructor. Qed.

Lemma wf_bytes_app l1 l2 : wf_bytes l1 → wf_bytes l2 → wf_bytes (l1 ++ l2).
Proof. apply Forall_app_2. Qed.

Lemma wf_bytes_cons_1 b l : wf_bytes (b :: l) → is_u8 b ∧ wf_bytes l.
Proof. apply Forall_cons_1. Qed.

Lemma wf_bytes_app_1 l1 l2 : wf_bytes (l1 ++ l2) → wf_bytes l1 ∧ wf_bytes l2.
Proof. apply Forall_app. Qed.

Lemma wf_bytes_take n l : wf_bytes l → wf_bytes (take n l).
Proof. apply Forall_take. Qed.

Lemma wf_bytes_drop n l : wf_bytes l → wf_bytes (drop n l).
Proof. apply Forall_drop. Qed.

Lemma wf_bytes_replicate n b : is_u8 b → wf_bytes (replicate n b).
Proof. intros. by apply Forall_replicate. Qed.

Lemma wf_bytes_lookup l i b : wf_bytes l → l !! i = Some b → is_u8 b.
Proof. intros. by eapply Forall_lookup_1. Qed.

(** ** Big-endian integers *)

Lemma length_be_bytes n z : length (be_bytes n z) = n.
Proof. revert z. induction n; intros; simpl; [done|]. rewrite length_app, IHn. simpl. lia. Qed.

Lemma wf_be_bytes n z : wf_bytes (be_bytes n z).
Proof.
  revert z. induction n; intros; simpl; [constructor|].
  apply Forall_app. split; [apply IHn|]. constructor; [|done].
  pose proof (Z.mod_pos_bound z 256). solve_width.
Qed.

Lemma wf_array_be_bytes n z : wf_array n (be_bytes n z).
Proof. split; auto using length_be_bytes, wf_be_bytes. Qed.

Lemma be_value_snoc l b : be_value (l ++ [b]) = be_value l * 256 + b.
Proof. unfold be_value. by rewrite foldl_app. Qed.

Lemma be_value_be_bytes n z :
  0 ≤ z < 256 ^ Z.of_nat n → be_value (be_bytes n z) = z.
Proof.
  revert z. induction n; intros z Hz.
  - simpl in *. unfold be_value. simpl. lia.
  - rewrite Nat2Z.inj_succ, Z.pow_succ_r in Hz by lia. simpl. rewrite be_value_snoc, IHn.
    + rewrite (Z_div_mod_eq_full z 256) at 3. lia.
    + split; [apply Z.div_pos; lia|]. apply Z.div_lt_upper_bound; lia.
Qed.

Lemma be_value_range l : wf_bytes l → 0 ≤ be_value l < 256 ^ len l.
Proof.
  unfold len. induction l as [|b l IH] using rev_ind; intros Hwf; [done|].
  apply Forall_app in Hwf as [Hl [Hb _]%Forall_cons_1].
  rewrite be_value_snoc, length_app, Nat2Z.inj_add, Z.pow_add_r by lia.
  specialize (IH Hl). change (Z.of_nat (length [b])) with 1. rewrite Z.pow_1_r.
  solve_width.
Qed.

Lemma be_bytes_be_value l n :
  wf_bytes l → length l = n → be_bytes n (be_value l) = l.
Proof.
  intros Hwf <-. revert Hwf.
  induction l as [|b l IH] using rev_ind; intros Hwf; [done|].
  apply Forall_app in Hwf as [Hl [Hb _]%Forall_cons_1].
  rewrite length_app, Nat.add_comm. simpl. rewrite be_value_snoc.
  assert ((be_value l * 256 + b) / 256 = be_value l) as ->.
  { rewrite Z.div_add_l by lia. rewrite (Z.div_small b); solve_width. }
  assert ((be_value l * 256 + b) mod 256 = b) as ->.
  { rewrite Z.add_comm, Z.mod_add by lia. apply Z.mod_small. solve_width. }
  by rewrite IH.
Qed.

Lemma be_value_inj l1 l2 :
  wf_bytes l1 → wf_bytes l2 → length l1 = length l2 →
  be_value l1 = be_value l2 → l1 = l2.
Proof.
  intros H1 H2 Hlen Hv. rewrite <-(be_bytes_be_value l1 (length l1)) by done.
  by rewrite Hv, Hlen, be_bytes_be_value.
Qed.

Lemma be_bytes_inj n z1 z2 :
  0 ≤ z1 < 256 ^ Z.of_nat n → 0 ≤ z2 < 256 ^ Z.of_nat n →
  be_bytes n z1 = be_bytes n z2 → z1 = z2.
Proof. intros ?? Heq%(f_equal be_value). by rewrite !be_value_be_bytes in Heq. Qed.

(** ** Proof automation *)

Create HintDb r8.
#[export] Hint Resolve safe_Ok safe_Err safe_ok_or : r8.
#[export] Hint Resolve length_be_bytes wf_be_bytes wf_array_be_bytes len_nonneg : r8.
#[export] Hint Resolve wf_bytes_nil wf_bytes_cons wf_bytes_app wf_bytes_take wf_bytes_drop
  wf_bytes_replicate : r8.
#[export] Hint Extern 2 (is_u8 _) => solve_width : r8.

(** Decompose an [Ok] equation of a chain of binds. *)
Ltac inv_ok :=
  repeat match goal with
  | H : (_ ≫= _) = Ok _ |- _ => apply bind_Ok in H as (? & ? & H)
  | H : map_err _ _ = Ok _ |- _ => apply map_err_Ok in H
  | H : ok_or _ _ = Ok _ |- _ => apply ok_or_Ok in H
  | H : checked_add _ _ = Some _ |- _ => apply checked_add_inv in H as [? ?]
  | H : try_u16 _ = Some _ |- _ => apply try_u16_inv in H as [? ?]
  | H : Ok _ = Ok _ |- _ => apply Ok_inj in H
  | H : Err _ = Ok _ |- _ => discriminate H
  | H : Panic = Ok _ |- _ => discriminate H
  | H : orM _ _ = Ok false |- _ => apply orM_Ok_false in H as [? H]
  | H : byte_ne _ _ _ = Ok false |- _ => apply byte_ne_false in H
  | H : slice_ne _ _ _ _ = Ok false |- _ => apply slice_ne_false in H
  | H : (if ?b then _ else _) = Ok _ |- _ =>
      first [is_var b; destruct b | destruct b eqn:?]; try discriminate H
  end.

(** Discharge a [safe] goal, leaving the bounds of indices and slices. *)
Ltac solve_safe :=
  repeat match goal with
  | |- safe (Ok _) => apply safe_Ok
  | |- safe (Err _) => apply safe_Err
  | |- safe (ok_or _ _) => apply safe_ok_or
  | |- safe (map_err _ _) => apply safe_map_err
  | |- safe (_ ≫= _) => apply safe_bind; [|intros ??]
  | |- safe (orM _ _) => apply safe_orM; [|intros ?]
  | |- safe (if ?b then _ else _) => destruct b eqn:?
  | |- safe (idx _ _) => apply safe_idx
  | |- safe (slice _ _ _) => apply safe_slice
  | |- safe (slice_from _ _) => apply safe_slice_from
  | |- safe (byte_ne _ _ _) => apply safe_byte_ne
  | |- safe (slice_ne _ _ _ _) => apply safe_slice_ne
  end.

(** Decide a closed decidable proposition by evaluation. *)
Ltac compute_decide := apply (bool_decide_eq_true_1 _); vm_compute; reflexivity.

(** Split well-formedness hypotheses on cons and append. *)
Ltac inv_wf :=
  repeat match goal with
  | H : wf_array _ _ |- _ => destruct H as [? ?]
  | H : wf_bytes (_ :: _) |- _ => apply wf_bytes_cons_1 in H as [? ?]
  | H : wf_bytes (_ ++ _) |- _ => apply wf_bytes_app_1 in H as [? ?]
  end.

(** Prove well-formedness of a byte string from that of its parts. *)
Ltac solve_wf :=
  repeat match goal with
  | |- wf_bytes (be_bytes _ _) => apply wf_be_bytes
  | |- wf_bytes (_ ++ _) => apply wf_bytes_app
  | |- wf_bytes (_ :: _) => apply wf_bytes_cons
  | |- wf_bytes [] => apply wf_bytes_nil
  | |- wf_bytes (take _ _) => apply wf_bytes_take
  | |- wf_bytes (drop _ _) => apply wf_bytes_drop
  | |- wf_bytes (replicate _ _) => apply wf_bytes_replicate
  | |- is_u8 _ => solve_width
  | |- wf_bytes _ => assumption
  end.

(** ** Injectivity of concatenations of fields *)

Lemma app_inj_len {A} (a b x y : list A) : length a = length b → a ++ x = b ++ y → a = b ∧ x = y.
Proof. intros. by apply app_inj_1. Qed.

(** Peel equal-length fields off an equation of concatenations. *)
Ltac peel H :=
  repeat match type of H with
  | _ ++ _ = _ ++ _ =>
      let H1 := fresh "Hf" in
      apply app_inj_len in H as [H1 H]; [|rewrite ?length_be_bytes; congruence || done]
  end.

Ltac inj_be :=
  repeat match goal with
  | H : be_bytes _ _ = be_bytes _ _ |- _ =>
      apply be_bytes_inj in H; [|unfold_widths; simpl Z.of_nat in *; lia..]
  end.
