(* ===== verification/Wire.v ===== *)
(** * The R8 wire format v0.2 (src/rust/crates/r8-proto/src/lib.rs)

    The header record, the 16-bit checksum, the CTL and DGRAM payload codecs,
    the header rules of each next-header value, and packet serialization. *)

From S2P Require Import Prelude.

Definition R8_UDP_PORT : Z := 52808.
Definition R8_ETHERTYPE : Z := 0x88B5.
Definition VERSION : Z := 8.
Definition HEADER_LEN : Z := 48.
Definition SERIALIZED_R8_MAX : Z := 1280.

Definition NH_CTL : Z := 1.
Definition NH_DGRAM : Z := 2.
Definition NH_SES : Z := 3.
Definition NH_NONE : Z := 59.

Definition CTL_ECHO_REQUEST : Z := 1.
Definition CTL_ECHO_REPLY : Z := 2.
Definition CTL_DEST_UNREACHABLE : Z := 128.
Definition CTL_TIME_EXCEEDED : Z := 129.
Definition CTL_PACKET_TOO_BIG : Z := 130.

Module WireError.

Inductive t : Set :=
| Truncated | TrailingBytes | PacketCap | BindingBudget | LengthOverflow
| Version | Profile | TrafficClass | NextHeader | HopLimit | Flags | PathSlot
| Scid | NonePayload | CtlShort | CtlType | CtlCode | CtlBody | CtlChecksum
| DgramShort | DgramLength | DgramChecksum.

#[export] Instance eq_dec : EqDecision t.
Proof. solve_decision. Defined.

Definition as_str (e : t) : string :=
  match e with
  | Truncated => "TRUNCATED"
  | TrailingBytes => "TRAILING_BYTES"
  | PacketCap => "PACKET_CAP"
  | BindingBudget => "BINDING_BUDGET"
  | LengthOverflow => "LENGTH_OVERFLOW"
  | Version => "VERSION"
  | Profile => "PROFILE"
  | TrafficClass => "TRAFFIC_CLASS"
  | NextHeader => "NEXT_HEADER"
  | HopLimit => "HOP_LIMIT"
  | Flags => "FLAGS"
  | PathSlot => "PATH_SLOT"
  | Scid => "SCID"
  | NonePayload => "NONE_PAYLOAD"
  | CtlShort => "CTL_SHORT"
  | CtlType => "CTL_TYPE"
  | CtlCode => "CTL_CODE"
  | CtlBody => "CTL_BODY"
  | CtlChecksum => "CTL_CHECKSUM"
  | DgramShort => "DGRAM_SHORT"
  | DgramLength => "DGRAM_LENGTH"
  | DgramChecksum => "DGRAM_CHECKSUM"
  end.

End WireError.
Import WireError.

Record Header : Set := mkHeader {
  profile : Z;
  tc : Z;
  next_header : Z;
  hop_limit : Z;
  flags : Z;
  path_slot : Z;
  scid : Z;
  src : bytes;
  dst : bytes;
}.

#[export] Instance Header_eq_dec : EqDecision Header.
Proof. solve_decision. Defined.

(** The machine types of the fields: [u8], [u64] and [[u8; 16]]. *)
Definition wf_header (h : Header) : Prop :=
  is_u8 (profile h) ∧ is_u8 (tc h) ∧ is_u8 (next_header h) ∧ is_u8 (hop_limit h) ∧
  is_u8 (flags h) ∧ is_u8 (path_slot h) ∧ is_u64 (scid h) ∧
  wf_array 16 (src h) ∧ wf_array 16 (dst h).

#[export] Instance wf_header_dec h : Decision (wf_header h).
Proof. apply _. Defined.

Definition header_new (nh : Z) (s d : bytes) : Header :=
  mkHeader 0 0 nh 64 0 0 0 s d.

Definition checked_packet_len (payload_len budget : Z) : outcome WireError.t Z :=
  if u16_max <? payload_len then Err LengthOverflow else
  total ← ok_or (checked_add HEADER_LEN payload_len) LengthOverflow;
  if SERIALIZED_R8_MAX <? total then Err PacketCap else
  if budget <? total then Err BindingBudget else
  Ok total.

(** ** Checksum *)

(** [(sum & 0xffff) + (sum >> 16)], the fold the checksum loops repeat. *)
Definition fold16 (sum : Z) : Z := Z.land sum 0xffff + Z.shiftr sum 16.

Fixpoint sum16_loop (sum : Z) (data : bytes) : Z :=
  match data with
  | hi :: lo :: rest => sum16_loop (fold16 (sum + be_value [hi; lo])) rest
  | [last] => fold16 (sum + Z.shiftl last 8)
  | [] => sum
  end.

Definition sum16 (data : bytes) : Z := sum16_loop 0 data.

(** [!x] on [u16]. *)
Definition not16 (x : Z) : Z := Z.lnot x mod 65536.

Definition checksum_raw (pseudo body : bytes) : Z :=
  let sum := sum16 pseudo + sum16 body in
  let sum := fold16 sum in
  let sum := fold16 sum in
  match try_u16 sum with
  | Some folded => not16 folded
  | None => 0
  end.

Definition checksum16 (pseudo body : bytes) : Z :=
  let checksum := checksum_raw pseudo body in
  if checksum =? 0 then 0xffff else checksum.

Definition pseudo_header (h : Header) (payload_len nh : Z) : bytes :=
  src h ++ dst h ++ be_bytes 4 payload_len ++ be_bytes 4 nh.

Definition checksum_valid (h : Header) (payload : bytes) (nh : Z) : bool :=
  checksum_raw
    (pseudo_header h (default u32_max (try_u32 (len payload))) nh) payload =? 0.

(** ** CTL payloads *)

Definition validate_ctl (typ code : Z) (body : bytes) : outcome WireError.t unit :=
  if (typ =? CTL_ECHO_REQUEST) || (typ =? CTL_ECHO_REPLY) then
    if negb (code =? 0) then Err CtlCode else
    if len body <? 4 then Err CtlBody else Ok ()
  else if typ =? CTL_DEST_UNREACHABLE then
    if negb ((code =? 0) || (code =? 1) || (code =? 3) || (code =? 4)) then Err CtlCode else
    if 512 <? len body then Err CtlBody else Ok ()
  else if typ =? CTL_TIME_EXCEEDED then
    if negb (code =? 0) then Err CtlCode else
    if 512 <? len body then Err CtlBody else Ok ()
  else if typ =? CTL_PACKET_TOO_BIG then
    if negb (code =? 0) then Err CtlCode else
    if (len body <? 4) || (512 <? len body - 4) then Err CtlBody else Ok ()
  else Err CtlType.

Definition validate_ctl_shape (payload : bytes) : outcome WireError.t unit :=
  if len payload <? 4 then Err CtlShort else
  typ ← idx payload 0; code ← idx payload 1; body ← slice_from payload 4;
  validate_ctl typ code body.

Definition parse_ctl (h : Header) (payload : bytes) : outcome WireError.t (Z * Z * bytes) :=
  validate_ctl_shape payload ;;
  hi ← idx payload 2; lo ← idx payload 3;
  if (be_value [hi; lo] =? 0) || negb (checksum_valid h payload NH_CTL)
  then Err CtlChecksum else
  typ ← idx payload 0; code ← idx payload 1; body ← slice_from payload 4;
  Ok (typ, code, body).

(** ** DGRAM payloads *)

Definition validate_dgram_shape (payload : bytes) : outcome WireError.t unit :=
  if len payload <? 8 then Err DgramShort else
  hi ← idx payload 4; lo ← idx payload 5;
  if negb (be_value [hi; lo] =? len payload) then Err DgramLength else
  Ok ().

Definition parse_dgram (h : Header) (payload : bytes) : outcome WireError.t (Z * Z * bytes) :=
  validate_dgram_shape payload ;;
  hi ← idx payload 6; lo ← idx payload 7;
  if (be_value [hi; lo] =? 0) || negb (checksum_valid h payload NH_DGRAM)
  then Err DgramChecksum else
  s_hi ← idx payload 0; s_lo ← idx payload 1;
  d_hi ← idx payload 2; d_lo ← idx payload 3;
  data ← slice_from payload 8;
  Ok (be_value [s_hi; s_lo], be_value [d_hi; d_lo], data).

(** ** Header rules *)

Definition known_next_header (nh : Z) : bool :=
  (nh =? NH_CTL) || (nh =? NH_DGRAM) || (nh =? NH_SES) || (nh =? NH_NONE).

Definition validate_ses_header (h : Header) (payload : bytes) : outcome WireError.t unit :=
  if scid h =? 0 then Err Scid else
  if len payload <? 4 then Err Truncated else
  typ ← idx payload 0;
  bad_type ← Ok (negb ((1 <=? typ) && (typ <=? 7))) ||? byte_ne payload 1 1;
  if bad_type : bool then Err NextHeader else
  bad_profile ← Ok (3 <? profile h) ||? byte_ne payload 2 (profile h);
  if bad_profile : bool then Err Profile else
  if negb (tc h =? 0) then Err TrafficClass else
  if hop_limit h =? 0 then Err HopLimit else
  bad_flags ← byte_ne payload 3 0 ||? Ok (negb (Z.land (flags h) 0xfc =? 0));
  if bad_flags : bool then Err Flags else
  if (1 <=? typ) && (typ <=? 4) then
    if negb (flags h =? 0) then Err Flags else
    if negb (path_slot h =? 0) then Err PathSlot else Ok ()
  else if typ =? 5 then
    if negb (flags h =? 1) then Err Flags else
    if negb (path_slot h =? 0) then Err PathSlot else Ok ()
  else if ((typ =? 6) || (typ =? 7)) && (profile h =? 3) then
    if negb ((flags h =? 1) || (flags h =? 3)) then Err Flags else
    let expected_slot := if flags h =? 1 then 0 else 1 in
    if negb (path_slot h =? expected_slot) then Err PathSlot else Ok ()
  else if (typ =? 6) || (typ =? 7) then
    if negb (flags h =? 1) then Err Flags else
    if negb (path_slot h =? 0) then Err PathSlot else Ok ()
  else Panic.

Definition validate_header (h : Header) (payload : bytes) : outcome WireError.t unit :=
  if negb (known_next_header (next_header h)) then Err NextHeader else
  if next_header h =? NH_SES then validate_ses_header h payload else
  if 3 <? profile h then Err Profile else
  if negb (tc h =? 0) then Err TrafficClass else
  if hop_limit h =? 0 then Err HopLimit else
  if negb (Z.land (flags h) 0xfc =? 0) then Err Flags else
  if next_header h =? NH_CTL then
    if negb (profile h =? 0) then Err Profile else
    if negb (flags h =? 0) then Err Flags else
    if negb (path_slot h =? 0) then Err PathSlot else
    if negb (scid h =? 0) then Err Scid else
    parse_ctl h payload ;; Ok ()
  else if next_header h =? NH_DGRAM then
    if negb (profile h =? 0) then Err Profile else
    if negb (flags h =? 0) then Err Flags else
    if negb (path_slot h =? 0) then Err PathSlot else
    if negb (scid h =? 0) then Err Scid else
    parse_dgram h payload ;; Ok ()
  else if next_header h =? NH_NONE then
    if negb (profile h =? 0) then Err Profile else
    if negb (flags h =? 0) then Err Flags else
    if negb (path_slot h =? 0) then Err PathSlot else
    if negb (scid h =? 0) then Err Scid else
    if negb (len payload =? 0) then Err NonePayload else Ok ()
  else Panic.

(** ** Packets *)

(** The byte layout [pack_with_budget] appends to its buffer. *)
Definition header_bytes (h : Header) (payload_len : Z) : bytes :=
  [Z.lor (Z.shiftl VERSION 4) (profile h); tc h] ++ be_bytes 2 payload_len ++
  [next_header h; hop_limit h; flags h; path_slot h] ++ be_bytes 8 (scid h) ++
  src h ++ dst h.
#[global] Arguments header_bytes : simpl never.

Definition pack_with_budget (h : Header) (payload : bytes) (budget : Z) : outcome WireError.t bytes :=
  total ← checked_packet_len (len payload) budget;
  validate_header h payload ;;
  payload_len ← ok_or (try_u16 (len payload)) LengthOverflow;
  Ok (header_bytes h payload_len ++ payload).

Definition pack (h : Header) (payload : bytes) : outcome WireError.t bytes :=
  pack_with_budget h payload SERIALIZED_R8_MAX.

Definition unpack_with_budget (data : bytes) (budget : Z) : outcome WireError.t (Header * bytes) :=
  if SERIALIZED_R8_MAX <? len data then Err PacketCap else
  if budget <? len data then Err BindingBudget else
  if len data <? HEADER_LEN then Err Truncated else
  len_hi ← idx data 2; len_lo ← idx data 3;
  expected ← ok_or (checked_add HEADER_LEN (be_value [len_hi; len_lo])) LengthOverflow;
  if len data <? expected then Err Truncated else
  if expected <? len data then Err TrailingBytes else
  b0 ← idx data 0;
  if negb (Z.shiftr b0 4 =? VERSION) then Err Version else
  b4 ← idx data 4;
  if negb (known_next_header b4) then Err NextHeader else
  src ← slice data 16 32; dst ← slice data 32 48;
  b1 ← idx data 1; b5 ← idx data 5; b6 ← idx data 6; b7 ← idx data 7;
  scid ← slice data 8 16;
  let h := mkHeader (Z.land b0 0x0f) b1 b4 b5 b6 b7 (be_value scid) src dst in
  payload ← slice data (Z.to_nat HEADER_LEN) (Z.to_nat expected);
  validate_header h payload ;;
  Ok (h, payload).

Definition unpack (data : bytes) : outcome WireError.t (Header * bytes) :=
  unpack_with_budget data SERIALIZED_R8_MAX.

Definition build_ctl_with_budget (h : Header) (ctype code : Z) (body : bytes) (budget : Z) :
    outcome WireError.t bytes :=
  if negb (next_header h =? NH_CTL) then Err NextHeader else
  length ← ok_or (checked_add 4 (len body)) LengthOverflow;
  checked_packet_len length budget ;;
  validate_ctl ctype code body ;;
  let payload := [ctype; code; 0; 0] ++ body in
  length_u32 ← ok_or (try_u32 length) LengthOverflow;
  let checksum := checksum16 (pseudo_header h length_u32 NH_CTL) payload in
  payload ← copy_slice payload 2 4 (be_bytes 2 checksum);
  pack_with_budget h payload budget.

Definition build_ctl (h : Header) (ctype code : Z) (body : bytes) : outcome WireError.t bytes :=
  build_ctl_with_budget h ctype code body SERIALIZED_R8_MAX.

Definition build_dgram_with_budget (h : Header) (sport dport : Z) (data : bytes) (budget : Z) :
    outcome WireError.t bytes :=
  if negb (next_header h =? NH_DGRAM) then Err NextHeader else
  length ← ok_or (checked_add 8 (len data)) LengthOverflow;
  checked_packet_len length budget ;;
  length_u16 ← ok_or (try_u16 length) LengthOverflow;
  let payload :=
    be_bytes 2 sport ++ be_bytes 2 dport ++ be_bytes 2 length_u16 ++ [0; 0] ++ data in
  length_u32 ← ok_or (try_u32 length) LengthOverflow;
  let checksum := checksum16 (pseudo_header h length_u32 NH_DGRAM) payload in
  payload ← copy_slice payload 6 8 (be_bytes 2 checksum);
  pack_with_budget h payload budget.

Definition build_dgram (h : Header) (sport dport : Z) (data : bytes) : outcome WireError.t bytes :=
  build_dgram_with_budget h sport dport data SERIALIZED_R8_MAX.
