(* ===== verification/Checksum.v ===== *)
(** * The ones'-complement checksum of the wire format

    [sum16] of Wire.v is characterised by the plain sum of the 16-bit words
    modulo 65535; the builders' checksum is then shown to validate, and the
    validation to detect a changed word. *)

From S2P Require Import Prelude Wire.

(** The sum of the big-endian 16-bit words, the last one padded with a zero. *)
Fixpoint words_sum (l : bytes) : Z :=
  match l with
  | hi :: lo :: rest => hi * 256 + lo + words_sum rest
  | [last] => last * 256
  | [] => 0
  end.

(** The sum a receiver folds: pseudo-header and payload together. *)
Definition total_sum (pseudo body : bytes) : Z := words_sum pseudo + words_sum body.

Lemma pair_ind (P : bytes → Prop) :
  P [] → (∀ x, P [x]) → (∀ x y l, P l → P (x :: y :: l)) → ∀ l, P l.
Proof.
  intros H0 H1 H2 l. enough (P l ∧ ∀ x, P (x :: l)) by tauto.
  induction l as [|x l [IH1 IH2]]; auto.
Qed.

Lemma words_sum_app l1 l2 :
  Nat.Even (length l1) → words_sum (l1 ++ l2) = words_sum l1 + words_sum l2.
Proof.
  induction l1 as [|x|x y l IH] using pair_ind; intros He; simpl in *; [lia| |].
  - destruct He; lia.
  - rewrite IH; [lia|]. destruct He as [k ?]. exists (k - 1)%nat. lia.
Qed.

Lemma words_sum_nonneg l : wf_bytes l → 0 ≤ words_sum l.
Proof.
  induction l as [|x|x y l IH] using pair_ind; intros Hwf; simpl; [lia| |]; inv_wf.
  - solve_width.
  - specialize (IH ltac:(done)). solve_width.
Qed.

Lemma fold16_spec s :
  0 ≤ s ≤ 131070 →
  0 ≤ fold16 s ≤ 65535 ∧ fold16 s mod 65535 = s mod 65535 ∧ (fold16 s = 0 ↔ s = 0).
Proof.
  intros Hs. unfold fold16.
  rewrite (Z.land_ones s 16 ltac:(lia) : Z.land s 0xffff = _), Z.shiftr_div_pow2 by lia.
  change (2 ^ 16) with 65536.
  pose proof (Z_div_mod_eq_full s 65536). pose proof (Z.mod_pos_bound s 65536 eq_refl).
  assert (0 ≤ s / 65536 ≤ 1) by (Z.div_mod_to_equations; lia).
  split_and!; [lia..| |lia].
  rewrite (Z_div_mod_eq_full s 65536) at 3.
  replace (65536 * (s / 65536) + s mod 65536)
    with (s mod 65536 + s / 65536 + (s / 65536) * 65535) by lia.
  by rewrite Z.mod_add by lia.
Qed.

Lemma be_value_pair hi lo : be_value [hi; lo] = hi * 256 + lo.
Proof. unfold be_value. simpl. lia. Qed.

Lemma sum16_loop_spec l s :
  wf_bytes l → 0 ≤ s ≤ 65535 →
  0 ≤ sum16_loop s l ≤ 65535 ∧
  sum16_loop s l mod 65535 = (s + words_sum l) mod 65535 ∧
  (sum16_loop s l = 0 ↔ s + words_sum l = 0).
Proof.
  revert s. induction l as [|x|x y l IH] using pair_ind; intros s Hwf Hs; simpl; inv_wf.
  - rewrite Z.add_0_r. lia.
  - rewrite Z.shiftl_mul_pow2 by lia. apply fold16_spec. solve_width.
  - rewrite be_value_pair.
    destruct (fold16_spec (s + (x * 256 + y))) as (Hr & Hm & Hz); [solve_width|].
    destruct (IH (fold16 (s + (x * 256 + y)))) as (IHr & IHm & IH0); [done..|].
    pose proof (words_sum_nonneg l ltac:(done)).
    split_and!; [lia..| |].
    + rewrite IHm, <-Z.add_mod_idemp_l, Hm, Z.add_mod_idemp_l by lia. f_equal. lia.
    + rewrite IH0. solve_width.
Qed.

Lemma sum16_spec l :
  wf_bytes l →
  0 ≤ sum16 l ≤ 65535 ∧ sum16 l mod 65535 = words_sum l mod 65535 ∧
  (sum16 l = 0 ↔ words_sum l = 0).
Proof. intros. apply (sum16_loop_spec l 0); [done|lia]. Qed.

(** The checksum is the complement of a representative of the word sum. *)
Lemma checksum_raw_spec p b :
  wf_bytes p → wf_bytes b →
  ∃ f, checksum_raw p b = 65535 - f ∧ 0 ≤ f ≤ 65535 ∧
       f mod 65535 = total_sum p b mod 65535 ∧ (f = 0 ↔ total_sum p b = 0).
Proof.
  intros Hp Hb. unfold checksum_raw, total_sum.
  destruct (sum16_spec p Hp) as (Hpr & Hpm & Hp0).
  destruct (sum16_spec b Hb) as (Hbr & Hbm & Hb0).
  pose proof (words_sum_nonneg p Hp). pose proof (words_sum_nonneg b Hb).
  destruct (fold16_spec (sum16 p + sum16 b)) as (H1r & H1m & H10); [lia|].
  destruct (fold16_spec (fold16 (sum16 p + sum16 b))) as (H2r & H2m & H20); [lia|].
  set (f := fold16 (fold16 (sum16 p + sum16 b))) in *.
  exists f. unfold try_u16. assert (f <=? u16_max = true) as -> by solve_width.
  unfold not16. rewrite <-(Z.mod_unique_pos (Z.lnot f) 65536 (-1) (65535 - f)).
  - split_and!; [done|lia..| |lia].
    by rewrite H2m, H1m, Z.add_mod, Hpm, Hbm, <-Z.add_mod by lia.
  - lia.
  - unfold Z.lnot. lia.
Qed.

Lemma checksum_raw_zero p b :
  wf_bytes p → wf_bytes b →
  (checksum_raw p b = 0 ↔ 0 < total_sum p b ∧ total_sum p b mod 65535 = 0).
Proof.
  intros Hp Hb. destruct (checksum_raw_spec p b Hp Hb) as (f & -> & Hf & Hm & H0).
  pose proof (words_sum_nonneg p Hp). pose proof (words_sum_nonneg b Hb).
  unfold total_sum in *. split.
  - intros ?. assert (f = 65535) as -> by lia. split; [lia|]. by rewrite <-Hm.
  - intros [? Hz]. rewrite Hz in Hm. Z.div_mod_to_equations. lia.
Qed.

Lemma checksum16_range p b :
  wf_bytes p → wf_bytes b → 0 < checksum16 p b ≤ 65535.
Proof.
  intros Hp Hb. unfold checksum16.
  destruct (checksum_raw_spec p b Hp Hb) as (f & -> & ? & _). case_match; lia.
Qed.

(** Writing the checksum into its zeroed, even-aligned field makes the sum fold to zero. *)
Lemma checksum16_validates p pre post :
  wf_bytes p → wf_bytes pre → wf_bytes post → Nat.Even (length pre) →
  checksum_raw p (pre ++ be_bytes 2 (checksum16 p (pre ++ [0; 0] ++ post)) ++ post) = 0.
Proof.
  intros Hp Hpre Hpost He.
  assert (wf_bytes (pre ++ [0; 0] ++ post)) as Hz by (simpl; auto with r8).
  pose proof (checksum16_range p _ Hp Hz) as Hc.
  destruct (checksum_raw_spec p _ Hp Hz) as (f & Hraw & Hf & Hm & H0).
  assert (checksum16 p (pre ++ [0; 0] ++ post) = 65535 - f ∨
          checksum16 p (pre ++ [0; 0] ++ post) = 65535 ∧ f = 65535) as Hcase.
  { unfold checksum16. rewrite Hraw. case_match; lia. }
  set (cs := checksum16 p (pre ++ [0; 0] ++ post)) in *.
  apply checksum_raw_zero; [auto with r8..|].
  pose proof (words_sum_nonneg p Hp). pose proof (words_sum_nonneg _ Hpre).
  pose proof (words_sum_nonneg _ Hpost).
  unfold total_sum in *. rewrite words_sum_app in * by done. simpl in *.
  assert (cs `div` 256 `mod` 256 * 256 + cs `mod` 256 = cs) as ->
    by (Z.div_mod_to_equations; lia).
  split; [lia|]. Z.div_mod_to_equations. lia.
Qed.

Lemma wf_pseudo_header h n nh : wf_header h → wf_bytes (pseudo_header h n nh).
Proof.
  intros (_&_&_&_&_&_&_&[_ ?]&[_ ?]). unfold pseudo_header. auto with r8.
Qed.

(** The range of the two bytes that hold a checksum. *)
Lemma be_bytes_2 z : 0 ≤ z ≤ 65535 → be_bytes 2 z = [z / 256; z mod 256].
Proof. intros. simpl. rewrite (Z.mod_small (z / 256)); [done|]. Z.div_mod_to_equations. lia. Qed.

(** A valid payload whose one aligned 16-bit word is replaced by a different one no longer
    validates, except for the two encodings 0x0000 and 0xffff of the ones'-complement zero. *)
Theorem checksum_detects_word_change h pre post a b a' b' nh :
  wf_header h → wf_bytes (pre ++ [a; b] ++ post) → wf_bytes [a'; b'] →
  Nat.Even (length pre) →
  checksum_valid h (pre ++ [a; b] ++ post) nh = true →
  checksum_valid h (pre ++ [a'; b'] ++ post) nh = true →
  [a; b] = [a'; b'] ∨ ([a; b] = [0; 0] ∧ [a'; b'] = [255; 255]) ∨
  ([a; b] = [255; 255] ∧ [a'; b'] = [0; 0]).
Proof.
  unfold checksum_valid. intros Hh Hw Hw' He.
  replace (len (pre ++ [a'; b'] ++ post)) with (len (pre ++ [a; b] ++ post))
    by (unfold len; by rewrite !length_app).
  rewrite !Z.eqb_eq, !checksum_raw_zero; inv_wf; eauto using wf_pseudo_header with r8.
  intros [_ Hm] [_ Hm'].
  unfold total_sum in *. rewrite words_sum_app in Hm, Hm' by done. simpl in *.
  generalize dependent (words_sum pre). generalize dependent (words_sum post).
  generalize (words_sum (pseudo_header h (default u32_max (try_u32 (len (pre ++ a :: b :: post)))) nh)).
  intros P Q R Hm Hm'.
  assert (a * 256 + b = a' * 256 + b' ∨ a * 256 + b = a' * 256 + b' + 65535 ∨
          a * 256 + b + 65535 = a' * 256 + b') as Hc.
  { unfold_widths. Z.div_mod_to_equations. lia. }
  unfold_widths. assert (a = a' ∧ b = b' ∨ a = 0 ∧ b = 0 ∧ a' = 255 ∧ b' = 255 ∨
    a = 255 ∧ b = 255 ∧ a' = 0 ∧ b' = 0) by lia. naive_solver.
Qed.

(** A payload whose word at offset 2 is 0x0000 in one copy and 0xffff in the other: both
    validate, so the exception of the theorem is inhabited. *)
Definition demo_header : Header := header_new NH_CTL (replicate 16 0) (replicate 16 0).
Definition demo_pre : bytes := [0xff; 0xf8].

Lemma checksum_detects_word_change_witness :
  checksum_valid demo_header (demo_pre ++ [0; 0] ++ [0; 0]) NH_CTL = true ∧
  checksum_valid demo_header (demo_pre ++ [255; 255] ++ [0; 0]) NH_CTL = true ∧
  ([0; 0] = [255; 255] ∨ ([0; 0] = [0; 0] ∧ [255; 255] = [255; 255]) ∨
   ([0; 0] = [255; 255] ∧ [255; 255] = [0; 0])).
Proof.
  split_and!; [vm_compute; reflexivity..|].
  apply (checksum_detects_word_change demo_header demo_pre [0; 0] 0 0 255 255 NH_CTL);
    [compute_decide|compute_decide|compute_decide|by exists 1%nat|
     vm_compute; reflexivity|vm_compute; reflexivity].
Defined.
