(* ===== verification/Codec.v ===== *)
(** * Theorems on packet serialization

    [pack_with_budget] and [unpack_with_budget] of Wire.v are inverse to each
    other, no byte string makes the parser panic, and the CTL and DGRAM
    builders produce packets the parser accepts with the same contents. *)

From S2P Require Import Prelude Wire Checksum.
Import WireError.

(** ** Layout *)

Lemma version_profile p :
  0 ≤ p ≤ 15 →
  Z.shiftr (Z.lor (Z.shiftl VERSION 4) p) 4 = VERSION ∧
  Z.land (Z.lor (Z.shiftl VERSION 4) p) 0x0f = p ∧
  Z.lor (Z.shiftl VERSION 4) p = 128 + p.
Proof.
  intros Hp.
  assert (∃ n, (n < 16)%nat ∧ p = Z.of_nat n) as (n & Hn & ->) by (exists (Z.to_nat p); lia).
  do 16 (destruct n as [|n]; [by vm_compute|]). lia.
Qed.

Lemma land_0f b : Z.land b 0x0f = b mod 16.
Proof. apply (Z.land_ones b 4). lia. Qed.

Lemma version_profile_inv b :
  is_u8 b → Z.shiftr b 4 = VERSION → Z.lor (Z.shiftl VERSION 4) (Z.land b 0x0f) = b.
Proof.
  intros Hb Hv. rewrite Z.shiftr_div_pow2 in Hv by lia. change (2 ^ 4) with 16 in Hv.
  rewrite land_0f. pose proof (Z.mod_pos_bound b 16 eq_refl).
  destruct (version_profile (b mod 16)) as (_ & _ & ->); [lia|].
  unfold VERSION in Hv. Z.div_mod_to_equations. lia.
Qed.

Lemma length_header_bytes h n : wf_header h → length (header_bytes h n) = 48%nat.
Proof.
  intros (_&_&_&_&_&_&_&[Hs _]&[Hd _]). unfold header_bytes.
  rewrite !length_app, !length_be_bytes, Hs, Hd. done.
Qed.

Lemma wf_header_bytes h n : wf_header h → profile h ≤ 15 → wf_bytes (header_bytes h n).
Proof.
  intros (Hpr&?&?&?&?&?&?&[_ ?]&[_ ?]) Hp. unfold header_bytes.
  destruct (version_profile (profile h)) as (_ & _ & ->); [solve_width|].
  solve_wf.
Qed.

(** What the parser does on the layout of the serializer. *)
Lemma unpack_layout h payload budget :
  wf_header h → profile h ≤ 15 → known_next_header (next_header h) = true →
  HEADER_LEN + len payload ≤ SERIALIZED_R8_MAX → HEADER_LEN + len payload ≤ budget →
  unpack_with_budget (header_bytes h (len payload) ++ payload) budget =
  (validate_header h payload ;; Ok (h, payload)).
Proof.
  intros Hwf Hp Hnh Hmax Hbud.
  pose proof (length_header_bytes h (len payload) Hwf) as Hhl.
  destruct Hwf as (Hpr&_&_&_&_&_&Hsc&[Hs _]&[Hd _]).
  unfold HEADER_LEN, SERIALIZED_R8_MAX in *. pose proof (len_nonneg payload) as Hn.
  set (n := len payload) in *. set (d := header_bytes h n ++ payload) in *.
  assert (len d = 48 + n) as Hlen by (unfold d; rewrite len_app; unfold len; rewrite Hhl; done).
  assert (length d = 48 + Z.to_nat n)%nat as Hlen' by (unfold len in Hlen; lia).
  unfold unpack_with_budget. fold d. rewrite Hlen. unfold SERIALIZED_R8_MAX, HEADER_LEN.
  assert (1280 <? 48 + n = false) as -> by lia. assert (budget <? 48 + n = false) as -> by lia.
  assert (48 + n <? 48 = false) as -> by lia.
  assert (idx (E:=WireError.t) d 2 = Ok (n / 256 mod 256)) as -> by reflexivity.
  assert (idx (E:=WireError.t) d 3 = Ok (n mod 256)) as -> by reflexivity. cbn [mbind outcome_bind].
  assert (be_value [n / 256 mod 256; n mod 256] = n) as ->
    by (rewrite be_value_pair; Z.div_mod_to_equations; lia).
  unfold checked_add. assert (48 + n <=? u64_max = true) as -> by solve_width.
  cbn [mbind outcome_bind ok_or]. assert (48 + n <? 48 + n = false) as -> by lia.
  destruct (version_profile (profile h)) as (Hv & Hpf & _); [solve_width|].
  assert (idx (E:=WireError.t) d 0 = Ok (Z.lor (Z.shiftl VERSION 4) (profile h)))
    as -> by reflexivity. cbn [mbind outcome_bind]. rewrite Hv, Z.eqb_refl.
  assert (idx (E:=WireError.t) d 4 = Ok (next_header h)) as -> by reflexivity. cbn [mbind outcome_bind].
  rewrite Hnh.
  rewrite (slice_Ok d 16 32), (slice_Ok d 32 48), (slice_Ok d 8 16), (slice_Ok d _ (Z.to_nat _))
    by lia.
  change (drop 16 d) with ((src h ++ dst h) ++ payload).
  replace (drop 32 d) with (dst h ++ payload)
    by (change (drop 32 d) with (drop 16 ((src h ++ dst h) ++ payload));
        by rewrite <-app_assoc, drop_app_length').
  replace (drop (Z.to_nat 48) d) with payload by (unfold d; by rewrite drop_app_length').
  rewrite <-app_assoc, !take_app_length' by done.
  assert (take (16 - 8) (drop 8 d) = be_bytes 8 (scid h)) as -> by reflexivity.
  rewrite (take_ge payload) by (unfold n, len; lia).
  assert (idx (E:=WireError.t) d 1 = Ok (tc h)) as -> by reflexivity.
  assert (idx (E:=WireError.t) d 5 = Ok (hop_limit h)) as -> by reflexivity.
  assert (idx (E:=WireError.t) d 6 = Ok (flags h)) as -> by reflexivity.
  assert (idx (E:=WireError.t) d 7 = Ok (path_slot h)) as -> by reflexivity. cbn [mbind outcome_bind].
  rewrite Hpf, be_value_be_bytes by (unfold_widths; lia). by destruct h.
Qed.

(** ** Round trips *)

Lemma validate_header_inv h payload :
  validate_header h payload = Ok () →
  known_next_header (next_header h) = true ∧ profile h ≤ 3.
Proof.
  unfold validate_header. destruct (known_next_header _) eqn:Hk; [|done]. simpl.
  case_match eqn:Hses.
  - unfold validate_ses_header. intros H. inv_ok; (split; [done|lia]).
  - intros H. inv_ok; (split; [done|lia]).
Qed.

Lemma checked_packet_len_Ok n budget :
  HEADER_LEN + n ≤ SERIALIZED_R8_MAX → HEADER_LEN + n ≤ budget →
  checked_packet_len n budget = Ok (HEADER_LEN + n).
Proof.
  unfold HEADER_LEN, SERIALIZED_R8_MAX. intros. unfold checked_packet_len.
  unfold HEADER_LEN, SERIALIZED_R8_MAX. rewrite checked_add_Some by solve_width.
  assert (u16_max <? n = false) as -> by solve_width. simpl.
  assert (1280 <? 48 + n = false) as -> by lia. by assert (budget <? 48 + n = false) as -> by lia.
Qed.

Lemma checked_packet_len_inv n budget t :
  checked_packet_len n budget = Ok t →
  HEADER_LEN + n ≤ SERIALIZED_R8_MAX ∧ HEADER_LEN + n ≤ budget.
Proof. unfold checked_packet_len. intros H. inv_ok. subst. lia. Qed.

Lemma pack_inv h payload budget d :
  pack_with_budget h payload budget = Ok d →
  validate_header h payload = Ok () ∧ d = header_bytes h (len payload) ++ payload ∧
  HEADER_LEN + len payload ≤ SERIALIZED_R8_MAX ∧ HEADER_LEN + len payload ≤ budget.
Proof.
  unfold pack_with_budget. intros H. inv_ok. subst.
  match goal with u : () |- _ => destruct u end. eauto using checked_packet_len_inv.
Qed.

Lemma pack_intro h payload budget :
  validate_header h payload = Ok () →
  HEADER_LEN + len payload ≤ SERIALIZED_R8_MAX → HEADER_LEN + len payload ≤ budget →
  pack_with_budget h payload budget = Ok (header_bytes h (len payload) ++ payload).
Proof.
  intros Hv Hm Hb. unfold pack_with_budget. rewrite checked_packet_len_Ok by done. simpl.
  rewrite Hv, try_u16_Some; [done|]. unfold HEADER_LEN, SERIALIZED_R8_MAX in *. solve_width.
Qed.

Lemma pack_unpack_layout h payload budget d :
  wf_header h → pack_with_budget h payload budget = Ok d →
  unpack_with_budget d budget = Ok (h, payload).
Proof.
  intros Hwf (Hv & -> & ? & ?)%pack_inv. destruct (validate_header_inv _ _ Hv).
  rewrite unpack_layout by (done || lia). by rewrite Hv.
Qed.

(** Parsing what the serializer emits returns the header and the payload it was given. *)
Theorem unpack_pack h payload budget d :
  wf_header h → pack_with_budget h payload budget = Ok d →
  unpack_with_budget d budget = Ok (h, payload).
Proof. apply pack_unpack_layout. Qed.

(** Every byte string with the version nibble and a consistent length is a layout. *)
Lemma bytes_layout data b0 hi lo nh :
  wf_bytes data → HEADER_LEN ≤ len data →
  data !! 0%nat = Some b0 → Z.shiftr b0 4 = VERSION →
  data !! 2%nat = Some hi → data !! 3%nat = Some lo → HEADER_LEN + be_value [hi; lo] = len data →
  data !! 4%nat = Some nh →
  ∃ h p, wf_header h ∧ profile h ≤ 15 ∧ next_header h = nh ∧
         data = header_bytes h (len p) ++ p.
Proof.
  intros Hwf Hlen H0 Hv H2 H3 Hexp H4. unfold HEADER_LEN, len in *.
  do 16 (destruct data as [|? data]; [done|]). simpl in H0, H2, H3, H4, Hlen, Hexp. simplify_eq. inv_wf.
  set (sc := [z7; z8; z9; z10; z11; z12; z13; z14]).
  assert (wf_bytes sc) as Hsc by (unfold sc; solve_wf).
  set (s := take 16 data). set (d := take 16 (drop 16 data)). set (p := drop 32 data).
  assert (data = s ++ d ++ p) as Hd.
  { unfold s, d, p. replace (drop 32 data) with (drop 16 (drop 16 data)) by (by rewrite drop_drop).
    by rewrite !take_drop. }
  assert (length s = 16%nat) by (unfold s; rewrite length_take; lia).
  assert (length d = 16%nat) by (unfold d; rewrite length_take, length_drop; lia).
  assert (Z.of_nat (length p) = be_value [hi; lo]) as Hpl
    by (unfold p; rewrite length_drop; lia).
  exists (mkHeader (Z.land b0 0x0f) z0 nh z4 z5 z6 (be_value sc) s d), p.
  pose proof (Z.mod_pos_bound b0 16 eq_refl). pose proof (be_value_range sc Hsc).
  refine (conj _ (conj _ (conj _ _))); [|simpl; rewrite land_0f; lia|done|].
  - unfold wf_header, wf_array. simpl. rewrite land_0f.
    split_and!; try done; unfold s, d; solve_wf; unfold_widths; unfold len in *; simpl in *; lia.
  - change (header_bytes _ _) with ([Z.lor (Z.shiftl VERSION 4) (Z.land b0 0x0f); z0] ++
      be_bytes 2 (len p) ++ [nh; z4; z5; z6] ++ be_bytes 8 (be_value sc) ++ s ++ d).
    unfold len. rewrite version_profile_inv, Hpl, !be_bytes_be_value by (solve_wf || done).
    unfold sc. simpl. by rewrite <-app_assoc, <-Hd.
Qed.

Lemma unpack_inv data budget h payload :
  wf_bytes data → unpack_with_budget data budget = Ok (h, payload) →
  wf_header h ∧ data = header_bytes h (len payload) ++ payload ∧
  validate_header h payload = Ok () ∧
  HEADER_LEN + len payload ≤ SERIALIZED_R8_MAX ∧ HEADER_LEN + len payload ≤ budget.
Proof.
  intros Hwf Hun. assert (∃ h p, wf_header h ∧ profile h ≤ 15 ∧
    known_next_header (next_header h) = true ∧ data = header_bytes h (len p) ++ p ∧
    HEADER_LEN + len p ≤ SERIALIZED_R8_MAX ∧ HEADER_LEN + len p ≤ budget)
    as (h' & p' & Hh & Hp & Hk & Hd & Hm & Hb).
  { unfold unpack_with_budget in Hun. inv_ok. simplify_eq.
    repeat match goal with H : idx _ _ = Ok _ |- _ => apply idx_Ok in H end.
    edestruct (bytes_layout data) as (h' & p' & Hh & Hp & Hnh & ->); eauto; [lia..|].
    assert (len (header_bytes h' (len p')) = 48)
      by (unfold len at 1; by rewrite length_header_bytes).
    exists h', p'. rewrite len_app in *. unfold HEADER_LEN, SERIALIZED_R8_MAX in *.
    split_and!; try done; [|lia..]. subst. by apply negb_false_iff. }
  rewrite Hd, unpack_layout in Hun by done. inv_ok. simplify_eq.
  by repeat match goal with u : () |- _ => destruct u end.
Qed.

(** C37: a byte string the parser accepts is exactly what the serializer emits for the parsed
    header and payload: the encoding is canonical and no two byte strings parse alike. *)
Theorem pack_unpack data budget h payload :
  wf_bytes data → unpack_with_budget data budget = Ok (h, payload) →
  wf_header h ∧ pack_with_budget h payload budget = Ok data.
Proof.
  intros Hwf (Hh & -> & Hv & Hm & Hb)%unpack_inv; [|done].
  split; [done|]. by apply pack_intro.
Qed.

(** ** Absence of panics *)

Lemma len_lt_length {A} (l : list A) (n : nat) : len l <? Z.of_nat n = false → (n ≤ length l)%nat.
Proof. unfold len. lia. Qed.

Lemma safe_validate_ctl typ code body : safe (validate_ctl typ code body).
Proof. unfold validate_ctl. solve_safe. Qed.

Lemma safe_parse_ctl h payload : safe (parse_ctl h payload).
Proof.
  unfold parse_ctl, validate_ctl_shape. destruct (len payload <? 4) eqn:Hl; [done|].
  apply (len_lt_length _ 4) in Hl.
  solve_safe; try apply safe_validate_ctl; lia.
Qed.

Lemma safe_parse_dgram h payload : safe (parse_dgram h payload).
Proof.
  unfold parse_dgram, validate_dgram_shape. destruct (len payload <? 8) eqn:Hl; [done|].
  apply (len_lt_length _ 8) in Hl.
  solve_safe; lia.
Qed.

Lemma safe_validate_ses_header h payload : safe (validate_ses_header h payload).
Proof.
  unfold validate_ses_header. case_match; [done|].
  destruct (len payload <? 4) eqn:Hl; [done|]. apply (len_lt_length _ 4) in Hl.
  apply safe_bind; [apply safe_idx; lia|]. intros typ _.
  apply safe_bind; [solve_safe; lia|]. intros [] Ht; [done|].
  apply orM_Ok_false in Ht as [[= Ht] _].
  solve_safe; lia.
Qed.

Lemma safe_validate_header h payload : safe (validate_header h payload).
Proof.
  unfold validate_header. destruct (known_next_header _) eqn:Hk; simpl; [|done].
  unfold known_next_header in Hk. case_match; [apply safe_validate_ses_header|].
  solve_safe; auto using safe_parse_ctl, safe_parse_dgram; lia.
Qed.

Lemma safe_unpack data budget : safe (unpack_with_budget data budget).
Proof.
  unfold unpack_with_budget. unfold HEADER_LEN.
  do 2 (case_match; [done|]). destruct (len data <? 48) eqn:Hl; [done|].
  apply (len_lt_length _ 48) in Hl. unfold len in *.
  solve_safe; try apply safe_validate_header; lia.
Qed.

Lemma safe_pack h payload budget : safe (pack_with_budget h payload budget).
Proof.
  unfold pack_with_budget, checked_packet_len.
  solve_safe; apply safe_validate_header.
Qed.

(** No byte string and no budget makes the packet parser panic, and no header, payload and
    budget the serializer: every index and slice is in range and no [unreachable!] is reached. *)
Theorem codec_never_panics data h payload budget :
  safe (unpack_with_budget data budget) ∧ safe (pack_with_budget h payload budget).
Proof. split; [apply safe_unpack|apply safe_pack]. Qed.

(** ** Builders *)

(** The header rules shared by CTL, DGRAM and NONE packets. *)
Definition plain_header (nh : Z) (h : Header) : Prop :=
  wf_header h ∧ next_header h = nh ∧ profile h = 0 ∧ tc h = 0 ∧ hop_limit h ≠ 0 ∧
  flags h = 0 ∧ path_slot h = 0 ∧ scid h = 0.

#[export] Instance plain_header_dec nh h : Decision (plain_header nh h).
Proof. apply _. Defined.

Lemma validate_header_ctl h payload r :
  plain_header NH_CTL h → parse_ctl h payload = Ok r → validate_header h payload = Ok ().
Proof.
  intros (_ & Hn & Hp & Ht & Hh & Hf & Hs & Hsc) Hparse. unfold validate_header.
  rewrite Hn, Hp, Ht, Hf, Hs, Hsc. apply Z.eqb_neq in Hh. rewrite Hh. simpl. by rewrite Hparse.
Qed.

Lemma validate_header_dgram h payload r :
  plain_header NH_DGRAM h → parse_dgram h payload = Ok r → validate_header h payload = Ok ().
Proof.
  intros (_ & Hn & Hp & Ht & Hh & Hf & Hs & Hsc) Hparse. unfold validate_header.
  rewrite Hn, Hp, Ht, Hf, Hs, Hsc. apply Z.eqb_neq in Hh. rewrite Hh. simpl. by rewrite Hparse.
Qed.

Lemma be_value_checksum p b :
  wf_bytes p → wf_bytes b →
  ∃ hi lo, be_bytes 2 (checksum16 p b) = [hi; lo] ∧ be_value [hi; lo] =? 0 = false.
Proof.
  intros Hp Hb. pose proof (checksum16_range p b Hp Hb).
  eexists _, _. split; [apply be_bytes_2; lia|].
  rewrite be_value_pair. Z.div_mod_to_equations. lia.
Qed.

(** The CTL payload the builder hands to [pack_with_budget]. *)
Lemma parse_ctl_built h ctype code body :
  wf_header h → is_u8 ctype → is_u8 code → wf_bytes body → len body ≤ SERIALIZED_R8_MAX →
  validate_ctl ctype code body = Ok () →
  parse_ctl h ([ctype; code] ++
    be_bytes 2 (checksum16 (pseudo_header h (4 + len body) NH_CTL) ([ctype; code; 0; 0] ++ body)) ++
    body) = Ok (ctype, code, body).
Proof.
  intros Hh Ht Hc Hb Hlen Hv. set (p := pseudo_header h (4 + len body) NH_CTL).
  assert (wf_bytes p) as Hp by by apply wf_pseudo_header.
  assert (checksum_raw p ([ctype; code] ++
    be_bytes 2 (checksum16 p ([ctype; code; 0; 0] ++ body)) ++ body) = 0) as Hraw.
  { apply (checksum16_validates p [ctype; code] body); [solve_wf..|by exists 1%nat]. }
  destruct (be_value_checksum p ([ctype; code; 0; 0] ++ body)) as (hi & lo & Hcs & Hnz); [solve_wf..|].
  rewrite Hcs in *. pose proof (len_nonneg body). unfold SERIALIZED_R8_MAX in *.
  assert (len ([ctype; code] ++ [hi; lo] ++ body) = 4 + len body) as Hl
    by (unfold len; simpl; lia).
  unfold parse_ctl, validate_ctl_shape, checksum_valid. rewrite Hl.
  assert (4 + len body <? 4 = false) as -> by lia.
  assert (slice_from (E:=WireError.t) ([ctype; code] ++ [hi; lo] ++ body) 4 = Ok body) as Hsf
    by (rewrite slice_from_Ok by (simpl; lia); done).
  rewrite Hsf. cbn [idx app lookup list_lookup mbind outcome_bind]. rewrite Hv.
  cbn [mbind outcome_bind]. rewrite Hnz, try_u32_Some by solve_width. cbn [default id]. fold p.
  change (ctype :: code :: hi :: lo :: body) with ([ctype; code] ++ [hi; lo] ++ body).
  by rewrite Hraw.
Qed.

(** The CTL builder succeeds on every admissible message that fits the cap and the budget,
    and the packet parses back to the header, the type, the code and the body. *)
Theorem build_ctl_roundtrip h ctype code body budget :
  plain_header NH_CTL h → is_u8 ctype → is_u8 code → wf_bytes body →
  validate_ctl ctype code body = Ok () →
  HEADER_LEN + 4 + len body ≤ SERIALIZED_R8_MAX → HEADER_LEN + 4 + len body ≤ budget →
  ∃ d payload, build_ctl_with_budget h ctype code body budget = Ok d ∧
    unpack_with_budget d budget = Ok (h, payload) ∧
    parse_ctl h payload = Ok (ctype, code, body).
Proof.
  intros Hh Ht Hc Hb Hv Hmax Hbud. unfold HEADER_LEN, SERIALIZED_R8_MAX in *.
  pose proof (len_nonneg body). pose proof Hh as (Hwf & Hn & _).
  assert (len body ≤ SERIALIZED_R8_MAX) by (unfold SERIALIZED_R8_MAX; lia).
  pose proof (parse_ctl_built h ctype code body Hwf Ht Hc Hb ltac:(done) Hv) as Hparse.
  set (cs := checksum16 (pseudo_header h (4 + len body) NH_CTL) ([ctype; code; 0; 0] ++ body)) in *.
  set (payload := [ctype; code] ++ be_bytes 2 cs ++ body) in *.
  assert (len payload = 4 + len body) as Hl by (unfold payload, len; simpl; lia).
  exists (header_bytes h (len payload) ++ payload), payload.
  pose proof (validate_header_ctl _ _ _ Hh Hparse) as Hval.
  assert (pack_with_budget h payload budget = Ok (header_bytes h (len payload) ++ payload)) as Hpack
    by (apply pack_intro; [done|unfold HEADER_LEN, SERIALIZED_R8_MAX; lia..]).
  split_and!; [|by apply pack_unpack_layout|done].
  unfold build_ctl_with_budget. rewrite Hn, Z.eqb_refl, checked_add_Some by solve_width.
  cbn [negb mbind outcome_bind ok_or].
  rewrite checked_packet_len_Ok by (unfold HEADER_LEN, SERIALIZED_R8_MAX; lia).
  cbn [mbind outcome_bind ok_or].
  rewrite Hv, try_u32_Some by solve_width. cbn [mbind outcome_bind ok_or].
  rewrite copy_slice_Ok by (rewrite ?length_be_bytes; simpl; lia). apply Hpack.
Qed.

Lemma be_bytes_2_value z : 0 ≤ z ≤ u16_max → be_value [z / 256 mod 256; z mod 256] = z.
Proof. intros. rewrite be_value_pair. unfold_widths. Z.div_mod_to_equations. lia. Qed.

Lemma parse_dgram_built h sport dport data :
  wf_header h → is_u16 sport → is_u16 dport → wf_bytes data → 8 + len data ≤ SERIALIZED_R8_MAX →
  let head := be_bytes 2 sport ++ be_bytes 2 dport ++ be_bytes 2 (8 + len data) in
  parse_dgram h (head ++
    be_bytes 2 (checksum16 (pseudo_header h (8 + len data) NH_DGRAM) (head ++ [0; 0] ++ data)) ++
    data) = Ok (sport, dport, data).
Proof.
  intros Hh Hs Hd Hb Hlen head. set (p := pseudo_header h (8 + len data) NH_DGRAM).
  assert (wf_bytes p) as Hp by by apply wf_pseudo_header.
  assert (wf_bytes head) as Hhead by (unfold head; solve_wf).
  assert (checksum_raw p (head ++ be_bytes 2 (checksum16 p (head ++ [0; 0] ++ data)) ++ data) = 0)
    as Hraw by (apply (checksum16_validates p head data); [done..|by exists 3%nat]).
  destruct (be_value_checksum p (head ++ [0; 0] ++ data)) as (hi & lo & Hcs & Hnz); [solve_wf..|].
  rewrite Hcs in *. pose proof (len_nonneg data). unfold SERIALIZED_R8_MAX in *.
  set (payload := head ++ [hi; lo] ++ data) in *.
  assert (len payload = 8 + len data) as Hl by (unfold payload, len; simpl; lia).
  unfold parse_dgram, validate_dgram_shape, checksum_valid. rewrite Hl.
  assert (8 + len data <? 8 = false) as -> by lia.
  rewrite slice_from_Ok by (unfold payload; simpl; lia).
  cbn [idx payload head app be_bytes lookup list_lookup mbind outcome_bind].
  rewrite !be_bytes_2_value by solve_width. rewrite Z.eqb_refl. cbn [negb mbind outcome_bind].
  rewrite Hnz, try_u32_Some by solve_width. cbn [default id]. fold p.
  change (sport / 256 mod 256 :: _) with payload. by rewrite Hraw.
Qed.

(** The DGRAM builder succeeds on every datagram that fits the cap and the budget, and the
    packet parses back to the header, the two ports and the data. *)
Theorem build_dgram_roundtrip h sport dport data budget :
  plain_header NH_DGRAM h → is_u16 sport → is_u16 dport → wf_bytes data →
  HEADER_LEN + 8 + len data ≤ SERIALIZED_R8_MAX → HEADER_LEN + 8 + len data ≤ budget →
  ∃ d payload, build_dgram_with_budget h sport dport data budget = Ok d ∧
    unpack_with_budget d budget = Ok (h, payload) ∧
    parse_dgram h payload = Ok (sport, dport, data).
Proof.
  intros Hh Hs Hd Hb Hmax Hbud. unfold HEADER_LEN, SERIALIZED_R8_MAX in *.
  pose proof (len_nonneg data). pose proof Hh as (Hwf & Hn & _).
  assert (8 + len data ≤ SERIALIZED_R8_MAX) as Hm by (unfold SERIALIZED_R8_MAX; lia).
  pose proof (parse_dgram_built h sport dport data Hwf Hs Hd Hb Hm) as Hparse.
  set (head := be_bytes 2 sport ++ be_bytes 2 dport ++ be_bytes 2 (8 + len data)) in *.
  set (cs := checksum16 (pseudo_header h (8 + len data) NH_DGRAM) (head ++ [0; 0] ++ data)) in *.
  set (payload := head ++ be_bytes 2 cs ++ data) in *.
  assert (len payload = 8 + len data) as Hl by (unfold payload, len; simpl; lia).
  exists (header_bytes h (len payload) ++ payload), payload.
  assert (pack_with_budget h payload budget = Ok (header_bytes h (len payload) ++ payload)) as Hpack
    by (apply pack_intro; [by eapply validate_header_dgram|
        unfold HEADER_LEN, SERIALIZED_R8_MAX; lia..]).
  split_and!; [|by apply pack_unpack_layout|done].
  unfold build_dgram_with_budget. rewrite Hn, Z.eqb_refl, checked_add_Some by solve_width.
  cbn [negb mbind outcome_bind ok_or].
  rewrite checked_packet_len_Ok by (unfold HEADER_LEN, SERIALIZED_R8_MAX; lia).
  cbn [mbind outcome_bind]. rewrite try_u16_Some, try_u32_Some by solve_width.
  cbn [mbind outcome_bind ok_or].
  rewrite copy_slice_Ok by (rewrite ?length_app, ?length_be_bytes; simpl; lia). apply Hpack.
Qed.

(** ** Witnesses *)

Definition demo_src : bytes := replicate 15 0 ++ [1].
Definition demo_dst : bytes := replicate 15 0 ++ [2].

(** A profile-3 session packet on the redundant slot, a control and a datagram header. *)
Definition demo_ses : Header := mkHeader 3 0 NH_SES 64 3 1 7 demo_src demo_dst.
Definition demo_payload : bytes := [6; 1; 3; 0; 1; 2; 3; 4].
Definition demo_ctl : Header := header_new NH_CTL demo_src demo_dst.
Definition demo_dgram : Header := header_new NH_DGRAM demo_src demo_dst.

Lemma unpack_pack_witness :
  ∃ d, pack_with_budget demo_ses demo_payload 1280 = Ok d ∧
       unpack_with_budget d 1280 = Ok (demo_ses, demo_payload).
Proof.
  eexists. split; [vm_compute; reflexivity|].
  eapply unpack_pack; [compute_decide|vm_compute; reflexivity].
Defined.

Lemma pack_unpack_witness :
  ∃ d, wf_header demo_ses ∧ pack_with_budget demo_ses demo_payload 1280 = Ok d.
Proof.
  eexists. apply (pack_unpack (header_bytes demo_ses 8 ++ demo_payload) 1280);
    [compute_decide|vm_compute; reflexivity].
Defined.

Lemma build_ctl_roundtrip_witness :
  ∃ d payload, build_ctl_with_budget demo_ctl CTL_ECHO_REQUEST 0 [0; 7; 0; 1; 65] 100 = Ok d ∧
    unpack_with_budget d 100 = Ok (demo_ctl, payload) ∧
    parse_ctl demo_ctl payload = Ok (CTL_ECHO_REQUEST, 0, [0; 7; 0; 1; 65]).
Proof.
  apply build_ctl_roundtrip; try compute_decide; vm_compute; congruence.
Defined.

Lemma build_dgram_roundtrip_witness :
  ∃ d payload, build_dgram_with_budget demo_dgram 4000 53 [1; 2; 3] 64 = Ok d ∧
    unpack_with_budget d 64 = Ok (demo_dgram, payload) ∧
    parse_dgram demo_dgram payload = Ok (4000, 53, [1; 2; 3]).
Proof.
  apply build_dgram_roundtrip; try compute_decide; vm_compute; congruence.
Defined.
