(* ===== verification/HeaderRules.v ===== *)
(** * The header rules, declaratively

    [validate_header] of Wire.v is a cascade of early returns.  Here the rules
    of the four next-header values are stated as an inductive predicate over
    the fields and the payload bytes, and the cascade is shown to decide it. *)

From S2P Require Import Prelude Wire Checksum Codec.
Import WireError.

(** Types, codes and body lengths of control messages. *)
Definition ctl_rules (typ code n : Z) : Prop :=
  (typ = CTL_ECHO_REQUEST ∨ typ = CTL_ECHO_REPLY) ∧ code = 0 ∧ 4 ≤ n ∨
  typ = CTL_DEST_UNREACHABLE ∧ (code = 0 ∨ code = 1 ∨ code = 3 ∨ code = 4) ∧ n ≤ 512 ∨
  typ = CTL_TIME_EXCEEDED ∧ code = 0 ∧ n ≤ 512 ∨
  typ = CTL_PACKET_TOO_BIG ∧ code = 0 ∧ 4 ≤ n ≤ 516.

(** Flags and path slot by session message type and profile: handshake messages, protected
    messages on slot zero, and the redundant slot of profile 3. *)
Definition slot_rules (typ prof fl slot : Z) : Prop :=
  1 ≤ typ ≤ 4 ∧ fl = 0 ∧ slot = 0 ∨
  5 ≤ typ ≤ 7 ∧ fl = 1 ∧ slot = 0 ∨
  6 ≤ typ ≤ 7 ∧ prof = 3 ∧ fl = 3 ∧ slot = 1.

(** The checksum over the pseudo-header and the payload folds to zero. *)
Definition sum_rules (h : Header) (payload : bytes) (nh : Z) : Prop :=
  let total := total_sum (pseudo_header h (len payload) nh) payload in
  0 < total ∧ total mod 65535 = 0.

Inductive header_rules (h : Header) : bytes → Prop :=
| none_rules : plain_header NH_NONE h → header_rules h []
| ctl_header_rules typ code hi lo body :
    plain_header NH_CTL h → [hi; lo] ≠ [0; 0] → ctl_rules typ code (len body) →
    sum_rules h (typ :: code :: hi :: lo :: body) NH_CTL →
    header_rules h (typ :: code :: hi :: lo :: body)
| dgram_header_rules s1 s0 d1 d0 l1 l0 hi lo data :
    plain_header NH_DGRAM h → [hi; lo] ≠ [0; 0] → be_value [l1; l0] = 8 + len data →
    sum_rules h (s1 :: s0 :: d1 :: d0 :: l1 :: l0 :: hi :: lo :: data) NH_DGRAM →
    header_rules h (s1 :: s0 :: d1 :: d0 :: l1 :: l0 :: hi :: lo :: data)
| ses_header_rules typ body :
    wf_header h → next_header h = NH_SES → scid h ≠ 0 → profile h ≤ 3 → tc h = 0 →
    hop_limit h ≠ 0 → slot_rules typ (profile h) (flags h) (path_slot h) →
    header_rules h (typ :: 1 :: profile h :: 0 :: body).

(** Case analysis of a cascade of tests against an arithmetic predicate. *)
Ltac cascade :=
  repeat match goal with
  | |- (if ?b then _ else _) = Ok _ ↔ _ => destruct b eqn:?
  end;
  first [split; [intros _; lia|done] | split; [done|lia]].

Lemma validate_ctl_iff typ code body :
  validate_ctl typ code body = Ok () ↔ ctl_rules typ code (len body).
Proof.
  unfold validate_ctl, ctl_rules, CTL_ECHO_REQUEST, CTL_ECHO_REPLY, CTL_DEST_UNREACHABLE,
    CTL_TIME_EXCEEDED, CTL_PACKET_TOO_BIG. cascade.
Qed.

Lemma pair_zero hi lo :
  wf_bytes [hi; lo] → (be_value [hi; lo] =? 0) = false ↔ [hi; lo] ≠ [0; 0].
Proof.
  intros. inv_wf. rewrite be_value_pair, Z.eqb_neq. unfold_widths. split.
  - intros ? [= -> ->]. lia.
  - intros Hne ?. apply Hne. do 2 f_equal; lia.
Qed.

Lemma checksum_valid_iff h payload nh :
  wf_header h → wf_bytes payload → len payload ≤ u32_max →
  checksum_valid h payload nh = true ↔ sum_rules h payload nh.
Proof.
  intros Hh Hp Hl. unfold checksum_valid, sum_rules. rewrite try_u32_Some by done.
  rewrite Z.eqb_eq. simpl. apply checksum_raw_zero; auto using wf_pseudo_header.
Qed.

Lemma parse_ctl_iff h payload :
  wf_header h → wf_bytes payload → len payload ≤ u32_max →
  is_ok (parse_ctl h payload) = true ↔
  ∃ typ code hi lo body, payload = typ :: code :: hi :: lo :: body ∧ [hi; lo] ≠ [0; 0] ∧
    ctl_rules typ code (len body) ∧ sum_rules h payload NH_CTL.
Proof.
  intros Hh Hp Hl.
  destruct payload as [|typ [|code [|hi [|lo body]]]]; try by (split; [done|naive_solver]).
  pose proof (checksum_valid_iff h _ NH_CTL Hh Hp Hl) as Hcv. inv_wf.
  set (payload := typ :: _) in *.
  unfold parse_ctl, validate_ctl_shape.
  assert (len payload <? 4 = false) as -> by (apply Z.ltb_ge; unfold payload, len; simpl; lia).
  rewrite slice_from_Ok by (simpl; lia). cbn [idx payload lookup list_lookup mbind outcome_bind drop].
  rewrite drop_0. fold payload. split.
  - destruct (validate_ctl typ code body) as [[]| |] eqn:Hv;
      cbn [mbind outcome_bind is_ok]; [|done..]. destruct (_ || negb _) eqn:Hc; [done|]. intros _.
    apply orb_false_iff in Hc as [Hz%pair_zero Hc%negb_false_iff]; [|solve_wf].
    exists typ, code, hi, lo, body. by rewrite <-validate_ctl_iff, <-Hcv.
  - intros (? & ? & ? & ? & ? & [= <- <- <- <- <-] & Hz & Hr & Hc%Hcv).
    apply validate_ctl_iff in Hr. rewrite Hr, Hc. apply pair_zero in Hz; [|solve_wf].
    cbn [mbind outcome_bind]. by rewrite Hz.
Qed.

Lemma parse_dgram_iff h payload :
  wf_header h → wf_bytes payload → len payload ≤ u32_max →
  is_ok (parse_dgram h payload) = true ↔
  ∃ s1 s0 d1 d0 l1 l0 hi lo data,
    payload = s1 :: s0 :: d1 :: d0 :: l1 :: l0 :: hi :: lo :: data ∧ [hi; lo] ≠ [0; 0] ∧
    be_value [l1; l0] = 8 + len data ∧ sum_rules h payload NH_DGRAM.
Proof.
  intros Hh Hp Hl.
  destruct payload as [|s1 [|s0 [|d1 [|d0 [|l1 [|l0 [|hi [|lo data]]]]]]]];
    try by (split; [done|naive_solver]).
  pose proof (checksum_valid_iff h _ NH_DGRAM Hh Hp Hl) as Hcv. inv_wf.
  set (payload := s1 :: _) in *.
  unfold parse_dgram, validate_dgram_shape.
  assert (len payload = 8 + len data) as Hlen by (unfold payload, len; simpl; lia).
  pose proof (len_nonneg data). rewrite Hlen. assert (8 + len data <? 8 = false) as -> by lia.
  rewrite slice_from_Ok by (simpl; lia). cbn [idx payload lookup list_lookup mbind outcome_bind drop].
  rewrite drop_0. fold payload. split.
  - destruct (be_value [l1; l0] =? 8 + len data) eqn:Hv;
      cbn [negb mbind outcome_bind is_ok]; [|done]. destruct (_ || negb _) eqn:Hc; [done|]. intros _.
    apply orb_false_iff in Hc as [Hz%pair_zero Hc%negb_false_iff]; [|solve_wf].
    exists s1, s0, d1, d0, l1, l0, hi, lo, data. split_and!; [done..|lia|by apply Hcv].
  - intros (? & ? & ? & ? & ? & ? & ? & ? & ? & [= <- <- <- <- <- <- <- <- <-] & Hz & Hr & Hc%Hcv).
    rewrite Hr, Z.eqb_refl, Hc. apply pair_zero in Hz; [|solve_wf].
    cbn [negb mbind outcome_bind]. by rewrite Hz.
Qed.

Lemma flags_mask fl : is_u8 fl → (Z.land fl 0xfc =? 0) = (fl <=? 3).
Proof.
  intros Hf. assert (∃ n, (n < 256)%nat ∧ fl = Z.of_nat n) as (n & Hn & ->)
    by (exists (Z.to_nat fl); solve_width).
  assert (Forall (λ n, (Z.land (Z.of_nat n) 0xfc =? 0) = (Z.of_nat n <=? 3)) (seq 0 256)) as Hall
    by (repeat constructor).
  rewrite Forall_forall in Hall. apply Hall, elem_of_seq. lia.
Qed.

Lemma validate_ses_iff h payload :
  wf_header h →
  validate_ses_header h payload = Ok () ↔
  ∃ typ body, payload = typ :: 1 :: profile h :: 0 :: body ∧ scid h ≠ 0 ∧ profile h ≤ 3 ∧
    tc h = 0 ∧ hop_limit h ≠ 0 ∧ slot_rules typ (profile h) (flags h) (path_slot h).
Proof.
  intros (_&_&_&_&Hf&_). unfold validate_ses_header. rewrite flags_mask by done.
  destruct (scid h =? 0) eqn:?; [split; [done|naive_solver lia]|].
  destruct payload as [|typ [|v [|pr [|z body]]]]; try by (split; [done|naive_solver]).
  assert (len (typ :: v :: pr :: z :: body) <? 4 = false) as ->
    by (apply Z.ltb_ge; unfold len; simpl; lia).
  cbn [idx lookup list_lookup mbind outcome_bind byte_ne orM].
  trans (v = 1 ∧ pr = profile h ∧ z = 0 ∧ profile h ≤ 3 ∧ tc h = 0 ∧ hop_limit h ≠ 0 ∧
         slot_rules typ (profile h) (flags h) (path_slot h)); [|naive_solver lia].
  unfold slot_rules. destruct (flags h =? 1) eqn:?.
  all: repeat match goal with
  | |- context [if ?b then Ok true else _] => destruct b eqn:?; cbn [mbind outcome_bind]
  end; cascade.
Qed.

Lemma plain_fields h nh (P : Prop) (m : outcome WireError.t unit) :
  wf_header h → next_header h = nh → (m = Ok () ↔ P) →
  (if 3 <? profile h then Err Profile else
   if negb (tc h =? 0) then Err TrafficClass else
   if hop_limit h =? 0 then Err HopLimit else
   if negb (flags h <=? 3) then Err Flags else
   if negb (profile h =? 0) then Err Profile else
   if negb (flags h =? 0) then Err Flags else
   if negb (path_slot h =? 0) then Err PathSlot else
   if negb (scid h =? 0) then Err Scid else m) = Ok () ↔ plain_header nh h ∧ P.
Proof.
  intros Hw Hn Hm. unfold plain_header.
  repeat match goal with
  | |- (if ?b then _ else _) = Ok _ ↔ _ =>
      destruct b eqn:?; [split; [done|intros (H & _); lia]|]
  end.
  rewrite Hm. split; [|tauto]. intros. split; [|done].
  split_and!; [done..| | | | | | ]; lia.
Qed.

(** Two different next-header values for the same header. *)
Ltac nh_conflict :=
  exfalso;
  repeat match goal with H : plain_header _ _ |- _ => destruct H as (_ & H & _) end;
  unfold NH_CTL, NH_DGRAM, NH_SES, NH_NONE in *; lia.

Lemma is_ok_bind {E A} (m : outcome E A) : (m ;; Ok ()) = Ok () ↔ is_ok m = true.
Proof. destruct m; naive_solver. Qed.

(** C38: the cascade of tests accepts a header with its payload exactly when the rules of the
    header's next-header value hold: fields, slots and flags by session type, control codes and
    lengths, declared datagram length and checksum. *)
Theorem validate_header_iff_rules h payload :
  wf_header h → wf_bytes payload → len payload ≤ u32_max →
  validate_header h payload = Ok () ↔ header_rules h payload.
Proof.
  intros Hh Hp Hl. pose proof Hh as (_&_&_&_&Hf&_). unfold validate_header.
  rewrite flags_mask by done.
  destruct (next_header h =? NH_SES) eqn:Hses; [apply Z.eqb_eq in Hses|].
  { rewrite Hses. simpl. rewrite validate_ses_iff by done. split.
    - intros (typ & body & -> & ?). destruct_and!. by constructor.
    - destruct 1; try nh_conflict. eexists _, _. by split_and!. }
  destruct (next_header h =? NH_CTL) eqn:Hctl; [apply Z.eqb_eq in Hctl|].
  { rewrite Hctl. simpl. rewrite (plain_fields h NH_CTL _ _ Hh Hctl (is_ok_bind _)).
    rewrite parse_ctl_iff by done. split.
    - intros (? & typ & code & hi & lo & body & -> & ?). destruct_and!. by constructor.
    - destruct 1; try nh_conflict. split; [done|]. by eexists _, _, _, _, _. }
  destruct (next_header h =? NH_DGRAM) eqn:Hdg; [apply Z.eqb_eq in Hdg|].
  { rewrite Hdg. simpl. rewrite (plain_fields h NH_DGRAM _ _ Hh Hdg (is_ok_bind _)).
    rewrite parse_dgram_iff by done. split.
    - intros (? & s1 & s0 & d1 & d0 & l1 & l0 & hi & lo & data & -> & ?).
      destruct_and!. by constructor.
    - destruct 1; try nh_conflict. split; [done|]. by eexists _, _, _, _, _, _, _, _, _. }
  destruct (next_header h =? NH_NONE) eqn:Hnone; [apply Z.eqb_eq in Hnone|].
  - rewrite Hnone. simpl.
    rewrite (plain_fields _ NH_NONE (payload = [])); [|done..|].
    + split; [intros [? ->]; by constructor|].
      destruct 1; try nh_conflict. done.
    + destruct payload; [done|]. unfold len. simpl. split; done.
  - unfold known_next_header. rewrite Hses, Hctl, Hdg, Hnone. simpl. split; [done|].
    destruct 1; nh_conflict.
Qed.

Lemma validate_header_iff_rules_witness :
  validate_header demo_ses demo_payload = Ok () ↔ header_rules demo_ses demo_payload.
Proof.
  apply validate_header_iff_rules; [compute_decide..|vm_compute; congruence].
Defined.
