(* ===== verification/Crypto.v ===== *)
(** * Cryptographic primitives

    The crates aws-lc-rs, chacha20poly1305, ed25519-dalek, sha2 and
    x25519-dalek are not part of the repository: their functions are the
    operations of the class [Crypto], and [CryptoLaws] states the documented
    behaviour the session code relies on (output lengths, verification of a
    signature by its key, agreement of Diffie-Hellman, decryption inverts
    encryption).  No law says anything about secrecy or unforgeability. *)

From S2P Require Import Prelude.

Class Crypto : Type := {
  (** [Sha256::digest] *)
  sha256 : bytes → bytes;
  (** [hmac::sign] with a HMAC-SHA256 key *)
  hmac_sha256 : bytes → bytes → bytes;
  (** [SigningKey::verifying_key().to_bytes()] and [SigningKey::sign().to_bytes()] *)
  ed25519_public : bytes → bytes;
  ed25519_sign : bytes → bytes → bytes;
  (** [VerifyingKey::from_bytes(..).is_ok()] and [VerifyingKey::verify(..).is_ok()] *)
  ed25519_key_ok : bytes → bool;
  ed25519_verify : bytes → bytes → bytes → bool;
  (** [PublicKey::from(&StaticSecret)] and [StaticSecret::diffie_hellman] *)
  x25519_public : bytes → bytes;
  x25519_dh : bytes → bytes → bytes;
  (** [Salt::extract] and [Prk::expand] followed by [Okm::fill] of 32 bytes *)
  hkdf_extract : bytes → bytes → bytes;
  hkdf_expand : bytes → bytes → option bytes;
  (** [encrypt_in_place_detached]: ciphertext and tag; [decrypt_in_place_detached] *)
  aead_encrypt : bytes → bytes → bytes → bytes → option (bytes * bytes);
  aead_decrypt : bytes → bytes → bytes → bytes → bytes → option bytes;
}.

Class CryptoLaws `(C : Crypto) : Prop := {
  sha256_array m : wf_bytes m → wf_array 32 (sha256 m);
  hmac_array k m : wf_bytes k → wf_bytes m → wf_array 32 (hmac_sha256 k m);
  ed25519_public_array sk : wf_array 32 sk → wf_array 32 (ed25519_public sk);
  ed25519_sign_array sk m : wf_array 32 sk → wf_bytes m → wf_array 64 (ed25519_sign sk m);
  ed25519_public_ok sk : wf_array 32 sk → ed25519_key_ok (ed25519_public sk) = true;
  ed25519_verify_sign sk m :
    wf_array 32 sk → wf_bytes m →
    ed25519_verify (ed25519_public sk) m (ed25519_sign sk m) = true;
  x25519_public_array sk : wf_array 32 sk → wf_array 32 (x25519_public sk);
  x25519_dh_array sk pk : wf_array 32 sk → wf_array 32 pk → wf_array 32 (x25519_dh sk pk);
  x25519_agree a b :
    wf_array 32 a → wf_array 32 b →
    x25519_dh a (x25519_public b) = x25519_dh b (x25519_public a);
  hkdf_extract_array salt ikm :
    wf_bytes salt → wf_bytes ikm → wf_array 32 (hkdf_extract salt ikm);
  hkdf_expand_array prk info :
    wf_array 32 prk → wf_bytes info → ∃ k, hkdf_expand prk info = Some k ∧ wf_array 32 k;
  (** Encryption of a datagram-sized plaintext succeeds and preserves its length. *)
  aead_encrypt_total k n aad pt :
    wf_array 32 k → wf_array 12 n → wf_bytes aad → wf_bytes pt → len pt ≤ u16_max →
    ∃ ct tag, aead_encrypt k n aad pt = Some (ct, tag) ∧
      wf_array (length pt) ct ∧ wf_array 16 tag;
  aead_decrypt_encrypt k n aad pt ct tag :
    aead_encrypt k n aad pt = Some (ct, tag) → aead_decrypt k n aad ct tag = Some pt;
  aead_decrypt_length k n aad ct tag pt :
    aead_decrypt k n aad ct tag = Some pt → length pt = length ct;
}.

(** ** A model of the laws

    Arithmetic stand-ins with the right lengths, used by the witnesses. *)

Module Toy.

Definition digest (n : nat) (m : bytes) : bytes := be_bytes n (be_value m).

Definition public (sk : bytes) : bytes := be_bytes 32 (be_value sk * 9).
Definition dh (sk pk : bytes) : bytes :=
  be_bytes 32 ((be_value sk * be_value pk) mod 2 ^ 256).
Definition tag (k n aad pt : bytes) : bytes := digest 16 (k ++ n ++ aad ++ pt).

#[global] Instance toy_crypto : Crypto := {
  sha256 := digest 32;
  hmac_sha256 k m := digest 32 (k ++ m);
  ed25519_public sk := sk;
  ed25519_sign sk m := digest 64 (sk ++ m);
  ed25519_key_ok pk := (length pk =? 32)%nat;
  ed25519_verify pk m s := bool_decide (s = digest 64 (pk ++ m));
  x25519_public := public;
  x25519_dh := dh;
  hkdf_extract salt ikm := digest 32 (salt ++ ikm);
  hkdf_expand prk info := Some (digest 32 (prk ++ info));
  aead_encrypt k n aad pt := Some (pt, tag k n aad pt);
  aead_decrypt k n aad ct t := if bool_decide (t = tag k n aad ct) then Some ct else None;
}.

Lemma be_bytes_mod n z : be_bytes n z = be_bytes n (z mod 256 ^ Z.of_nat n).
Proof.
  revert z. induction n as [|n IH]; intros z; [done|]. simpl be_bytes.
  rewrite Nat2Z.inj_succ, Z.pow_succ_r by lia. f_equal.
  - rewrite IH. symmetry. rewrite IH. f_equal. symmetry.
    rewrite Z.rem_mul_r by lia. rewrite Z.add_comm, Z.mul_comm, Z.div_add_l by lia.
    rewrite (Z.div_small (z mod 256)) by (apply Z.mod_pos_bound; lia).
    by rewrite Z.add_0_r, Z.mod_mod by lia.
  - f_equal. rewrite Z.rem_mul_r by lia.
    by rewrite Z.mul_comm, Z.mod_add, Z.mod_mod by lia.
Qed.

Lemma be_value_be_bytes_mod n z : be_value (be_bytes n z) = z mod 256 ^ Z.of_nat n.
Proof. rewrite be_bytes_mod. apply be_value_be_bytes, Z.mod_pos_bound. lia. Qed.

#[global] Instance toy_laws : CryptoLaws toy_crypto.
Proof.
  constructor; intros; try solve [apply wf_array_be_bytes | assumption].
  - by apply Nat.eqb_eq, H.
  - by apply bool_decide_eq_true.
  - unfold x25519_dh, x25519_public, toy_crypto, dh, public.
    f_equal. rewrite !be_value_be_bytes_mod. change (256 ^ Z.of_nat 32) with (2 ^ 256).
    rewrite !Z.mul_mod_idemp_r by lia. f_equal. lia.
  - eexists. split; [reflexivity|]. apply wf_array_be_bytes.
  - eexists _, _. split; [reflexivity|]. split; [by split|]. apply wf_array_be_bytes.
  - unfold aead_encrypt, aead_decrypt, toy_crypto in *. simplify_eq.
    by rewrite bool_decide_eq_true_2.
  - unfold aead_decrypt, toy_crypto in *. case_bool_decide; naive_solver.
Qed.

End Toy.
