(* ===== verification/SessionMsg.v ===== *)
(** * Session identities, bindings and message framing

    The first part of src/rust/crates/r8-session/src/lib.rs: error categories,
    identities, observed carrier bindings and the session message envelope. *)

From S2P Require Import Prelude Crypto.

Definition WIRE_VERSION : Z := 8.
Definition SESSION_VERSION : Z := 1.
Definition OPEN : Z := 1.
Definition VERIFY_COOKIE : Z := 2.
Definition OPEN_AUTH : Z := 3.
Definition OPEN_ACK : Z := 4.
Definition SESSION_ACCEPT : Z := 5.
Definition SESSION_DATA : Z := 6.
Definition CLOSE : Z := 7.
Definition REPLAY_WINDOW : Z := 4096.
Definition REPLAY_JUMP_MAX : Z := 65536.
Definition PROFILE3_DATA_PACKET_OVERHEAD : Z := 84.

Module SessionError.

Inductive t : Set :=
| Truncated | TrailingBytes | Type_ | Version | Profile | Flags | RoleMismatch
| ServiceMismatch | PinMismatch | EidKeyMismatch | CookieInvalid | AuthFailed
| CounterRange | CounterExhausted | Replay | ScidCollision | Capacity
| RestartRequired | Timeout | UnexpectedMessage | Budget | Binding | RngFailure
| ConfigError.

#[export] Instance eq_dec : EqDecision t.
Proof. solve_decision. Defined.

Definition as_str (e : t) : string :=
  match e with
  | Truncated => "TRUNCATED"
  | TrailingBytes => "TRAILING_BYTES"
  | Type_ => "TYPE"
  | Version => "VERSION"
  | Profile => "PROFILE"
  | Flags => "FLAGS"
  | RoleMismatch => "ROLE_MISMATCH"
  | ServiceMismatch => "SERVICE_MISMATCH"
  | PinMismatch => "PIN_MISMATCH"
  | EidKeyMismatch => "EID_KEY_MISMATCH"
  | CookieInvalid => "COOKIE_INVALID"
  | AuthFailed => "AUTH_FAILED"
  | CounterRange => "COUNTER_RANGE"
  | CounterExhausted => "COUNTER_EXHAUSTED"
  | Replay => "REPLAY"
  | ScidCollision => "SCID_COLLISION"
  | Capacity => "CAPACITY"
  | RestartRequired => "RESTART_REQUIRED"
  | Timeout => "TIMEOUT"
  | UnexpectedMessage => "UNEXPECTED_MESSAGE"
  | Budget => "BUDGET"
  | Binding => "BINDING_INVALID"
  | ConfigError => "CONFIG_ERROR"
  | RngFailure => "RNG_FAILURE"
  end.

End SessionError.

(** ** Identities *)

Record Identity : Set := mkIdentity {
  id_role : Z;
  id_service_context : Z;
  id_eid : bytes;
  id_public_key : bytes;
}.

#[export] Instance Identity_eq_dec : EqDecision Identity.
Proof. solve_decision. Defined.

Definition wf_identity (i : Identity) : Prop :=
  is_u8 (id_role i) ∧ is_u32 (id_service_context i) ∧
  wf_array 16 (id_eid i) ∧ wf_array 32 (id_public_key i).

#[export] Instance wf_identity_dec i : Decision (wf_identity i).
Proof. apply _. Defined.

Definition role_ok (r : Z) : bool := (r =? 1) || (r =? 2).

Section WithCrypto.
Context `{C : Crypto}.

Definition eid (public_key : bytes) : bytes :=
  take 16 (sha256 (ascii_bytes "R8 EID v1" ++ public_key)).

Definition identity_from_public_key (role service_context : Z) (public_key : bytes) :
    outcome SessionError.t Identity :=
  if negb (role_ok role) || (service_context =? 0) then Err SessionError.ConfigError else
  Ok (mkIdentity role service_context (eid public_key) public_key).

Definition identity_validate (i : Identity) : outcome SessionError.t unit :=
  if negb (role_ok (id_role i)) then Err SessionError.RoleMismatch else
  if id_service_context i =? 0 then Err SessionError.ServiceMismatch else
  if negb (beq (eid (id_public_key i)) (id_eid i)) then Err SessionError.EidKeyMismatch else
  Ok ().

End WithCrypto.

(** ** Carrier bindings *)

Record UdpBinding : Set := mkUdpBinding { as_bytes : bytes }.

#[export] Instance UdpBinding_eq_dec : EqDecision UdpBinding.
Proof. solve_decision. Defined.

Definition udp_ipv4 (address : bytes) (port selector_kind : Z) (selector : bytes) :
    outcome SessionError.t UdpBinding :=
  if (port =? 0) || negb ((selector_kind =? 1) || (selector_kind =? 2))
  then Err SessionError.Binding else
  Ok (mkUdpBinding ([1; 4] ++ address ++ be_bytes 2 port ++ [selector_kind] ++ selector)).

Definition udp_ipv6 (address : bytes) (port selector_kind : Z) (selector : bytes) :
    outcome SessionError.t UdpBinding :=
  if (port =? 0) || negb ((selector_kind =? 1) || (selector_kind =? 2))
  then Err SessionError.Binding else
  Ok (mkUdpBinding ([1; 6] ++ address ++ be_bytes 2 port ++ [selector_kind] ++ selector)).

(** The slice patterns of [UdpBinding::parse] with their guards; the second arm indexes. *)
Definition udp_valid (b : bytes) : outcome SessionError.t bool :=
  match b with
  | v :: family :: rest =>
      if (v =? 1) && (family =? 4) then
        match rest with
        | _ :: _ :: _ :: _ :: port_hi :: port_lo :: selector_kind :: _ =>
            Ok ((len b =? 25) && negb (be_value [port_hi; port_lo] =? 0) &&
                ((selector_kind =? 1) || (selector_kind =? 2)))
        | _ => Ok false
        end
      else if (v =? 1) && (family =? 6) then
        Ok (len b =? 37) &&?
        (hi ← idx b 18; lo ← idx b 19; Ok (negb (be_value [hi; lo] =? 0))) &&?
        (k ← idx b 20; Ok ((k =? 1) || (k =? 2)))
      else Ok false
  | _ => Ok false
  end.

Definition udp_parse (b : bytes) : outcome SessionError.t UdpBinding :=
  valid ← udp_valid b;
  if negb valid then Err SessionError.Binding else Ok (mkUdpBinding b).

Inductive ObservedBinding : Set :=
| Udp (binding : UdpBinding)
| Native (ingress_descriptor_id : Z) (next_hop_mac : bytes).

#[export] Instance ObservedBinding_eq_dec : EqDecision ObservedBinding.
Proof. solve_decision. Defined.

Definition wf_binding (b : ObservedBinding) : Prop :=
  match b with
  | Udp u => wf_bytes (as_bytes u)
  | Native id mac => is_u32 id ∧ wf_array 6 mac
  end.

#[export] Instance wf_binding_dec b : Decision (wf_binding b).
Proof. destruct b; apply _. Defined.

Definition binding_validate (b : ObservedBinding) : outcome SessionError.t unit :=
  match b with
  | Udp u => udp_parse (as_bytes u) ;; Ok ()
  | Native id _ => if negb (id =? 0) then Ok () else Err SessionError.Binding
  end.

Definition binding_encode (b : ObservedBinding) : bytes :=
  match b with
  | Udp u => as_bytes u
  | Native id mac => [2] ++ be_bytes 4 id ++ mac
  end.

Definition binding_parse (b : bytes) : outcome SessionError.t ObservedBinding :=
  match b with
  | v :: _ =>
      if v =? 1 then Udp <$> udp_parse b
      else if (v =? 2) && (len b =? 11) then
        id ← slice b 1 5;
        if be_value id =? 0 then Err SessionError.Binding else
        mac ← slice_from b 5;
        Ok (Native (be_value id) mac)
      else Err SessionError.Binding
  | [] => Err SessionError.Binding
  end.

(** ** Session messages *)

Record SessionMessage : Set := mkMessage {
  msg_typ : Z;
  msg_profile : Z;
  msg_body : bytes;
}.

#[export] Instance SessionMessage_eq_dec : EqDecision SessionMessage.
Proof. solve_decision. Defined.

Definition validate_role_pair (body : bytes) : outcome SessionError.t unit :=
  bad ← (b0 ← idx body 0; Ok (negb (role_ok b0))) ||?
        (b1 ← idx body 1; Ok (negb (role_ok b1))) ||?
        (b0 ← idx body 0; b1 ← idx body 1; Ok (b0 =? b1));
  if bad : bool then Err SessionError.RoleMismatch else Ok ().

(** The exact (for SESSION_DATA, minimal) body length of a message type. *)
Definition body_len (typ : Z) : option Z :=
  if typ =? OPEN then Some 118
  else if typ =? VERIFY_COOKIE then Some 118
  else if typ =? OPEN_AUTH then Some 230
  else if typ =? OPEN_ACK then Some 182
  else if typ =? SESSION_ACCEPT then Some 68
  else if typ =? CLOSE then Some 26
  else if typ =? SESSION_DATA then Some 24
  else None.

Definition validate_body (typ : Z) (body : bytes) : outcome SessionError.t unit :=
  exact ← ok_or (body_len typ) SessionError.Type_;
  if len body <? exact then Err SessionError.Truncated else
  if negb (typ =? SESSION_DATA) && negb (len body =? exact) then Err SessionError.TrailingBytes else
  (if (typ =? OPEN) || (typ =? VERIFY_COOKIE) || (typ =? OPEN_AUTH) || (typ =? OPEN_ACK)
   then validate_role_pair body else Ok ()) ;;
  if (typ =? SESSION_ACCEPT) || (typ =? SESSION_DATA) || (typ =? CLOSE) then
    c ← slice body 0 8;
    let counter := be_value c in
    if (counter =? 0) || (counter =? u64_max) then Err SessionError.CounterRange else Ok ()
  else Ok ().

Definition message_decode (payload : bytes) (header_profile budget : Z) :
    outcome SessionError.t SessionMessage :=
  if budget <? len payload then Err SessionError.Budget else
  if len payload <? 4 then Err SessionError.Truncated else
  typ ← idx payload 0;
  if negb ((OPEN <=? typ) && (typ <=? CLOSE)) then Err SessionError.Type_ else
  version ← idx payload 1;
  if negb (version =? SESSION_VERSION) then Err SessionError.Version else
  prof ← idx payload 2;
  if negb (prof =? header_profile) then Err SessionError.Profile else
  z ← idx payload 3;
  if negb (z =? 0) then Err SessionError.Flags else
  body ← slice_from payload 4;
  validate_body typ body ;;
  Ok (mkMessage typ prof body).

Definition message_encode (m : SessionMessage) (budget : Z) : outcome SessionError.t bytes :=
  validate_body (msg_typ m) (msg_body m) ;;
  n ← ok_or (checked_add 4 (len (msg_body m))) SessionError.Budget;
  if budget <? n then Err SessionError.Budget else
  Ok ([msg_typ m; SESSION_VERSION; msg_profile m; 0] ++ msg_body m).

(** ** Theorems *)

Lemma udp_parse_inv b u : udp_parse b = Ok u → u = mkUdpBinding b ∧ ∃ r, b = 1 :: r.
Proof.
  unfold udp_parse. intros H. inv_ok. apply negb_false_iff in Heqb0. subst. split; [done|].
  match goal with H : udp_valid b = _ |- _ => rename H into Hv end.
  unfold udp_valid in Hv. destruct b as [|v [|f r]]; [done..|].
  destruct (v =? 1) eqn:Hv1; [apply Z.eqb_eq in Hv1 as ->; eauto|done].
Qed.

Lemma udp_parse_id u : is_ok (udp_parse (as_bytes u)) = true → udp_parse (as_bytes u) = Ok u.
Proof.
  destruct (udp_parse _) as [u'| |] eqn:H; try done.
  apply udp_parse_inv in H as [-> _]. by destruct u.
Qed.

Lemma split_native (l : bytes) : length l = 10%nat →
  ∃ a b, l = a ++ b ∧ length a = 4%nat ∧ length b = 6%nat.
Proof.
  intros Hl. exists (take 4 l), (drop 4 l).
  by rewrite take_drop, length_take, length_drop, Hl.
Qed.

Lemma native_parse a c :
  length a = 4%nat → length c = 6%nat →
  binding_parse (2 :: a ++ c) =
  if be_value a =? 0 then Err SessionError.Binding else Ok (Native (be_value a) c).
Proof.
  intros Ha Hc. unfold binding_parse.
  assert (len (2 :: a ++ c) =? 11 = true) as ->
    by (apply Z.eqb_eq; unfold len; simpl; rewrite length_app, Ha, Hc; done).
  change (2 =? 1) with false. change (2 =? 2) with true. cbn [andb].
  rewrite slice_Ok, slice_from_Ok by (simpl; rewrite length_app; lia).
  simpl mbind. rewrite drop_0, take_app_length' by done.
  case_match; [done|]. simpl. by rewrite drop_app_length'.
Qed.

(** The binding parser accepts exactly the encodings of valid bindings, and returns the
    binding that was encoded; in particular distinct valid bindings have distinct encodings. *)
Theorem binding_parse_iff_encode p b :
  wf_bytes p → wf_binding b →
  binding_parse p = Ok b ↔ binding_validate b = Ok () ∧ binding_encode b = p.
Proof.
  intros Hp Hb. split.
  - destruct p as [|v p]; [done|].
    destruct (v =? 1) eqn:Hv; [|destruct (v =? 2) eqn:Hv2].
    + unfold binding_parse. rewrite Hv.
      destruct (udp_parse (v :: p)) as [u| |] eqn:Hu; [|done..]. intros [= <-].
      pose proof Hu as [-> _]%udp_parse_inv. unfold binding_validate, as_bytes.
      by rewrite Hu.
    + apply Z.eqb_eq in Hv2 as ->. destruct (decide (length p = 10%nat)) as [Hl|Hl].
      * destruct (split_native p Hl) as (a & c & -> & Ha & Hc). rewrite native_parse by done.
        case_match eqn:Hz; [done|]. intros [= <-]. cbn [binding_validate binding_encode]. rewrite Hz. split; [done|].
        inv_wf. by rewrite be_bytes_be_value.
      * unfold binding_parse. destruct (Z.eqb_spec (len (2 :: p)) 11) as [He|]; [|done].
        unfold len in He. simpl in He. lia.
    + unfold binding_parse. by rewrite Hv, Hv2.
  - intros [Hv <-]. destruct b as [u|id mac]; cbn [binding_validate binding_encode wf_binding] in *.
    + destruct (udp_parse (as_bytes u)) as [u'| |] eqn:Hu; [|done..].
      pose proof Hu as [_ [r Hr]]%udp_parse_inv. unfold binding_parse. rewrite Hr. simpl.
      rewrite <-Hr. rewrite udp_parse_id; [done|]. by rewrite Hu.
    + destruct Hb as [Hid [Hm _]]. case_match; [|done].
      change ([2] ++ be_bytes 4 id ++ mac) with (2 :: be_bytes 4 id ++ mac). rewrite native_parse, be_value_be_bytes by (done || (unfold_widths; lia)).
      by case_match; [lia|].
Qed.

Lemma binding_parse_iff_encode_witness :
  let b := Native 7 [2; 0; 0; 0; 0; 9] in
  binding_parse [2; 0; 0; 0; 7; 2; 0; 0; 0; 0; 9] = Ok b.
Proof.
  apply binding_parse_iff_encode; [compute_decide|split; compute_decide|].
  split; [reflexivity|by vm_compute].
Defined.

Lemma validate_body_type typ body : validate_body typ body = Ok () → 1 ≤ typ ≤ 7.
Proof.
  unfold validate_body, body_len, OPEN, VERIFY_COOKIE, OPEN_AUTH, OPEN_ACK, SESSION_ACCEPT,
    CLOSE, SESSION_DATA.
  destruct (decide (1 ≤ typ ≤ 7)); [done|]. intros H. exfalso.
  repeat match goal with
  | H : context [if ?a =? ?b then Some _ else _] |- _ => destruct (Z.eqb_spec a b); [lia|]
  end. done.
Qed.

(** Decoding inverts encoding in both directions: a payload decodes to a message exactly when
    it is that message's encoding under the same budget and the header's profile. *)
Theorem message_decode_iff_encode p prof budget m :
  len p ≤ u64_max →
  message_decode p prof budget = Ok m ↔ message_encode m budget = Ok p ∧ msg_profile m = prof.
Proof.
  intros Hl. unfold message_decode, message_encode. split.
  - intros H. inv_ok. subst m.
    destruct p as [|typ [|v [|pr [|z body]]]]; [done..|].
    rewrite slice_from_Ok in * by (simpl; lia).
    repeat match goal with H : idx _ _ = Ok _ |- _ => apply idx_Ok in H; simpl in H end.
    simplify_eq. cbn [msg_typ msg_body msg_profile].
    match goal with u : () |- _ => destruct u end.
    match goal with H : validate_body _ _ = _ |- _ => rewrite H end. cbn [mbind outcome_bind].
    assert (len (x :: x0 :: x1 :: x2 :: body) = 4 + len body) as Hlen by (unfold len; simpl; lia).
    rewrite Hlen in *. rewrite drop_0 in *. rewrite checked_add_Some by done.
    cbn [mbind outcome_bind ok_or].
    assert (budget <? 4 + len body = false) as -> by lia.
    assert (x0 = SESSION_VERSION) as -> by lia. assert (x1 = prof) as -> by lia.
    by assert (x2 = 0) as -> by lia.
  - intros [H <-]. inv_ok. subst p.
    match goal with u : () |- _ => destruct u end.
    match goal with H : validate_body _ _ = _ |- _ => rename H into Hv end.
    pose proof (validate_body_type _ _ Hv).
    cbn [app].
    assert (len (msg_typ m :: SESSION_VERSION :: msg_profile m :: 0 :: msg_body m) =
            4 + len (msg_body m)) as -> by (unfold len; simpl; lia).
    pose proof (len_nonneg (msg_body m)).
    assert (budget <? 4 + len (msg_body m) = false) as -> by lia.
    assert (4 + len (msg_body m) <? 4 = false) as -> by lia.
    assert ((OPEN <=? msg_typ m) && (msg_typ m <=? CLOSE) = true) as Ht
      by (unfold OPEN, CLOSE; lia).
    cbn [idx lookup list_lookup mbind outcome_bind]. rewrite Ht, !Z.eqb_refl. cbn [negb].
    rewrite slice_from_Ok by (simpl; lia). cbn [drop mbind outcome_bind]. rewrite drop_0, Hv.
    by destruct m.
Qed.

Lemma message_decode_iff_encode_witness :
  let m := mkMessage CLOSE 3 (be_bytes 8 1 ++ replicate 18 0) in
  message_encode m 100 = Ok ([7; 1; 3; 0] ++ be_bytes 8 1 ++ replicate 18 0) ∧
  message_decode ([7; 1; 3; 0] ++ be_bytes 8 1 ++ replicate 18 0) 3 100 = Ok m.
Proof.
  split; [by vm_compute|]. apply message_decode_iff_encode; [by vm_compute|].
  split; [by vm_compute|done].
Defined.

Lemma safe_validate_body typ body : safe (validate_body typ body).
Proof.
  unfold validate_body. apply safe_bind; [apply safe_ok_or|]. intros n Hn%ok_or_Ok.
  destruct (len body <? n) eqn:Hl; [done|]. case_match; [done|].
  assert (24 ≤ n). { unfold body_len in Hn. repeat case_match; simplify_eq; lia. }
  assert (8 ≤ length body)%nat by (unfold len in Hl; lia).
  unfold validate_role_pair. solve_safe; lia.
Qed.

(** No payload makes the message decoder panic. *)
Lemma safe_message_decode p prof budget : safe (message_decode p prof budget).
Proof.
  unfold message_decode. case_match; [done|]. destruct (len p <? 4) eqn:Hl; [done|].
  assert (4 ≤ length p)%nat by (unfold len in Hl; lia).
  solve_safe; try apply safe_validate_body; lia.
Qed.
