(* ===== verification/Replay.v ===== *)
(** * Replay window and send counters (r8-session, [ReplayWindow] and [Counters])

    The 4096-bit sliding window is a list of 64 words.  The abstract
    specification is the finite set of accepted counters: [repr] relates the
    two, and every operation is shown to implement its abstract version. *)

From stdpp Require Import gmap sets.
From S2P Require Import Prelude SessionMsg.

(** ** Definitions *)

Record ReplayWindow : Set := mkWindow {
  largest : Z;
  bits : list Z;
  generation : Z;
}.

#[export] Instance ReplayWindow_eq_dec : EqDecision ReplayWindow.
Proof. solve_decision. Defined.

Record ReplayCommit : Set := mkCommit {
  rc_counter : Z;
  rc_generation : Z;
}.

#[export] Instance ReplayCommit_eq_dec : EqDecision ReplayCommit.
Proof. solve_decision. Defined.

Definition window_new : ReplayWindow := mkWindow 0 (replicate 64 0) 0.

Definition check (w : ReplayWindow) (counter : Z) : outcome SessionError.t unit :=
  if (counter =? 0) || (counter =? u64_max) then Err SessionError.CounterRange else
  if (0 <? largest w) && (sat_add (largest w) REPLAY_JUMP_MAX <? counter)
  then Err SessionError.Replay else
  if (0 <? largest w) && (sat_add counter REPLAY_WINDOW <=? largest w)
  then Err SessionError.Replay else
  if counter <=? largest w then
    let delta := largest w - counter in
    seen ← Ok (delta <? REPLAY_WINDOW) &&?
      (word ← idx (bits w) (Z.to_nat (delta / 64));
       Ok (negb (Z.land word (Z.shiftl 1 (delta mod 64)) =? 0)));
    if seen : bool then Err SessionError.Replay else Ok ()
  else Ok ().

Definition preview (w : ReplayWindow) (counter : Z) : outcome SessionError.t ReplayCommit :=
  check w counter ;; Ok (mkCommit counter (generation w)).

(** [(bits[i] << 1) | (bits[i - 1] >> 63)] on [u64]; the arrays have 64 words. *)
Definition shifted_word (b : list Z) (i : nat) : Z :=
  Z.lor ((b !!! i * 2) mod 2 ^ 64)
        (if (0 <? i)%nat then Z.shiftr (b !!! (i - 1)%nat) 63 else 0).

(** [for i in (0..n).rev()] *)
Fixpoint shift_words (n : nat) (b : list Z) : list Z :=
  match n with
  | O => b
  | S i => shift_words i (<[i := shifted_word b i]> b)
  end.

(** [for _ in 0..shift] *)
Definition shift_window (shift : nat) (b : list Z) : list Z := Nat.iter shift (shift_words 64) b.

Definition mark (w : ReplayWindow) (counter : Z) : outcome SessionError.t ReplayWindow :=
  let '(lg, b) :=
    if largest w <? counter then
      let shift := counter - largest w in
      (counter, if REPLAY_WINDOW <=? shift then replicate 64 0
                else shift_window (Z.to_nat shift) (bits w))
    else (largest w, bits w) in
  let delta := lg - counter in
  word ← idx b (Z.to_nat (delta / 64));
  Ok (mkWindow lg
        (<[Z.to_nat (delta / 64) := Z.lor word (Z.shiftl 1 (delta mod 64))]> b) (generation w)).

(** The mutating operations return the window after the call, also when they fail. *)
Definition commit (w : ReplayWindow) (token : ReplayCommit) :
    outcome SessionError.t unit * ReplayWindow :=
  if negb (rc_generation token =? generation w) then (Err SessionError.Replay, w) else
  match check w (rc_counter token) with
  | Err e => (Err e, w)
  | Panic => (Panic, w)
  | Ok _ =>
      match checked_add (generation w) 1 with
      | None => (Err SessionError.Replay, w)
      | Some g =>
          match mark w (rc_counter token) with
          | Ok w' => (Ok (), mkWindow (largest w') (bits w') g)
          | Err e => (Err e, w)
          | Panic => (Panic, w)
          end
      end
  end.

Definition mark_after_auth (w : ReplayWindow) (counter : Z) :
    outcome SessionError.t unit * ReplayWindow :=
  match preview w counter with
  | Ok token => commit w token
  | Err e => (Err e, w)
  | Panic => (Panic, w)
  end.

Record Counters : Set := mkCounters { next : Z }.

Definition counters_new : Counters := mkCounters 1.

Definition can_reserve (c : Counters) : bool := negb (next c =? 0) && negb (next c =? u64_max).

Definition reserve (c : Counters) : outcome SessionError.t Z * Counters :=
  if (next c =? 0) || (next c =? u64_max) then (Err SessionError.CounterExhausted, c)
  else (Ok (next c), mkCounters (next c + 1)).

(** ** Abstract specification *)

(** Counter [c] may still be accepted after the set [s] with maximum [m] was. *)
Definition acceptable (s : gset Z) (m c : Z) : Prop :=
  0 < c < u64_max ∧ c ∉ s ∧
  (m = 0 ∨ (c ≤ m + REPLAY_JUMP_MAX ∧ m < c + REPLAY_WINDOW)).

(** Bit [d] of the window, counted from the largest counter down. *)
Definition wbit (b : list Z) (d : Z) : bool := Z.testbit (b !!! Z.to_nat (d / 64)) (d mod 64).

Record repr (w : ReplayWindow) (s : gset Z) : Prop := {
  repr_words : length (bits w) = 64%nat ∧ Forall is_u64 (bits w);
  repr_generation : 0 ≤ generation w ≤ u64_max;
  repr_range c : c ∈ s → 0 < c ≤ largest w;
  repr_largest : largest w = 0 ∨ largest w ∈ s;
  repr_bounded : 0 ≤ largest w < u64_max;
  repr_bits d : 0 ≤ d < REPLAY_WINDOW → wbit (bits w) d = bool_decide (largest w - d ∈ s);
}.

(** ** Words and bits *)

Lemma lor_range a b n : 0 ≤ n → 0 ≤ a < 2 ^ n → 0 ≤ b < 2 ^ n → 0 ≤ Z.lor a b < 2 ^ n.
Proof.
  intros Hn Ha Hb.
  replace (Z.lor a b) with (Z.lor a b mod 2 ^ n); [apply Z.mod_pos_bound; lia|].
  by rewrite <-Z.land_ones, Z.land_lor_distr_l, !Z.land_ones, !Z.mod_small by lia.
Qed.

Lemma testbit_high y n m : 0 ≤ y < 2 ^ n → 0 ≤ n ≤ m → Z.testbit y m = false.
Proof.
  intros Hy Hm. rewrite <-(Z.mod_small y (2 ^ n)) by done. by apply Z.mod_pow2_bits_high.
Qed.

Lemma land_bit_zero word k :
  0 ≤ k → (Z.land word (Z.shiftl 1 k) =? 0) = negb (Z.testbit word k).
Proof.
  intros Hk. rewrite Z.shiftl_1_l. destruct (Z.testbit word k) eqn:Hb; simpl.
  - apply Z.eqb_neq. intros H. apply (f_equal (λ z, Z.testbit z k)) in H.
    rewrite Z.land_spec, Z.bits_0, Hb, Z.pow2_bits_true in H by done. done.
  - apply Z.eqb_eq, Z.bits_inj'. intros n Hn.
    rewrite Z.land_spec, Z.bits_0, Z.pow2_bits_eqb by done.
    destruct (Z.eqb_spec k n) as [->|]; [by rewrite Hb|apply andb_false_r].
Qed.

Lemma length_shift_words n b : length (shift_words n b) = length b.
Proof. revert b. induction n; intros; cbn [shift_words]; [done|]. by rewrite IHn, length_insert. Qed.

Lemma shift_words_lookup n b j :
  (n ≤ length b)%nat → (j < length b)%nat →
  shift_words n b !!! j = if decide (j < n)%nat then shifted_word b j else b !!! j.
Proof.
  revert b. induction n as [|i IH]; intros b Hn Hj.
  { by rewrite decide_False by lia. }
  cbn [shift_words].
  rewrite IH by (rewrite length_insert; lia).
  destruct (decide (j < i)%nat).
  - rewrite decide_True by lia. unfold shifted_word.
    rewrite list_lookup_total_insert_ne by lia.
    destruct (Nat.ltb_spec 0 j); [|done]. by rewrite list_lookup_total_insert_ne by lia.
  - destruct (decide (j = i)) as [->|].
    + by rewrite decide_True, list_lookup_total_insert_eq by lia.
    + by rewrite decide_False, list_lookup_total_insert_ne by lia.
Qed.

#[global] Arguments shift_words : simpl never.

Definition wf_words (b : list Z) : Prop := length b = 64%nat ∧ Forall is_u64 b.

Lemma wf_words_lookup b i : wf_words b → 0 ≤ b !!! i < 2 ^ 64.
Proof.
  intros [Hl Hf]. destruct (decide (i < 64)%nat) as [Hi|Hi].
  - rewrite <-Hl in Hi. apply lookup_lt_is_Some in Hi as [x Hx].
    rewrite (list_lookup_total_correct _ _ _ Hx).
    pose proof (Forall_lookup_1 _ _ _ _ Hf Hx). unfold_widths. lia.
  - rewrite list_lookup_total_alt, lookup_ge_None_2 by lia. done.
Qed.

Lemma wf_words_intro b : length b = 64%nat → (∀ i, (i < 64)%nat → 0 ≤ b !!! i < 2 ^ 64) → wf_words b.
Proof.
  intros Hl Hf. split; [done|]. apply Forall_lookup. intros i x Hx.
  pose proof (lookup_lt_Some _ _ _ Hx). specialize (Hf i ltac:(lia)).
  rewrite (list_lookup_total_correct _ _ _ Hx) in Hf. unfold_widths. lia.
Qed.

Lemma wf_words_insert b i x : wf_words b → 0 ≤ x < 2 ^ 64 → wf_words (<[i := x]> b).
Proof.
  intros [Hl Hf] Hx. split; [by rewrite length_insert|].
  apply Forall_insert; [done|]. unfold_widths. lia.
Qed.

Lemma shifted_word_range b i : wf_words b → 0 ≤ shifted_word b i < 2 ^ 64.
Proof.
  intros Hb. apply lor_range; [lia|by apply Z.mod_pos_bound|].
  case_match; [|lia]. pose proof (wf_words_lookup b (i - 1) Hb).
  rewrite Z.shiftr_div_pow2 by lia. split; [apply Z.div_pos; lia|].
  apply Z.div_lt_upper_bound; lia.
Qed.

Lemma wf_shift_words b : wf_words b → wf_words (shift_words 64 b).
Proof.
  intros Hb. apply wf_words_intro; [rewrite length_shift_words; apply Hb|].
  intros i Hi. rewrite shift_words_lookup by (destruct Hb; lia).
  rewrite decide_True by done. by apply shifted_word_range.
Qed.

Lemma wf_shift_window n b : wf_words b → wf_words (shift_window n b).
Proof. intros. unfold shift_window. induction n; [done|]. by apply wf_shift_words. Qed.

Lemma wbit_shift_words b d :
  wf_words b → 0 ≤ d < 4096 →
  wbit (shift_words 64 b) d = if d =? 0 then false else wbit b (d - 1).
Proof.
  intros Hb Hd. unfold wbit.
  assert (0 ≤ d / 64 < 64) by (Z.div_mod_to_equations; lia).
  rewrite shift_words_lookup by (destruct Hb; lia). rewrite decide_True by lia.
  unfold shifted_word. rewrite Z.lor_spec.
  pose proof (Z.mod_pos_bound d 64 eq_refl).
  rewrite Z.mod_pow2_bits_low, (Z.mul_comm _ 2) by lia.
  destruct (Z.eq_dec (d mod 64) 0) as [Hm|Hm].
  - rewrite Hm, Z.testbit_even_0. cbn [orb].
    destruct (Z.eqb_spec d 0) as [->|Hd0]; [done|].
    destruct (Nat.ltb_spec 0 (Z.to_nat (d / 64))); [|Z.div_mod_to_equations; lia].
    rewrite Z.shiftr_spec by lia. f_equal; [f_equal|]; Z.div_mod_to_equations; lia.
  - destruct (Z.eqb_spec d 0) as [->|Hd0]; [done|].
    replace (d mod 64) with (Z.succ ((d - 1) mod 64)) at 1 by (Z.div_mod_to_equations; lia).
    rewrite Z.double_bits_succ. replace ((d - 1) / 64) with (d / 64) by (Z.div_mod_to_equations; lia).
    rewrite <-(orb_false_r (Z.testbit (b !!! Z.to_nat (d / 64)) ((d - 1) mod 64))) at 2. f_equal.
    case_match; [|by rewrite Z.bits_0]. rewrite Z.shiftr_spec by lia.
    apply (testbit_high _ 64); [by apply wf_words_lookup|lia].
Qed.

Lemma wbit_shift_window n b d :
  wf_words b → 0 ≤ d < 4096 →
  wbit (shift_window n b) d = if d <? Z.of_nat n then false else wbit b (d - Z.of_nat n).
Proof.
  revert d. unfold shift_window. induction n as [|n IH]; intros d Hb Hd; unfold Nat.iter; cbn [nat_rect].
  - destruct (Z.ltb_spec d (Z.of_nat 0)); [lia|]. by rewrite Z.sub_0_r.
  - rewrite wbit_shift_words by (done || by apply wf_shift_window).
    destruct (Z.eqb_spec d 0) as [->|]; [destruct (Z.ltb_spec 0 (Z.of_nat (S n))); lia|].
    rewrite IH by (done || lia).
    destruct (Z.ltb_spec (d - 1) (Z.of_nat n)), (Z.ltb_spec d (Z.of_nat (S n))); try lia.
    f_equal. lia.
Qed.

Lemma wbit_set b e d word :
  wf_words b → 0 ≤ e < 4096 → 0 ≤ d < 4096 → b !! Z.to_nat (e / 64) = Some word →
  wbit (<[Z.to_nat (e / 64) := Z.lor word (Z.shiftl 1 (e mod 64))]> b) d =
  bool_decide (d = e) || wbit b d.
Proof.
  intros [Hl _] He Hd Hw. unfold wbit. pose proof (lookup_lt_Some _ _ _ Hw).
  pose proof (Z.mod_pos_bound e 64 eq_refl). pose proof (Z.mod_pos_bound d 64 eq_refl).
  destruct (Z.eq_dec (d / 64) (e / 64)) as [Hq|Hq].
  - rewrite Hq, list_lookup_total_insert_eq, (list_lookup_total_correct _ _ _ Hw) by done.
    rewrite Z.lor_spec, Z.shiftl_1_l, Z.pow2_bits_eqb by lia. rewrite orb_comm. f_equal.
    rewrite bool_decide_decide. case_decide; [subst; apply Z.eqb_refl|].
    apply Z.eqb_neq. Z.div_mod_to_equations. lia.
  - rewrite list_lookup_total_insert_ne by (Z.div_mod_to_equations; lia).
    rewrite bool_decide_false; [done|congruence].
Qed.

(** ** Refinement of the abstract set of accepted counters *)

Lemma repr_new : repr window_new ∅.
Proof.
  split; cbn [largest bits generation window_new]; unfold REPLAY_WINDOW;
    [|unfold_widths; lia|set_solver|lia|unfold_widths; lia|].
  - split; [done|]. apply (Forall_replicate is_u64 64 0). unfold_widths. lia.
  - intros d Hd. rewrite bool_decide_false by set_solver. unfold wbit.
    by rewrite lookup_total_replicate_2, Z.bits_0 by (Z.div_mod_to_equations; lia).
Qed.

Lemma repr_empty w s : repr w s → largest w = 0 → s = ∅.
Proof. intros Hr Hl. apply set_eq. intros c. pose proof (repr_range _ _ Hr c). set_solver by lia. Qed.

Lemma seen_spec w s c :
  repr w s → largest w - REPLAY_WINDOW < c ≤ largest w →
  ∃ word, bits w !! Z.to_nat ((largest w - c) / 64) = Some word ∧
    (Z.land word (Z.shiftl 1 ((largest w - c) mod 64)) =? 0) = bool_decide (c ∉ s).
Proof.
  unfold REPLAY_WINDOW. intros Hr Hc. set (d := largest w - c).
  assert (0 ≤ d < 4096) as Hd by lia. destruct (repr_words _ _ Hr) as [Hl _].
  destruct (lookup_lt_is_Some_2 (bits w) (Z.to_nat (d / 64))) as [word Hw];
    [rewrite Hl; Z.div_mod_to_equations; lia|].
  exists word. split; [done|].
  rewrite land_bit_zero by (apply Z.mod_pos_bound; lia).
  pose proof (repr_bits _ _ Hr d Hd) as Hb. unfold wbit in Hb.
  rewrite (list_lookup_total_correct _ _ _ Hw) in Hb. rewrite Hb.
  replace (largest w - d) with c by lia. by rewrite bool_decide_not.
Qed.

Lemma check_spec w s c :
  repr w s → is_u64 c →
  safe (check w c) ∧ (check w c = Ok () ↔ acceptable s (largest w) c).
Proof.
  intros Hr Hc. pose proof (repr_bounded _ _ Hr) as Hb. pose proof (repr_range _ _ Hr c) as Hs.
  unfold check, acceptable. unfold_widths. unfold sat_add, REPLAY_JUMP_MAX.
  case_match eqn:H1; [split; [done|]; split; [done|lia]|].
  case_match eqn:H2; [split; [done|]; split; [done|unfold u64_max in *; lia]|].
  case_match eqn:H3; [split; [done|]; split; [done|unfold REPLAY_WINDOW, u64_max in *; lia]|].
  case_match eqn:H4.
  - assert (largest w - REPLAY_WINDOW < c ≤ largest w) as Hw
      by (unfold REPLAY_WINDOW, u64_max in *; lia).
    destruct (seen_spec w s c Hr Hw) as (word & Hword & Hseen).
    assert (largest w - c <? REPLAY_WINDOW = true) as -> by lia.
    unfold andM. cbn [mbind outcome_bind]. unfold idx. rewrite Hword. cbn [mbind outcome_bind].
    rewrite Hseen. case_bool_decide; simpl; (split; [done|]); split; try done.
    + intros _. unfold REPLAY_WINDOW in *. split; [lia|]. split; [done|lia].
    + naive_solver.
  - split; [done|]. split; [|done]. intros _. unfold REPLAY_WINDOW, u64_max in *.
    split; [lia|]. split; [naive_solver lia|lia].
Qed.

Lemma check_replay w s c :
  repr w s → is_u64 c → c ∈ s → check w c = Err SessionError.Replay.
Proof.
  intros Hr Hc Hin. destruct (check_spec w s c Hr Hc) as [Hs Hi].
  pose proof (repr_range _ _ Hr c Hin). pose proof (repr_bounded _ _ Hr).
  destruct (check w c) as [[]|e|] eqn:Hk; [by destruct (proj1 Hi eq_refl) as (_ & ? & _)| |done].
  unfold check in Hk. assert ((c =? 0) || (c =? u64_max) = false) as Hz by lia. rewrite Hz in Hk.
  repeat (case_match; try congruence). apply bind_Err in Hk as [Hk|(b & _ & Hk)].
  - unfold andM, idx in Hk. destruct (_ <? REPLAY_WINDOW), (bits w !! _); done.
  - destruct b; congruence.
Qed.

(** The words of the window once the largest counter is [c]. *)
Lemma advance_bits w s c :
  repr w s → largest w < c →
  let b := if REPLAY_WINDOW <=? c - largest w then replicate 64 0
           else shift_window (Z.to_nat (c - largest w)) (bits w) in
  wf_words b ∧ ∀ d, 0 ≤ d < REPLAY_WINDOW → wbit b d = bool_decide (c - d ∈ s).
Proof.
  intros Hr Hc. pose proof (repr_words _ _ Hr) as Hw. cbv zeta.
  destruct (Z.leb_spec REPLAY_WINDOW (c - largest w)) as [Hs|Hs].
  - split; [apply (repr_words _ _ repr_new)|]. intros d Hd.
    transitivity (bool_decide (0 - d ∈ (∅ : gset Z))); [exact (repr_bits _ _ repr_new d Hd)|].
    rewrite !bool_decide_false; [done| |set_solver].
    intros Hin%(repr_range _ _ Hr). lia.
  - split; [by apply wf_shift_window|]. intros d Hd. unfold REPLAY_WINDOW in *.
    rewrite wbit_shift_window by done. rewrite Z2Nat.id by lia.
    destruct (Z.ltb_spec d (c - largest w)).
    + rewrite bool_decide_false; [done|]. intros Hin%(repr_range _ _ Hr). lia.
    + rewrite (repr_bits _ _ Hr) by (unfold REPLAY_WINDOW; lia).
      apply bool_decide_ext. by replace (largest w - (d - (c - largest w))) with (c - d) by lia.
Qed.

Lemma mark_spec w s c :
  repr w s → acceptable s (largest w) c →
  ∃ w', mark w c = Ok w' ∧ repr w' ({[c]} ∪ s) ∧ generation w' = generation w ∧
        largest w' = Z.max (largest w) c.
Proof.
  intros Hr (Hc & Hns & Hw). pose proof (repr_bounded _ _ Hr).
  set (lg := Z.max (largest w) c).
  assert (∃ b, wf_words b ∧ (∀ d, 0 ≤ d < REPLAY_WINDOW → wbit b d = bool_decide (lg - d ∈ s)) ∧
    (if largest w <? c then
      (c, if REPLAY_WINDOW <=? c - largest w then replicate 64 0
          else shift_window (Z.to_nat (c - largest w)) (bits w))
     else (largest w, bits w)) = (lg, b)) as (b & Hb & Hbits & Heq).
  { destruct (Z.ltb_spec (largest w) c).
    - destruct (advance_bits w s c Hr) as [? ?]; [done|]. eexists. split_and!; [done| |].
      + by replace lg with c by lia.
      + f_equal. lia.
    - exists (bits w). split; [apply (repr_words _ _ Hr)|].
      replace lg with (largest w) by lia. split; [apply (repr_bits _ _ Hr)|done]. }
  assert (0 ≤ lg - c < REPLAY_WINDOW) as Hd by (unfold REPLAY_WINDOW in *; lia).
  unfold REPLAY_WINDOW in Hd.
  destruct (lookup_lt_is_Some_2 b (Z.to_nat ((lg - c) / 64))) as [word Hword];
    [destruct Hb as [-> _]; Z.div_mod_to_equations; lia|].
  unfold mark. rewrite Heq. unfold idx. rewrite Hword. cbn [mbind outcome_bind].
  eexists. split; [done|]. split; [|done]. split; simpl.
  - apply wf_words_insert; [done|]. pose proof (wf_words_lookup b (Z.to_nat ((lg - c) / 64)) Hb) as Hr'.
    rewrite (list_lookup_total_correct _ _ _ Hword) in Hr'. apply lor_range; [lia|done|].
    rewrite Z.shiftl_1_l. split; [apply Z.pow_nonneg; lia|].
    apply Z.pow_lt_mono_r; [lia..|]. apply Z.mod_pos_bound. lia.
  - apply (repr_generation _ _ Hr).
  - intros c' [->%elem_of_singleton|Hin%(repr_range _ _ Hr)]%elem_of_union; lia.
  - destruct (repr_largest _ _ Hr) as [H0|Hin]; [right; set_solver by lia|].
    destruct (Z.max_spec (largest w) c) as [[? E]|[? E]]; fold lg in E; rewrite E; set_solver.
  - lia.
  - intros d Hd'. rewrite wbit_set, Hbits by (done || (unfold REPLAY_WINDOW in *; lia)).
    destruct (decide (d = lg - c)) as [->|].
    + rewrite bool_decide_true by done. replace (lg - (lg - c)) with c by lia.
      symmetry. apply bool_decide_true. set_solver.
    + rewrite (bool_decide_false (d = _)) by done. simpl. apply bool_decide_ext.
      assert (lg - d ≠ c) by lia. set_solver.
Qed.

Definition wf_token (t : ReplayCommit) : Prop := is_u64 (rc_counter t) ∧ is_u64 (rc_generation t).

Lemma commit_spec w s t :
  repr w s → wf_token t →
  let '(r, w') := commit w t in
  safe r ∧
  (r = Ok () ↔ acceptable s (largest w) (rc_counter t) ∧
               rc_generation t = generation w ∧ generation w < u64_max) ∧
  (r = Ok () → repr w' ({[rc_counter t]} ∪ s) ∧ generation w' = generation w + 1 ∧
               largest w' = Z.max (largest w) (rc_counter t)) ∧
  (r ≠ Ok () → w' = w).
Proof.
  intros Hr [Hc Hg]. destruct (check_spec w s _ Hr Hc) as [Hsafe Hiff]. unfold commit.
  destruct (Z.eqb_spec (rc_generation t) (generation w)) as [Heq|Hne]; simpl;
    [|split_and!; [done|split; [done|lia]|done..]].
  destruct (check w (rc_counter t)) as [[]|e|] eqn:Hk;
    [|split_and!; [done|split; [done|naive_solver]|done..]|done].
  pose proof (proj1 Hiff eq_refl) as Ha. unfold checked_add.
  destruct (Z.leb_spec (generation w + 1) u64_max); [|split_and!; [done| |done..]; split; [done|lia]].
  destruct (mark_spec w s _ Hr Ha) as (w' & -> & Hr' & Hg' & Hl').
  split_and!; [done|split; [intros _; split_and!; [done..|lia]|done]| |done].
  intros _. split; [|done]. destruct Hr'. split; try done.
  pose proof (repr_generation _ _ Hr). simpl. lia.
Qed.

(** C14: the mutable window implements the set of accepted counters: a counter is accepted
    exactly when it is acceptable to the abstract set (and the generation is not exhausted), an
    accepted counter is added to the set, and a rejected one leaves the window unchanged. *)
Theorem mark_after_auth_refines w s c :
  repr w s → is_u64 c →
  let '(r, w') := mark_after_auth w c in
  safe r ∧
  (r = Ok () ↔ acceptable s (largest w) c ∧ generation w < u64_max) ∧
  (r = Ok () → repr w' ({[c]} ∪ s) ∧ largest w' = Z.max (largest w) c) ∧
  (r ≠ Ok () → w' = w).
Proof.
  intros Hr Hc. destruct (check_spec w s c Hr Hc) as [Hsafe Hiff].
  unfold mark_after_auth, preview.
  destruct (check w c) as [[]|e|] eqn:Hk; cbn [mbind outcome_bind];
    [|split_and!; [done|split; [done|naive_solver]|done..]|done].
  pose proof (repr_generation _ _ Hr).
  pose proof (commit_spec w s (mkCommit c (generation w)) Hr) as Hs.
  destruct (commit w _) as [r w']. destruct Hs as (?&Hok&?&?); [by split|]. simpl in *.
  split_and!; [done| |naive_solver|done]. rewrite Hok. naive_solver.
Qed.

Lemma mark_after_auth_refines_witness :
  snd (mark_after_auth window_new 7) ≠ window_new ∧
  fst (mark_after_auth (snd (mark_after_auth window_new 7)) 7) = Err SessionError.Replay ∧
  repr (snd (mark_after_auth window_new 7)) ({[7]} ∪ ∅).
Proof.
  split; [by vm_compute|]. split; [by vm_compute|].
  pose proof (mark_after_auth_refines window_new ∅ 7 repr_new ltac:(compute_decide)) as H.
  destruct (mark_after_auth window_new 7) as [r w'] eqn:E.
  destruct H as (_ & _ & H & _). apply H.
  change r with (fst (r, w')). rewrite <-E. by vm_compute.
Defined.

(** A receiver that is handed any sequence of commit tokens, and the counters it accepts. *)
Fixpoint commits (w : ReplayWindow) (ts : list ReplayCommit) : list Z * ReplayWindow :=
  match ts with
  | [] => ([], w)
  | t :: ts =>
      let '(r, w1) := commit w t in
      let '(acc, w2) := commits w1 ts in
      (if is_ok r then rc_counter t :: acc else acc, w2)
  end.

Lemma commits_spec ts w s :
  repr w s → Forall wf_token ts →
  let '(acc, w') := commits w ts in
  NoDup acc ∧ (∀ c, c ∈ acc → c ∉ s) ∧ repr w' (list_to_set acc ∪ s) ∧
  generation w ≤ generation w'.
Proof.
  revert w s. induction ts as [|t ts IH]; intros w s Hr Hts; cbn [commits].
  { split_and!; [constructor|set_solver| |lia]. by rewrite list_to_set_nil, union_empty_l_L. }
  apply Forall_cons in Hts as [Ht Hts].
  pose proof (commit_spec w s t Hr Ht) as Hc. destruct (commit w t) as [r w1].
  destruct Hc as (Hsafe & Hiff & Hok & Herr).
  destruct r as [[]|e|]; [|rewrite (Herr ltac:(done)); specialize (IH w s Hr Hts);
    by destruct (commits w ts)|done].
  destruct (Hok eq_refl) as (Hr1 & Hg & _). specialize (IH w1 _ Hr1 Hts).
  destruct (commits w1 ts) as [acc w2]. destruct IH as (Hnd & Hdisj & Hr2 & Hg2).
  pose proof (proj1 Hiff eq_refl) as ((_ & Hns & _) & _). cbn [is_ok].
  split_and!; [constructor; [set_solver|done]|set_solver| |lia].
  rewrite list_to_set_cons.
  by replace ({[rc_counter t]} ∪ list_to_set acc ∪ s : gset Z)
    with (list_to_set acc ∪ ({[rc_counter t]} ∪ s) : gset Z) by set_solver.
Qed.

(** Whatever commit tokens a receiver is handed, in whatever order and however often, no
    counter is accepted twice. *)
Theorem accepted_counters_nodup ts :
  Forall wf_token ts → NoDup (fst (commits window_new ts)).
Proof.
  intros H. pose proof (commits_spec ts window_new ∅ repr_new H) as Hs.
  destruct (commits window_new ts). apply Hs.
Qed.

Lemma accepted_counters_nodup_witness :
  let ts := [mkCommit 5 0; mkCommit 5 1; mkCommit 3 1; mkCommit 3 2; mkCommit 6 2] in
  fst (commits window_new ts) = [5; 3; 6] ∧ NoDup (fst (commits window_new ts)).
Proof.
  split; [by vm_compute|]. apply accepted_counters_nodup.
  repeat constructor; unfold_widths; simpl; lia.
Defined.

(** Preview tokens are single use: once one token of a window was committed, no other token
    taken from the same window is ever accepted, whatever was committed in between. *)
Theorem stale_token_rejected w s t t' w1 ts :
  repr w s → wf_token t → Forall wf_token ts →
  commit w t = (Ok (), w1) → rc_generation t' = rc_generation t →
  commit (snd (commits w1 ts)) t' = (Err SessionError.Replay, snd (commits w1 ts)).
Proof.
  intros Hr Ht Hts Hc Hg. pose proof (commit_spec w s t Hr Ht) as Hs. rewrite Hc in Hs.
  destruct Hs as (_ & Hiff & Hok & _). destruct (Hok eq_refl) as (Hr1 & Hg1 & _).
  pose proof (proj1 Hiff eq_refl) as (_ & Ht' & _).
  pose proof (commits_spec ts w1 _ Hr1 Hts) as Hs. destruct (commits w1 ts) as [acc w2].
  destruct Hs as (_ & _ & _ & Hle). unfold commit, snd.
  by destruct (Z.eqb_spec (rc_generation t') (generation w2)); [lia|].
Qed.

Lemma stale_token_rejected_witness :
  let w1 := snd (commit window_new (mkCommit 2 0)) in
  let w2 := snd (commits w1 [mkCommit 9 1]) in
  largest w2 = 9 ∧ commit w2 (mkCommit 1 0) = (Err SessionError.Replay, w2).
Proof.
  split; [by vm_compute|].
  apply (stale_token_rejected window_new ∅ (mkCommit 2 0)); [apply repr_new|..].
  - compute_decide.
  - repeat constructor; unfold_widths; simpl; lia.
  - by vm_compute.
  - done.
Defined.

(** A sender that reserves [n] counters, each delivered in order. *)
Fixpoint in_order (n : nat) (c : Counters) (w : ReplayWindow) : option (Counters * ReplayWindow) :=
  match n with
  | O => Some (c, w)
  | S n =>
      match in_order n c w with
      | Some (c, w) =>
          let '(r, c') := reserve c in
          match r with
          | Ok counter =>
              let '(r, w') := mark_after_auth w counter in
              match r with Ok _ => Some (c', w') | _ => None end
          | _ => None
          end
      | None => None
      end
  end.

(** The counters a sender reserves are exactly 1, 2, 3, ... and a receiver accepts all of
    them when they arrive in order, up to the exhaustion of the 64-bit counter. *)
Theorem reserved_counters_accepted n :
  Z.of_nat n < u64_max →
  ∃ w s, in_order n counters_new window_new = Some (mkCounters (Z.of_nat n + 1), w) ∧
    repr w s ∧ largest w = Z.of_nat n ∧ generation w = Z.of_nat n ∧
    ∀ c, c ∈ s ↔ 1 ≤ c ≤ Z.of_nat n.
Proof.
  induction n as [|n IH]; intros Hn.
  { exists window_new, ∅. split_and!; [done|apply repr_new|done..|set_solver by lia]. }
  destruct IH as (w & s & Hrun & Hr & Hl & Hg & Hs); [lia|]. cbn [in_order]. rewrite Hrun.
  unfold reserve, next.
  assert ((Z.of_nat n + 1 =? 0) || (Z.of_nat n + 1 =? u64_max) = false) as -> by lia.
  assert (is_u64 (Z.of_nat n + 1)) as Hc by (unfold is_u64; lia).
  assert (acceptable s (largest w) (Z.of_nat n + 1)) as Ha.
  { split_and!; [lia..|rewrite Hs; lia|]. right. unfold REPLAY_JUMP_MAX, REPLAY_WINDOW. lia. }
  pose proof (check_spec w s _ Hr Hc) as [_ [_ Hk]]. unfold mark_after_auth, preview.
  rewrite (Hk Ha). cbn [mbind outcome_bind].
  pose proof (commit_spec w s (mkCommit (Z.of_nat n + 1) (generation w)) Hr) as Hm.
  destruct (commit w _) as [r w']. destruct Hm as (_ & Hiff & Hok & _).
  { split; [done|]. apply (repr_generation _ _ Hr). }
  cbn [rc_counter rc_generation] in *.
  assert (r = Ok ()) as -> by (apply Hiff; split_and!; [done..|lia]).
  destruct (Hok eq_refl) as (Hr' & Hg' & Hl'). eexists w', _.
  split_and!; [repeat f_equal; lia|done|lia..|]. intros c. set_unfold. rewrite Hs. lia.
Qed.

Lemma reserved_counters_accepted_witness :
  ∃ w, in_order 5 counters_new window_new = Some (mkCounters 6, w) ∧ bits w !! 0%nat = Some 31.
Proof.
  destruct (reserved_counters_accepted 5) as (w & s & H & _); [done|].
  exists w. split; [exact H|]. vm_compute in H. by injection H as <-.
Defined.
