(* ===== verification/SessionCrypto.v ===== *)
(** * Cookies, transcripts, key schedule and packet protection

    The cryptographic layer of src/rust/crates/r8-session/src/lib.rs, from
    [CookieContext] to [open], over the primitives of the class [Crypto]. *)

From S2P Require Import Prelude Wire Checksum Codec Crypto SessionMsg.

(** [ct_eq] on arrays of the same length is equality. *)
Abbreviation ct_eq := beq.

Record CookieContext : Set := mkCookieContext {
  cc_binding : ObservedBinding;
  cc_client : Identity;
  cc_server : Identity;
  cc_scid : Z;
  cc_client_ephemeral : bytes;
  cc_boot : bytes;
  cc_bucket : Z;
  cc_server_context_id : Z;
}.

Definition wf_cookie_context (c : CookieContext) : Prop :=
  wf_binding (cc_binding c) ∧ wf_identity (cc_client c) ∧ wf_identity (cc_server c) ∧
  is_u64 (cc_scid c) ∧ wf_array 32 (cc_client_ephemeral c) ∧ wf_array 16 (cc_boot c) ∧
  is_u64 (cc_bucket c) ∧ is_u32 (cc_server_context_id c).

#[export] Instance wf_cookie_context_dec c : Decision (wf_cookie_context c).
Proof. apply _. Defined.

(** [CookieContext { bucket, ..context }] *)
Definition with_bucket (b : Z) (c : CookieContext) : CookieContext :=
  mkCookieContext (cc_binding c) (cc_client c) (cc_server c) (cc_scid c)
    (cc_client_ephemeral c) (cc_boot c) b (cc_server_context_id c).

Record TranscriptContext : Set := mkTranscriptContext {
  tx_profile : Z;
  tx_scid : Z;
  tx_client : Identity;
  tx_server : Identity;
  tx_client_ephemeral : bytes;
  tx_server_ephemeral : bytes;
  tx_client_nonce : bytes;
  tx_server_nonce : bytes;
  tx_boot : bytes;
}.

Definition wf_transcript_context (c : TranscriptContext) : Prop :=
  is_u8 (tx_profile c) ∧ is_u64 (tx_scid c) ∧
  wf_identity (tx_client c) ∧ wf_identity (tx_server c) ∧
  wf_array 32 (tx_client_ephemeral c) ∧ wf_array 32 (tx_server_ephemeral c) ∧
  wf_array 32 (tx_client_nonce c) ∧ wf_array 32 (tx_server_nonce c) ∧ wf_array 16 (tx_boot c).

#[export] Instance wf_transcript_context_dec c : Decision (wf_transcript_context c).
Proof. apply _. Defined.

Section Definitions.
Context `{C : Crypto}.

(** ** Cookies *)

Definition cookie_input (c : CookieContext) : outcome SessionError.t bytes :=
  identity_validate (cc_client c) ;;
  identity_validate (cc_server c) ;;
  if cc_server_context_id c =? 0 then Err SessionError.ConfigError else
  binding_validate (cc_binding c) ;;
  Ok (ascii_bytes "R8 cookie v1" ++
      binding_encode (cc_binding c) ++
      [WIRE_VERSION; SESSION_VERSION; id_role (cc_client c); id_role (cc_server c)] ++
      be_bytes 4 (id_service_context (cc_client c)) ++
      be_bytes 8 (cc_scid c) ++
      id_eid (cc_client c) ++
      sha256 (id_public_key (cc_client c)) ++
      sha256 (cc_client_ephemeral c) ++
      cc_boot c ++
      be_bytes 8 (cc_bucket c) ++
      be_bytes 4 (cc_server_context_id c)).

Definition cookie (key input : bytes) : bytes := hmac_sha256 key input.

Definition cookie_matches (current previous supplied input : bytes) : bool :=
  ct_eq (cookie current input) supplied || ct_eq (cookie previous input) supplied.

Definition cookie_matches_buckets (current_key previous_key : bytes) (previous_key_rotated_ms : Z)
    (supplied : bytes) (context : CookieContext) (now_ms : Z) : outcome SessionError.t bool :=
  let current_bucket := now_ms / 10000 in
  current_input ← cookie_input (with_bucket current_bucket context);
  let current_match := ct_eq (cookie current_key current_input) supplied in
  prior_match ←
    match checked_sub current_bucket 1 with
    | Some bucket =>
        input ← cookie_input (with_bucket bucket context);
        Ok (ct_eq (cookie current_key input) supplied)
    | None => Ok false
    end;
  prior_key_match ←
    (if sat_sub now_ms previous_key_rotated_ms <=? 20000 then
       let current := ct_eq (cookie previous_key current_input) supplied in
       prior ←
         match checked_sub current_bucket 1 with
         | Some bucket =>
             input ← cookie_input (with_bucket bucket context);
             Ok (ct_eq (cookie previous_key input) supplied)
         | None => Ok false
         end;
       Ok (current || prior)
     else Ok false);
  Ok (current_match || prior_match || prior_key_match).

(** ** Transcripts and signatures *)

Definition zero_key : bytes := replicate 32 0.

Definition transcript_t0 (c : TranscriptContext) : outcome SessionError.t bytes :=
  identity_validate (tx_client c) ;;
  if negb (role_ok (id_role (tx_server c))) || (id_service_context (tx_server c) =? 0)
  then Err SessionError.RoleMismatch else
  if negb (beq (id_public_key (tx_server c)) zero_key) &&
     negb (ct_eq (eid (id_public_key (tx_server c))) (id_eid (tx_server c)))
  then Err SessionError.EidKeyMismatch else
  if negb (id_service_context (tx_client c) =? id_service_context (tx_server c))
  then Err SessionError.ServiceMismatch else
  Ok (ascii_bytes "R8 session transcript v1" ++
      [WIRE_VERSION; tx_profile c] ++
      be_bytes 8 (tx_scid c) ++
      [id_role (tx_client c); id_role (tx_server c)] ++
      be_bytes 4 (id_service_context (tx_client c)) ++
      id_eid (tx_client c) ++ id_public_key (tx_client c) ++
      id_eid (tx_server c) ++ id_public_key (tx_server c) ++
      tx_client_ephemeral c ++ tx_server_ephemeral c ++
      tx_client_nonce c ++ tx_server_nonce c ++ tx_boot c).

Definition OPEN_AUTH_DOMAIN : bytes := ascii_bytes "R8 OPEN_AUTH v1".
Definition OPEN_ACK_DOMAIN : bytes := ascii_bytes "R8 OPEN_ACK v1".

Definition sign (key domain t0 : bytes) : bytes := ed25519_sign key (domain ++ t0).
Definition sign_open_auth (key t0 : bytes) : bytes := sign key OPEN_AUTH_DOMAIN t0.
Definition sign_open_ack (key t0 : bytes) : bytes := sign key OPEN_ACK_DOMAIN t0.

Definition verify_signature (public_key domain t0 signature : bytes) :
    outcome SessionError.t unit :=
  if negb (ed25519_key_ok public_key) then Err SessionError.PinMismatch else
  if ed25519_verify public_key (domain ++ t0) signature then Ok ()
  else Err SessionError.AuthFailed.

Definition transcript_hash (t0 client_signature server_signature : bytes) : bytes :=
  sha256 (t0 ++ client_signature ++ server_signature).

(** ** Key schedule *)

Definition x25519 (secret peer : bytes) : outcome SessionError.t bytes :=
  let shared := x25519_dh secret peer in
  if ct_eq shared zero_key then Err SessionError.AuthFailed else Ok shared.

Definition hkdf_prk (shared transcript_hash : bytes) : bytes := hkdf_extract transcript_hash shared.

Definition derive_key_from_prk (prk transcript_hash : bytes)
    (profile sender_role receiver_role slot : Z) : outcome SessionError.t bytes :=
  if negb (role_ok sender_role) || negb (role_ok receiver_role) ||
     (sender_role =? receiver_role) || (1 <? slot)
  then Err SessionError.ConfigError else
  let info :=
    ascii_bytes "R8 key v1" ++ [WIRE_VERSION; SESSION_VERSION; profile] ++ transcript_hash ++
    [sender_role; receiver_role; slot] in
  ok_or (hkdf_expand prk info) SessionError.ConfigError.

Definition derive_key (shared transcript_hash : bytes)
    (profile sender_role receiver_role slot : Z) : outcome SessionError.t bytes :=
  derive_key_from_prk (hkdf_prk shared transcript_hash) transcript_hash
    profile sender_role receiver_role slot.

(** ** Packet protection *)

Definition nonce (counter : Z) : outcome SessionError.t bytes :=
  if (counter =? 0) || (counter =? u64_max) then Err SessionError.CounterRange else
  copy_slice (replicate 12 0) 4 12 (be_bytes 8 counter).

Definition protected_aad (packet : bytes) (counter : Z) : outcome SessionError.t bytes :=
  if len packet <? HEADER_LEN + 12 then Err SessionError.Truncated else
  map_err (λ _, SessionError.AuthFailed) (unpack packet) ;;
  aad ← slice packet 0 (Z.to_nat (HEADER_LEN + 4));
  aad ← idx_set aad 5 0;
  Ok (aad ++ be_bytes 8 counter).

Definition seal (key : bytes) (counter : Z) (aad plaintext : bytes) :
    outcome SessionError.t bytes :=
  n ← nonce counter;
  '(data, tag) ← ok_or (aead_encrypt key n aad plaintext) SessionError.AuthFailed;
  Ok (data ++ tag).

Definition open (key : bytes) (counter : Z) (aad ciphertext : bytes) :
    outcome SessionError.t bytes :=
  if len ciphertext <? 16 then Err SessionError.Truncated else
  n ← nonce counter;
  let split := (length ciphertext - 16)%nat in
  data ← slice ciphertext 0 split;
  tag ← slice_from ciphertext split;
  ok_or (aead_decrypt key n aad data tag) SessionError.AuthFailed.

End Definitions.

(** ** Theorems *)

Section Theorems.
Context `{C : Crypto} {L : CryptoLaws C}.

Lemma nonce_Ok c :
  0 < c < u64_max → nonce c = Ok (replicate 4 0 ++ be_bytes 8 c).
Proof.
  intros Hc. unfold nonce. assert ((c =? 0) || (c =? u64_max) = false) as -> by lia.
  rewrite copy_slice_Ok; [|simpl; lia|by rewrite length_be_bytes]. by rewrite app_nil_r.
Qed.

Lemma nonce_inv c n : nonce c = Ok n → c ≠ 0 ∧ c ≠ u64_max.
Proof. unfold nonce. intros H. inv_ok. lia. Qed.

Lemma safe_nonce c : safe (nonce c).
Proof.
  unfold nonce. case_match; [done|]. rewrite copy_slice_Ok; [done|simpl; lia|].
  by rewrite length_be_bytes.
Qed.

Lemma seal_open_aux key counter aad pt :
  wf_array 32 key → 0 < counter < u64_max → wf_bytes aad → wf_bytes pt → len pt ≤ u16_max →
  ∃ ct, seal key counter aad pt = Ok ct ∧ open key counter aad ct = Ok pt ∧
        length ct = (length pt + 16)%nat ∧ wf_bytes ct.
Proof.
  intros Hk Hc Ha Hp Hl. unfold seal, open. rewrite (nonce_Ok counter) by done.
  set (n := replicate 4 0 ++ be_bytes 8 counter).
  assert (wf_array 12 n) as Hn by (split; [by vm_compute|unfold n; solve_wf]).
  destruct (aead_encrypt_total key n aad pt) as (ct & tag & He & [Hct Hwc] & [Htag Hwt]); [done..|].
  exists (ct ++ tag). cbn [mbind outcome_bind]. rewrite He. split; [done|].
  assert (length (ct ++ tag) = (length pt + 16)%nat) as Hlen by (rewrite length_app; lia).
  split; [|split; [done|solve_wf]].
  assert (len (ct ++ tag) <? 16 = false) as -> by (unfold len; lia). rewrite Hlen.
  replace (length pt + 16 - 16)%nat with (length ct) by lia.
  rewrite slice_Ok, slice_from_Ok by (rewrite length_app; lia). cbn [mbind outcome_bind].
  rewrite drop_0, Nat.sub_0_r, take_app_length, drop_app_length.
  by rewrite (aead_decrypt_encrypt _ _ _ _ _ _ He).
Qed.

(** *** Injectivity of the signed and authenticated byte strings *)

Lemma udp_valid_shape b :
  udp_valid b = Ok true →
  (∃ r, b = 1 :: 4 :: r ∧ length b = 25%nat) ∨ (∃ r, b = 1 :: 6 :: r ∧ length b = 37%nat).
Proof.
  unfold udp_valid. destruct b as [|v [|f r]]; [done..|].
  destruct ((v =? 1) && (f =? 4)) eqn:H4; [|destruct ((v =? 1) && (f =? 6)) eqn:H6; [|done]].
  - apply andb_prop in H4 as [->%Z.eqb_eq ->%Z.eqb_eq]. intros H. left. exists r. split; [done|].
    remember (len (1 :: 4 :: r)) as n eqn:Hn. do 7 (destruct r as [|? r]; [done|]).
    injection H as H. apply andb_prop in H as [[->%Z.eqb_eq _]%andb_prop _].
    by apply Nat2Z.inj.
  - apply andb_prop in H6 as [->%Z.eqb_eq ->%Z.eqb_eq]. intros H. right. exists r. split; [done|].
    destruct (Z.eqb_spec (len (1 :: 6 :: r)) 37) as [Hl|]; [|done].
    by apply Nat2Z.inj.
Qed.

Lemma udp_parse_shape b u :
  udp_parse b = Ok u →
  (∃ r, b = 1 :: 4 :: r ∧ length b = 25%nat) ∨ (∃ r, b = 1 :: 6 :: r ∧ length b = 37%nat).
Proof.
  unfold udp_parse. intros H. inv_ok. apply udp_valid_shape.
  match goal with H : negb ?x = false |- _ => apply negb_false_iff in H; by subst end.
Qed.

(** The encodings of valid bindings are prefix-free. *)
Lemma binding_encode_prefix b1 b2 r1 r2 :
  wf_binding b1 → wf_binding b2 →
  binding_validate b1 = Ok () → binding_validate b2 = Ok () →
  binding_encode b1 ++ r1 = binding_encode b2 ++ r2 → b1 = b2 ∧ r1 = r2.
Proof.
  intros Hw1 Hw2 Hv1 Hv2 Heq.
  destruct b1 as [[u1]|i1 m1], b2 as [[u2]|i2 m2]; unfold binding_validate, as_bytes in Hv1, Hv2;
    cbn [binding_encode as_bytes] in Heq.
  - destruct (udp_parse u1) eqn:H1, (udp_parse u2) eqn:H2; try done.
    assert (length u1 = length u2) as Hl.
    { destruct (udp_parse_shape _ _ H1) as [(?&->&->)|(?&->&->)],
        (udp_parse_shape _ _ H2) as [(?&->&->)|(?&->&->)]; done. }
    destruct (app_inj_len _ _ _ _ Hl Heq) as [-> ->]. done.
  - destruct (udp_parse u1) eqn:H1; try done.
    destruct (udp_parse_shape _ _ H1) as [(?&->&_)|(?&->&_)]; done.
  - destruct (udp_parse u2) eqn:H2; try done.
    destruct (udp_parse_shape _ _ H2) as [(?&->&_)|(?&->&_)]; done.
  - destruct Hw1 as [Hi1 [Hm1 _]], Hw2 as [Hi2 [Hm2 _]].
    rewrite <-!app_assoc in Heq. apply app_inj_len in Heq as [_ Heq]; [|done].
    apply app_inj_len in Heq as [Hi Heq]; [|by rewrite !length_be_bytes].
    apply app_inj_len in Heq as [-> ->]; [|lia].
    apply be_bytes_inj in Hi as ->; [done|unfold_widths; simpl; lia..].
Qed.

(** The authenticated cookie input is unambiguous: two contexts with the same input agree on
    the carrier binding, the roles, the service, the session id, the client's EID, boot instance,
    time bucket and server context, and on the digests of both client keys. *)
Theorem cookie_input_unambiguous c1 c2 input :
  wf_cookie_context c1 → wf_cookie_context c2 →
  cookie_input c1 = Ok input → cookie_input c2 = Ok input →
  cc_binding c1 = cc_binding c2 ∧
  id_role (cc_client c1) = id_role (cc_client c2) ∧
  id_role (cc_server c1) = id_role (cc_server c2) ∧
  id_service_context (cc_client c1) = id_service_context (cc_client c2) ∧
  cc_scid c1 = cc_scid c2 ∧ id_eid (cc_client c1) = id_eid (cc_client c2) ∧
  sha256 (id_public_key (cc_client c1)) = sha256 (id_public_key (cc_client c2)) ∧
  sha256 (cc_client_ephemeral c1) = sha256 (cc_client_ephemeral c2) ∧
  cc_boot c1 = cc_boot c2 ∧ cc_bucket c1 = cc_bucket c2 ∧
  cc_server_context_id c1 = cc_server_context_id c2.
Proof.
  intros (Hb1&(?&?&[]&[? Hp1])&_&?&[? He1]&[]&?&?) (Hb2&(?&?&[]&[? Hp2])&_&?&[? He2]&[]&?&?) HI1 HI2.
  unfold cookie_input in HI1, HI2. inv_ok. subst input.
  repeat match goal with u : () |- _ => destruct u end.
  match goal with H : _ ++ _ = _ ++ _ |- _ => rename H into Heq end.
  apply app_inj_len in Heq as [_ Heq]; [|done].
  apply binding_encode_prefix in Heq as [? Heq]; [|done..].
  destruct (sha256_array _ Hp1), (sha256_array _ Hp2), (sha256_array _ He1), (sha256_array _ He2).
  peel Heq. inj_be. simplify_eq. split_and!; congruence.
Qed.

(** The transcript is an injective encoding of its context: a signature over a transcript
    binds the profile, the session id, both identities, both ephemeral keys, both nonces and the
    server's boot instance. *)
Theorem transcript_t0_injective c1 c2 t0 :
  wf_transcript_context c1 → wf_transcript_context c2 →
  transcript_t0 c1 = Ok t0 → transcript_t0 c2 = Ok t0 → c1 = c2.
Proof.
  intros (?&?&(?&?&[]&[])&(?&?&[]&[])&[]&[]&[]&[]&[]) (?&?&(?&?&[]&[])&(?&?&[]&[])&[]&[]&[]&[]&[]) HI1 HI2.
  unfold transcript_t0 in HI1, HI2. inv_ok. subst t0.
  match goal with H : _ ++ _ = _ ++ _ |- _ => rename H into Heq end.
  peel Heq. inj_be. destruct c1 as [?? [????] [????] ?????], c2 as [?? [????] [????] ?????].
  simpl in *.
  repeat match goal with
  | H : negb (_ =? _) = false |- _ => apply negb_false_iff, Z.eqb_eq in H
  end. simplify_eq. done.
Qed.

(** *** Cookie freshness *)

Lemma cookie_input_bucket c b1 b2 :
  is_ok (cookie_input (with_bucket b1 c)) = is_ok (cookie_input (with_bucket b2 c)).
Proof.
  unfold cookie_input, with_bucket.
  cbn [cc_client cc_server cc_server_context_id cc_binding].
  destruct (identity_validate (cc_client c)); cbn [mbind outcome_bind]; [|done..].
  destruct (identity_validate (cc_server c)); cbn [mbind outcome_bind]; [|done..].
  case_match; [done|]. by destruct (binding_validate (cc_binding c)).
Qed.

(** The keys the server accepts a cookie under, and the time buckets. *)
Definition accepted_key (current previous : bytes) (rotated now : Z) (key : bytes) : Prop :=
  key = current ∨ (key = previous ∧ now - rotated ≤ 20000).
Definition accepted_bucket (now bucket : Z) : Prop :=
  0 ≤ bucket ∧ now / 10000 - 1 ≤ bucket ≤ now / 10000.

Lemma cookie_matches_buckets_spec current previous rotated supplied c now :
  is_ok (cookie_input c) = true → 0 ≤ now →
  ∃ b, cookie_matches_buckets current previous rotated supplied c now = Ok b ∧
    (b = true ↔ ∃ key bucket input,
      accepted_key current previous rotated now key ∧ accepted_bucket now bucket ∧
      cookie_input (with_bucket bucket c) = Ok input ∧ supplied = cookie key input).
Proof.
  intros Hok Hnow. unfold cookie_matches_buckets, accepted_key, accepted_bucket.
  assert (∀ b, ∃ i, cookie_input (with_bucket b c) = Ok i) as Hin.
  { intros b. replace c with (with_bucket (cc_bucket c) c) in Hok by by destruct c.
    rewrite (cookie_input_bucket c _ b) in Hok. destruct (cookie_input (with_bucket b c)); eauto; done. }
  assert (0 ≤ now / 10000) by (apply Z.div_pos; lia).
  destruct (Hin (now / 10000)) as [i0 Hi0]. rewrite Hi0. cbn [mbind outcome_bind].
  assert ((sat_sub now rotated <=? 20000) = bool_decide (now - rotated ≤ 20000)) as ->.
  { unfold sat_sub. case_bool_decide; lia. }
  assert (∀ key b i, accepted_key current previous rotated now key → accepted_bucket now b →
    cookie_input (with_bucket b c) = Ok i → cookie key i = supplied →
    ∃ key bucket input, accepted_key current previous rotated now key ∧
      accepted_bucket now bucket ∧ cookie_input (with_bucket bucket c) = Ok input ∧
      supplied = cookie key input) as Hex by (intros; subst; eauto 10).
  unfold accepted_key, accepted_bucket in Hex.
  unfold checked_sub. destruct (Z.leb_spec 1 (now / 10000)).
  - destruct (Hin (now / 10000 - 1)) as [i1 Hi1]. rewrite Hi1. cbn [mbind outcome_bind].
    case_bool_decide; cbn [mbind outcome_bind]; (eexists; split; [done|]);
      rewrite ?orb_true_iff, ?beq_true; (split;
      [intros Hd; destruct_or? Hd; try done;
         (eapply Hex; [|..|exact Hd]; [|..|eassumption]; [naive_solver|lia])|]);
      intros (key & b & i & Hkey & Hb & Hi & ->);
      (assert (b = now / 10000 ∨ b = now / 10000 - 1) as [->| ->] by lia);
      first [assert (i = i0) as -> by congruence | assert (i = i1) as -> by congruence];
      destruct Hkey as [->|[-> ?]]; try lia; tauto.
  - cbn [mbind outcome_bind].
    case_bool_decide; cbn [mbind outcome_bind]; (eexists; split; [done|]);
      rewrite ?orb_true_iff, ?beq_true; (split;
      [intros Hd; destruct_or? Hd; try done;
         (eapply Hex; [|..|exact Hd]; [|..|eassumption]; [naive_solver|lia])|]);
      intros (key & b & i & Hkey & Hb & Hi & ->);
      (assert (b = now / 10000) as -> by lia);
      assert (i = i0) as -> by congruence;
      destruct Hkey as [->|[-> ?]]; try lia; tauto.
Qed.

(** A supplied cookie is accepted exactly when it is the HMAC of the context at the current or
    the previous ten-second bucket, under the current key or, for twenty seconds after the
    rotation, under the previous key. *)
Theorem cookie_matches_buckets_iff current previous rotated supplied c now :
  is_ok (cookie_input c) = true → 0 ≤ now →
  ∃ b, cookie_matches_buckets current previous rotated supplied c now = Ok b ∧
    (b = true ↔ ∃ key bucket input,
      accepted_key current previous rotated now key ∧ accepted_bucket now bucket ∧
      cookie_input (with_bucket bucket c) = Ok input ∧ supplied = cookie key input).
Proof. apply cookie_matches_buckets_spec. Qed.

(** *** Associated data *)

(** [h] with its hop limit replaced. *)
Definition with_hop (n : Z) (h : Header) : Header :=
  mkHeader (profile h) (tc h) (next_header h) n (flags h) (path_slot h) (scid h) (src h) (dst h).

(** The associated data is the header with a zero hop limit, the message envelope and the
    counter. *)
Lemma protected_aad_layout h payload counter :
  wf_header h → validate_header h payload = Ok () → 12 ≤ len payload →
  HEADER_LEN + len payload ≤ SERIALIZED_R8_MAX →
  protected_aad (header_bytes h (len payload) ++ payload) counter =
  Ok (header_bytes (with_hop 0 h) (len payload) ++ take 4 payload ++ be_bytes 8 counter).
Proof.
  intros Hh Hv Hl Hm. pose proof (length_header_bytes h (len payload) Hh) as Hhl.
  destruct (validate_header_inv _ _ Hv). unfold protected_aad, unpack.
  rewrite unpack_layout by (done || lia). rewrite Hv. cbn [mbind outcome_bind map_err].
  assert (len (header_bytes h (len payload) ++ payload) <? HEADER_LEN + 12 = false) as ->.
  { rewrite len_app. unfold len at 1. rewrite Hhl. apply Z.ltb_ge. unfold HEADER_LEN. lia. }
  assert (4 ≤ length payload)%nat by (unfold len in Hl; lia).
  rewrite slice_Ok by (rewrite length_app, Hhl; unfold HEADER_LEN; simpl; lia).
  cbn [mbind outcome_bind]. rewrite drop_0.
  replace (Z.to_nat (HEADER_LEN + 4) - 0)%nat with (length (header_bytes h (len payload)) + 4)%nat
    by (rewrite Hhl; done).
  rewrite take_app_add, idx_set_Ok by (rewrite length_app, Hhl; lia).
  cbn [mbind outcome_bind]. rewrite insert_app_l by lia. by rewrite <-app_assoc.
Qed.

Lemma safe_protected_aad packet counter : safe (unpack packet) → safe (protected_aad packet counter).
Proof.
  intros Hu. unfold protected_aad. case_match eqn:Hl; [done|].
  assert (60 ≤ length packet)%nat by (unfold HEADER_LEN, len in Hl; lia).
  unfold HEADER_LEN in *. apply safe_bind; [by apply safe_map_err|]. intros _ _.
  rewrite slice_Ok by (simpl; lia). cbn [mbind outcome_bind]. rewrite drop_0.
  rewrite idx_set_Ok by (rewrite length_take; lia). done.
Qed.

End Theorems.

(** ** Concrete instances *)

Definition demo_client_key : bytes := replicate 31 0 ++ [17].
Definition demo_server_key : bytes := replicate 31 0 ++ [34].
Definition demo_client_id : Identity :=
  mkIdentity 1 7 (eid (ed25519_public demo_client_key)) (ed25519_public demo_client_key).
Definition demo_server_id : Identity :=
  mkIdentity 2 7 (eid (ed25519_public demo_server_key)) (ed25519_public demo_server_key).
Definition demo_binding : ObservedBinding := Native 7 [2; 0; 0; 0; 0; 9].
Definition demo_cookie_context : CookieContext :=
  mkCookieContext demo_binding demo_client_id demo_server_id 99 (replicate 32 5)
    (replicate 16 6) 3 12.
Definition demo_transcript : TranscriptContext :=
  mkTranscriptContext 0 99 demo_client_id demo_server_id (replicate 32 5) (replicate 32 8)
    (replicate 32 1) (replicate 32 2) (replicate 16 6).

Lemma wf_demo_cookie_context : wf_cookie_context demo_cookie_context.
Proof. compute_decide. Qed.

Lemma cookie_input_unambiguous_witness :
  ∃ input, cookie_input demo_cookie_context = Ok input ∧
    cc_binding demo_cookie_context = demo_binding.
Proof.
  destruct (cookie_input demo_cookie_context) as [i| |] eqn:E; [|by vm_compute in E..].
  exists i. split; [done|].
  apply (cookie_input_unambiguous demo_cookie_context demo_cookie_context i);
    [apply wf_demo_cookie_context..|done|done].
Defined.

Lemma transcript_t0_injective_witness :
  is_ok (transcript_t0 demo_transcript) = true ∧ demo_transcript = demo_transcript.
Proof.
  destruct (transcript_t0 demo_transcript) as [t| |] eqn:E; [|by vm_compute in E..].
  split; [done|].
  apply (transcript_t0_injective demo_transcript demo_transcript t);
    [compute_decide|compute_decide|done|done].
Defined.

Definition demo_cookie (key : bytes) (bucket : Z) : bytes :=
  match cookie_input (with_bucket bucket demo_cookie_context) with
  | Ok i => cookie key i | _ => [] end.

Lemma demo_cookie_input key bucket :
  ∃ i, cookie_input (with_bucket bucket demo_cookie_context) = Ok i ∧
       demo_cookie key bucket = cookie key i.
Proof.
  assert (is_ok (cookie_input (with_bucket bucket demo_cookie_context)) = true) as H
    by (rewrite (cookie_input_bucket _ _ 3); by vm_compute).
  unfold demo_cookie. destruct (cookie_input _) as [i| |]; [eauto|done..].
Qed.

Lemma cookie_matches_buckets_iff_witness :
  cookie_matches_buckets demo_client_key zero_key 30000 (demo_cookie zero_key 3)
    demo_cookie_context 45000 = Ok true.
Proof.
  destruct (cookie_matches_buckets_iff demo_client_key zero_key 30000 (demo_cookie zero_key 3)
    demo_cookie_context 45000) as (b & Hb & Hiff); [by vm_compute|lia|].
  destruct (demo_cookie_input zero_key 3) as (i & Hi & Hc).
  replace b with true in Hb; [exact Hb|]. symmetry. apply Hiff. exists zero_key, 3, i.
  split; [right; split; [done|lia]|].
  split; [unfold accepted_bucket; change (45000 / 10000) with 4; lia|]. by split.
Defined.
