(* ===== verification/Directional.v ===== *)
(** * Directional sessions: packet encryption, preview and commit

    [DirectionalSession], its previews, bindings and proofs, and
    [Profile3Bootstrap] of src/rust/crates/r8-session/src/lib.rs.  The process-wide
    owner allocator and the shared lease flags are the state [World]. *)

From stdpp Require Import gmap sets.
From S2P Require Import Prelude Wire Checksum Codec HeaderRules Crypto SessionMsg Replay SessionCrypto.

(** ** Owners and leases

    Every session gets a fresh owner id and one shared lease flag, so a lease is named by its
    owner.  [leases] holds the owners whose flag is still set: dropping a session clears it. *)

Record World : Set := mkWorld {
  next_owner : Z;
  leases : gset Z;
}.

Definition world_init : World := mkWorld 1 ∅.

(** The compare-exchange loop is one atomic increment. *)
Definition allocate_session_owner : st World SessionError.t Z := λ w,
  let owner := next_owner w in
  if (owner =? 0) || (owner =? u64_max) then (Panic, w)
  else (Ok owner, mkWorld (owner + 1) (leases w)).

Record DirectionalSession : Set := mkSession {
  send_key : bytes;
  receive_key : bytes;
  send_counters : Counters;
  replay : ReplayWindow;
  ds_transcript_hash : bytes;
  receive_budget : Z;
  receive_owner : Z;
}.

Record ProtectedPreview : Set := mkPreview {
  pp_plaintext : bytes;
  pp_commit : ReplayCommit;
  pp_receive_owner : Z;
}.

Record ProtectedReplayBinding : Set := mkReplayBinding { rb_receive_owner : Z }.

Record ProtectedReplayProof : Set := mkReplayProof {
  rp_preview : option ProtectedPreview;
  rp_committed : bool;
}.

Record Profile3DataPreview : Set := mkProfile3Preview {
  p3_delivery_id : Z;
  p3_plaintext : bytes;
  p3_commit : ReplayCommit;
  p3_receive_owner : Z;
}.

Record Profile3ReplayBinding : Set := mkProfile3Binding { p3b_receive_owner : Z }.

Record Profile3ReplayProof : Set := mkProfile3Proof {
  p3p_preview : option Profile3DataPreview;
  p3p_committed : bool;
}.

Definition matches_proof (b : ProtectedReplayBinding) (p : ProtectedReplayProof) : bool :=
  match rp_preview p with
  | Some pv => pp_receive_owner pv =? rb_receive_owner b
  | None => false
  end.
Definition matches_binding (a b : ProtectedReplayBinding) : bool :=
  rb_receive_owner a =? rb_receive_owner b.

Definition p3_matches_proof (b : Profile3ReplayBinding) (p : Profile3ReplayProof) : bool :=
  match p3p_preview p with
  | Some pv => p3_receive_owner pv =? p3b_receive_owner b
  | None => false
  end.
Definition p3_matches_binding (a b : Profile3ReplayBinding) : bool :=
  p3b_receive_owner a =? p3b_receive_owner b.

(** [ProtectedPreview::plaintext]: only while the lease of the session is set. *)
Definition plaintext (w : World) (p : ProtectedPreview) : outcome SessionError.t bytes :=
  if bool_decide (pp_receive_owner p ∈ leases w) then Ok (pp_plaintext p)
  else Err SessionError.Replay.

Definition is_committed (p : ProtectedReplayProof) : bool := rp_committed p.
Definition matches_plaintext (w : World) (p : ProtectedReplayProof) (pt : bytes) : bool :=
  match rp_preview p with
  | Some pv => match plaintext w pv with Ok c => beq c pt | _ => false end
  | None => false
  end.
Definition into_replay_proof (p : ProtectedPreview) : ProtectedReplayProof :=
  mkReplayProof (Some p) false.

Definition p3_is_committed (p : Profile3ReplayProof) : bool := p3p_committed p.
Definition p3_matches_plaintext (p : Profile3ReplayProof) (pt : bytes) : bool :=
  match p3p_preview p with Some pv => beq (p3_plaintext pv) pt | None => false end.
Definition p3_into_replay_proof (p : Profile3DataPreview) : Profile3ReplayProof :=
  mkProfile3Proof (Some p) false.

(** ** Operations *)

Definition set_counters (c : Counters) (s : DirectionalSession) : DirectionalSession :=
  mkSession (send_key s) (receive_key s) c (replay s) (ds_transcript_hash s)
    (receive_budget s) (receive_owner s).
Definition set_replay (w : ReplayWindow) (s : DirectionalSession) : DirectionalSession :=
  mkSession (send_key s) (receive_key s) (send_counters s) w (ds_transcript_hash s)
    (receive_budget s) (receive_owner s).

Definition session_new (send_key receive_key transcript_hash : bytes) (receive_budget : Z) :
    st World SessionError.t DirectionalSession :=
  owner ← allocate_session_owner;
  w ← get;
  put (mkWorld (next_owner w) ({[owner]} ∪ leases w)) ;;
  mret (mkSession send_key receive_key counters_new window_new transcript_hash receive_budget owner).

(** [Drop for DirectionalSession] *)
Definition session_drop (s : DirectionalSession) (w : World) : World :=
  mkWorld (next_owner w) (leases w ∖ {[receive_owner s]}).

Definition session_can_reserve (s : DirectionalSession) : bool := can_reserve (send_counters s).
Definition protected_replay_binding (s : DirectionalSession) : ProtectedReplayBinding :=
  mkReplayBinding (receive_owner s).
Definition profile3_replay_binding (s : DirectionalSession) : Profile3ReplayBinding :=
  mkProfile3Binding (receive_owner s).

(** [vec.resize(n, 0)] *)
Definition resize (l : bytes) (n : Z) : bytes :=
  take (Z.to_nat n) l ++ replicate (Z.to_nat n - length l) 0.

Definition reserve_counter : st DirectionalSession SessionError.t Z :=
  zoom send_counters set_counters reserve.

Section Operations.
Context `{C : Crypto}.

(** The part of [encrypt] after the counter was reserved. *)
Definition encrypt_with_counter (key : bytes) (h : Header) (typ : Z) (pt : bytes)
    (payload_len budget counter : Z) : outcome SessionError.t bytes :=
  let payload := resize ([typ; SESSION_VERSION; profile h; 0] ++ be_bytes 8 counter) payload_len in
  packet ← map_err (λ _, SessionError.Budget) (pack_with_budget h payload budget);
  aad ← protected_aad packet counter;
  ciphertext ← seal key counter aad pt;
  payload ← copy_slice payload 12 (length payload) ciphertext;
  map_err (λ _, SessionError.Budget) (pack_with_budget h payload budget).

Definition encrypt (h : Header) (typ : Z) (pt : bytes) (budget : Z) :
    st DirectionalSession SessionError.t bytes :=
  if negb ((typ =? SESSION_ACCEPT) || (typ =? SESSION_DATA) || (typ =? CLOSE))
  then throw SessionError.Type_ else
  if (typ =? SESSION_ACCEPT) && negb (len pt =? 44) then throw SessionError.AuthFailed else
  if (typ =? CLOSE) && negb (len pt =? 2) then throw SessionError.AuthFailed else
  payload_len ← lift (n ← ok_or (checked_add 12 (len pt)) SessionError.Budget;
                      ok_or (checked_add n 16) SessionError.Budget);
  packet_len ← lift (ok_or (checked_add payload_len 48) SessionError.Budget);
  if budget <? packet_len then throw SessionError.Budget else
  counter ← reserve_counter;
  s ← get;
  lift (encrypt_with_counter (send_key s) h typ pt payload_len budget counter).

Definition unpack_error (e : WireError.t) : SessionError.t :=
  match e with WireError.BindingBudget => SessionError.Budget | _ => SessionError.AuthFailed end.

Definition session_preview (s : DirectionalSession) (packet : bytes) :
    outcome SessionError.t ProtectedPreview :=
  '(header, payload) ← map_err unpack_error (unpack_with_budget packet (receive_budget s));
  message ← map_err (λ _, SessionError.AuthFailed)
              (message_decode payload (profile header) (receive_budget s));
  if negb ((msg_typ message =? SESSION_ACCEPT) || (msg_typ message =? SESSION_DATA) ||
           (msg_typ message =? CLOSE)) then Err SessionError.UnexpectedMessage else
  c ← slice (msg_body message) 0 8;
  let counter := be_value c in
  commit ← preview (replay s) counter;
  aad ← protected_aad packet counter;
  ct ← slice_from (msg_body message) 8;
  pt ← open (receive_key s) counter aad ct;
  Ok (mkPreview pt commit (receive_owner s)).

Definition commit_replay (token : ReplayCommit) : st DirectionalSession SessionError.t unit :=
  zoom replay set_replay (λ w, commit w token).

Definition session_commit (pv : ProtectedPreview) : st DirectionalSession SessionError.t bytes :=
  s ← get;
  if negb (receive_owner s =? pp_receive_owner pv) then throw SessionError.Replay else
  commit_replay (pp_commit pv) ;;
  mret (pp_plaintext pv).

(** The proof is passed by mutable reference: its preview is taken before the checks. *)
Definition session_commit_protected_replay (p : ProtectedReplayProof) (s : DirectionalSession) :
    outcome SessionError.t unit * ProtectedReplayProof * DirectionalSession :=
  if rp_committed p then (Err SessionError.Replay, p, s) else
  match rp_preview p with
  | None => (Err SessionError.Replay, p, s)
  | Some pv =>
      let p := mkReplayProof None (rp_committed p) in
      if negb (receive_owner s =? pp_receive_owner pv) then (Err SessionError.Replay, p, s) else
      match commit_replay (pp_commit pv) s with
      | (Ok _, s') => (Ok (), mkReplayProof None true, s')
      | (r, s') => (r, p, s')
      end
  end.

Definition validate_profile3_data_header (h : Header) : outcome SessionError.t unit :=
  expected_flags ← (if path_slot h =? 0 then Ok 1 else
                    if path_slot h =? 1 then Ok 3 else Err SessionError.AuthFailed);
  if negb (profile h =? 3) || negb (next_header h =? NH_SES) ||
     negb (flags h =? expected_flags) || negb (tc h =? 0) || (hop_limit h =? 0) || (scid h =? 0)
  then Err SessionError.AuthFailed else Ok ().

Definition profile3_data_aad (packet : bytes) (counter delivery_id : Z) :
    outcome SessionError.t bytes :=
  aad ← protected_aad packet counter;
  Ok (aad ++ be_bytes 8 delivery_id).

(** The parts of [encrypt_profile3_data] before and after the counter is reserved. *)
Definition profile3_payload (h : Header) (delivery_id payload_len budget : Z) :
    outcome SessionError.t bytes :=
  payload ← copy_slice (resize [SESSION_DATA; SESSION_VERSION; 3; 0] payload_len) 12 20
              (be_bytes 8 delivery_id);
  validate_profile3_data_header h ;;
  map_err (λ _, SessionError.Budget) (pack_with_budget h payload budget) ;;
  Ok payload.

Definition encrypt_profile3_with_counter (key : bytes) (h : Header) (payload : bytes)
    (delivery_id : Z) (pt : bytes) (budget counter : Z) : outcome SessionError.t bytes :=
  payload ← copy_slice payload 4 12 (be_bytes 8 counter);
  packet ← map_err (λ _, SessionError.Budget) (pack_with_budget h payload budget);
  aad ← profile3_data_aad packet counter delivery_id;
  ciphertext ← seal key counter aad pt;
  copy_slice packet (Z.to_nat HEADER_LEN + 20) (length packet) ciphertext.

Definition encrypt_profile3_data (h : Header) (delivery_id : Z) (pt : bytes) (budget : Z) :
    st DirectionalSession SessionError.t bytes :=
  if delivery_id =? u64_max then throw SessionError.CounterRange else
  payload_len ← lift (ok_or (checked_add (len pt) (PROFILE3_DATA_PACKET_OVERHEAD - HEADER_LEN))
                        SessionError.Budget);
  packet_len ← lift (ok_or (checked_add payload_len HEADER_LEN) SessionError.Budget);
  if budget <? packet_len then throw SessionError.Budget else
  payload ← lift (profile3_payload h delivery_id payload_len budget);
  s ← get;
  if negb (can_reserve (send_counters s)) then throw SessionError.CounterExhausted else
  counter ← reserve_counter;
  lift (encrypt_profile3_with_counter (send_key s) h payload delivery_id pt budget counter).

Definition preview_profile3_data (s : DirectionalSession) (packet : bytes) :
    outcome SessionError.t Profile3DataPreview :=
  '(header, payload) ← map_err unpack_error (unpack_with_budget packet (receive_budget s));
  validate_profile3_data_header header ;;
  message ← map_err (λ e, match e with SessionError.CounterRange => e | _ => SessionError.AuthFailed end)
              (message_decode payload (profile header) (receive_budget s));
  if negb (msg_typ message =? SESSION_DATA) || negb (msg_profile message =? 3) ||
     (len (msg_body message) <? 32) then Err SessionError.UnexpectedMessage else
  c ← slice (msg_body message) 0 8;
  let counter := be_value c in
  d ← slice (msg_body message) 8 16;
  let delivery_id := be_value d in
  if delivery_id =? 0 then Err SessionError.AuthFailed else
  if delivery_id =? u64_max then Err SessionError.CounterRange else
  commit ← preview (replay s) counter;
  aad ← profile3_data_aad packet counter delivery_id;
  ct ← slice_from (msg_body message) 16;
  pt ← open (receive_key s) counter aad ct;
  Ok (mkProfile3Preview delivery_id pt commit (receive_owner s)).

Definition commit_profile3_replay (p : Profile3ReplayProof) (s : DirectionalSession) :
    outcome SessionError.t unit * Profile3ReplayProof * DirectionalSession :=
  if p3p_committed p then (Err SessionError.Replay, p, s) else
  match p3p_preview p with
  | None => (Err SessionError.Replay, p, s)
  | Some pv =>
      let p := mkProfile3Proof None (p3p_committed p) in
      if negb (receive_owner s =? p3_receive_owner pv) then (Err SessionError.Replay, p, s) else
      match commit_replay (p3_commit pv) s with
      | (Ok _, s') => (Ok (), mkProfile3Proof None true, s')
      | (r, s') => (r, p, s')
      end
  end.

Definition commit_profile3_data (pv : Profile3DataPreview) :
    st DirectionalSession SessionError.t (Z * bytes) :=
  s ← get;
  if negb (receive_owner s =? p3_receive_owner pv) then throw SessionError.Replay else
  commit_replay (p3_commit pv) ;;
  mret (p3_delivery_id pv, p3_plaintext pv).

Definition decrypt_profile3_data (packet : bytes) :
    st DirectionalSession SessionError.t (Z * bytes) :=
  s ← get;
  pv ← lift (preview_profile3_data s packet);
  commit_profile3_data pv.

Definition decrypt (packet : bytes) : st DirectionalSession SessionError.t bytes :=
  s ← get;
  pv ← lift (session_preview s packet);
  session_commit pv.

Definition validate_protected_header (h : Header) (prof scid' : Z) (source destination : bytes) :
    outcome SessionError.t unit :=
  if negb (next_header h =? NH_SES) || negb (profile h =? prof) || negb (scid h =? scid') ||
     negb (flags h =? 1) || negb (path_slot h =? 0) ||
     negb (beq (src h) source) || negb (beq (dst h) destination)
  then Err SessionError.AuthFailed else Ok ().

(** ** Profile-3 bootstrap *)

Record Profile3Bootstrap : Set := mkBootstrap {
  pb_scid : Z;
  pb_local_loc : bytes;
  pb_peer_loc : bytes;
  pb_budget : Z;
  pb_local_role : Z;
  pb_peer_role : Z;
  pb_transcript_hash : bytes;
  pb_schedule : option bytes;
  pb_slot0 : option DirectionalSession;
}.

Definition set_schedule (k : option bytes) (b : Profile3Bootstrap) : Profile3Bootstrap :=
  mkBootstrap (pb_scid b) (pb_local_loc b) (pb_peer_loc b) (pb_budget b) (pb_local_role b)
    (pb_peer_role b) (pb_transcript_hash b) k (pb_slot0 b).
Definition set_slot0 (s : option DirectionalSession) (b : Profile3Bootstrap) : Profile3Bootstrap :=
  mkBootstrap (pb_scid b) (pb_local_loc b) (pb_peer_loc b) (pb_budget b) (pb_local_role b)
    (pb_peer_role b) (pb_transcript_hash b) (pb_schedule b) s.

Definition bootstrap_new (scid : Z) (local_loc peer_loc : bytes) (budget local_role peer_role : Z)
    (transcript_hash schedule : bytes) (slot0 : DirectionalSession) : Profile3Bootstrap :=
  mkBootstrap scid local_loc peer_loc budget local_role peer_role transcript_hash
    (Some schedule) (Some slot0).

Definition take_slot0 : st Profile3Bootstrap SessionError.t DirectionalSession := λ b,
  match pb_slot0 b with
  | Some s => (Ok s, set_slot0 None b)
  | None => (Err SessionError.UnexpectedMessage, b)
  end.

Definition take_slot1_after_admission :
    st (Profile3Bootstrap * World) SessionError.t DirectionalSession := λ '(b, w),
  match pb_schedule b with
  | None => (Err SessionError.UnexpectedMessage, (b, w))
  | Some schedule =>
      let b' := set_schedule None b in
      let keys :=
        send_key ← derive_key_from_prk schedule (pb_transcript_hash b) 3
                     (pb_local_role b) (pb_peer_role b) 1;
        receive_key ← derive_key_from_prk schedule (pb_transcript_hash b) 3
                        (pb_peer_role b) (pb_local_role b) 1;
        Ok (send_key, receive_key) in
      match keys with
      | Err e => (Err e, (b', w))
      | Panic => (Panic, (b', w))
      | Ok (sk, rk) =>
          let '(r, w') := session_new sk rk (pb_transcript_hash b) (pb_budget b) w in
          (r, (b', w'))
      end
  end.

(** Taking slot zero drops the session. *)
Definition bootstrap_close : st (Profile3Bootstrap * World) SessionError.t unit := λ '(b, w),
  match pb_slot0 b with
  | None => (Err SessionError.UnexpectedMessage, (b, w))
  | Some s => (Ok (), (set_schedule None (set_slot0 None b), session_drop s w))
  end.

(** [Drop for Profile3Bootstrap] *)
Definition bootstrap_drop (b : Profile3Bootstrap) (w : World) : World :=
  match pb_slot0 b with Some s => session_drop s w | None => w end.

End Operations.

(** ** Layout lemmas *)

(** The header rules of a session message of type [typ]. *)
Definition ses_header (h : Header) (typ : Z) : Prop :=
  wf_header h ∧ next_header h = NH_SES ∧ scid h ≠ 0 ∧ profile h ≤ 3 ∧ tc h = 0 ∧
  hop_limit h ≠ 0 ∧ slot_rules typ (profile h) (flags h) (path_slot h).

#[export] Instance ses_header_dec h typ : Decision (ses_header h typ).
Proof. apply _. Defined.

Definition envelope (typ prof : Z) : bytes := [typ; SESSION_VERSION; prof; 0].

Lemma ses_validate h typ body :
  ses_header h typ → validate_header h (envelope typ (profile h) ++ body) = Ok ().
Proof.
  intros (Hw & Hn & Hrest). unfold validate_header, known_next_header. rewrite Hn. simpl.
  apply validate_ses_iff; [done|]. exists typ, body. naive_solver.
Qed.

Lemma with_hop_ses n h typ :
  is_u8 n → n ≠ 0 → ses_header h typ → ses_header (with_hop n h) typ.
Proof.
  intros Hn H0 ((?&?&?&?&?&?&?&?&?) & ?). unfold ses_header, wf_header.
  destruct h; simpl in *. naive_solver.
Qed.

Lemma len_be_bytes n z : len (be_bytes n z) = Z.of_nat n.
Proof. unfold len. by rewrite length_be_bytes. Qed.

(** The associated data of a protected packet. *)
Definition aad_of (h : Header) (n typ counter : Z) : bytes :=
  header_bytes (with_hop 0 h) n ++ envelope typ (profile h) ++ be_bytes 8 counter.

Lemma aad_of_with_hop k h n typ counter : aad_of (with_hop k h) n typ counter = aad_of h n typ counter.
Proof. done. Qed.

Lemma wf_aad_of h n typ counter :
  wf_header h → profile h ≤ 3 → is_u8 typ → wf_bytes (aad_of h n typ counter).
Proof.
  intros Hh Hp Ht. pose proof Hh as (?&_). unfold aad_of, envelope, SESSION_VERSION.
  apply wf_bytes_app; [|solve_wf]. apply wf_header_bytes; [|simpl; lia].
  destruct Hh as (?&?&?&?&?&?&?&?&?). unfold wf_header. simpl.
  split_and!; try done; unfold_widths; lia.
Qed.

Lemma protected_aad_ses h typ rest counter :
  ses_header h typ → 8 ≤ len rest → HEADER_LEN + 4 + len rest ≤ SERIALIZED_R8_MAX →
  let payload := envelope typ (profile h) ++ rest in
  protected_aad (header_bytes h (len payload) ++ payload) counter =
  Ok (aad_of h (len payload) typ counter).
Proof.
  intros Hh Hl Hm payload. unfold payload, aad_of.
  assert (len (envelope typ (profile h) ++ rest) = 4 + len rest) as Hp by (by rewrite len_app).
  rewrite protected_aad_layout; [done|apply Hh|by apply ses_validate|lia..].
Qed.

(** [payload_ok typ n]: the plaintext lengths of the protected message types. *)
Definition plaintext_len_ok (typ n : Z) : Prop :=
  typ = SESSION_ACCEPT ∧ n = 44 ∨ typ = SESSION_DATA ∨ typ = CLOSE ∧ n = 2.

Lemma copy_slice_tail {E} (l : bytes) (a : nat) src :
  (a ≤ length l)%nat → length src = (length l - a)%nat →
  copy_slice (E:=E) l a (length l) src = Ok (take a l ++ src).
Proof. intros. rewrite copy_slice_Ok by lia. by rewrite drop_all, app_nil_r. Qed.

(** Whatever happens, encryption changes nothing but the send counter. *)
Lemma encrypt_state `{C : Crypto} h typ pt budget s :
  ∃ c, snd (encrypt h typ pt budget s) = set_counters c s.
Proof.
  assert (s = set_counters (send_counters s) s) as Hs by by destruct s.
  unfold encrypt, throw. do 3 (case_match; [eexists; exact Hs|]).
  rewrite st_bind_lift. case_match; [|eexists; exact Hs..].
  rewrite st_bind_lift. case_match; [|eexists; exact Hs..].
  case_match; [eexists; exact Hs|]. unfold reserve_counter, zoom, mbind, st_bind.
  destruct (reserve (send_counters s)) as [[]]; eauto.
Qed.

Section Layout.
Context `{C : Crypto} {L : CryptoLaws C}.

Lemma resize_envelope typ prof c n :
  0 ≤ n → resize ([typ; SESSION_VERSION; prof; 0] ++ be_bytes 8 c) (12 + n) =
  envelope typ prof ++ be_bytes 8 c ++ replicate (Z.to_nat n) 0.
Proof.
  intros Hn. unfold resize, envelope. rewrite take_ge, <-app_assoc
    by (rewrite length_app, length_be_bytes; simpl; lia).
  do 3 f_equal. rewrite length_app, length_be_bytes. simpl. lia.
Qed.

Lemma seal_with_counter key h typ pt budget c :
  ses_header h typ → is_u8 typ → wf_bytes pt →
  76 + len pt ≤ SERIALIZED_R8_MAX → 76 + len pt ≤ budget →
  wf_array 32 key → 0 < c < u64_max →
  ∃ ct, seal key c (aad_of h (28 + len pt) typ c) pt = Ok ct ∧
    open key c (aad_of h (28 + len pt) typ c) ct = Ok pt ∧
    len ct = len pt + 16 ∧ wf_bytes ct ∧
    encrypt_with_counter key h typ pt (28 + len pt) budget c =
    Ok (header_bytes h (28 + len pt) ++ envelope typ (profile h) ++ be_bytes 8 c ++ ct).
Proof.
  intros Hh Ht Hpt Hm Hb Hk Hc. unfold SERIALIZED_R8_MAX in Hm. pose proof (len_nonneg pt) as Hn.
  pose proof Hh as (Hw & _ & _ & Hp & _).
  destruct (seal_open_aux key c (aad_of h (28 + len pt) typ c) pt)
    as (ct & Hct & Hop & Hctl & Hctw); try done; [by apply wf_aad_of|unfold_widths; lia|].
  assert (len ct = len pt + 16) as Hctl' by (unfold len; lia).
  exists ct. split_and!; try done.
  unfold encrypt_with_counter. replace (28 + len pt) with (12 + (16 + len pt)) by lia.
  rewrite resize_envelope by lia.
  set (z := replicate _ 0).
  assert (len z = 16 + len pt) as Hz by (unfold z, len; rewrite length_replicate; lia).
  assert (∀ r, len r = 16 + len pt →
    len (envelope typ (profile h) ++ be_bytes 8 c ++ r) = 28 + len pt) as Hpl.
  { intros r Hr. rewrite !len_app, len_be_bytes, Hr. change (len (envelope _ _)) with 4. lia. }
  rewrite pack_intro by (rewrite ?Hpl by done; try apply ses_validate; try done;
    unfold HEADER_LEN, SERIALIZED_R8_MAX; lia).
  cbn [mbind outcome_bind map_err].
  rewrite protected_aad_ses by (rewrite ?len_app, ?len_be_bytes, ?Hz; try done;
    unfold HEADER_LEN, SERIALIZED_R8_MAX; lia).
  cbn [mbind outcome_bind]. rewrite Hpl by done. rewrite Hct. cbn [mbind outcome_bind].
  rewrite copy_slice_tail.
  2-3: unfold len in *; rewrite !length_app, length_be_bytes; simpl; lia.
  cbn [mbind outcome_bind].
  replace (take 12 _) with (envelope typ (profile h) ++ be_bytes 8 c)
    by (by rewrite app_assoc, take_app_length' by (rewrite length_app, length_be_bytes; done)).
  rewrite <-app_assoc. rewrite pack_intro by (rewrite ?Hpl by lia; try apply ses_validate; try done;
    unfold HEADER_LEN, SERIALIZED_R8_MAX; lia).
  cbn [map_err]. rewrite Hpl by lia. do 3 f_equal. lia.
Qed.

Lemma encrypt_layout s h typ pt budget :
  plaintext_len_ok typ (len pt) → 76 + len pt ≤ SERIALIZED_R8_MAX → 76 + len pt ≤ budget →
  0 < next (send_counters s) < u64_max →
  let c := next (send_counters s) in
  encrypt h typ pt budget s =
    (encrypt_with_counter (send_key s) h typ pt (28 + len pt) budget c,
     set_counters (mkCounters (c + 1)) s).
Proof.
  intros Hlen Hm Hb Hc c. unfold SERIALIZED_R8_MAX in Hm. pose proof (len_nonneg pt) as Hn.
  unfold plaintext_len_ok, SESSION_ACCEPT, SESSION_DATA, CLOSE in Hlen. unfold encrypt.
  assert (negb ((typ =? SESSION_ACCEPT) || (typ =? SESSION_DATA) || (typ =? CLOSE)) = false) as ->
    by (unfold SESSION_ACCEPT, SESSION_DATA, CLOSE; lia).
  assert ((typ =? SESSION_ACCEPT) && negb (len pt =? 44) = false) as ->
    by (unfold SESSION_ACCEPT; lia).
  assert ((typ =? CLOSE) && negb (len pt =? 2) = false) as -> by (unfold CLOSE; lia).
  rewrite (checked_add_Some 12) by solve_width. cbn [ok_or mbind outcome_bind].
  rewrite (checked_add_Some _ 16) by solve_width. cbn [ok_or].
  rewrite st_bind_lift, (checked_add_Some _ 48) by solve_width. cbn [ok_or].
  rewrite st_bind_lift. assert (budget <? 12 + len pt + 16 + 48 = false) as -> by lia.
  unfold reserve_counter, zoom, reserve, mbind, st_bind. fold c.
  assert ((c =? 0) || (c =? u64_max) = false) as -> by (unfold c; lia).
  unfold get, lift. by replace (12 + len pt + 16) with (28 + len pt) by lia.
Qed.

Lemma be_value_counter c : 0 < c < u64_max → be_value (be_bytes 8 c) = c.
Proof. intros. apply be_value_be_bytes. unfold_widths. simpl Z.of_nat. lia. Qed.

Lemma validate_body_protected typ c rest :
  plaintext_len_ok typ (len rest - 16) → 16 ≤ len rest → 0 < c < u64_max →
  validate_body typ (be_bytes 8 c ++ rest) = Ok ().
Proof.
  intros Hl Hn Hc. unfold plaintext_len_ok, SESSION_ACCEPT, SESSION_DATA, CLOSE in Hl.
  assert (len (be_bytes 8 c ++ rest) = 8 + len rest) as Hlen
    by (rewrite len_app, len_be_bytes; lia).
  assert (slice (E:=SessionError.t) (be_bytes 8 c ++ rest) 0 8 = Ok (be_bytes 8 c)) as Hs
    by (rewrite slice_app_l, slice_all by (rewrite length_be_bytes; lia); done).
  revert Hlen Hs. generalize (be_bytes 8 c ++ rest). intros b Hlen Hs.
  pose proof (be_value_counter c Hc) as Hv. revert Hs Hv. generalize (be_bytes 8 c). intros cb Hs Hv.
  unfold validate_body. rewrite Hlen.
  destruct Hl as [[-> ?]|[->|[-> ?]]].
  - change (body_len 5) with (Some 68). cbn [ok_or mbind outcome_bind].
    assert (8 + len rest <? 68 = false) as -> by lia.
    assert (8 + len rest =? 68 = true) as -> by lia. cbn. rewrite Hs. cbn [mbind outcome_bind].
    rewrite Hv. by assert ((c =? 0) || (c =? u64_max) = false) as -> by lia.
  - change (body_len 6) with (Some 24). cbn [ok_or mbind outcome_bind].
    assert (8 + len rest <? 24 = false) as -> by lia. cbn. rewrite Hs. cbn [mbind outcome_bind].
    rewrite Hv. by assert ((c =? 0) || (c =? u64_max) = false) as -> by lia.
  - change (body_len 7) with (Some 26). cbn [ok_or mbind outcome_bind].
    assert (8 + len rest <? 26 = false) as -> by lia.
    assert (8 + len rest =? 26 = true) as -> by lia. cbn. rewrite Hs. cbn [mbind outcome_bind].
    rewrite Hv. by assert ((c =? 0) || (c =? u64_max) = false) as -> by lia.
Qed.

Lemma message_decode_layout typ prof body budget :
  validate_body typ body = Ok () → 4 + len body ≤ budget →
  message_decode (envelope typ prof ++ body) prof budget = Ok (mkMessage typ prof body).
Proof.
  intros Hv Hb. pose proof (validate_body_type _ _ Hv). unfold message_decode.
  pose proof (len_nonneg body).
  assert (len (envelope typ prof ++ body) = 4 + len body) as -> by (by rewrite len_app).
  assert (budget <? 4 + len body = false) as -> by lia.
  assert (4 + len body <? 4 = false) as -> by lia.
  unfold envelope. cbn [app idx lookup list_lookup mbind outcome_bind].
  assert ((OPEN <=? typ) && (typ <=? CLOSE) = true) as -> by (unfold OPEN, CLOSE; lia).
  rewrite !Z.eqb_refl. cbn [negb]. rewrite slice_from_Ok by (simpl; lia).
  cbn [mbind outcome_bind drop]. by rewrite drop_0, Hv.
Qed.

Lemma unpack_ses h typ body budget :
  ses_header h typ → HEADER_LEN + 4 + len body ≤ SERIALIZED_R8_MAX →
  HEADER_LEN + 4 + len body ≤ budget →
  unpack_with_budget (header_bytes h (4 + len body) ++ envelope typ (profile h) ++ body) budget =
  Ok (h, envelope typ (profile h) ++ body).
Proof.
  intros Hh Hm Hb. assert (len (envelope typ (profile h) ++ body) = 4 + len body) as Hp
    by (by rewrite len_app).
  rewrite <-Hp. pose proof Hh as (Hw & Hn & _ & Hpr & _).
  rewrite unpack_layout by (rewrite ?Hp, ?Hn; done || lia). by rewrite ses_validate.
Qed.

Lemma session_preview_layout r h typ c ct :
  ses_header h typ → plaintext_len_ok typ (len ct - 16) → 16 ≤ len ct → 0 < c < u64_max →
  60 + len ct ≤ SERIALIZED_R8_MAX → 60 + len ct ≤ receive_budget r →
  session_preview r (header_bytes h (12 + len ct) ++ envelope typ (profile h) ++ be_bytes 8 c ++ ct) =
  (tok ← preview (replay r) c;
   pt ← open (receive_key r) c (aad_of h (12 + len ct) typ c) ct;
   Ok (mkPreview pt tok (receive_owner r))).
Proof.
  intros Hh Hl Hn Hc Hm Hb. unfold session_preview.
  assert (len (be_bytes 8 c ++ ct) = 8 + len ct) as Hlen by (rewrite len_app, len_be_bytes; lia).
  replace (12 + len ct) with (4 + len (be_bytes 8 c ++ ct)) by lia.
  rewrite unpack_ses by (unfold HEADER_LEN in *; done || lia). cbn [mbind outcome_bind map_err].
  rewrite message_decode_layout by (try apply validate_body_protected; done || lia).
  cbn [mbind outcome_bind map_err msg_typ msg_body].
  assert (negb ((typ =? SESSION_ACCEPT) || (typ =? SESSION_DATA) || (typ =? CLOSE)) = false) as ->
    by (unfold plaintext_len_ok in Hl; lia).
  rewrite (slice_app_l (be_bytes 8 c)), slice_all by (rewrite length_be_bytes; lia).
  rewrite slice_from_Ok by (rewrite length_app, length_be_bytes; lia).
  rewrite drop_app_length' by (by rewrite length_be_bytes).
  cbn [mbind outcome_bind]. rewrite be_value_counter by done.
  destruct (preview (replay r) c); [|done..]. cbn [mbind outcome_bind].
  pose proof (protected_aad_ses h typ (be_bytes 8 c ++ ct) c Hh) as Ha. cbv zeta in Ha.
  assert (len (envelope typ (profile h) ++ be_bytes 8 c ++ ct) = 4 + len (be_bytes 8 c ++ ct)) as Hpl
    by (by rewrite len_app).
  rewrite Hpl in Ha. rewrite Ha by (unfold HEADER_LEN in *; lia). done.
Qed.

Lemma insert_hop h n rest k :
  wf_header h → <[5%nat := k]> (header_bytes h n ++ rest) = header_bytes (with_hop k h) n ++ rest.
Proof. intros Hh. rewrite insert_app_l by (rewrite length_header_bytes by done; lia). done. Qed.

Lemma preview_acceptable w s c :
  repr w s → acceptable s (largest w) c → preview w c = Ok (mkCommit c (generation w)).
Proof.
  intros Hr Ha. destruct (check_spec w s c Hr) as [_ [_ Hk]].
  { destruct Ha as [? _]. unfold is_u64. lia. }
  unfold preview. by rewrite Hk.
Qed.

Lemma commit_replay_acceptable s seen c :
  repr (replay s) seen → acceptable seen (largest (replay s)) c → generation (replay s) < u64_max →
  ∃ w', commit_replay (mkCommit c (generation (replay s))) s = (Ok (), set_replay w' s) ∧
    repr w' ({[c]} ∪ seen) ∧ generation w' = generation (replay s) + 1 ∧
    largest w' = Z.max (largest (replay s)) c.
Proof.
  intros Hr Ha Hg. pose proof (repr_generation _ _ Hr). pose proof Ha as [? _].
  pose proof (commit_spec (replay s) seen (mkCommit c (generation (replay s))) Hr) as Hs.
  unfold commit_replay, zoom. destruct (commit _ _) as [x w'].
  destruct Hs as (_ & Hiff & Hok & _); [split; unfold is_u64; simpl; lia|].
  assert (x = Ok ()) as -> by (apply Hiff; done). exists w'. split; [done|]. by apply Hok.
Qed.

Lemma session_commit_acceptable s seen c pt :
  repr (replay s) seen → acceptable seen (largest (replay s)) c → generation (replay s) < u64_max →
  ∃ w', session_commit (mkPreview pt (mkCommit c (generation (replay s))) (receive_owner s)) s =
          (Ok pt, set_replay w' s) ∧
    repr w' ({[c]} ∪ seen) ∧ generation w' = generation (replay s) + 1 ∧
    largest w' = Z.max (largest (replay s)) c.
Proof.
  intros Hr Ha Hg. destruct (commit_replay_acceptable s seen c) as (w' & Hc & Hrest); [done..|].
  exists w'. split; [|done]. unfold session_commit, mbind, st_bind, get.
  cbn [pp_receive_owner pp_commit pp_plaintext]. rewrite Z.eqb_refl. cbn [negb].
  by rewrite Hc.
Qed.

Section Delivery.
Context (s r : DirectionalSession) (h : Header) (typ : Z) (pt : bytes) (budget : Z) (seen : gset Z).
#[local] Abbreviation c := (next (send_counters s)).
Hypothesis Hh : ses_header h typ.
Hypothesis Hlen : plaintext_len_ok typ (len pt).
Hypothesis Hpt : wf_bytes pt.
Hypothesis Hm : 76 + len pt ≤ SERIALIZED_R8_MAX.
Hypothesis Hb : 76 + len pt ≤ budget.
Hypothesis Hrb : 76 + len pt ≤ receive_budget r.
Hypothesis Hk : wf_array 32 (send_key s).
Hypothesis Hkey : receive_key r = send_key s.
Hypothesis Hr : repr (replay r) seen.
Hypothesis Ha : acceptable seen (largest (replay r)) c.
Hypothesis Hg : generation (replay r) < u64_max.

(** One packet, whatever hop limit it arrives with. *)
Lemma delivery_any_hop :
  ∃ packet r',
    encrypt h typ pt budget s = (Ok packet, set_counters (mkCounters (c + 1)) s) ∧
    packet !! 5%nat = Some (hop_limit h) ∧
    repr (replay r') ({[c]} ∪ seen) ∧
    ∀ hop, is_u8 hop → hop ≠ 0 →
      decrypt (<[5%nat := hop]> packet) r = (Ok pt, r') ∧
      decrypt (<[5%nat := hop]> packet) r' = (Err SessionError.Replay, r').
Proof.
  pose proof Ha as [Hc _].
  assert (is_u8 typ) as Ht by (unfold plaintext_len_ok, SESSION_ACCEPT, SESSION_DATA, CLOSE in Hlen; solve_width).
  destruct (seal_with_counter (send_key s) h typ pt budget c)
    as (ct & _ & Hop & Hctl & Hctw & Henc); try done.
  destruct (session_commit_acceptable r seen c pt) as (w' & Hcommit & Hr' & _); [done..|].
  assert (plaintext_len_ok typ (len ct - 16)) as Hlen' by (by replace (len ct - 16) with (len pt) by lia).
  pose proof (len_nonneg pt). unfold SERIALIZED_R8_MAX in *.
  eexists _, (set_replay w' r). split_and!.
  - rewrite encrypt_layout by (unfold SERIALIZED_R8_MAX; done || lia). by rewrite Henc.
  - done.
  - done.
  - intros hop Hhop H0. unfold decrypt, mbind at 1 3, st_bind at 1 3, get. rewrite !st_bind_lift.
    rewrite insert_hop by apply Hh. replace (28 + len pt) with (12 + len ct) in * by lia.
    change (profile h) with (profile (with_hop hop h)).
    rewrite !session_preview_layout
      by (try apply with_hop_ses; unfold SERIALIZED_R8_MAX; simpl; done || lia). split.
    + rewrite (preview_acceptable _ seen) by done. cbn [mbind outcome_bind].
      rewrite aad_of_with_hop, Hkey, Hop. cbn [mbind outcome_bind]. done.
    + unfold preview.
      rewrite (check_replay _ ({[c]} ∪ seen)); [done|done|unfold is_u64; lia|set_solver].
Qed.
End Delivery.

(** C23: end-to-end delivery over a session direction: a packet the sender encrypts, forwarded with
    any non-zero hop limit, is decrypted by the peer to the same plaintext when its counter is
    acceptable; it consumes exactly one counter of the sender, and a second copy is refused as a
    replay and leaves the receiver unchanged. *)
Theorem protected_delivery s r h typ pt budget hop seen :
  let c := next (send_counters s) in
  ses_header h typ → plaintext_len_ok typ (len pt) → wf_bytes pt →
  76 + len pt ≤ SERIALIZED_R8_MAX → 76 + len pt ≤ budget → 76 + len pt ≤ receive_budget r →
  wf_array 32 (send_key s) → receive_key r = send_key s →
  repr (replay r) seen → acceptable seen (largest (replay r)) c → generation (replay r) < u64_max →
  is_u8 hop → hop ≠ 0 →
  ∃ packet r',
    encrypt h typ pt budget s = (Ok packet, set_counters (mkCounters (c + 1)) s) ∧
    decrypt (<[5%nat := hop]> packet) r = (Ok pt, r') ∧
    repr (replay r') ({[c]} ∪ seen) ∧
    decrypt packet r' = (Err SessionError.Replay, r').
Proof.
  intros c Hh Hlen Hpt Hm Hb Hrb Hk Hkey Hr Ha Hg Hhop H0.
  destruct (delivery_any_hop s r h typ pt budget seen) as (packet & r' & ? & H5 & ? & Hd); [done..|].
  exists packet, r'. split_and!; [done|by apply Hd|done|]. rewrite <-(list_insert_id packet 5 (hop_limit h)) by done.
  apply Hd; apply Hh.
Qed.

(** *** Profile-3 data packets *)

Lemma profile3_header h :
  wf_header h →
  validate_profile3_data_header h = Ok () ↔ ses_header h SESSION_DATA ∧ profile h = 3.
Proof.
  intros Hw. unfold validate_profile3_data_header, ses_header, slot_rules, SESSION_DATA.
  destruct (path_slot h =? 0) eqn:?; [|destruct (path_slot h =? 1) eqn:?];
    cbn [mbind outcome_bind]; [| |split; [done|lia]].
  all: case_match; (split; [try done; intros _; split_and!; try done; lia | try done; lia]).
Qed.

(** The payload of a profile-3 data packet. *)
Definition profile3_layout (c d : Z) (ct : bytes) : bytes :=
  envelope SESSION_DATA 3 ++ be_bytes 8 c ++ be_bytes 8 d ++ ct.

Lemma len_profile3_layout c d ct : len (profile3_layout c d ct) = 20 + len ct.
Proof. unfold profile3_layout. rewrite !len_app, !len_be_bytes. change (len (envelope _ _)) with 4. lia. Qed.

Lemma pack_profile3 h budget c d ct :
  ses_header h SESSION_DATA → profile h = 3 →
  68 + len ct ≤ SERIALIZED_R8_MAX → 68 + len ct ≤ budget →
  pack_with_budget h (profile3_layout c d ct) budget =
  Ok (header_bytes h (20 + len ct) ++ profile3_layout c d ct).
Proof.
  intros Hh Hp Hm Hb. unfold HEADER_LEN in *.
  rewrite pack_intro; rewrite ?len_profile3_layout; [done| |unfold HEADER_LEN; lia..].
  unfold profile3_layout. rewrite <-Hp. by apply ses_validate.
Qed.

Definition profile3_aad (h : Header) (n c d : Z) : bytes :=
  aad_of h n SESSION_DATA c ++ be_bytes 8 d.

Lemma profile3_data_aad_layout h c d ct :
  ses_header h SESSION_DATA → profile h = 3 → 68 + len ct ≤ SERIALIZED_R8_MAX →
  profile3_data_aad (header_bytes h (20 + len ct) ++ profile3_layout c d ct) c d =
  Ok (profile3_aad h (20 + len ct) c d).
Proof.
  intros Hh Hp Hm. unfold profile3_data_aad, profile3_layout. pose proof (len_nonneg ct).
  rewrite <-(len_profile3_layout c d ct). unfold profile3_layout. rewrite <-Hp.
  rewrite protected_aad_ses; [done|done| |];
    rewrite !len_app, !len_be_bytes; unfold HEADER_LEN in *; lia.
Qed.

Lemma profile3_payload_layout h d n budget :
  0 ≤ n → 84 + n ≤ SERIALIZED_R8_MAX → 84 + n ≤ budget → wf_header h →
  profile3_payload h d (n + 36) budget =
  (validate_profile3_data_header h ;; Ok (profile3_layout 0 d (replicate (Z.to_nat (16 + n)) 0))).
Proof.
  intros Hn Hm Hb Hw. unfold profile3_payload.
  assert (copy_slice (E:=SessionError.t) (resize [SESSION_DATA; SESSION_VERSION; 3; 0] (n + 36)) 12 20
            (be_bytes 8 d) = Ok (profile3_layout 0 d (replicate (Z.to_nat (16 + n)) 0))) as ->.
  { unfold resize. rewrite take_ge by (simpl; lia).
    rewrite copy_slice_Ok by (rewrite ?length_app, ?length_replicate, ?length_be_bytes; simpl; lia).
    f_equal. unfold profile3_layout, envelope. simpl length.
    replace (Z.to_nat (n + 36) - 4)%nat with (8 + (8 + Z.to_nat (16 + n)))%nat by lia.
    rewrite !replicate_add. change (be_bytes 8 0) with (replicate 8 0).
    rewrite take_app_ge by (simpl; lia). simpl length.
    rewrite take_app_length' by (by rewrite length_replicate).
    rewrite drop_app_ge by (simpl; lia). simpl length.
    rewrite (app_assoc (replicate 8 0)), drop_app_length'
      by (by rewrite length_app, !length_replicate).
    by rewrite <-!app_assoc. }
  cbn [mbind outcome_bind].
  destruct (validate_profile3_data_header h) as [[]| |] eqn:Hv; [|done..].
  apply profile3_header in Hv as [Hh Hp]; [|done]. cbn [mbind outcome_bind].
  assert (len (replicate (Z.to_nat (16 + n)) 0) = 16 + n) as Hl
    by (unfold len; rewrite length_replicate; lia).
  by rewrite pack_profile3 by (rewrite ?Hl; done || lia).
Qed.

Lemma seal_profile3_with_counter key h d pt budget c :
  ses_header h SESSION_DATA → profile h = 3 → wf_bytes pt →
  84 + len pt ≤ SERIALIZED_R8_MAX → 84 + len pt ≤ budget →
  wf_array 32 key → 0 < c < u64_max →
  ∃ ct, open key c (profile3_aad h (36 + len pt) c d) ct = Ok pt ∧
    len ct = len pt + 16 ∧
    encrypt_profile3_with_counter key h
      (profile3_layout 0 d (replicate (Z.to_nat (16 + len pt)) 0)) d pt budget c =
    Ok (header_bytes h (36 + len pt) ++ profile3_layout c d ct).
Proof.
  intros Hh Hp Hpt Hm Hb Hk Hc. pose proof (len_nonneg pt) as Hn. unfold SERIALIZED_R8_MAX in Hm.
  destruct (seal_open_aux key c (profile3_aad h (36 + len pt) c d) pt)
    as (ct & Hct & Hop & Hctl & Hctw); try done; [|unfold_widths; lia|].
  { unfold profile3_aad. apply wf_bytes_app; [|apply wf_be_bytes].
    apply wf_aad_of; [apply Hh|lia|unfold_widths; unfold SESSION_DATA; lia]. }
  exists ct. assert (len ct = len pt + 16) as Hctl' by (unfold len; lia). split_and!; try done.
  set (z := replicate _ 0).
  assert (len z = 16 + len pt) as Hz by (unfold z, len; rewrite length_replicate; lia).
  unfold encrypt_profile3_with_counter.
  assert (copy_slice (E:=SessionError.t) (profile3_layout 0 d z) 4 12 (be_bytes 8 c) =
          Ok (profile3_layout c d z)) as ->.
  { unfold profile3_layout. rewrite copy_slice_Ok
      by (rewrite ?length_app, ?length_be_bytes; simpl; lia). done. }
  cbn [mbind outcome_bind].
  rewrite pack_profile3 by (rewrite ?Hz; unfold SERIALIZED_R8_MAX; done || lia).
  cbn [mbind outcome_bind map_err].
  rewrite profile3_data_aad_layout by (rewrite ?Hz; unfold SERIALIZED_R8_MAX; done || lia).
  cbn [mbind outcome_bind]. replace (20 + len z) with (36 + len pt) by lia.
  rewrite Hct. cbn [mbind outcome_bind].
  assert (∀ w, header_bytes h (36 + len pt) ++ profile3_layout c d w =
    (header_bytes h (36 + len pt) ++ envelope SESSION_DATA 3 ++ be_bytes 8 c ++ be_bytes 8 d) ++ w)
    as Happ by (intros; unfold profile3_layout; by rewrite <-!app_assoc).
  rewrite !Happ. rewrite copy_slice_tail.
  - rewrite take_app_length'; [done|]. rewrite !length_app, !length_be_bytes, length_header_bytes by apply Hh. done.
  - rewrite !length_app, !length_be_bytes, length_header_bytes by apply Hh.
    unfold HEADER_LEN. simpl. lia.
  - rewrite !length_app, !length_be_bytes, length_header_bytes by apply Hh.
    unfold HEADER_LEN, len in *. simpl. lia.
Qed.

Lemma profile3_payload_inv h d (pt : bytes) budget p :
  wf_header h → profile3_payload h d (len pt + 36) budget = Ok p →
  84 + len pt ≤ SERIALIZED_R8_MAX ∧ 84 + len pt ≤ budget ∧
  ses_header h SESSION_DATA ∧ profile h = 3 ∧
  p = profile3_layout 0 d (replicate (Z.to_nat (16 + len pt)) 0).
Proof.
  intros Hw H. pose proof (len_nonneg pt) as Hn.
  assert (84 + len pt ≤ SERIALIZED_R8_MAX ∧ 84 + len pt ≤ budget) as [Hm Hb].
  { unfold profile3_payload in H. inv_ok. subst.
    match goal with H : copy_slice _ _ _ _ = Ok _ |- _ => rename H into Hc end.
    match goal with H : pack_with_budget _ _ _ = Ok _ |- _ => apply pack_inv in H as (_ & _ & Hm & Hb) end.
    assert (len p = len pt + 36) as Hl; [|unfold HEADER_LEN in *; lia].
    unfold copy_slice, resize in Hc. case_decide as Hd; [|done]. apply Ok_inj in Hc as <-.
    rewrite !length_app, take_ge, length_replicate in Hd by (simpl; lia). simpl length in Hd.
    unfold len. rewrite !length_app, length_take, length_be_bytes, length_drop,
      !length_app, take_ge, length_replicate by (simpl; lia). simpl length. lia. }
  rewrite profile3_payload_layout in H by done. inv_ok. subst.
  repeat match goal with u : () |- _ => destruct u end.
  match goal with H : validate_profile3_data_header _ = _ |- _ =>
    apply profile3_header in H as [? ?]; [|done] end. done.
Qed.

Lemma safe_profile3_payload h d (pt : bytes) budget : safe (profile3_payload h d (len pt + 36) budget).
Proof.
  pose proof (len_nonneg pt). unfold profile3_payload, validate_profile3_data_header.
  rewrite copy_slice_Ok.
  - cbn [mbind outcome_bind]. solve_safe; apply safe_pack.
  - unfold resize. rewrite take_ge, length_app, length_replicate by (simpl; lia). simpl. lia.
  - by rewrite length_be_bytes.
Qed.

Lemma encrypt_profile3_run s h d pt budget :
  d ≠ u64_max → len pt ≤ u16_max → 84 + len pt ≤ budget →
  encrypt_profile3_data h d pt budget s =
  match profile3_payload h d (len pt + 36) budget with
  | Ok p =>
      if negb (can_reserve (send_counters s)) then (Err SessionError.CounterExhausted, s) else
      (encrypt_profile3_with_counter (send_key s) h p d pt budget (next (send_counters s)),
       set_counters (mkCounters (next (send_counters s) + 1)) s)
  | Err e => (Err e, s)
  | Panic => (Panic, s)
  end.
Proof.
  intros Hd Hl Hb. pose proof (len_nonneg pt). unfold encrypt_profile3_data.
  assert (d =? u64_max = false) as -> by lia.
  unfold PROFILE3_DATA_PACKET_OVERHEAD, HEADER_LEN.
  rewrite (checked_add_Some (len pt)) by solve_width. cbn [ok_or]. rewrite st_bind_lift.
  rewrite (checked_add_Some _ 48) by solve_width. cbn [ok_or]. rewrite st_bind_lift.
  assert (budget <? len pt + (84 - 48) + 48 = false) as -> by lia. rewrite st_bind_lift.
  change (84 - 48) with 36. case_match; [|done..]. unfold mbind, st_bind, get, throw.
  unfold can_reserve, reserve_counter, zoom, reserve.
  destruct (next (send_counters s) =? 0) eqn:E1, (next (send_counters s) =? u64_max) eqn:E2;
    cbn [negb andb]; by rewrite ?E1, ?E2.
Qed.

(** Encrypting a profile-3 datagram is atomic: on any failure the session is unchanged (no
    counter is burnt), on success exactly one counter was used, and nothing panics. *)
Theorem profile3_encrypt_atomic s h d pt budget :
  wf_header h → wf_bytes pt → len pt ≤ u16_max → wf_array 32 (send_key s) →
  is_u64 (next (send_counters s)) →
  let '(r, s') := encrypt_profile3_data h d pt budget s in
  safe r ∧ s' = if is_ok r then set_counters (mkCounters (next (send_counters s) + 1)) s else s.
Proof.
  intros Hw Hpt Hl Hk Hc. destruct (Z.eqb_spec d u64_max) as [Hd|Hd].
  { unfold encrypt_profile3_data. rewrite Hd. done. }
  destruct (Z.leb_spec (84 + len pt) budget) as [Hb|Hb].
  - rewrite encrypt_profile3_run by done.
    pose proof (safe_profile3_payload h d pt budget) as Hs.
    destruct (profile3_payload _ _ _ _) as [p|e|] eqn:Hp; [|done..].
    apply profile3_payload_inv in Hp as (Hm & _ & Hh & Hpr & ->); [|done].
    unfold can_reserve. destruct (Z.eqb_spec (next (send_counters s)) 0); [done|].
    destruct (Z.eqb_spec (next (send_counters s)) u64_max); [done|]. simpl negb.
    destruct (seal_profile3_with_counter (send_key s) h d pt budget (next (send_counters s)))
      as (ct & _ & _ & ->); try done. unfold is_u64 in Hc. lia.
  - unfold encrypt_profile3_data. assert (d =? u64_max = false) as -> by lia.
    unfold PROFILE3_DATA_PACKET_OVERHEAD, HEADER_LEN. pose proof (len_nonneg pt).
    rewrite (checked_add_Some (len pt)) by solve_width. cbn [ok_or]. rewrite st_bind_lift.
    rewrite (checked_add_Some _ 48) by solve_width. cbn [ok_or]. rewrite st_bind_lift.
    by assert (budget <? len pt + (84 - 48) + 48 = true) as -> by lia.
Qed.

Lemma unpack_profile3_layout h c d ct budget :
  ses_header h SESSION_DATA → profile h = 3 → 68 + len ct ≤ SERIALIZED_R8_MAX → 68 + len ct ≤ budget →
  unpack_with_budget (header_bytes h (20 + len ct) ++ profile3_layout c d ct) budget =
  Ok (h, profile3_layout c d ct).
Proof.
  intros Hh Hp Hm Hb. pose proof (len_nonneg ct).
  assert (len (be_bytes 8 c ++ be_bytes 8 d ++ ct) = 16 + len ct) as Hlen
    by (rewrite !len_app, !len_be_bytes; lia).
  pose proof (unpack_ses h SESSION_DATA (be_bytes 8 c ++ be_bytes 8 d ++ ct) budget Hh) as Hu.
  rewrite Hlen, Hp in Hu. unfold profile3_layout.
  replace (20 + len ct) with (4 + (16 + len ct)) by lia.
  apply Hu; unfold HEADER_LEN in *; lia.
Qed.

Lemma preview_profile3_layout r h c d ct :
  ses_header h SESSION_DATA → profile h = 3 → 16 ≤ len ct → 0 < c < u64_max → 0 < d < u64_max →
  68 + len ct ≤ SERIALIZED_R8_MAX → 68 + len ct ≤ receive_budget r →
  preview_profile3_data r (header_bytes h (20 + len ct) ++ profile3_layout c d ct) =
  (tok ← preview (replay r) c;
   pt ← open (receive_key r) c (profile3_aad h (20 + len ct) c d) ct;
   Ok (mkProfile3Preview d pt tok (receive_owner r))).
Proof.
  intros Hh Hp Hn Hc Hd Hm Hb. unfold preview_profile3_data.
  assert (len (be_bytes 8 c ++ be_bytes 8 d ++ ct) = 16 + len ct) as Hlen
    by (rewrite !len_app, !len_be_bytes; lia).
  rewrite unpack_profile3_layout by done.
  cbn [mbind outcome_bind map_err].
  rewrite (proj2 (profile3_header h ltac:(apply Hh))) by done. cbn [mbind outcome_bind].
  assert (message_decode (profile3_layout c d ct) (profile h) (receive_budget r) =
    Ok (mkMessage SESSION_DATA 3 (be_bytes 8 c ++ be_bytes 8 d ++ ct))) as ->.
  { rewrite Hp. apply message_decode_layout; [|lia].
    apply validate_body_protected; [by right; left|rewrite len_app, len_be_bytes; lia|done]. }
  cbn [mbind outcome_bind map_err msg_typ msg_body msg_profile]. rewrite Hlen.
  assert (negb (SESSION_DATA =? SESSION_DATA) || negb (3 =? 3) || (16 + len ct <? 32) = false) as ->
    by (simpl; lia).
  rewrite (slice_app_l (be_bytes 8 c) _ 0 8), slice_all by (rewrite length_be_bytes; lia).
  rewrite (slice_app_r _ _ 8 16) by (rewrite length_be_bytes; lia). rewrite length_be_bytes.
  rewrite (slice_app_l (be_bytes 8 d)), slice_all by (rewrite length_be_bytes; lia).
  rewrite slice_from_Ok by (rewrite !length_app, !length_be_bytes; lia).
  rewrite (app_assoc (be_bytes 8 c)), drop_app_length' by (by rewrite length_app, !length_be_bytes).
  cbn [mbind outcome_bind]. rewrite !be_value_counter by done.
  assert (d =? 0 = false) as -> by lia. assert (d =? u64_max = false) as -> by lia.
  destruct (preview (replay r) c); [|done..]. cbn [mbind outcome_bind].
  by rewrite profile3_data_aad_layout by (done || lia).
Qed.

(** End-to-end delivery of a profile-3 datagram: whatever non-zero hop limit it arrives with,
    the peer recovers the delivery id and the plaintext, and a second copy is refused. *)
Theorem profile3_delivery s r h d pt budget hop seen :
  let c := next (send_counters s) in
  ses_header h SESSION_DATA → profile h = 3 → 0 < d < u64_max → wf_bytes pt →
  84 + len pt ≤ SERIALIZED_R8_MAX → 84 + len pt ≤ budget → 84 + len pt ≤ receive_budget r →
  wf_array 32 (send_key s) → receive_key r = send_key s →
  repr (replay r) seen → acceptable seen (largest (replay r)) c → generation (replay r) < u64_max →
  is_u8 hop → hop ≠ 0 →
  ∃ packet r',
    encrypt_profile3_data h d pt budget s = (Ok packet, set_counters (mkCounters (c + 1)) s) ∧
    decrypt_profile3_data (<[5%nat := hop]> packet) r = (Ok (d, pt), r') ∧
    repr (replay r') ({[c]} ∪ seen) ∧
    decrypt_profile3_data packet r' = (Err SessionError.Replay, r').
Proof.
  intros c Hh Hp Hd Hpt Hm Hb Hrb Hk Hkey Hr Ha Hg Hhop H0. pose proof Ha as [Hc _].
  destruct (seal_profile3_with_counter (send_key s) h d pt budget c)
    as (ct & Hop & Hctl & Henc); try done.
  destruct (commit_replay_acceptable r seen c) as (w' & Hcommit & Hr' & _); [done..|].
  pose proof (len_nonneg pt). unfold SERIALIZED_R8_MAX in *.
  replace (36 + len pt) with (20 + len ct) in * by lia.
  eexists _, (set_replay w' r). split_and!.
  - rewrite encrypt_profile3_run by (unfold_widths; lia).
    rewrite profile3_payload_layout by (try apply Hh; unfold SERIALIZED_R8_MAX; lia).
    rewrite (proj2 (profile3_header h ltac:(apply Hh))) by done. cbn [mbind outcome_bind].
    unfold can_reserve. fold c. assert (negb (c =? 0) && negb (c =? u64_max) = true) as -> by lia.
    cbn [negb]. by rewrite Henc.
  - unfold decrypt_profile3_data, mbind at 1, st_bind at 1, get. rewrite st_bind_lift.
    rewrite insert_hop by apply Hh.
    rewrite preview_profile3_layout
      by (try apply with_hop_ses; unfold SERIALIZED_R8_MAX; done || lia).
    rewrite (preview_acceptable _ seen) by done. cbn [mbind outcome_bind].
    change (profile3_aad (with_hop hop h)) with (profile3_aad h). rewrite Hkey, Hop.
    cbn [mbind outcome_bind]. unfold commit_profile3_data, mbind, st_bind, get.
    cbn [p3_receive_owner p3_commit]. rewrite Z.eqb_refl. cbn [negb]. by rewrite Hcommit.
  - done.
  - unfold decrypt_profile3_data, mbind at 1, st_bind at 1, get. rewrite st_bind_lift.
    rewrite preview_profile3_layout by (unfold SERIALIZED_R8_MAX; simpl; done || lia).
    unfold preview. rewrite (check_replay _ ({[c]} ∪ seen)); [done|done|unfold is_u64; lia|set_solver].
Qed.

(** ** Absence of panics *)

Lemma safe_open key c aad ct : safe (open key c aad ct).
Proof.
  unfold open. case_match eqn:Hl; [done|].
  apply safe_bind; [apply safe_nonce|]. intros n _. solve_safe; lia.
Qed.

Lemma safe_profile3_data_aad packet c d : safe (profile3_data_aad packet c d).
Proof. unfold profile3_data_aad. solve_safe. apply safe_protected_aad, safe_unpack. Qed.

Lemma message_decode_body p prof budget m :
  message_decode p prof budget = Ok m → 5 ≤ msg_typ m → (24 ≤ length (msg_body m))%nat.
Proof.
  unfold message_decode. intros H Ht. inv_ok. subst m. cbn [msg_typ msg_body] in *.
  match goal with H : validate_body _ _ = _ |- _ => rename H into Hv end.
  unfold validate_body in Hv. inv_ok; unfold body_len, OPEN, VERIFY_COOKIE, OPEN_AUTH, OPEN_ACK in *;
    repeat case_match; simplify_eq; unfold len in *; lia.
Qed.

Lemma message_decode_wf p prof budget m :
  wf_bytes p → message_decode p prof budget = Ok m → wf_bytes (msg_body m).
Proof.
  intros Hw H. unfold message_decode in H. inv_ok. subst m. cbn [msg_body].
  match goal with H : slice_from _ _ = Ok _ |- _ => apply slice_inv in H as (_ & -> & _) end.
  solve_wf.
Qed.

Lemma be_value_u64 (l : bytes) : wf_bytes l → length l = 8%nat → is_u64 (be_value l).
Proof.
  intros Hw Hl. pose proof (be_value_range l Hw) as Hv. unfold len in Hv. rewrite Hl in Hv.
  simpl in Hv. unfold_widths. lia.
Qed.

Lemma safe_session_preview s seen packet :
  repr (replay s) seen → wf_bytes packet → safe (session_preview s packet).
Proof.
  intros Hr Hw. unfold session_preview. apply safe_bind; [apply safe_map_err, safe_unpack|].
  intros [h payload] Hu%map_err_Ok. apply unpack_inv in Hu as (Hh & -> & _); [|done].
  apply wf_bytes_app_1 in Hw as [_ Hw].
  apply safe_bind; [apply safe_map_err, safe_message_decode|]. intros m Hm%map_err_Ok.
  case_match eqn:Ht; [done|].
  pose proof (message_decode_body _ _ _ _ Hm ltac:(unfold SESSION_ACCEPT, SESSION_DATA, CLOSE in *; lia)).
  apply safe_bind; [apply safe_slice; lia|]. intros c Hc. apply slice_inv in Hc as (_ & Hc & Hcl).
  assert (wf_bytes (msg_body m)) as Hb.
  { by eapply message_decode_wf. }
  assert (is_u64 (be_value c)) by (apply be_value_u64; [subst c; solve_wf|lia]).
  apply safe_bind; [unfold preview; solve_safe; by eapply check_spec|]. intros tok _.
  apply safe_bind; [apply safe_protected_aad, safe_unpack|]. intros aad _.
  solve_safe; try apply safe_open; lia.
Qed.

Lemma safe_preview_profile3 s seen packet :
  repr (replay s) seen → wf_bytes packet → safe (preview_profile3_data s packet).
Proof.
  intros Hr Hw. unfold preview_profile3_data. apply safe_bind; [apply safe_map_err, safe_unpack|].
  intros [h payload] Hu%map_err_Ok. apply unpack_inv in Hu as (Hh & -> & _); [|done].
  apply wf_bytes_app_1 in Hw as [_ Hw].
  apply safe_bind; [unfold validate_profile3_data_header; solve_safe|]. intros _ _.
  apply safe_bind; [apply safe_map_err, safe_message_decode|]. intros m Hm%map_err_Ok.
  case_match eqn:Ht; [done|]. apply orb_false_iff in Ht as [_ Ht].
  assert (32 ≤ length (msg_body m))%nat by (unfold len in Ht; lia).
  assert (wf_bytes (msg_body m)) as Hb by (by eapply message_decode_wf).
  apply safe_bind; [apply safe_slice; lia|]. intros c Hc. apply slice_inv in Hc as (_ & Hc & Hcl).
  assert (is_u64 (be_value c)) by (apply be_value_u64; [subst c; solve_wf|lia]).
  apply safe_bind; [apply safe_slice; lia|]. intros d _. do 2 (case_match; [done|]).
  apply safe_bind; [unfold preview; solve_safe; by eapply check_spec|]. intros tok _.
  apply safe_bind; [apply safe_profile3_data_aad|]. intros aad _.
  solve_safe; try apply safe_open; lia.
Qed.

(** No received byte string makes a session with a well-formed replay window panic, whichever
    of the two previews it is handed to. *)
Theorem session_preview_never_panics s seen packet :
  repr (replay s) seen → wf_bytes packet →
  safe (session_preview s packet) ∧ safe (preview_profile3_data s packet).
Proof. eauto using safe_session_preview, safe_preview_profile3. Qed.

Lemma session_preview_owner s packet pv :
  session_preview s packet = Ok pv → pp_receive_owner pv = receive_owner s.
Proof. unfold session_preview. intros H. inv_ok. destruct x. inv_ok. by subst pv. Qed.

Lemma session_new_inv sk rk th b w s w' :
  session_new sk rk th b w = (Ok s, w') →
  s = mkSession sk rk counters_new window_new th b (next_owner w) ∧
  w' = mkWorld (next_owner w + 1) ({[next_owner w]} ∪ leases w).
Proof.
  unfold session_new, allocate_session_owner, mbind, st_bind, get, put.
  destruct (_ || _); [done|]. intros [= <- <-]. done.
Qed.

(** Previews are bound to the session they were taken from: a session created later never
    commits them, and their plaintext is readable only until the session is dropped. *)
Theorem preview_bound_to_session sk1 rk1 th1 b1 w1 s1 w1' sk2 rk2 th2 b2 w2 s2 w2' s packet pv :
  session_new sk1 rk1 th1 b1 w1 = (Ok s1, w1') →
  next_owner w1' ≤ next_owner w2 →
  session_new sk2 rk2 th2 b2 w2 = (Ok s2, w2') →
  receive_owner s = receive_owner s1 → session_preview s packet = Ok pv →
  session_commit pv s2 = (Err SessionError.Replay, s2) ∧
  plaintext w1' pv = Ok (pp_plaintext pv) ∧
  plaintext (session_drop s w1') pv = Err SessionError.Replay.
Proof.
  intros [-> ->]%session_new_inv Hle [-> ->]%session_new_inv Hs Hp%session_preview_owner.
  simpl in *. rewrite Hs in Hp. unfold session_commit, mbind, st_bind, get, plaintext, session_drop.
  cbn [receive_owner leases]. rewrite Hp, Hs.
  destruct (Z.eqb_spec (next_owner w2) (next_owner w1)); [lia|]. split; [done|].
  rewrite bool_decide_true, bool_decide_false by set_solver. done.
Qed.

(** ** Profile-3 bootstrap *)

Lemma derive_key_Ok prk th prof a b slot :
  wf_array 32 prk → wf_array 32 th → is_u8 prof →
  role_ok a = true → role_ok b = true → a ≠ b → 0 ≤ slot ≤ 1 →
  ∃ k, derive_key_from_prk prk th prof a b slot = Ok k ∧ wf_array 32 k.
Proof.
  intros Hprk [_ Hth] Hp Ha Hb Hab Hs. unfold derive_key_from_prk. rewrite Ha, Hb. simpl negb.
  assert (false || false || (a =? b) || (1 <? slot) = false) as -> by (simpl; lia).
  unfold role_ok in *.
  destruct (hkdf_expand_array prk (ascii_bytes "R8 key v1" ++ [WIRE_VERSION; SESSION_VERSION; prof] ++
    th ++ [a; b; slot])) as (k & -> & Hk); [done| |by exists k].
  apply wf_bytes_app; [compute_decide|]. unfold WIRE_VERSION, SESSION_VERSION.
  assert (is_u8 a ∧ is_u8 b) as [] by (unfold_widths; lia). solve_wf.
Qed.

(** The second slot is derived at most once, and the two ends of a session derive crossed
    keys for it: what one sends the other receives. *)
Theorem slot1_keys_crossed_once bc bs wc ws schedule :
  pb_schedule bc = Some schedule → pb_schedule bs = Some schedule → wf_array 32 schedule →
  pb_transcript_hash bs = pb_transcript_hash bc → wf_array 32 (pb_transcript_hash bc) →
  pb_local_role bs = pb_peer_role bc → pb_peer_role bs = pb_local_role bc →
  role_ok (pb_local_role bc) = true → role_ok (pb_peer_role bc) = true →
  pb_local_role bc ≠ pb_peer_role bc →
  0 < next_owner wc < u64_max → 0 < next_owner ws < u64_max →
  ∃ sc ss bc' bs' wc' ws',
    take_slot1_after_admission (bc, wc) = (Ok sc, (bc', wc')) ∧
    take_slot1_after_admission (bs, ws) = (Ok ss, (bs', ws')) ∧
    send_key sc = receive_key ss ∧ receive_key sc = send_key ss ∧
    take_slot1_after_admission (bc', wc') = (Err SessionError.UnexpectedMessage, (bc', wc')).
Proof.
  intros Hc Hs Hw Ht Hwt Hl Hp Hr1 Hr2 Hne Hoc Hos.
  destruct (derive_key_Ok schedule (pb_transcript_hash bc) 3 (pb_local_role bc) (pb_peer_role bc) 1)
    as (k1 & Hk1 & _); try done.
  destruct (derive_key_Ok schedule (pb_transcript_hash bc) 3 (pb_peer_role bc) (pb_local_role bc) 1)
    as (k2 & Hk2 & _); try done.
  assert (∀ sk rk th b w, 0 < next_owner w < u64_max → session_new sk rk th b w =
    (Ok (mkSession sk rk counters_new window_new th b (next_owner w)),
     mkWorld (next_owner w + 1) ({[next_owner w]} ∪ leases w))) as Hnew.
  { intros. unfold session_new, allocate_session_owner, mbind, st_bind, get, put.
    by assert ((next_owner w =? 0) || (next_owner w =? u64_max) = false) as -> by lia. }
  unfold take_slot1_after_admission. rewrite Hc, Hs, Ht, Hl, Hp, Hk1, Hk2.
  cbn [mbind outcome_bind]. rewrite !Hnew by done.
  do 6 eexists. split; [done|]. split; [done|]. by split.
Qed.
End Layout.

(** ** Concrete instances *)

Definition demo_key : bytes := replicate 31 0 ++ [17].
Definition demo_session : DirectionalSession :=
  mkSession demo_key demo_key counters_new window_new demo_key 1280 1.
Definition demo_data : Header := mkHeader 3 0 NH_SES 64 1 0 7 demo_src demo_dst.

Lemma demo_acceptable : acceptable ∅ 0 1.
Proof. split; [done|]. split; [set_solver|by left]. Qed.

Lemma protected_delivery_witness :
  ∃ packet r',
    encrypt demo_data SESSION_DATA [1; 2; 3] 1280 demo_session =
      (Ok packet, set_counters (mkCounters 2) demo_session) ∧
    decrypt (<[5%nat := 63]> packet) demo_session = (Ok [1; 2; 3], r') ∧
    repr (replay r') ({[1]} ∪ ∅) ∧ decrypt packet r' = (Err SessionError.Replay, r').
Proof.
  apply (protected_delivery demo_session demo_session demo_data SESSION_DATA [1; 2; 3] 1280 63 ∅);
    first [compute_decide | by right; left | apply repr_new | apply demo_acceptable | by vm_compute].
Defined.

Lemma profile3_delivery_witness :
  ∃ packet r',
    encrypt_profile3_data demo_data 5 [1; 2; 3] 1280 demo_session =
      (Ok packet, set_counters (mkCounters 2) demo_session) ∧
    decrypt_profile3_data (<[5%nat := 63]> packet) demo_session = (Ok (5, [1; 2; 3]), r') ∧
    repr (replay r') ({[1]} ∪ ∅) ∧
    decrypt_profile3_data packet r' = (Err SessionError.Replay, r').
Proof.
  apply (profile3_delivery demo_session demo_session demo_data 5 [1; 2; 3] 1280 63 ∅);
    first [compute_decide | apply repr_new | apply demo_acceptable | by vm_compute].
Defined.

Lemma profile3_encrypt_atomic_witness :
  snd (encrypt_profile3_data demo_ctl 5 [1; 2; 3] 1280 demo_session) = demo_session.
Proof.
  pose proof (profile3_encrypt_atomic demo_session demo_ctl 5 [1; 2; 3] 1280) as H.
  destruct (encrypt_profile3_data demo_ctl 5 [1; 2; 3] 1280 demo_session) as [r s'] eqn:E.
  assert (is_ok r = false) as Hr by (change r with (fst (r, s')); rewrite <-E; by vm_compute).
  destruct H as [_ Hs]; [compute_decide..|]. cbn [snd]. by rewrite Hs, Hr.
Defined.

Lemma session_preview_never_panics_witness : safe (session_preview demo_session [1; 2; 3]).
Proof.
  apply (session_preview_never_panics demo_session ∅ [1; 2; 3]); [apply repr_new|compute_decide].
Defined.

Definition demo_packet : bytes :=
  match encrypt demo_data SESSION_DATA [1; 2; 3] 1280 demo_session with
  | (Ok p, _) => p
  | _ => []
  end.

Lemma preview_bound_to_session_witness :
  let w1 := mkWorld 2 ({[1]} ∪ ∅) in
  let s2 := mkSession demo_key demo_key counters_new window_new demo_key 1280 2 in
  ∃ pv, session_preview demo_session demo_packet = Ok pv ∧
    session_commit pv s2 = (Err SessionError.Replay, s2) ∧
    plaintext w1 pv = Ok (pp_plaintext pv) ∧
    plaintext (session_drop demo_session w1) pv = Err SessionError.Replay.
Proof.
  destruct (session_preview demo_session demo_packet) as [pv| |] eqn:E; [|by vm_compute in E..].
  exists pv. split; [done|].
  apply (preview_bound_to_session demo_key demo_key demo_key 1280 world_init demo_session
    (mkWorld 2 ({[1]} ∪ ∅)) demo_key demo_key demo_key 1280 (mkWorld 2 ({[1]} ∪ ∅)) _
    (mkWorld 3 ({[2]} ∪ ({[1]} ∪ ∅))) demo_session demo_packet); done.
Defined.

Definition demo_bootstrap (a b : Z) : Profile3Bootstrap :=
  bootstrap_new 7 demo_src demo_dst 1280 a b demo_key demo_key demo_session.

Lemma slot1_keys_crossed_once_witness :
  ∃ sc ss bc' bs' wc' ws',
    take_slot1_after_admission (demo_bootstrap 1 2, world_init) = (Ok sc, (bc', wc')) ∧
    take_slot1_after_admission (demo_bootstrap 2 1, world_init) = (Ok ss, (bs', ws')) ∧
    send_key sc = receive_key ss ∧ receive_key sc = send_key ss ∧
    take_slot1_after_admission (bc', wc') = (Err SessionError.UnexpectedMessage, (bc', wc')).
Proof.
  apply (slot1_keys_crossed_once _ _ _ _ demo_key); first [reflexivity|compute_decide|by vm_compute].
Defined.
