(* ===== verification/Client.v ===== *)
(** * The client handshake machine

    [HandshakeConfig], [ClientState] and [ClientMachine] of
    src/rust/crates/r8-session/src/lib.rs.  Operations run on the machine and
    the [World] that holds the lease of its session. *)

From stdpp Require Import gmap sets.
From S2P Require Import Prelude Wire Checksum Codec HeaderRules Crypto SessionMsg Replay SessionCrypto Directional.

(** ** Configuration *)

Record HandshakeConfig : Set := mkConfig {
  hc_local : Identity;
  hc_peer : Identity;
  hc_profile : Z;
  hc_source : bytes;
  hc_destination : bytes;
  hc_budget : Z;
  hc_pending_limit : Z;
  hc_established_limit : Z;
  hc_server_context_id : Z;
}.

Record ClientMaterial : Set := mkClientMaterial {
  cm_ephemeral_secret : bytes;
  cm_nonce : bytes;
}.

Inductive ClientState : Set :=
| Idle
| CookieWait (scid : Z) (material : ClientMaterial) (open : bytes) (deadline_ms : Z)
| AuthWait (scid : Z) (material : ClientMaterial) (boot : bytes) (opening : bytes)
    (verify_header : Header) (verify_cookie : bytes) (open_auth : bytes) (deadline_ms : Z)
| Established (scid : Z) (session : DirectionalSession) (schedule : option bytes)
    (cached_accept : bytes)
| Released.

Record ClientMachine : Set := mkClient {
  cl_config : HandshakeConfig;
  cl_signing_key : bytes;
  cl_state : ClientState;
  cl_effective_local_loc : bytes;
  cl_effective_peer_loc : bytes;
}.

Definition set_state (s : ClientState) (m : ClientMachine) : ClientMachine :=
  mkClient (cl_config m) (cl_signing_key m) s (cl_effective_local_loc m) (cl_effective_peer_loc m).

(** A [DataPreview] of the client or the server. *)
Record DataPreview : Set := mkDataPreview {
  dp_scid : Z;
  dp_header : Header;
  dp_commit : ProtectedPreview;
}.

Definition data_plaintext (w : World) (p : DataPreview) : outcome SessionError.t bytes :=
  plaintext w (dp_commit p).
Definition data_into_replay_proof (p : DataPreview) : ProtectedReplayProof :=
  into_replay_proof (dp_commit p).

Definition ClientWorld : Type := ClientMachine * World.

(** Assigning [Released] drops the session of the old state, if any. *)
Definition release (mw : ClientWorld) : ClientWorld :=
  let '(m, w) := mw in
  (set_state Released m,
   match cl_state m with Established _ s _ _ => session_drop s w | _ => w end).

Section Client.
Context `{C : Crypto}.

Definition config_validate (c : HandshakeConfig) : outcome SessionError.t unit :=
  identity_validate (hc_local c) ;;
  identity_validate (hc_peer c) ;;
  if id_role (hc_local c) =? id_role (hc_peer c) then Err SessionError.RoleMismatch else
  if negb (id_service_context (hc_local c) =? id_service_context (hc_peer c))
  then Err SessionError.ServiceMismatch else
  if (3 <? hc_profile c) || negb ((48 <=? hc_budget c) && (hc_budget c <=? 1280)) ||
     negb ((1 <=? hc_pending_limit c) && (hc_pending_limit c <=? 256)) ||
     negb ((1 <=? hc_established_limit c) && (hc_established_limit c <=? 1024)) ||
     (hc_server_context_id c =? 0)
  then Err SessionError.ConfigError else Ok ().

Definition client_new (config : HandshakeConfig) (signing_key : bytes) :
    outcome SessionError.t ClientMachine :=
  config_validate config ;;
  if negb (beq (ed25519_public signing_key) (id_public_key (hc_local config)))
  then Err SessionError.PinMismatch else
  Ok (mkClient config signing_key Idle (hc_source config) (hc_destination config)).

(** A header of this session; handshake packets have flags and slot zero. *)
Definition ses_packet_header (profile flags slot scid : Z) (source destination : bytes) : Header :=
  mkHeader profile 0 NH_SES 64 flags slot scid source destination.

(** [packet]: the client sends from [source] to [destination], the server the other way. *)
Definition build_packet (c : HandshakeConfig) (source destination : bytes)
    (scid typ flags slot : Z) (body : bytes) : outcome SessionError.t bytes :=
  payload ← message_encode (mkMessage typ (hc_profile c) body) (hc_budget c);
  map_err (λ _, SessionError.Budget)
    (pack_with_budget (ses_packet_header (hc_profile c) flags slot scid source destination)
       payload (hc_budget c)).

Definition client_packet (c : HandshakeConfig) (scid typ flags slot : Z) (body : bytes) :
    outcome SessionError.t bytes :=
  build_packet c (hc_source c) (hc_destination c) scid typ flags slot body.

Definition open_body (c : HandshakeConfig) (material : ClientMaterial) : bytes :=
  [id_role (hc_local c); id_role (hc_peer c)] ++
  be_bytes 4 (id_service_context (hc_local c)) ++ id_eid (hc_local c) ++
  id_public_key (hc_local c) ++ x25519_public (cm_ephemeral_secret material) ++ cm_nonce material.

Definition start (scid : Z) (material : ClientMaterial) (now_ms : Z) :
    st ClientWorld SessionError.t bytes := λ '(m, w),
  if (scid =? 0) || negb (match cl_state m with Idle => true | _ => false end)
  then (Err SessionError.UnexpectedMessage, (m, w)) else
  match client_packet (cl_config m) scid OPEN 0 0 (open_body (cl_config m) material) with
  | Ok packet =>
      (Ok packet, (set_state (CookieWait scid material packet (sat_add now_ms 5000)) m, w))
  | Err e => (Err e, (m, w))
  | Panic => (Panic, (m, w))
  end.

(** The test of [release_cookie_wait_if_expired]; the callers assign [Released]. *)
Definition cookie_wait_expired (m : ClientMachine) (now_ms : Z) : bool :=
  match cl_state m with CookieWait _ _ _ deadline => deadline <=? now_ms | _ => false end.

Definition retry (now_ms : Z) : st ClientWorld SessionError.t bytes := λ '(m, w),
  if cookie_wait_expired m now_ms then (Err SessionError.UnexpectedMessage, release (m, w)) else
  (match cl_state m with
   | CookieWait _ _ open deadline =>
       if now_ms <? deadline then Ok open else Err SessionError.UnexpectedMessage
   | AuthWait _ _ _ _ _ _ open_auth deadline =>
       if now_ms <? deadline then Ok open_auth else Err SessionError.UnexpectedMessage
   | Established _ _ _ cached_accept => Ok cached_accept
   | _ => Err SessionError.UnexpectedMessage
   end, (m, w)).

Definition client_expire (now_ms : Z) (mw : ClientWorld) : ClientWorld :=
  match cl_state (fst mw) with
  | CookieWait _ _ _ deadline | AuthWait _ _ _ _ _ _ _ deadline =>
      if deadline <=? now_ms then release mw else mw
  | _ => mw
  end.

(** The tests on a handshake packet's header, in the order of the code. *)
Definition handshake_header_bad (c : HandshakeConfig) (h : Header) (scid' : Z)
    (source destination : bytes) : bool :=
  negb (next_header h =? NH_SES) || negb (profile h =? hc_profile c) || negb (scid h =? scid') ||
  negb (flags h =? 0) || negb (path_slot h =? 0) ||
  negb (beq (src h) source) || negb (beq (dst h) destination).

(** [u32::from_be_bytes(data[a..a + 4]) != v] *)
Definition u32_ne (data : bytes) (a : nat) (v : Z) : outcome SessionError.t bool :=
  s ← slice data a (a + 4); Ok (negb (be_value s =? v)).

Definition validate_verify_cookie (m : ClientMachine) (packet : bytes) (scid' : Z)
    (material : ClientMaterial) (opening : bytes) :
    outcome SessionError.t (Header * bytes * bytes) :=
  let c := cl_config m in
  '(opening_header, opening_payload) ←
    map_err (λ _, SessionError.AuthFailed) (unpack_with_budget opening (hc_budget c));
  let expected_ephemeral := x25519_public (cm_ephemeral_secret material) in
  bad ← Ok (handshake_header_bad c opening_header scid' (hc_source c) (hc_destination c)) ||?
    Ok (negb (len opening_payload =? 122)) ||?
    byte_ne opening_payload 0 OPEN ||? byte_ne opening_payload 1 SESSION_VERSION ||?
    byte_ne opening_payload 2 (hc_profile c) ||? byte_ne opening_payload 3 0 ||?
    byte_ne opening_payload 4 (id_role (hc_local c)) ||?
    byte_ne opening_payload 5 (id_role (hc_peer c)) ||?
    u32_ne opening_payload 6 (id_service_context (hc_local c)) ||?
    slice_ne opening_payload 10 26 (id_eid (hc_local c)) ||?
    slice_ne opening_payload 26 58 (id_public_key (hc_local c)) ||?
    slice_ne opening_payload 58 90 expected_ephemeral ||?
    slice_ne opening_payload 90 122 (cm_nonce material);
  if bad : bool then Err SessionError.AuthFailed else
  '(header, payload) ←
    map_err (λ _, SessionError.AuthFailed) (unpack_with_budget packet (hc_budget c));
  bad ← Ok (handshake_header_bad c header scid' (hc_destination c) (hc_source c)) ||?
    Ok (negb (len payload =? 122)) ||?
    byte_ne payload 0 VERIFY_COOKIE ||? byte_ne payload 1 SESSION_VERSION ||?
    byte_ne payload 2 (hc_profile c) ||? byte_ne payload 3 0 ||?
    byte_ne payload 4 (id_role (hc_peer c)) ||? byte_ne payload 5 (id_role (hc_local c)) ||?
    u32_ne payload 6 (id_service_context (hc_local c)) ||?
    (k ← slice opening_payload 26 58; slice_ne payload 10 42 k);
  if bad : bool then Err SessionError.AuthFailed else
  e ← slice opening_payload 58 90;
  bad ← slice_ne payload 42 74 (sha256 e);
  if bad : bool then Err SessionError.AuthFailed else
  boot ← slice payload 74 90;
  cookie ← slice payload 90 122;
  Ok (header, boot, cookie).

Definition placeholder_identity (i : Identity) : Identity :=
  mkIdentity (id_role i) (id_service_context i) (id_eid i) zero_key.

(** The transcript the client signs in OPEN_AUTH. *)
Definition auth_transcript (prof scid : Z) (client server : Identity)
    (client_ephemeral client_nonce boot : bytes) : TranscriptContext :=
  mkTranscriptContext prof scid client (placeholder_identity server) client_ephemeral zero_key
    client_nonce zero_key boot.

Definition open_auth_body (c : HandshakeConfig) (material : ClientMaterial)
    (boot cookie signature : bytes) : bytes :=
  open_body c material ++ boot ++ cookie ++ signature.

(** The closure of [receive_verify] in the state [CookieWait]. *)
Definition verify_result (m : ClientMachine) (packet : bytes) (scid : Z)
    (material : ClientMaterial) (open : bytes) :
    outcome SessionError.t (Header * bytes * bytes * bytes) :=
  let c := cl_config m in
  '(header, boot, cookie) ← validate_verify_cookie m packet scid material open;
  t0 ← transcript_t0 (auth_transcript (hc_profile c) scid (hc_local c) (hc_peer c)
         (x25519_public (cm_ephemeral_secret material)) (cm_nonce material) boot);
  let signature := sign_open_auth (cl_signing_key m) t0 in
  open_auth ← client_packet c scid OPEN_AUTH 0 0 (open_auth_body c material boot cookie signature);
  Ok (header, boot, cookie, open_auth).

Definition receive_verify (packet : bytes) (now_ms : Z) : st ClientWorld SessionError.t bytes :=
  λ '(m, w),
  if cookie_wait_expired m now_ms then (Err SessionError.UnexpectedMessage, release (m, w)) else
  match cl_state m with
  | CookieWait scid material open deadline =>
      if now_ms <? deadline then
        match verify_result m packet scid material open with
        | Ok (header, boot, cookie, open_auth) =>
            (Ok open_auth,
             (set_state (AuthWait scid material boot open header cookie open_auth deadline) m, w))
        | Err e => (Err e, release (m, w))
        | Panic => (Panic, (m, w))
        end
      else (Err SessionError.UnexpectedMessage, (m, w))
  | AuthWait scid material boot opening verify_header verify_cookie open_auth deadline =>
      (if now_ms <? deadline then
         '(header, candidate_boot, candidate_cookie) ←
           validate_verify_cookie m packet scid material opening;
         if negb (bool_decide (header = verify_header)) || negb (beq candidate_boot boot) ||
            negb (beq candidate_cookie verify_cookie)
         then Err SessionError.AuthFailed else Ok open_auth
       else Err SessionError.UnexpectedMessage, (m, w))
  | _ => (Err SessionError.UnexpectedMessage, (m, w))
  end.

(** The computations of [receive_ack] up to the session keys. *)
Definition ack_keys (m : ClientMachine) (packet : bytes) (scid : Z) (material : ClientMaterial)
    (boot open_auth : bytes) : outcome SessionError.t (bytes * bytes * bytes * bytes) :=
  let c := cl_config m in
  '(header, payload) ←
    map_err (λ _, SessionError.AuthFailed) (unpack_with_budget packet (hc_budget c));
  if handshake_header_bad c header scid (hc_destination c) (hc_source c)
  then Err SessionError.AuthFailed else
  ack ← message_decode payload (hc_profile c) (hc_budget c);
  if negb (msg_typ ack =? OPEN_ACK) then Err SessionError.UnexpectedMessage else
  let body := msg_body ack in
  bad ← byte_ne body 0 (id_role (hc_peer c)) ||? byte_ne body 1 (id_role (hc_local c));
  if bad : bool then Err SessionError.RoleMismatch else
  bad ← u32_ne body 2 (id_service_context (hc_peer c));
  if bad : bool then Err SessionError.ServiceMismatch else
  bad ← slice_ne body 6 22 (id_eid (hc_peer c)) ||? slice_ne body 22 54 (id_public_key (hc_peer c));
  if bad : bool then Err SessionError.PinMismatch else
  server_ephemeral ← slice body 54 86;
  server_nonce ← slice body 86 118;
  signature ← slice body 118 182;
  let client_ephemeral := x25519_public (cm_ephemeral_secret material) in
  t0 ← transcript_t0 (mkTranscriptContext (hc_profile c) scid (hc_local c) (hc_peer c)
         client_ephemeral server_ephemeral (cm_nonce material) server_nonce boot);
  verify_signature (id_public_key (hc_peer c)) OPEN_ACK_DOMAIN t0 signature ;;
  shared ← x25519 (cm_ephemeral_secret material) server_ephemeral;
  '(_, auth_payload) ← map_err (λ _, SessionError.AuthFailed) (unpack open_auth);
  auth_body ← slice_from auth_payload 4;
  client_signature ← slice auth_body 166 230;
  let hash := transcript_hash t0 client_signature signature in
  let schedule := hkdf_prk shared hash in
  send_key ← derive_key_from_prk schedule hash (hc_profile c)
               (id_role (hc_local c)) (id_role (hc_peer c)) 0;
  receive_key ← derive_key_from_prk schedule hash (hc_profile c)
                  (id_role (hc_peer c)) (id_role (hc_local c)) 0;
  Ok (hash, schedule, send_key, receive_key).

Definition accept_plaintext (hash : bytes) : bytes := ascii_bytes "R8 ACCEPT v1" ++ hash.

Definition receive_ack (packet : bytes) (now_ms : Z) : st ClientWorld SessionError.t bytes :=
  λ '(m, w),
  let c := cl_config m in
  match cl_state m with
  | AuthWait scid material boot _ _ _ open_auth deadline =>
      if deadline <=? now_ms then (Err SessionError.Timeout, release (m, w)) else
      match ack_keys m packet scid material boot open_auth with
      | Err e => (Err e, (m, w))
      | Panic => (Panic, (m, w))
      | Ok (hash, schedule, send_key, receive_key) =>
          match session_new send_key receive_key hash (hc_budget c) w with
          | (Ok session, w) =>
              let header :=
                ses_packet_header (hc_profile c) 1 0 scid (hc_source c) (hc_destination c) in
              match encrypt header SESSION_ACCEPT (accept_plaintext hash) (hc_budget c) session with
              | (Ok accept, session) =>
                  (Ok accept,
                   (set_state (Established scid session
                      (if hc_profile c =? 3 then Some schedule else None) accept) m, w))
              | (Err e, session) => (Err e, (m, session_drop session w))
              | (Panic, session) => (Panic, (m, session_drop session w))
              end
          | (Err e, w) => (Err e, (m, w))
          | (Panic, w) => (Panic, (m, w))
          end
      end
  | Established _ _ _ cached_accept => (Ok cached_accept, (m, w))
  | _ => (Err SessionError.UnexpectedMessage, (m, w))
  end.

Definition client_take_profile3_bootstrap : st ClientWorld SessionError.t Profile3Bootstrap :=
  λ '(m, w),
  let c := cl_config m in
  if negb (hc_profile c =? 3) then (Err SessionError.Profile, (m, w)) else
  match cl_state m with
  | Established scid session (Some schedule) _ =>
      (Ok (bootstrap_new scid (cl_effective_local_loc m) (cl_effective_peer_loc m) (hc_budget c)
             (id_role (hc_local c)) (id_role (hc_peer c)) (ds_transcript_hash session)
             schedule session), (set_state Released m, w))
  | _ => (Err SessionError.UnexpectedMessage, (m, w))
  end.

(** An operation on the established session; a failure with [CounterExhausted] releases it. *)
Definition client_send (h : Z → Header) (typ : Z) (pt : bytes) (close : bool) :
    st ClientWorld SessionError.t bytes := λ '(m, w),
  match cl_state m with
  | Established scid session schedule cached =>
      let '(r, session) := encrypt (h scid) typ pt (hc_budget (cl_config m)) session in
      let m' := set_state (Established scid session schedule cached) m in
      match r with
      | Err SessionError.CounterExhausted => (r, release (m', w))
      | Ok _ => (r, if close then release (m', w) else (m', w))
      | _ => (r, (m', w))
      end
  | _ => (Err SessionError.UnexpectedMessage, (m, w))
  end.

Definition client_send_data_with_locs (pt source destination : bytes) :
    st ClientWorld SessionError.t bytes := λ '(m, w),
  client_send (λ scid, ses_packet_header (hc_profile (cl_config m)) 1 0 scid source destination)
    SESSION_DATA pt false (m, w).

Definition client_send_data (pt : bytes) : st ClientWorld SessionError.t bytes := λ '(m, w),
  client_send_data_with_locs pt (cl_effective_local_loc m) (cl_effective_peer_loc m) (m, w).

Definition client_close (code : Z) : st ClientWorld SessionError.t bytes := λ '(m, w),
  client_send (λ scid, ses_packet_header (hc_profile (cl_config m)) 1 0 scid
                 (cl_effective_local_loc m) (cl_effective_peer_loc m))
    CLOSE (be_bytes 2 code) true (m, w).

(** The header tests shared by both [preview_data_with_locs]. *)
Definition data_header_bad (c : HandshakeConfig) (h : Header) (peer_loc local_loc : bytes)
    (allowed_sources allowed_destinations : list bytes) : bool :=
  negb (next_header h =? NH_SES) || negb (profile h =? hc_profile c) || negb (flags h =? 1) ||
  negb (path_slot h =? 0) ||
  (negb (beq (src h) peer_loc) && negb (bool_decide (src h ∈ allowed_sources))) ||
  (negb (beq (dst h) local_loc) && negb (bool_decide (dst h ∈ allowed_destinations))).

(** The tail of both [preview_data_with_locs], once the session is found. *)
Definition preview_on_session (c : HandshakeConfig) (session : DirectionalSession)
    (header : Header) (payload packet : bytes) (peer_loc local_loc : bytes)
    (allowed_sources allowed_destinations : list bytes) : outcome SessionError.t DataPreview :=
  if data_header_bad c header peer_loc local_loc allowed_sources allowed_destinations
  then Err SessionError.AuthFailed else
  message ← message_decode payload (profile header) (hc_budget c);
  if negb (msg_typ message =? SESSION_DATA) then Err SessionError.UnexpectedMessage else
  commit ← session_preview session packet;
  Ok (mkDataPreview (scid header) header commit).

Definition client_preview_data_with_locs (m : ClientMachine) (packet : bytes)
    (allowed_sources allowed_destinations : list bytes) : outcome SessionError.t DataPreview :=
  let c := cl_config m in
  '(header, payload) ←
    map_err (λ _, SessionError.AuthFailed) (unpack_with_budget packet (hc_budget c));
  match cl_state m with
  | Established scid' session _ _ =>
      if scid' =? scid header then
        preview_on_session c session header payload packet
          (cl_effective_peer_loc m) (cl_effective_local_loc m) allowed_sources allowed_destinations
      else Err SessionError.UnexpectedMessage
  | _ => Err SessionError.UnexpectedMessage
  end.

Definition client_commit_data (p : DataPreview) : st ClientWorld SessionError.t bytes :=
  λ '(m, w),
  if negb (scid (dp_header p) =? dp_scid p) then (Err SessionError.Replay, (m, w)) else
  match cl_state m with
  | Established scid' session schedule cached =>
      if scid' =? dp_scid p then
        let '(r, session) := session_commit (dp_commit p) session in
        (r, (set_state (Established scid' session schedule cached) m, w))
      else (Err SessionError.Replay, (m, w))
  | _ => (Err SessionError.Replay, (m, w))
  end.

Definition client_receive_data (packet : bytes) : st ClientWorld SessionError.t bytes :=
  λ '(m, w),
  match client_preview_data_with_locs m packet [] [] with
  | Ok p => client_commit_data p (m, w)
  | Err e => (Err e, (m, w))
  | Panic => (Panic, (m, w))
  end.

Definition client_protected_replay_binding (m : ClientMachine) :
    outcome SessionError.t ProtectedReplayBinding :=
  match cl_state m with
  | Established _ session _ _ => Ok (protected_replay_binding session)
  | _ => Err SessionError.UnexpectedMessage
  end.

Definition client_commit_protected_replay (p : ProtectedReplayProof) (mw : ClientWorld) :
    outcome SessionError.t unit * ProtectedReplayProof * ClientWorld :=
  let '(m, w) := mw in
  match cl_state m with
  | Established scid' session schedule cached =>
      let '(r, p', session) := session_commit_protected_replay p session in
      (r, p', (set_state (Established scid' session schedule cached) m, w))
  | _ => (Err SessionError.Replay, p, (m, w))
  end.

Definition client_promote_local_loc (new_loc : bytes) (m : ClientMachine) : ClientMachine :=
  mkClient (cl_config m) (cl_signing_key m) (cl_state m) new_loc (cl_effective_peer_loc m).
Definition client_promote_peer_loc (new_loc : bytes) (m : ClientMachine) : ClientMachine :=
  mkClient (cl_config m) (cl_signing_key m) (cl_state m) (cl_effective_local_loc m) new_loc.

(** The checks of [receive_close] before the packet is decrypted. *)
Definition client_close_checks (m : ClientMachine) (scid' : Z) (packet : bytes) :
    outcome SessionError.t unit :=
  let c := cl_config m in
  '(header, payload) ←
    map_err (λ _, SessionError.AuthFailed) (unpack_with_budget packet (hc_budget c));
  validate_protected_header header (hc_profile c) scid'
    (cl_effective_peer_loc m) (cl_effective_local_loc m) ;;
  message ← message_decode payload (profile header) (hc_budget c);
  if negb (msg_typ message =? CLOSE) then Err SessionError.UnexpectedMessage else Ok ().

Definition client_receive_close (packet : bytes) : st ClientWorld SessionError.t Z := λ '(m, w),
  match cl_state m with
  | Established scid' session schedule cached =>
      match client_close_checks m scid' packet with
      | Err e => (Err e, (m, w))
      | Panic => (Panic, (m, w))
      | Ok _ =>
          let '(r, session) := decrypt packet session in
          let m' := set_state (Established scid' session schedule cached) m in
          match r with
          | Ok [hi; lo] => (Ok (be_value [hi; lo]), release (m', w))
          | Ok _ => (Err SessionError.AuthFailed, (m', w))
          | Err e => (Err e, (m', w))
          | Panic => (Panic, (m', w))
          end
      end
  | _ => (Err SessionError.UnexpectedMessage, (m, w))
  end.

End Client.

(** ** The client as a transition system *)

Section Steps.
Context `{C : Crypto}.

(** One call of an operation that takes the machine by mutable reference. *)
Inductive client_step : ClientWorld → ClientWorld → Prop :=
| step_start scid k now mw : client_step mw (snd (start scid k now mw))
| step_retry now mw : client_step mw (snd (retry now mw))
| step_expire now mw : client_step mw (client_expire now mw)
| step_verify p now mw : client_step mw (snd (receive_verify p now mw))
| step_ack p now mw : client_step mw (snd (receive_ack p now mw))
| step_bootstrap mw : client_step mw (snd (client_take_profile3_bootstrap mw))
| step_send pt a b mw : client_step mw (snd (client_send_data_with_locs pt a b mw))
| step_send_data pt mw : client_step mw (snd (client_send_data pt mw))
| step_close code mw : client_step mw (snd (client_close code mw))
| step_commit p mw : client_step mw (snd (client_commit_data p mw))
| step_receive_data p mw : client_step mw (snd (client_receive_data p mw))
| step_commit_replay p mw : client_step mw (snd (client_commit_protected_replay p mw))
| step_receive_close p mw : client_step mw (snd (client_receive_close p mw))
| step_promote_local l m w : client_step (m, w) (client_promote_local_loc l m, w)
| step_promote_peer l m w : client_step (m, w) (client_promote_peer_loc l m, w).

Definition phase (s : ClientState) : Z :=
  match s with
  | Idle => 0
  | CookieWait _ _ _ _ => 1
  | AuthWait _ _ _ _ _ _ _ _ => 2
  | Established _ _ _ _ => 3
  | Released => 4
  end.

Definition state_scid (s : ClientState) : option Z :=
  match s with
  | CookieWait scid _ _ _ | AuthWait scid _ _ _ _ _ _ _ | Established scid _ _ _ => Some scid
  | _ => None
  end.

(** How one call may change the state: nothing, one phase forward, or release. *)
Definition state_next (s s' : ClientState) : Prop :=
  phase s' = phase s ∧ state_scid s' = state_scid s ∨
  phase s' = phase s + 1 ∧ phase s < 3 ∧ (s = Idle ∨ state_scid s' = state_scid s) ∨
  s' = Released ∧ s ≠ Idle.

Definition same_config (m m' : ClientMachine) : Prop :=
  cl_config m' = cl_config m ∧ cl_signing_key m' = cl_signing_key m.

Lemma state_next_refl s : state_next s s.
Proof. by left. Qed.

Lemma state_next_released s : s ≠ Idle → state_next s Released.
Proof. by right; right. Qed.

(** Split the tests of a client operation and compare the states before and after. *)
Ltac client_cases :=
  repeat first
    [ progress cbn [negb snd fst set_state cl_state cl_config cl_signing_key release]
    | match goal with
      | |- context [match ?x with _ => _ end] =>
          lazymatch x with
          | context [match _ with _ => _ end] => fail
          | _ => destruct x eqn:?
          end
      end ].

Ltac solve_next :=
  split; [first [apply state_next_refl | by apply state_next_released
                | by left | by right; left; split_and!; [| |by auto] ] | done].

Lemma client_step_next mw mw' :
  client_step mw mw' →
  state_next (cl_state (fst mw)) (cl_state (fst mw')) ∧ same_config (fst mw) (fst mw').
Proof.
  destruct 1; try destruct mw as [[cfg key sta lo pe] wo]; try destruct m as [cfg key sta lo pe];
    unfold start, retry, client_expire, receive_verify, receive_ack,
      client_take_profile3_bootstrap, client_send_data, client_send_data_with_locs, client_close,
      client_send, client_receive_data, client_commit_data, client_commit_protected_replay,
      client_receive_close, cookie_wait_expired;
    cbn [fst snd cl_state cl_config];
    destruct sta; client_cases;
    first [solve_next | match goal with H : _ || true = false |- _ => by rewrite orb_true_r in H end].
Qed.

Lemma state_next_phase s s' : state_next s s' → phase s ≤ phase s'.
Proof. intros [[? _]|[[? _]|[-> _]]]; [lia..|]. destruct s; simpl; lia. Qed.

(** Along any sequence of calls the client only moves forward through Idle, CookieWait,
    AuthWait, Established and Released, keeps its configuration and keys, and keeps the session id
    it started with; once released it stays released. *)
Theorem client_lifecycle mw mw' :
  rtc client_step mw mw' →
  phase (cl_state (fst mw)) ≤ phase (cl_state (fst mw')) ∧ same_config (fst mw) (fst mw') ∧
  (cl_state (fst mw) = Released → cl_state (fst mw') = Released) ∧
  (∀ i, state_scid (cl_state (fst mw)) = Some i →
        state_scid (cl_state (fst mw')) = Some i ∨ cl_state (fst mw') = Released).
Proof.
  induction 1 as [mw|mw1 mw2 mw3 Hs _ (IHp & [IHc IHk] & IHr & IHs)]; [by split_and!; [|split|..]; auto|].
  apply client_step_next in Hs as [Hn [Hc Hk]]. pose proof (state_next_phase _ _ Hn).
  assert (cl_state (fst mw1) = Released → cl_state (fst mw2) = Released) as Hrel.
  { intros Hr. rewrite Hr in *. destruct Hn as [[? _]|[[? [? _]]|[? _]]]; [|simpl in *; lia|done].
    by destruct (cl_state (fst mw2)). }
  split_and!; [lia|by split; congruence|auto|].
  intros i Hi. destruct Hn as [[_ Hn]|[(_ & _ & [Hn|Hn])|[Hn _]]].
  - apply IHs. congruence.
  - by rewrite Hn in Hi.
  - apply IHs. congruence.
  - right. by apply IHr.
Qed.

Lemma encrypt_fields h typ pt budget s r s' :
  encrypt h typ pt budget s = (r, s') →
  send_key s' = send_key s ∧ receive_key s' = receive_key s ∧ replay s' = replay s ∧
  ds_transcript_hash s' = ds_transcript_hash s ∧ receive_owner s' = receive_owner s ∧
  receive_budget s' = receive_budget s.
Proof.
  intros He. destruct (encrypt_state h typ pt budget s) as [c Hc]. rewrite He in Hc.
  simpl in Hc. by subst s'.
Qed.

Lemma verify_signature_inv pk domain t0 sig :
  verify_signature pk domain t0 sig = Ok () →
  ed25519_key_ok pk = true ∧ ed25519_verify pk (domain ++ t0) sig = true.
Proof. unfold verify_signature. by destruct (ed25519_key_ok pk), (ed25519_verify pk _ sig). Qed.

(** The transcript of a completed handshake, as the client sees it. *)
Definition client_transcript (c : HandshakeConfig) (scid : Z) (k : ClientMaterial)
    (server_ephemeral server_nonce boot : bytes) : TranscriptContext :=
  mkTranscriptContext (hc_profile c) scid (hc_local c) (hc_peer c)
    (x25519_public (cm_ephemeral_secret k)) server_ephemeral (cm_nonce k) server_nonce boot.

Lemma ack_keys_inv m packet scid k boot open_auth hash schedule sk rk :
  ack_keys m packet scid k boot open_auth = Ok (hash, schedule, sk, rk) →
  let c := cl_config m in
  ∃ se sn sig csig t0,
    transcript_t0 (client_transcript c scid k se sn boot) = Ok t0 ∧
    ed25519_verify (id_public_key (hc_peer c)) (OPEN_ACK_DOMAIN ++ t0) sig = true ∧
    x25519_dh (cm_ephemeral_secret k) se ≠ zero_key ∧
    hash = transcript_hash t0 csig sig ∧
    schedule = hkdf_prk (x25519_dh (cm_ephemeral_secret k) se) hash ∧
    derive_key_from_prk schedule hash (hc_profile c)
      (id_role (hc_local c)) (id_role (hc_peer c)) 0 = Ok sk ∧
    derive_key_from_prk schedule hash (hc_profile c)
      (id_role (hc_peer c)) (id_role (hc_local c)) 0 = Ok rk.
Proof.
  intros H c. unfold ack_keys in H. fold c in H. apply bind_Ok in H as ([h pl] & _ & H). inv_ok.
  match goal with x : Header * bytes |- _ => destruct x end. inv_ok.
  repeat match goal with u : () |- _ => destruct u end.
  match goal with H : verify_signature _ _ _ _ = _ |- _ => apply verify_signature_inv in H as [_ Hv] end.
  match goal with H : x25519 _ _ = Ok _ |- _ => unfold x25519 in H; inv_ok; subst end.
  injection H as <- <- <- <-.
  match goal with
  | Hs : slice _ 166 230 = Ok ?cs, Hv : ed25519_verify _ _ ?sig = true,
    Ht : transcript_t0 (mkTranscriptContext _ _ _ _ _ ?se _ ?sn _) = Ok ?t |- _ =>
      exists se, sn, sig, cs, t
  end.
  split_and!; try done. by apply beq_false.
Qed.

(** C27: a client becomes established only in time and only on an acknowledgement signed by the
    pinned server key over a transcript with its own session id, ephemeral key and nonce; the
    session then carries that transcript's hash and the keys derived from the key agreement, and
    one counter is spent on the accept message. *)
Theorem ack_authenticates_server m w packet now accept m' w'
    scid k boot opening vh vc open_auth deadline :
  cl_state m = AuthWait scid k boot opening vh vc open_auth deadline →
  receive_ack packet now (m, w) = (Ok accept, (m', w')) →
  let c := cl_config m in
  now < deadline ∧ ∃ se sn sig csig t0 session schedule,
    transcript_t0 (client_transcript c scid k se sn boot) = Ok t0 ∧
    ed25519_verify (id_public_key (hc_peer c)) (OPEN_ACK_DOMAIN ++ t0) sig = true ∧
    x25519_dh (cm_ephemeral_secret k) se ≠ zero_key ∧
    cl_state m' = Established scid session schedule accept ∧
    ds_transcript_hash session = transcript_hash t0 csig sig ∧
    derive_key (x25519_dh (cm_ephemeral_secret k) se) (ds_transcript_hash session) (hc_profile c)
      (id_role (hc_local c)) (id_role (hc_peer c)) 0 = Ok (send_key session) ∧
    derive_key (x25519_dh (cm_ephemeral_secret k) se) (ds_transcript_hash session) (hc_profile c)
      (id_role (hc_peer c)) (id_role (hc_local c)) 0 = Ok (receive_key session).
Proof.
  intros Hst H c. unfold receive_ack in H. rewrite Hst in H. fold c in H.
  destruct (Z.leb_spec deadline now); [done|]. split; [done|].
  destruct (ack_keys m packet scid k boot open_auth) as [[[[hash schedule] sk] rk]| |] eqn:Hk; [|done..].
  apply ack_keys_inv in Hk as (se & sn & sig & csig & t0 & Ht & Hv & Hz & Hh & Hs & Hsk & Hrk).
  destruct (session_new sk rk hash (hc_budget c) w) as [[s| |] w1] eqn:Hn; [|done..].
  apply session_new_inv in Hn as [-> ->].
  destruct (encrypt _ _ _ _ _) as [[acc| |] s'] eqn:He; [|done..].
  apply encrypt_fields in He as (He1 & He2 & _ & He3 & _). simpl in He1, He2, He3.
  injection H as -> <- <-. exists se, sn, sig, csig, t0, s'. eexists.
  rewrite He3. unfold derive_key. rewrite <-Hs, He1, He2. split_and!; done.
Qed.

Definition deadline_of (s : ClientState) : option Z :=
  match s with
  | CookieWait _ _ _ d | AuthWait _ _ _ _ _ _ _ d => Some d
  | _ => None
  end.

(** After the deadline of a handshake in progress the client produces no further handshake
    packet and cannot become established, and expiry releases it. *)
Theorem expired_handshake_refused m w packet now d :
  deadline_of (cl_state m) = Some d → d ≤ now →
  is_ok (fst (retry now (m, w))) = false ∧
  is_ok (fst (receive_verify packet now (m, w))) = false ∧
  is_ok (fst (receive_ack packet now (m, w))) = false ∧
  cl_state (fst (client_expire now (m, w))) = Released.
Proof.
  intros Hd Hn. unfold retry, receive_verify, receive_ack, client_expire, cookie_wait_expired.
  assert (d <=? now = true) as E1 by lia. assert (now <? d = false) as E2 by lia.
  cbn [fst]. destruct (cl_state m) eqn:Hs; simplify_eq/=; rewrite ?Hs, ?E1, ?E2; simpl;
    rewrite ?Hs, ?E2; done.
Qed.
End Steps.
