(* ===== verification/Limiter.v ===== *)
(** * The pre-validation limiter

    [PrevalidationLimiter] of src/rust/crates/r8-session/src/lib.rs: a token
    bucket over all sources and a per-source account that keeps the bytes
    answered within the bytes received. *)

From S2P Require Import Prelude SessionMsg.

Record SourceAllowance : Set := mkAllowance {
  sa_source : bytes;
  window_started_ms : Z;
  last_seen_ms : Z;
  request_bytes : Z;
  response_bytes : Z;
}.

Record PrevalidationLimiter : Set := mkLimiter {
  sources : list SourceAllowance;
  tokens : Z;
  token_second : Z;
}.

Definition limiter_new : PrevalidationLimiter := mkLimiter [] 2000 0.

(** [x as u32] *)
Definition as_u32 (x : Z) : Z := x mod 2 ^ 32.
Definition sat_add_u32 (a b : Z) : Z := Z.min (a + b) u32_max.

(** The token refill at the start of [limiter_admit]. *)
Definition refill (l : PrevalidationLimiter) (now_ms : Z) : PrevalidationLimiter :=
  let second := now_ms / 1000 in
  if token_second l <? second then
    let elapsed := second - token_second l in
    mkLimiter (sources l)
      (Z.min (sat_add_u32 (tokens l) (as_u32 (sat_mul elapsed 1000))) 2000) second
  else l.

(** The index of [source], inserting a fresh account when there is room. *)
Definition find_or_insert (ss : list SourceAllowance) (source : bytes) (now_ms : Z) :
    option (nat * list SourceAllowance) :=
  match list_find (λ e, sa_source e = source) ss with
  | Some (index, _) => Some (index, ss)
  | None =>
      if len ss <? 4096 then
        let ss' := ss ++ [mkAllowance source now_ms now_ms 0 0] in
        Some (length ss' - 1, ss')%nat
      else None
  end.

(** The account after the window reset. *)
Definition reset_window (e : SourceAllowance) (now_ms : Z) : SourceAllowance :=
  if 20000 <=? sat_sub now_ms (window_started_ms e)
  then mkAllowance (sa_source e) now_ms (last_seen_ms e) 0 0 else e.

Definition limiter_admit (source : bytes) (request_len response_len now_ms : Z) :
    st PrevalidationLimiter SessionError.t unit := λ l,
  let l := refill l now_ms in
  if (tokens l =? 0) || (request_len <? response_len) then (Err SessionError.Capacity, l) else
  let retained := filter (λ e, sat_sub now_ms (last_seen_ms e) < 20000) (sources l) in
  let with_sources ss := mkLimiter ss (tokens l) (token_second l) in
  match find_or_insert retained source now_ms with
  | None => (Err SessionError.Capacity, with_sources retained)
  | Some (index, ss) =>
      match ss !! index with
      | None => (Panic, with_sources ss)
      | Some entry =>
          let entry := reset_window entry now_ms in
          let ss := <[index := entry]> ss in
          match checked_add (request_bytes entry) request_len,
                checked_add (response_bytes entry) response_len with
          | Some requests, Some responses =>
              if requests <? responses then (Err SessionError.Capacity, with_sources ss) else
              (Ok (), mkLimiter
                 (<[index := mkAllowance (sa_source entry) (window_started_ms entry) now_ms
                               requests responses]> ss)
                 (tokens l - 1) (token_second l))
          | _, _ => (Err SessionError.Capacity, with_sources ss)
          end
      end
  end.

(** ** Invariant *)

Definition account_ok (e : SourceAllowance) : Prop :=
  0 ≤ response_bytes e ≤ request_bytes e ∧ request_bytes e ≤ usize_max.

Record limiter_inv (l : PrevalidationLimiter) : Prop := {
  inv_tokens : 0 ≤ tokens l ≤ 2000;
  inv_sources : len (sources l) ≤ 4096;
  inv_distinct : NoDup (sa_source <$> sources l);
  inv_accounts : Forall account_ok (sources l);
}.

Lemma limiter_inv_new : limiter_inv limiter_new.
Proof. split; [simpl; lia|done|constructor|constructor]. Qed.

Lemma refill_spec l now :
  limiter_inv l →
  limiter_inv (refill l now) ∧ sources (refill l now) = sources l ∧
  token_second l ≤ token_second (refill l now) ∧
  tokens (refill l now) ≤ tokens l + 1000 * (token_second (refill l now) - token_second l).
Proof.
  intros [Ht Hs Hd Ha]. unfold refill. destruct (Z.ltb_spec (token_second l) (now / 1000)); [|split_and!; done || lia].
  set (x := sat_mul _ 1000).
  assert (0 ≤ as_u32 x ≤ x) as Hx.
  { unfold as_u32. pose proof (Z.mod_pos_bound x (2 ^ 32) eq_refl). split; [lia|].
    apply Z.mod_le; [unfold x, sat_mul; unfold_widths; lia|lia]. }
  assert (x ≤ 1000 * (now / 1000 - token_second l)) by (unfold x, sat_mul; lia).
  unfold sat_add_u32. split; [split; simpl; try done; unfold_widths; lia|].
  cbn [sources token_second tokens]. split; [done|]. unfold_widths. lia.
Qed.

Lemma NoDup_filter_fmap (P : SourceAllowance → Prop) `{!∀ x, Decision (P x)} l :
  NoDup (sa_source <$> l) → NoDup (sa_source <$> filter P l).
Proof.
  induction l as [|e l IH]; [done|]. rewrite fmap_cons, filter_cons. intros [Hn Hd]%NoDup_cons.
  case_decide; [|by apply IH]. rewrite fmap_cons. apply NoDup_cons. split; [|by apply IH].
  intros (x & Hx & Hin)%list_elem_of_fmap. apply Hn. rewrite Hx.
  apply list_elem_of_fmap_2. by apply list_elem_of_filter in Hin as [_ ?].
Qed.

Lemma find_or_insert_spec ss source now i ss' :
  len ss ≤ 4096 → NoDup (sa_source <$> ss) → Forall account_ok ss →
  find_or_insert ss source now = Some (i, ss') →
  len ss' ≤ 4096 ∧ NoDup (sa_source <$> ss') ∧ Forall account_ok ss' ∧
  ∃ e, ss' !! i = Some e ∧ sa_source e = source.
Proof.
  intros Hl Hd Ha. unfold find_or_insert. destruct (list_find _ ss) as [[j e]|] eqn:Hf.
  - intros [= <- <-]. apply list_find_Some in Hf as (He & Hs & _). eauto 10.
  - case_match; [|done]. intros [= <- <-]. rewrite list_find_None in Hf.
    rewrite length_app. simpl length. replace (length ss + 1 - 1)%nat with (length ss) by lia.
    split; [rewrite len_app; change (len [_]) with 1; lia|]. split.
    { rewrite fmap_app. apply NoDup_app. split; [done|]. split; [|simpl; apply NoDup_singleton].
      intros x (y & -> & Hy)%list_elem_of_fmap Hin. rewrite Forall_forall in Hf. simpl in Hin.
      apply list_elem_of_singleton in Hin. by apply (Hf y). }
    split.
    { apply Forall_app. split; [done|]. constructor; [|done]. unfold account_ok. simpl.
      unfold_widths. lia. }
    eexists. rewrite lookup_app_r, Nat.sub_diag by lia. done.
Qed.

Lemma fmap_insert_same (ss : list SourceAllowance) i e e' :
  ss !! i = Some e → sa_source e' = sa_source e →
  sa_source <$> <[i := e']> ss = sa_source <$> ss.
Proof.
  intros Hi He. rewrite list_fmap_insert, He. apply list_insert_id.
  by rewrite list_lookup_fmap, Hi.
Qed.

Lemma reset_window_spec e now :
  account_ok e → account_ok (reset_window e now) ∧ sa_source (reset_window e now) = sa_source e.
Proof. intros He. unfold reset_window. case_match; [|done]. split; [|done]. unfold account_ok. simpl. unfold_widths. lia. Qed.

Lemma insert_inv l i e e' t s :
  limiter_inv (mkLimiter l t s) → l !! i = Some e → sa_source e' = sa_source e → account_ok e' →
  limiter_inv (mkLimiter (<[i := e']> l) t s).
Proof.
  intros [] Hi He Ha. split; simpl in *; try done.
  - unfold len. by rewrite length_insert.
  - by erewrite fmap_insert_same.
  - by apply Forall_insert.
Qed.

Lemma tokens_inv l t t' s s' :
  limiter_inv (mkLimiter l t s) → 0 ≤ t' ≤ 2000 → limiter_inv (mkLimiter l t' s').
Proof. intros [] ?. by split. Qed.

Lemma admit_step l source req resp now :
  limiter_inv l → 0 ≤ req → 0 ≤ resp →
  let '(r, l') := limiter_admit source req resp now l in
  limiter_inv l' ∧ safe r ∧ token_second l ≤ token_second l' ∧
  (r = Ok () → resp ≤ req ∧ tokens l' = tokens (refill l now) - 1 ∧
     ∃ e, e ∈ sources l' ∧ sa_source e = source ∧ last_seen_ms e = now ∧ resp ≤ response_bytes e) ∧
  (r ≠ Ok () → tokens l' = tokens (refill l now)).
Proof.
  intros Hinv Hreq Hresp. unfold limiter_admit.
  destruct (refill_spec l now Hinv) as (Hi & _ & Hts & _).
  revert Hi Hts. generalize (refill l now). intros k Hi Hts.
  destruct ((tokens k =? 0) || (req <? resp)) eqn:Hg; [done|].
  set (P := λ e, sat_sub now (last_seen_ms e) < 20000). set (ret := filter P (sources k)).
  pose proof Hi as [Ht Hs Hd Ha].
  assert (len ret ≤ 4096) as Hrl
    by (unfold len, ret in *; pose proof (length_filter P (sources k)); lia).
  assert (NoDup (sa_source <$> ret)) as Hrd by by apply NoDup_filter_fmap.
  assert (Forall account_ok ret) as Hra
    by (rewrite Forall_forall in *; intros ? [_ ?]%list_elem_of_filter; auto).
  destruct (find_or_insert ret source now) as [[i ss]|] eqn:Hf; [|by split_and!].
  destruct (find_or_insert_spec _ _ _ _ _ Hrl Hrd Hra Hf) as (Hl & Hnd & Hall & e & He & Hes).
  rewrite He. assert (limiter_inv (mkLimiter ss (tokens k) (token_second k))) as Hk by by split.
  destruct (reset_window_spec e now) as [Hra' Hrs]; [by eapply Forall_lookup_1|].
  assert (limiter_inv (mkLimiter (<[i := reset_window e now]> ss) (tokens k) (token_second k))) as Hk'
    by by eapply insert_inv.
  assert (<[i := reset_window e now]> ss !! i = Some (reset_window e now)) as Hlk
    by (apply list_lookup_insert_eq; by eapply lookup_lt_Some).
  destruct (checked_add (request_bytes _) req) as [rq|] eqn:Hq; [|by split_and!].
  destruct (checked_add (response_bytes _) resp) as [rs|] eqn:Hp; [|by split_and!].
  destruct (rq <? rs) eqn:Hc; [by split_and!|].
  apply checked_add_inv in Hq as [-> ?], Hp as [-> ?]. destruct Hra' as [? ?].
  assert (account_ok (mkAllowance (sa_source (reset_window e now))
    (window_started_ms (reset_window e now)) now (request_bytes (reset_window e now) + req)
    (response_bytes (reset_window e now) + resp))) by (unfold account_ok; simpl; unfold_widths; lia).
  split_and!; try done.
  - eapply tokens_inv; [by eapply insert_inv|]. simpl in *. lia.
  - intros _. split; [lia|]. split; [done|]. eexists. split.
    { apply (list_elem_of_lookup_2 _ i), list_lookup_insert_eq. rewrite length_insert.
      by eapply lookup_lt_Some. }
    split; [simpl; congruence|]. split; [done|]. simpl. lia.
Qed.

Lemma admit_preserves l source req resp now :
  limiter_inv l → 0 ≤ req → 0 ≤ resp → limiter_inv (snd (limiter_admit source req resp now l)).
Proof.
  intros Hi Hq Hp. pose proof (admit_step l source req resp now Hi Hq Hp) as H.
  destruct (limiter_admit source req resp now l). apply H.
Qed.

(** Every call of [limiter_admit] keeps the limiter well formed (at most 2000 tokens and 4096 distinct
    sources, each account with no more bytes answered than received) and never panics; a call that
    is admitted answers no more bytes than it received, takes one token, and is entered in the
    source's account. *)
Theorem admit_invariant l source req resp now :
  limiter_inv l → 0 ≤ req → 0 ≤ resp →
  let '(r, l') := limiter_admit source req resp now l in
  limiter_inv l' ∧ safe r ∧ token_second l ≤ token_second l' ∧
  (r = Ok () → resp ≤ req ∧ tokens l' = tokens (refill l now) - 1 ∧
     ∃ e, e ∈ sources l' ∧ sa_source e = source ∧ last_seen_ms e = now ∧ resp ≤ response_bytes e) ∧
  (r ≠ Ok () → tokens l' = tokens (refill l now)).
Proof. apply admit_step. Qed.

Lemma admit_invariant_witness :
  let '(r, l') := limiter_admit [1] 170 170 5000 limiter_new in
  r = Ok () ∧ limiter_inv l' ∧ tokens l' = 1999.
Proof.
  pose proof (admit_invariant limiter_new [1] 170 170 5000 limiter_inv_new ltac:(lia) ltac:(lia)) as H.
  destruct (limiter_admit [1] 170 170 5000 limiter_new) as [r l'] eqn:E.
  assert (r = Ok ()) as Hr by (change r with (fst (r, l')); rewrite <-E; by vm_compute).
  destruct H as (Hi & _ & _ & Hok & _). split; [done|]. split; [done|].
  destruct (Hok Hr) as (_ & Ht & _). rewrite Ht. by vm_compute.
Defined.

(** ** Rate *)

(** A call of [limiter_admit]: source, request and response lengths, time. *)
Definition request : Type := bytes * Z * Z * Z.

(** The number of admitted calls of a sequence, and the limiter after it. *)
Fixpoint admitted (rs : list request) (l : PrevalidationLimiter) : Z * PrevalidationLimiter :=
  match rs with
  | [] => (0, l)
  | (source, req, resp, now) :: rs =>
      let '(r, l1) := limiter_admit source req resp now l in
      let '(n, l2) := admitted rs l1 in
      (n + if is_ok r then 1 else 0, l2)
  end.

Lemma admit_tokens l source req resp now :
  limiter_inv l →
  let '(r, l') := limiter_admit source req resp now l in
  tokens l' + (if is_ok r then 1 else 0) = tokens (refill l now) ∧
  token_second l' = token_second (refill l now).
Proof.
  intros Hi. unfold limiter_admit. set (k := refill l now).
  destruct (_ || _); [simpl; lia|]. destruct (find_or_insert _ _ _) as [[i ss]|]; [|simpl; lia].
  destruct (ss !! i); [|simpl; lia].
  destruct (checked_add _ req); [|simpl; lia]. destruct (checked_add _ resp); [|simpl; lia].
  destruct (_ <? _); simpl; lia.
Qed.

(** C39: whatever requests arrive, in whatever order and with whatever clock readings, the number
    admitted is at most the tokens at the start plus 1000 for every second the bucket's clock
    advanced. *)
Theorem admitted_rate_bound rs l :
  limiter_inv l → Forall (λ '(_, req, resp, _), 0 ≤ req ∧ 0 ≤ resp) rs →
  let '(n, l') := admitted rs l in
  limiter_inv l' ∧ 0 ≤ n ∧
  n + tokens l' ≤ tokens l + 1000 * (token_second l' - token_second l).
Proof.
  revert l. induction rs as [|[[[source req] resp] now] rs IH]; intros l Hi Hrs; simpl.
  { split; [done|]. lia. }
  apply Forall_cons in Hrs as [[Hq Hp] Hrs].
  pose proof (admit_preserves l source req resp now Hi Hq Hp) as Hi1.
  pose proof (admit_tokens l source req resp now Hi) as Ht.
  destruct (refill_spec l now Hi) as (_ & _ & _ & Hrf).
  destruct (limiter_admit source req resp now l) as [r l1]. destruct Ht as [Ht Hts].
  specialize (IH l1 Hi1 Hrs). destruct (admitted rs l1) as [n l2]. destruct IH as (? & ? & ?).
  split; [done|]. destruct (is_ok r); lia.
Qed.

Lemma admitted_rate_bound_witness :
  let '(n, l') := admitted [([1], 170, 170, 1000); ([2], 170, 170, 1001); ([3], 10, 170, 1002)]
                    limiter_new in
  n = 2 ∧ n + tokens l' ≤ 2000 + 1000 * token_second l'.
Proof.
  pose proof (admitted_rate_bound [([1], 170, 170, 1000); ([2], 170, 170, 1001); ([3], 10, 170, 1002)]
    limiter_new limiter_inv_new ltac:(repeat constructor; lia)) as H.
  destruct (admitted _ limiter_new) as [n l'] eqn:E.
  split; [change n with (fst (n, l')); rewrite <-E; by vm_compute|].
  destruct H as (_ & _ & H). simpl in H. lia.
Defined.

(** The refill is truncated to 32 bits: after 2^29 idle seconds an empty bucket is still empty. *)
Example refill_truncates :
  tokens (refill (mkLimiter [] 0 0) (2 ^ 29 * 1000)) = 0.
Proof. by vm_compute. Qed.
