(* ===== verification/Server.v ===== *)
(** * The server handshake machine

    [ServerMachine] of src/rust/crates/r8-session/src/lib.rs with its pending
    and established sessions.  Operations run on the machine and the [World]
    that holds the leases of its sessions. *)

From stdpp Require Import gmap sets.
From S2P Require Import Prelude Wire Checksum Codec HeaderRules Crypto SessionMsg Replay SessionCrypto Directional Client Limiter.

Record ServerMaterial : Set := mkServerMaterial {
  boot_instance : bytes;
  current_cookie_key : bytes;
  previous_cookie_key : bytes;
  previous_key_rotated_ms : Z;
}.

Record ServerHandshakeMaterial : Set := mkServerHandshakeMaterial {
  sh_ephemeral_secret : bytes;
  sh_nonce : bytes;
}.

Record PendingSession : Set := mkPending {
  ps_scid : Z;
  ps_opening : bytes;
  ps_cached_ack : bytes;
  ps_binding : ObservedBinding;
  ps_deadline_ms : Z;
  ps_session : DirectionalSession;
  ps_schedule : option bytes;
}.

Record EstablishedSession : Set := mkEstablished {
  es_scid : Z;
  es_session : DirectionalSession;
  es_schedule : option bytes;
  es_opening : bytes;
  es_cached_ack : bytes;
  es_binding : ObservedBinding;
  es_accepted : bytes;
  es_last_active_ms : Z;
}.

Record ServerMachine : Set := mkServer {
  sv_config : HandshakeConfig;
  sv_signing_key : bytes;
  sv_material : ServerMaterial;
  sv_pending : list PendingSession;
  sv_established : list EstablishedSession;
  sv_effective_local_loc : bytes;
  sv_effective_peer_loc : bytes;
}.

Definition ServerWorld : Type := ServerMachine * World.

Definition set_pending (l : list PendingSession) (m : ServerMachine) : ServerMachine :=
  mkServer (sv_config m) (sv_signing_key m) (sv_material m) l (sv_established m)
    (sv_effective_local_loc m) (sv_effective_peer_loc m).
Definition set_established (l : list EstablishedSession) (m : ServerMachine) : ServerMachine :=
  mkServer (sv_config m) (sv_signing_key m) (sv_material m) (sv_pending m) l
    (sv_effective_local_loc m) (sv_effective_peer_loc m).
Definition set_material (k : ServerMaterial) (m : ServerMachine) : ServerMachine :=
  mkServer (sv_config m) (sv_signing_key m) k (sv_pending m) (sv_established m)
    (sv_effective_local_loc m) (sv_effective_peer_loc m).
Definition set_es_session (s : DirectionalSession) (e : EstablishedSession) : EstablishedSession :=
  mkEstablished (es_scid e) s (es_schedule e) (es_opening e) (es_cached_ack e) (es_binding e)
    (es_accepted e) (es_last_active_ms e).
Definition set_last_active (now : Z) (e : EstablishedSession) : EstablishedSession :=
  mkEstablished (es_scid e) (es_session e) (es_schedule e) (es_opening e) (es_cached_ack e)
    (es_binding e) (es_accepted e) now.

Definition drop_sessions (l : list DirectionalSession) (w : World) : World :=
  foldr session_drop w l.

Definition find_pending (scid : Z) (l : list PendingSession) : option (nat * PendingSession) :=
  list_find (λ e, ps_scid e = scid) l.
Definition find_established (scid : Z) (l : list EstablishedSession) :
    option (nat * EstablishedSession) :=
  list_find (λ e, es_scid e = scid) l.

Definition pending_live (now_ms : Z) (e : PendingSession) : Prop := now_ms < ps_deadline_ms e.
Definition established_live (now_ms : Z) (e : EstablishedSession) : Prop :=
  sat_sub now_ms (es_last_active_ms e) < 120000.

#[export] Instance pending_live_dec now e : Decision (pending_live now e).
Proof. unfold pending_live. apply _. Defined.
#[export] Instance established_live_dec now e : Decision (established_live now e).
Proof. unfold established_live. apply _. Defined.

(** [retain] drops what it removes. *)
Definition expire (now_ms : Z) (mw : ServerWorld) : ServerWorld :=
  let '(m, w) := mw in
  (set_established (filter (established_live now_ms) (sv_established m))
     (set_pending (filter (pending_live now_ms) (sv_pending m)) m),
   drop_sessions
     (ps_session <$> filter (λ e, ¬ pending_live now_ms e) (sv_pending m))
     (drop_sessions
        (es_session <$> filter (λ e, ¬ established_live now_ms e) (sv_established m)) w)).

Section Server.
Context `{C : Crypto}.

Definition server_new (config : HandshakeConfig) (signing_key : bytes) (material : ServerMaterial) :
    outcome SessionError.t ServerMachine :=
  config_validate config ;;
  if negb (beq (ed25519_public signing_key) (id_public_key (hc_local config)))
  then Err SessionError.PinMismatch else
  Ok (mkServer config signing_key material [] [] (hc_destination config) (hc_source config)).

Definition server_packet (c : HandshakeConfig) (scid typ flags slot : Z) (body : bytes) :
    outcome SessionError.t bytes :=
  build_packet c (hc_destination c) (hc_source c) scid typ flags slot body.

Definition validate_handshake_header (c : HandshakeConfig) (h : Header) (scid' : Z) :
    outcome SessionError.t unit :=
  if handshake_header_bad c h scid' (hc_source c) (hc_destination c)
  then Err SessionError.AuthFailed else Ok ().

Definition client_identity (c : HandshakeConfig) (body : bytes) : outcome SessionError.t Identity :=
  bad ← byte_ne body 0 (id_role (hc_peer c)) ||? byte_ne body 1 (id_role (hc_local c));
  if bad : bool then Err SessionError.RoleMismatch else
  bad ← u32_ne body 2 (id_service_context (hc_peer c));
  if bad : bool then Err SessionError.ServiceMismatch else
  eid ← slice body 6 22;
  public_key ← slice body 22 54;
  if negb (beq public_key (id_public_key (hc_peer c))) then Err SessionError.PinMismatch else
  role ← idx body 0;
  let identity := mkIdentity role (id_service_context (hc_peer c)) eid public_key in
  identity_validate identity ;;
  Ok identity.

Definition verify_body (c : HandshakeConfig) (client : Identity) (ephemeral boot cookie : bytes) :
    bytes :=
  [id_role (hc_local c); id_role client] ++ be_bytes 4 (id_service_context (hc_local c)) ++
  id_public_key client ++ sha256 ephemeral ++ boot ++ cookie.

(** [&self]: no state changes. *)
Definition receive_open (m : ServerMachine) (packet : bytes) (binding : ObservedBinding)
    (bucket : Z) : outcome SessionError.t bytes :=
  let c := sv_config m in
  binding_validate binding ;;
  '(header, payload) ←
    map_err (λ _, SessionError.AuthFailed) (unpack_with_budget packet (hc_budget c));
  validate_handshake_header c header (scid header) ;;
  open ← message_decode payload (hc_profile c) (hc_budget c);
  if negb (msg_typ open =? OPEN) then Err SessionError.UnexpectedMessage else
  let body := msg_body open in
  client ← client_identity c body;
  ephemeral ← slice body 54 86;
  input ← cookie_input (mkCookieContext binding client (hc_local c) (scid header) ephemeral
            (boot_instance (sv_material m)) bucket (hc_server_context_id c));
  let cookie := cookie (current_cookie_key (sv_material m)) input in
  server_packet c (scid header) VERIFY_COOKIE 0 0
    (verify_body c client ephemeral (boot_instance (sv_material m)) cookie).

Definition receive_open_limited (m : ServerMachine) (packet : bytes) (binding : ObservedBinding)
    (opaque_source : bytes) (now_ms bucket : Z) :
    st PrevalidationLimiter SessionError.t bytes :=
  limiter_admit opaque_source (len packet) 170 now_ms ;;
  lift (receive_open m packet binding bucket).

Definition ack_body (c : HandshakeConfig) (client : Identity)
    (server_ephemeral nonce signature : bytes) : bytes :=
  [id_role (hc_local c); id_role client] ++ be_bytes 4 (id_service_context (hc_local c)) ++
  id_eid (hc_local c) ++ id_public_key (hc_local c) ++ server_ephemeral ++ nonce ++ signature.

(** The computations of [receive_open_auth] after the caches were consulted: the cookie, the
    capacity, the signature and the key schedule.  Returns the acknowledgement, the transcript
    hash, the schedule and both keys. *)
Definition open_auth_keys (m : ServerMachine) (h : Header) (body : bytes)
    (binding : ObservedBinding) (now_ms bucket : Z) (hm : option ServerHandshakeMaterial) :
    outcome SessionError.t (bytes * bytes * bytes * bytes * bytes) :=
  let c := sv_config m in
  let k := sv_material m in
  client ← client_identity c body;
  client_ephemeral ← slice body 54 86;
  client_nonce ← slice body 86 118;
  boot ← slice body 118 134;
  supplied_cookie ← slice body 134 166;
  if negb (beq boot (boot_instance k)) then Err SessionError.CookieInvalid else
  matches ← cookie_matches_buckets (current_cookie_key k) (previous_cookie_key k)
              (previous_key_rotated_ms k) supplied_cookie
              (mkCookieContext binding client (hc_local c) (scid h) client_ephemeral boot bucket
                 (hc_server_context_id c)) now_ms;
  if negb matches then Err SessionError.CookieInvalid else
  if hc_pending_limit c <=? len (sv_pending m) then Err SessionError.Capacity else
  hm ← ok_or hm SessionError.UnexpectedMessage;
  signature ← slice body 166 230;
  placeholder ← transcript_t0 (auth_transcript (hc_profile c) (scid h) client (hc_local c)
                  client_ephemeral client_nonce boot);
  verify_signature (id_public_key client) OPEN_AUTH_DOMAIN placeholder signature ;;
  let server_ephemeral := x25519_public (sh_ephemeral_secret hm) in
  shared ← x25519 (sh_ephemeral_secret hm) client_ephemeral;
  actual ← transcript_t0 (mkTranscriptContext (hc_profile c) (scid h) client (hc_local c)
             client_ephemeral server_ephemeral client_nonce (sh_nonce hm) boot);
  let server_signature := sign_open_ack (sv_signing_key m) actual in
  let hash := transcript_hash actual signature server_signature in
  let schedule := hkdf_prk shared hash in
  send_key ← derive_key_from_prk schedule hash (hc_profile c)
               (id_role (hc_local c)) (id_role client) 0;
  receive_key ← derive_key_from_prk schedule hash (hc_profile c)
                  (id_role client) (id_role (hc_local c)) 0;
  ack ← server_packet c (scid h) OPEN_ACK 0 0
          (ack_body c client server_ephemeral (sh_nonce hm) server_signature);
  Ok (ack, hash, schedule, send_key, receive_key).

(** The header and body of a handshake packet of type [typ] addressed to the server. *)
Definition handshake_message (c : HandshakeConfig) (packet : bytes) (typ : Z) :
    outcome SessionError.t (Header * bytes) :=
  '(header, payload) ←
    map_err (λ _, SessionError.AuthFailed) (unpack_with_budget packet (hc_budget c));
  validate_handshake_header c header (scid header) ;;
  msg ← message_decode payload (hc_profile c) (hc_budget c);
  if negb (msg_typ msg =? typ) then Err SessionError.UnexpectedMessage else
  Ok (header, msg_body msg).

Definition receive_open_auth (packet : bytes) (binding : ObservedBinding) (now_ms bucket : Z)
    (hm : option ServerHandshakeMaterial) : st ServerWorld SessionError.t bytes := λ mw,
  match binding_validate binding with
  | Err e => (Err e, mw)
  | Panic => (Panic, mw)
  | Ok _ =>
      let '(m, w) := expire now_ms mw in
      let c := sv_config m in
      match handshake_message c packet OPEN_AUTH with
      | Err e => (Err e, (m, w))
      | Panic => (Panic, (m, w))
      | Ok (h, body) =>
          match find_pending (scid h) (sv_pending m) with
          | Some (_, p) =>
              (if beq (ps_opening p) packet && bool_decide (ps_binding p = binding)
               then Ok (ps_cached_ack p) else Err SessionError.ScidCollision, (m, w))
          | None =>
              match find_established (scid h) (sv_established m) with
              | Some (_, e) =>
                  (if beq (es_opening e) packet && bool_decide (es_binding e = binding)
                   then Ok (es_cached_ack e) else Err SessionError.ScidCollision, (m, w))
              | None =>
                  match open_auth_keys m h body binding now_ms bucket hm with
                  | Err e => (Err e, (m, w))
                  | Panic => (Panic, (m, w))
                  | Ok (ack, hash, schedule, send_key, receive_key) =>
                      match session_new send_key receive_key hash (hc_budget c) w with
                      | (Ok session, w) =>
                          let p := mkPending (scid h) packet ack binding (sat_add now_ms 5000)
                                     session (if hc_profile c =? 3 then Some schedule else None) in
                          (Ok ack, (set_pending (sv_pending m ++ [p]) m, w))
                      | (Err e, w) => (Err e, (m, w))
                      | (Panic, w) => (Panic, (m, w))
                      end
                  end
              end
          end
      end
  end.

(** A protected packet of type [typ]: its header, after the checks common to ACCEPT and CLOSE. *)
Definition protected_message (c : HandshakeConfig) (packet : bytes) (source destination : bytes) :
    outcome SessionError.t (Header * bytes) :=
  '(header, payload) ←
    map_err (λ _, SessionError.AuthFailed) (unpack_with_budget packet (hc_budget c));
  validate_protected_header header (hc_profile c) (scid header) source destination ;;
  Ok (header, payload).

Definition accept_mismatch (w : World) (pv : ProtectedPreview) (hash : bytes) :
    outcome SessionError.t bool :=
  (pt ← plaintext w pv; Ok (negb (len pt =? 44))) ||?
  (pt ← plaintext w pv; s ← slice pt 0 12; Ok (negb (beq s (ascii_bytes "R8 ACCEPT v1")))) ||?
  (pt ← plaintext w pv; s ← slice_from pt 12; Ok (negb (beq s hash))).

(** The header of a valid accept message. *)
Definition accept_header (c : HandshakeConfig) (packet : bytes) : outcome SessionError.t Header :=
  '(header, payload) ← protected_message c packet (hc_source c) (hc_destination c);
  message ← message_decode payload (profile header) (hc_budget c);
  if negb (msg_typ message =? SESSION_ACCEPT) then Err SessionError.UnexpectedMessage else
  Ok header.

(** The preview of an accept message on a pending session, and the capacity check. *)
Definition accept_preview (m : ServerMachine) (w : World) (s : DirectionalSession)
    (packet : bytes) : outcome SessionError.t ProtectedPreview :=
  pv ← session_preview s packet;
  bad ← accept_mismatch w pv (ds_transcript_hash s);
  if bad : bool then Err SessionError.AuthFailed else
  if hc_established_limit (sv_config m) <=? len (sv_established m)
  then Err SessionError.Capacity else Ok pv.

Definition set_ps_session (s : DirectionalSession) (p : PendingSession) : PendingSession :=
  mkPending (ps_scid p) (ps_opening p) (ps_cached_ack p) (ps_binding p) (ps_deadline_ms p) s
    (ps_schedule p).

Definition establish (p : PendingSession) (s : DirectionalSession) (packet : bytes) (now_ms : Z) :
    EstablishedSession :=
  mkEstablished (ps_scid p) s (ps_schedule p) (ps_opening p) (ps_cached_ack p) (ps_binding p)
    packet now_ms.

Definition receive_accept (packet : bytes) (now_ms : Z) : st ServerWorld SessionError.t unit :=
  λ mw,
  let '(m, w) := expire now_ms mw in
  match accept_header (sv_config m) packet with
  | Err e => (Err e, (m, w))
  | Panic => (Panic, (m, w))
  | Ok header =>
      match find_established (scid header) (sv_established m) with
      | Some (_, e) =>
          (if beq (es_accepted e) packet then Ok () else Err SessionError.AuthFailed, (m, w))
      | None =>
          match find_pending (scid header) (sv_pending m) with
          | None => (Err SessionError.UnexpectedMessage, (m, w))
          | Some (index, p) =>
              match accept_preview m w (ps_session p) packet with
              | Err e => (Err e, (m, w))
              | Panic => (Panic, (m, w))
              | Ok pv =>
                  let '(r, session) := session_commit pv (ps_session p) in
                  match r with
                  | Ok _ =>
                      (Ok (), (set_established
                                 (sv_established m ++ [establish p session packet now_ms])
                                 (set_pending (delete index (sv_pending m)) m), w))
                  | Err e =>
                      (Err e, (set_pending (<[index := set_ps_session session p]> (sv_pending m)) m,
                               w))
                  | Panic => (Panic, (m, w))
                  end
              end
          end
      end
  end.

Definition server_take_profile3_bootstrap (scid' : Z) :
    st ServerWorld SessionError.t Profile3Bootstrap := λ '(m, w),
  let c := sv_config m in
  if negb (hc_profile c =? 3) then (Err SessionError.Profile, (m, w)) else
  match find_established scid' (sv_established m) with
  | None => (Err SessionError.UnexpectedMessage, (m, w))
  | Some (index, e) =>
      match es_schedule e with
      | Some schedule =>
          (Ok (bootstrap_new (es_scid e) (sv_effective_local_loc m) (sv_effective_peer_loc m)
                 (hc_budget c) (id_role (hc_local c)) (id_role (hc_peer c))
                 (ds_transcript_hash (es_session e)) schedule (es_session e)),
           (set_established (delete index (sv_established m)) m, w))
      | None => (Err SessionError.UnexpectedMessage, (m, w))
      end
  end.

Definition server_preview_data_with_locs (packet : bytes)
    (allowed_sources allowed_destinations : list bytes) (now_ms : Z) :
    st ServerWorld SessionError.t DataPreview := λ mw,
  let '(m, w) := expire now_ms mw in
  let c := sv_config m in
  ('(header, payload) ←
     map_err (λ _, SessionError.AuthFailed) (unpack_with_budget packet (hc_budget c));
   '(_, e) ← ok_or (find_established (scid header) (sv_established m))
               SessionError.UnexpectedMessage;
   preview_on_session c (es_session e) header payload packet
     (sv_effective_peer_loc m) (sv_effective_local_loc m) allowed_sources allowed_destinations,
   (m, w)).

Definition server_commit_data (p : DataPreview) (now_ms : Z) :
    st ServerWorld SessionError.t bytes := λ mw,
  if negb (scid (dp_header p) =? dp_scid p) then (Err SessionError.Replay, mw) else
  let '(m, w) := expire now_ms mw in
  match find_established (dp_scid p) (sv_established m) with
  | None => (Err SessionError.Replay, (m, w))
  | Some (index, e) =>
      let '(r, session) := session_commit (dp_commit p) (es_session e) in
      let e := set_es_session session e in
      let e := if is_ok r then set_last_active now_ms e else e in
      (r, (set_established (<[index := e]> (sv_established m)) m, w))
  end.

Definition server_receive_data (packet : bytes) (now_ms : Z) :
    st ServerWorld SessionError.t bytes := λ mw,
  match server_preview_data_with_locs packet [] [] now_ms (expire now_ms mw) with
  | (Ok p, mw) => server_commit_data p now_ms mw
  | (Err e, mw) => (Err e, mw)
  | (Panic, mw) => (Panic, mw)
  end.

Definition server_protected_replay_binding (m : ServerMachine) (scid' : Z) :
    outcome SessionError.t ProtectedReplayBinding :=
  '(_, e) ← ok_or (find_established scid' (sv_established m)) SessionError.UnexpectedMessage;
  Ok (protected_replay_binding (es_session e)).

Definition server_commit_protected_replay (scid' : Z) (p : ProtectedReplayProof) (now_ms : Z)
    (mw : ServerWorld) : outcome SessionError.t unit * ProtectedReplayProof * ServerWorld :=
  let '(m, w) := expire now_ms mw in
  match find_established scid' (sv_established m) with
  | None => (Err SessionError.Replay, p, (m, w))
  | Some (index, e) =>
      let '(r, p, session) := session_commit_protected_replay p (es_session e) in
      (r, p, (set_established (<[index := set_es_session session e]> (sv_established m)) m, w))
  end.

Definition server_promote_local_loc (new_loc : bytes) (m : ServerMachine) : ServerMachine :=
  mkServer (sv_config m) (sv_signing_key m) (sv_material m) (sv_pending m) (sv_established m)
    new_loc (sv_effective_peer_loc m).
Definition server_promote_peer_loc (new_loc : bytes) (m : ServerMachine) : ServerMachine :=
  mkServer (sv_config m) (sv_signing_key m) (sv_material m) (sv_pending m) (sv_established m)
    (sv_effective_local_loc m) new_loc.

(** [send_data_with_locs] and [close]: encrypt on the established session; the entry is removed
    when its counters are exhausted, and after a close. *)
Definition server_send (scid' typ : Z) (pt source destination : bytes) (close : bool) :
    st ServerWorld SessionError.t bytes := λ '(m, w),
  let c := sv_config m in
  match find_established scid' (sv_established m) with
  | None => (Err SessionError.UnexpectedMessage, (m, w))
  | Some (index, e) =>
      let header := ses_packet_header (hc_profile c) 1 0 scid' source destination in
      let '(r, session) := encrypt header typ pt (hc_budget c) (es_session e) in
      let removed :=
        (set_established (delete index (sv_established m)) m, session_drop session w) in
      let kept :=
        (set_established (<[index := set_es_session session e]> (sv_established m)) m, w) in
      match r with
      | Err SessionError.CounterExhausted => (r, removed)
      | Ok _ => (r, if close then removed else kept)
      | _ => (r, kept)
      end
  end.

Definition server_send_data_with_locs (scid' : Z) (pt source destination : bytes) :
    st ServerWorld SessionError.t bytes :=
  server_send scid' SESSION_DATA pt source destination false.

Definition server_send_data (scid' : Z) (pt : bytes) : st ServerWorld SessionError.t bytes :=
  λ '(m, w),
  server_send_data_with_locs scid' pt (sv_effective_local_loc m) (sv_effective_peer_loc m) (m, w).

Definition server_close (scid' code : Z) : st ServerWorld SessionError.t bytes := λ '(m, w),
  server_send scid' CLOSE (be_bytes 2 code) (sv_effective_local_loc m) (sv_effective_peer_loc m)
    true (m, w).

(** The established session a valid close message is for, and its index. *)
Definition close_target (m : ServerMachine) (packet : bytes) :
    outcome SessionError.t (nat * EstablishedSession) :=
  let c := sv_config m in
  '(header, payload) ←
    protected_message c packet (sv_effective_peer_loc m) (sv_effective_local_loc m);
  '(index, e) ← ok_or (find_established (scid header) (sv_established m))
                  SessionError.UnexpectedMessage;
  message ← message_decode payload (profile header) (hc_budget c);
  if negb (msg_typ message =? CLOSE) then Err SessionError.UnexpectedMessage else
  Ok (index, e).

Definition server_receive_close (packet : bytes) (now_ms : Z) : st ServerWorld SessionError.t Z :=
  λ mw,
  let '(m, w) := expire now_ms mw in
  match close_target m packet with
  | Err e => (Err e, (m, w))
  | Panic => (Panic, (m, w))
  | Ok (index, e) =>
      let '(r, session) := decrypt packet (es_session e) in
      let kept :=
        (set_established (<[index := set_es_session session e]> (sv_established m)) m, w) in
      match r with
      | Ok [hi; lo] =>
          (Ok (be_value [hi; lo]),
           (set_established (delete index (sv_established m)) m, session_drop session w))
      | Ok _ => (Err SessionError.AuthFailed, kept)
      | Err e => (Err e, kept)
      | Panic => (Panic, kept)
      end
  end.

Definition is_live (m : ServerMachine) (scid' : Z) : bool :=
  existsb (λ e, ps_scid e =? scid') (sv_pending m) ||
  existsb (λ e, es_scid e =? scid') (sv_established m).

Definition rotate_cookie_key (new_key : bytes) (now_ms : Z) (m : ServerMachine) : ServerMachine :=
  let k := sv_material m in
  set_material (mkServerMaterial (boot_instance k) new_key (current_cookie_key k) now_ms) m.

Definition restart (material : ServerMaterial) (mw : ServerWorld) : ServerWorld :=
  let '(m, w) := mw in
  (set_material material (set_established [] (set_pending [] m)),
   drop_sessions (ps_session <$> sv_pending m)
     (drop_sessions (es_session <$> sv_established m) w)).

End Server.
