(* ===== verification/ServerInv.v ===== *)
(** * Invariants of the server machine

    The sessions of a server, pending and established together, have distinct
    session ids and distinct owners, their leases are set, their replay
    windows are well formed, and the lists stay within the configured limits:
    every operation preserves this. *)

From stdpp Require Import gmap sets.
From S2P Require Import Prelude Wire Checksum Codec HeaderRules Crypto SessionMsg Replay SessionCrypto Directional Client Limiter Server.

(** ** Entries *)

Definition pending_entry (p : PendingSession) : Z * DirectionalSession := (ps_scid p, ps_session p).
Definition established_entry (e : EstablishedSession) : Z * DirectionalSession :=
  (es_scid e, es_session e).
Definition entries (m : ServerMachine) : list (Z * DirectionalSession) :=
  (pending_entry <$> sv_pending m) ++ (established_entry <$> sv_established m).

Definition session_ok (s : DirectionalSession) : Prop := ∃ seen, repr (replay s) seen.

Record entries_ok (es : list (Z * DirectionalSession)) (w : World) : Prop := {
  eo_scids : NoDup es.*1;
  eo_owners : NoDup (receive_owner <$> es.*2);
  eo_live s : s ∈ es.*2 → receive_owner s ∈ leases w ∧ receive_owner s < next_owner w;
  eo_windows s : s ∈ es.*2 → session_ok s;
}.

(** Order does not matter. *)
#[export] Instance entries_ok_proper : Proper (Permutation ==> eq ==> iff) entries_ok.
Proof.
  assert (∀ es es' w, es ≡ₚ es' → entries_ok es w → entries_ok es' w) as Himp.
  { intros es es' w Hp [H1 H2 H3 H4]. split.
    - by rewrite <-Hp.
    - by rewrite <-Hp.
    - intros s. rewrite <-Hp. auto.
    - intros s. rewrite <-Hp. auto. }
  intros es es' Hp w ? <-. split; apply Himp; [done|by symmetry].
Qed.

Lemma leases_drop_sessions l w :
  leases (drop_sessions l w) = leases w ∖ list_to_set (receive_owner <$> l) ∧
  next_owner (drop_sessions l w) = next_owner w.
Proof.
  induction l as [|s l [IH1 IH2]]; simpl; [split; [set_solver|done]|].
  split; [rewrite IH1; set_solver|done].
Qed.

Lemma entries_ok_drop kept dropped w :
  entries_ok (kept ++ dropped) w → entries_ok kept (drop_sessions dropped.*2 w).
Proof.
  intros [H1 H2 H3 H4]. rewrite fmap_app in H1. rewrite !fmap_app in H2.
  setoid_rewrite fmap_app in H3. setoid_rewrite fmap_app in H4.
  apply NoDup_app in H1 as (H1 & _ & _), H2 as (H2 & Hd & _).
  destruct (leases_drop_sessions dropped.*2 w) as [Hl Hn]. split; [done|done| |].
  - intros s Hs. rewrite Hl, Hn. destruct (H3 s) as [? ?]; [set_solver|].
    split; [|done]. apply elem_of_difference. split; [done|]. rewrite elem_of_list_to_set.
    apply Hd, list_elem_of_fmap_2. done.
  - intros s Hs. apply H4. set_solver.
Qed.

Lemma entries_ok_keep kept dropped w : entries_ok (kept ++ dropped) w → entries_ok kept w.
Proof.
  intros [H1 H2 H3 H4]. rewrite fmap_app in H1. rewrite !fmap_app in H2.
  setoid_rewrite fmap_app in H3. setoid_rewrite fmap_app in H4.
  apply NoDup_app in H1 as (H1 & _ & _), H2 as (H2 & Hd & _).
  split; [done|done|..]; intros s Hs; [apply H3|apply H4]; set_solver.
Qed.

Lemma entries_ok_add es w i sk rk th b s w' :
  entries_ok es w → i ∉ es.*1 → session_new sk rk th b w = (Ok s, w') →
  entries_ok (es ++ [(i, s)]) w'.
Proof.
  intros [H1 H2 H3 H4] Hi [-> ->]%session_new_inv. split; rewrite ?fmap_app; simpl.
  - apply NoDup_app. split; [done|]. split; [|apply NoDup_singleton].
    intros x Hx ->%list_elem_of_singleton. done.
  - apply NoDup_app. split; [done|]. split; [|apply NoDup_singleton].
    intros x (s & -> & Hs)%list_elem_of_fmap Hx%list_elem_of_singleton.
    destruct (H3 _ Hs) as [_ ?]. simpl in *. lia.
  - intros s [Hs| ->%list_elem_of_singleton]%elem_of_app; simpl.
    + destruct (H3 _ Hs). split; [set_solver|lia].
    + split; [set_solver|lia].
  - intros s [Hs| ->%list_elem_of_singleton]%elem_of_app; [auto|]. eexists. apply repr_new.
Qed.

Lemma entries_ok_update i s s' rest w :
  entries_ok ((i, s) :: rest) w → receive_owner s' = receive_owner s → session_ok s' →
  entries_ok ((i, s') :: rest) w.
Proof.
  intros [H1 H2 H3 H4] Ho Hs. split; simpl in *.
  - done.
  - by rewrite Ho.
  - intros x [->|Hx]%elem_of_cons; [rewrite Ho; apply H3; set_solver|apply H3; set_solver].
  - intros x [->|Hx]%elem_of_cons; [done|apply H4; set_solver].
Qed.

(** ** List positions *)

Lemma insert_Permutation {A} (l : list A) i x y :
  l !! i = Some x → <[i := y]> l ≡ₚ y :: delete i l.
Proof.
  intros Hi. rewrite insert_take_drop by (by eapply lookup_lt_Some).
  rewrite delete_take_drop. symmetry. apply Permutation_middle.
Qed.

Lemma find_pending_Some i l n p :
  find_pending i l = Some (n, p) → l !! n = Some p ∧ ps_scid p = i.
Proof. intros (H & ? & _)%list_find_Some. done. Qed.

Lemma find_established_Some i l n e :
  find_established i l = Some (n, e) → l !! n = Some e ∧ es_scid e = i.
Proof. intros (H & ? & _)%list_find_Some. done. Qed.

Lemma scid_fresh m i :
  find_pending i (sv_pending m) = None → find_established i (sv_established m) = None →
  i ∉ (entries m).*1.
Proof.
  unfold find_pending, find_established, entries. rewrite !list_find_None, !Forall_forall.
  intros Hp He. rewrite fmap_app, <-!list_fmap_compose.
  intros [(x & -> & Hx)%list_elem_of_fmap|(x & -> & Hx)%list_elem_of_fmap]%elem_of_app.
  - by apply (Hp x).
  - by apply (He x).
Qed.

(** An established entry in front of the others. *)
Lemma entries_established m n e :
  sv_established m !! n = Some e →
  entries m ≡ₚ established_entry e :: entries (set_established (delete n (sv_established m)) m).
Proof.
  intros Hn. unfold entries. simpl.
  rewrite (delete_Permutation _ _ _ Hn) at 1. rewrite fmap_cons.
  symmetry. apply Permutation_middle.
Qed.

Lemma entries_set_established m n e e' :
  sv_established m !! n = Some e →
  entries (set_established (<[n := e']> (sv_established m)) m) ≡ₚ
  established_entry e' :: entries (set_established (delete n (sv_established m)) m).
Proof.
  intros Hn. unfold entries. simpl. rewrite (insert_Permutation _ _ _ _ Hn), fmap_cons.
  symmetry. apply Permutation_middle.
Qed.

Lemma entries_pending m n p :
  sv_pending m !! n = Some p →
  entries m ≡ₚ pending_entry p :: entries (set_pending (delete n (sv_pending m)) m).
Proof. intros Hn. unfold entries. simpl. by rewrite (delete_Permutation _ _ _ Hn) at 1. Qed.

Lemma entries_set_pending m n p p' :
  sv_pending m !! n = Some p →
  entries (set_pending (<[n := p']> (sv_pending m)) m) ≡ₚ
  pending_entry p' :: entries (set_pending (delete n (sv_pending m)) m).
Proof. intros Hn. unfold entries. simpl. by rewrite (insert_Permutation _ _ _ _ Hn). Qed.

(** ** The invariant *)

Record server_inv (mw : ServerWorld) : Prop := {
  si_entries : entries_ok (entries (fst mw)) (snd mw);
  si_pending : len (sv_pending (fst mw)) ≤ hc_pending_limit (sv_config (fst mw));
  si_established : len (sv_established (fst mw)) ≤ hc_established_limit (sv_config (fst mw));
}.

Lemma drop_sessions_app l1 l2 w : drop_sessions (l1 ++ l2) w = drop_sessions l1 (drop_sessions l2 w).
Proof. unfold drop_sessions. by rewrite foldr_app. Qed.

Lemma expire_inv now mw : server_inv mw → server_inv (expire now mw).
Proof.
  destruct mw as [m w]. intros [He Hp Hs]. unfold expire. split; simpl in *.
  - set (kp := filter (pending_live now) (sv_pending m)).
    set (dp := filter (λ e, ¬ pending_live now e) (sv_pending m)).
    set (ke := filter (established_live now) (sv_established m)).
    set (de := filter (λ e, ¬ established_live now e) (sv_established m)).
    rewrite <-drop_sessions_app.
    replace ((ps_session <$> dp) ++ (es_session <$> de)) with
      (((pending_entry <$> dp) ++ (established_entry <$> de)).*2)
      by (by rewrite fmap_app, <-!list_fmap_compose).
    apply entries_ok_drop. unfold entries; simpl. fold kp ke.
    eapply entries_ok_proper; [|done|exact He]. unfold entries.
    rewrite <-(filter_app_complement (pending_live now) (sv_pending m)).
    rewrite <-(filter_app_complement (established_live now) (sv_established m)).
    fold kp dp ke de. rewrite !fmap_app. solve_Permutation.
  - pose proof (len_filter (pending_live now) (sv_pending m)). lia.
  - pose proof (len_filter (established_live now) (sv_established m)). lia.
Qed.

(** ** Operations of a session keep it well formed *)

(** [s'] is [s] after some operations: same owner, well-formed window. *)
Definition session_step (s s' : DirectionalSession) : Prop :=
  receive_owner s' = receive_owner s ∧ (session_ok s → session_ok s').

Lemma session_step_refl s : session_step s s.
Proof. by split. Qed.

Section Sessions.
Context `{C : Crypto}.

Lemma encrypt_step h typ pt budget s : session_step s (snd (encrypt h typ pt budget s)).
Proof. destruct (encrypt_state h typ pt budget s) as [c ->]. by split. Qed.

Lemma commit_replay_step t s : wf_token t → session_step s (snd (commit_replay t s)).
Proof.
  intros Ht. unfold commit_replay, zoom. destruct (commit (replay s) t) as [r w'] eqn:Hc.
  split; [done|]. intros [seen Hs]. pose proof (commit_spec (replay s) seen t Hs Ht) as H.
  rewrite Hc in H. destruct H as (_ & _ & Hok & Herr). destruct r as [[]| |].
  - eexists. by apply Hok.
  - rewrite Herr by done. by exists seen.
  - rewrite Herr by done. by exists seen.
Qed.

Lemma session_commit_step pv s : wf_token (pp_commit pv) → session_step s (snd (session_commit pv s)).
Proof.
  intros Ht. unfold session_commit, mbind, st_bind, get.
  destruct (negb _); [apply session_step_refl|].
  pose proof (commit_replay_step (pp_commit pv) s Ht) as H.
  by destruct (commit_replay (pp_commit pv) s) as [[] s'].
Qed.

Lemma session_commit_protected_step p s :
  (∀ pv, rp_preview p = Some pv → wf_token (pp_commit pv)) →
  session_step s (snd (session_commit_protected_replay p s)).
Proof.
  intros Hp. unfold session_commit_protected_replay.
  destruct (rp_committed p); [apply session_step_refl|].
  destruct (rp_preview p) as [pv|]; [|apply session_step_refl].
  destruct (negb _); [apply session_step_refl|].
  pose proof (commit_replay_step (pp_commit pv) s (Hp pv eq_refl)) as H.
  by destruct (commit_replay (pp_commit pv) s) as [[] s'].
Qed.

Lemma session_preview_token s packet pv :
  session_ok s → wf_bytes packet → session_preview s packet = Ok pv → wf_token (pp_commit pv).
Proof.
  intros [seen Hr] Hw H. unfold session_preview in H.
  apply bind_Ok in H as ([h pl] & Hu & H). apply map_err_Ok, unpack_inv in Hu as (_ & -> & _); [|done].
  apply wf_bytes_app_1 in Hw as [_ Hw]. inv_ok. subst pv. cbn [pp_commit].
  match goal with H : message_decode _ _ _ = Ok _ |- _ => apply message_decode_wf in H; [|done] end.
  match goal with H : slice _ 0 8 = Ok _ |- _ => apply slice_inv in H as (_ & -> & Hl) end.
  match goal with H : preview _ _ = Ok _ |- _ => unfold preview in H; inv_ok; subst end.
  split; cbn [rc_counter rc_generation]; [apply be_value_u64; [solve_wf|done]|].
  apply (repr_generation _ _ Hr).
Qed.

Lemma decrypt_step packet s : wf_bytes packet → session_ok s → session_step s (snd (decrypt packet s)).
Proof.
  intros Hw Hs. unfold decrypt, mbind at 1, st_bind at 1, get. rewrite st_bind_lift.
  destruct (session_preview s packet) as [pv| |] eqn:Hp; [|apply session_step_refl..].
  apply session_commit_step. by eapply session_preview_token.
Qed.
End Sessions.

(** ** Operations of the server preserve the invariant *)

Lemma server_inv_entries m w : server_inv (m, w) → entries_ok (entries m) w.
Proof. by intros []. Qed.

(** Replace the session of an established entry. *)
Lemma update_established_inv m w n e e' :
  server_inv (m, w) → sv_established m !! n = Some e → es_scid e' = es_scid e →
  session_step (es_session e) (es_session e') →
  server_inv (set_established (<[n := e']> (sv_established m)) m, w).
Proof.
  intros [He Hp Hs] Hn Hi [Ho Hok]. split; simpl in *; [|done|by rewrite len_insert].
  rewrite (entries_set_established m n e e' Hn).
  rewrite (entries_established m n e Hn) in He.
  unfold established_entry in *. rewrite Hi. eapply entries_ok_update; [done|done|].
  apply Hok, (eo_windows _ _ He). set_solver.
Qed.

Lemma update_pending_inv m w n p s' :
  server_inv (m, w) → sv_pending m !! n = Some p → session_step (ps_session p) s' →
  server_inv (set_pending (<[n := set_ps_session s' p]> (sv_pending m)) m, w).
Proof.
  intros [He Hp Hs] Hn [Ho Hok]. split; simpl in *; [|by rewrite len_insert|done].
  rewrite (entries_set_pending m n p _ Hn). rewrite (entries_pending m n p Hn) in He.
  eapply entries_ok_update; [done|done|]. apply Hok, (eo_windows _ _ He). set_solver.
Qed.

(** Remove an established entry; its session is dropped or moves out. *)
Lemma delete_established_inv m w n e :
  server_inv (m, w) → sv_established m !! n = Some e →
  server_inv (set_established (delete n (sv_established m)) m, w).
Proof.
  intros [He Hp Hs] Hn. split; simpl in *; [|done|rewrite (len_delete _ _ _ Hn); lia].
  rewrite (entries_established m n e Hn), Permutation_cons_append in He.
  by eapply entries_ok_keep.
Qed.

Lemma drop_established_inv m w n e s' :
  server_inv (m, w) → sv_established m !! n = Some e → receive_owner s' = receive_owner (es_session e) →
  server_inv (set_established (delete n (sv_established m)) m, session_drop s' w).
Proof.
  intros [He Hp Hs] Hn Ho. split; simpl in *; [|done|rewrite (len_delete _ _ _ Hn); lia].
  rewrite (entries_established m n e Hn), Permutation_cons_append in He.
  apply entries_ok_drop in He. simpl in He. unfold session_drop in *. by rewrite Ho.
Qed.

(** Move a pending session to the established ones. *)
Lemma establish_inv m w n p s' packet now :
  server_inv (m, w) → sv_pending m !! n = Some p → session_step (ps_session p) s' →
  len (sv_established m) < hc_established_limit (sv_config m) →
  server_inv (set_established (sv_established m ++ [establish p s' packet now])
                (set_pending (delete n (sv_pending m)) m), w).
Proof.
  intros [He Hp Hs] Hn [Ho Hok] Hlt. split; simpl in *.
  - rewrite (entries_pending m n p Hn) in He.
    assert (session_ok s') as Hs' by (apply Hok, (eo_windows _ _ He); set_solver).
    eapply entries_ok_update in He; [|exact Ho|exact Hs'].
    eapply entries_ok_proper; [|done|exact He]. unfold entries. simpl. rewrite fmap_app. simpl.
    rewrite app_assoc. symmetry. apply Permutation_cons_append.
  - rewrite (len_delete _ _ _ Hn). lia.
  - rewrite len_app. change (len [_]) with 1. lia.
Qed.

Section Steps.
Context `{C : Crypto}.

Definition wf_proof (p : ProtectedReplayProof) : Prop :=
  ∀ pv, rp_preview p = Some pv → wf_token (pp_commit pv).

(** One call of an operation that takes the server by mutable reference. *)
Inductive server_step : ServerWorld → ServerWorld → Prop :=
| ss_open_auth p b now bucket hm mw : server_step mw (snd (receive_open_auth p b now bucket hm mw))
| ss_accept p now mw : wf_bytes p → server_step mw (snd (receive_accept p now mw))
| ss_bootstrap i mw : server_step mw (snd (server_take_profile3_bootstrap i mw))
| ss_preview p a b now mw : server_step mw (snd (server_preview_data_with_locs p a b now mw))
| ss_commit p now mw :
    wf_token (pp_commit (dp_commit p)) → server_step mw (snd (server_commit_data p now mw))
| ss_receive_data p now mw : wf_bytes p → server_step mw (snd (server_receive_data p now mw))
| ss_commit_replay i p now mw :
    wf_proof p → server_step mw (snd (server_commit_protected_replay i p now mw))
| ss_send i pt a b mw : server_step mw (snd (server_send_data_with_locs i pt a b mw))
| ss_send_data i pt mw : server_step mw (snd (server_send_data i pt mw))
| ss_close i code mw : server_step mw (snd (server_close i code mw))
| ss_receive_close p now mw : wf_bytes p → server_step mw (snd (server_receive_close p now mw))
| ss_expire now mw : server_step mw (expire now mw)
| ss_rotate k now m w : server_step (m, w) (rotate_cookie_key k now m, w)
| ss_restart k mw : server_step mw (restart k mw)
| ss_promote_local l m w : server_step (m, w) (server_promote_local_loc l m, w)
| ss_promote_peer l m w : server_step (m, w) (server_promote_peer_loc l m, w).

Lemma open_auth_keys_capacity m h body b now bucket hm r :
  open_auth_keys m h body b now bucket hm = Ok r → len (sv_pending m) < hc_pending_limit (sv_config m).
Proof.
  unfold open_auth_keys. intros H. repeat (apply bind_Ok in H as (? & _ & H)).
  inv_ok. lia.
Qed.

Lemma receive_open_auth_inv p b now bucket hm mw :
  server_inv mw → server_inv (snd (receive_open_auth p b now bucket hm mw)).
Proof.
  intros Hi. unfold receive_open_auth. destruct (binding_validate b); [|done..].
  apply (expire_inv now) in Hi. destruct (expire now mw) as [m w].
  destruct (handshake_message _ p OPEN_AUTH) as [[h body]| |]; [|done..].
  destruct (find_pending (scid h) (sv_pending m)) as [[? ?]|] eqn:Hp; [done|].
  destruct (find_established (scid h) (sv_established m)) as [[? ?]|] eqn:He; [done|].
  destruct (open_auth_keys m h body b now bucket hm) as [[[[[ack hash] sched] sk] rk]| |] eqn:Hk; [|done..].
  apply open_auth_keys_capacity in Hk.
  destruct (session_new sk rk hash _ w) as [[s| |] w'] eqn:Hn.
  - destruct Hi as [Hent Hpl Hel]. split; simpl in *; [|rewrite len_app; change (len [_]) with 1; lia|done].
    unfold entries. simpl. rewrite fmap_app, <-app_assoc.
    eapply entries_ok_proper; [|done|].
    2:{ eapply (entries_ok_add (entries m) w (scid h)); [done| |exact Hn]. by apply scid_fresh. }
    unfold entries, pending_entry. simpl. solve_Permutation.
  - unfold session_new, allocate_session_owner, mbind, st_bind in Hn. by destruct (_ || _).
  - assert (w' = w) as ->; [|done].
    unfold session_new, allocate_session_owner, mbind, st_bind in Hn.
    destruct (_ || _); [by injection Hn|done].
Qed.

Lemma accept_preview_inv m w s p pv :
  accept_preview m w s p = Ok pv →
  session_preview s p = Ok pv ∧ len (sv_established m) < hc_established_limit (sv_config m).
Proof. unfold accept_preview. intros H. inv_ok. subst. split; [done|lia]. Qed.

Lemma receive_accept_inv p now mw :
  wf_bytes p → server_inv mw → server_inv (snd (receive_accept p now mw)).
Proof.
  intros Hw Hi. unfold receive_accept.
  apply (expire_inv now) in Hi. destruct (expire now mw) as [m w].
  destruct (accept_header (sv_config m) p) as [h| |]; [|done..].
  destruct (find_established _ _) as [[? ?]|]; [done|].
  destruct (find_pending _ _) as [[n q]|] eqn:Hf; [|done].
  apply find_pending_Some in Hf as [Hn _].
  destruct (accept_preview _ _ _ _) as [pv| |] eqn:Ha; [|done..].
  apply accept_preview_inv in Ha as [Hpv Hlt].
  assert (session_ok (ps_session q)) as Hok.
  { pose proof (server_inv_entries _ _ Hi) as He. rewrite (entries_pending m n q Hn) in He.
    apply (eo_windows _ _ He). set_solver. }
  pose proof (session_commit_step pv (ps_session q) (session_preview_token _ _ _ Hok Hw Hpv)) as Hst.
  destruct (session_commit pv (ps_session q)) as [[?| |] s']; simpl in *.
  - by apply establish_inv.
  - by apply update_pending_inv.
  - done.
Qed.

Lemma established_ok m w n e :
  server_inv (m, w) → sv_established m !! n = Some e → session_ok (es_session e).
Proof.
  intros Hi Hn. pose proof (server_inv_entries _ _ Hi) as He.
  rewrite (entries_established m n e Hn) in He. apply (eo_windows _ _ He). set_solver.
Qed.

Lemma preview_on_session_token c s h pl p a b x y dp :
  session_ok s → wf_bytes p →
  preview_on_session c s h pl p a b x y = Ok dp → wf_token (pp_commit (dp_commit dp)).
Proof.
  intros Hs Hw H. unfold preview_on_session in H. inv_ok. subst dp.
  by eapply session_preview_token.
Qed.

Lemma server_commit_data_inv p now mw :
  wf_token (pp_commit (dp_commit p)) → server_inv mw →
  server_inv (snd (server_commit_data p now mw)).
Proof.
  intros Ht Hi. unfold server_commit_data. destruct (negb _); [done|].
  apply (expire_inv now) in Hi. destruct (expire now mw) as [m w].
  destruct (find_established _ _) as [[n e]|] eqn:Hf; [|done].
  apply find_established_Some in Hf as [Hn _].
  pose proof (session_commit_step (dp_commit p) (es_session e) Ht) as Hst.
  destruct (session_commit (dp_commit p) (es_session e)) as [r s']. simpl in *.
  eapply update_established_inv; [done|done|by destruct (is_ok r)|by destruct (is_ok r)].
Qed.

Lemma server_preview_inv p a b now mw :
  server_inv mw → server_inv (snd (server_preview_data_with_locs p a b now mw)).
Proof.
  intros Hi. unfold server_preview_data_with_locs. apply (expire_inv now) in Hi.
  by destruct (expire now mw).
Qed.

Lemma server_preview_token p a b now mw dp :
  wf_bytes p → server_inv mw →
  fst (server_preview_data_with_locs p a b now mw) = Ok dp → wf_token (pp_commit (dp_commit dp)).
Proof.
  intros Hw Hi. unfold server_preview_data_with_locs. apply (expire_inv now) in Hi.
  destruct (expire now mw) as [m w]. cbn [fst]. intros H.
  apply bind_Ok in H as ([h pl] & _ & H). apply bind_Ok in H as ([n e] & Hf & H).
  apply ok_or_Ok, find_established_Some in Hf as [Hn _].
  eapply preview_on_session_token; [by eapply established_ok|done|done].
Qed.

Lemma server_receive_data_inv p now mw :
  wf_bytes p → server_inv mw → server_inv (snd (server_receive_data p now mw)).
Proof.
  intros Hw Hi. unfold server_receive_data. apply (expire_inv now) in Hi.
  pose proof (server_preview_inv p [] [] now _ Hi) as Hi'.
  pose proof (server_preview_token p [] [] now (expire now mw)) as Ht.
  destruct (server_preview_data_with_locs _ _ _ _ _) as [[dp| |] mw']; [|done..].
  apply server_commit_data_inv; [by apply Ht|done].
Qed.

Lemma server_send_inv i typ pt a b close mw :
  server_inv mw → server_inv (snd (server_send i typ pt a b close mw)).
Proof.
  destruct mw as [m w]. intros Hi. unfold server_send.
  destruct (find_established _ _) as [[n e]|] eqn:Hf; [|done].
  apply find_established_Some in Hf as [Hn _].
  match goal with |- context [encrypt ?h ?t ?q ?bg ?s] => pose proof (encrypt_step h t q bg s) as Hst end.
  destruct (encrypt _ _ _ _ _) as [r s']. simpl in Hst.
  assert (server_inv (set_established (delete n (sv_established m)) m, session_drop s' w)) as Hrem
    by (eapply drop_established_inv; [done|done|apply Hst]).
  assert (server_inv (set_established (<[n := set_es_session s' e]> (sv_established m)) m, w)) as Hkeep
    by (by eapply update_established_inv).
  destruct r as [?|[]|], close; done.
Qed.

Lemma server_receive_close_inv p now mw :
  wf_bytes p → server_inv mw → server_inv (snd (server_receive_close p now mw)).
Proof.
  intros Hw Hi. unfold server_receive_close. apply (expire_inv now) in Hi.
  destruct (expire now mw) as [m w]. destruct (close_target m p) as [[n e]| |] eqn:Hc; [|done..].
  assert (sv_established m !! n = Some e) as Hn.
  { unfold close_target in Hc. apply bind_Ok in Hc as ([h pl] & _ & Hc).
    apply bind_Ok in Hc as ([n' e'] & Hf & Hc). inv_ok. simplify_eq.
    by apply find_established_Some in Hf as [? _]. }
  pose proof (decrypt_step p (es_session e) Hw (established_ok _ _ _ _ Hi Hn)) as Hst.
  destruct (decrypt p (es_session e)) as [r s']. simpl in Hst.
  assert (server_inv (set_established (delete n (sv_established m)) m, session_drop s' w)) as Hrem
    by (eapply drop_established_inv; [done|done|apply Hst]).
  assert (server_inv (set_established (<[n := set_es_session s' e]> (sv_established m)) m, w)) as Hkeep
    by (by eapply update_established_inv).
  destruct r as [[|? [|? []]]| |]; done.
Qed.

Lemma restart_inv k mw :
  0 ≤ hc_pending_limit (sv_config (fst mw)) → 0 ≤ hc_established_limit (sv_config (fst mw)) →
  server_inv (restart k mw).
Proof.
  destruct mw as [m w]. intros Hp He. split; simpl in *; [|done..].
  split; [constructor|constructor|set_solver|set_solver].
Qed.

Lemma server_step_inv mw mw' : server_step mw mw' → server_inv mw → server_inv mw'.
Proof.
  intros Hs Hi. pose proof (si_pending _ Hi) as Hp. pose proof (si_established _ Hi) as He.
  destruct Hs; try done;
    eauto using receive_open_auth_inv, receive_accept_inv, server_preview_inv,
      server_commit_data_inv, server_receive_data_inv, expire_inv, server_receive_close_inv.
  - destruct mw as [m w]. unfold server_take_profile3_bootstrap. destruct (negb _); [done|].
    destruct (find_established _ _) as [[n e]|] eqn:Hf; [|done].
    apply find_established_Some in Hf as [Hn _].
    destruct (es_schedule e); [|done]. by eapply delete_established_inv.
  - unfold server_commit_protected_replay. apply (expire_inv now) in Hi.
    destruct (expire now mw) as [m w]. destruct (find_established _ _) as [[n e]|] eqn:Hf; [|done].
    apply find_established_Some in Hf as [Hn _].
    pose proof (session_commit_protected_step p (es_session e) H) as Hst.
    destruct (session_commit_protected_replay p (es_session e)) as [[r p'] s']. simpl in *.
    by eapply update_established_inv.
  - by apply server_send_inv.
  - destruct mw. by apply server_send_inv.
  - destruct mw. by apply server_send_inv.
  - destruct Hi. by split.
  - apply restart_inv.
    + pose proof (len_nonneg (sv_pending (fst mw))). lia.
    + pose proof (len_nonneg (sv_established (fst mw))). lia.
  - destruct Hi. by split.
  - destruct Hi. by split.
Qed.

(** C20: whatever calls a server receives, in whatever order, it never holds more pending or
    established sessions than configured, no two of its sessions share a session id or a replay
    owner, the leases of all of them are set, and all replay windows stay well formed. *)
Theorem server_invariant mw mw' :
  rtc server_step mw mw' → server_inv mw → server_inv mw'.
Proof. induction 1; eauto using server_step_inv. Qed.

Lemma server_new_inv config key material m w :
  server_new config key material = Ok m → server_inv (m, w).
Proof.
  unfold server_new, config_validate. intros H. inv_ok. subst m. split; simpl.
  - split; [constructor|constructor|set_solver|set_solver].
  - unfold len. simpl. lia.
  - unfold len. simpl. lia.
Qed.
End Steps.
