(* ===== verification/Handshake.v ===== *)
(** * The handshake between a client and a server machine

    What the server requires before it keeps state for a client, the size of
    its stateless reply, and the run of an honest client against an honest
    server: both end established with crossed keys. *)

From stdpp Require Import gmap sets.
From S2P Require Import Prelude Wire Checksum Codec HeaderRules Crypto SessionMsg Replay SessionCrypto Directional Client Limiter Server ServerInv.

(** ** Field layout of handshake bodies *)

(** The prefix shared by the bodies of OPEN, OPEN_AUTH and OPEN_ACK. *)
Definition hs_body (r1 r2 service : Z) (eid pk eph nonce rest : bytes) : bytes :=
  [r1; r2] ++ be_bytes 4 service ++ eid ++ pk ++ eph ++ nonce ++ rest.

Ltac solve_len :=
  repeat match goal with H : wf_array _ _ |- _ => destruct H as [? _] end;
  rewrite ?length_app, ?length_be_bytes; simpl length; lia.

Lemma slice_exact {E A} (l : list A) a b : a = 0%nat → length l = b → slice (E:=E) l a b = Ok l.
Proof. intros -> <-. by apply slice_all. Qed.

(** Compute a slice of a concatenation of fields of known lengths. *)
Ltac slice_field :=
  repeat (rewrite slice_app_r by solve_len);
  first [rewrite slice_app_l by solve_len; rewrite slice_exact by solve_len; reflexivity
        | rewrite slice_exact by solve_len; reflexivity].

Lemma hs_body_fields r1 r2 service eid pk eph nonce rest :
  wf_array 16 eid → wf_array 32 pk → wf_array 32 eph → wf_array 32 nonce → is_u32 service →
  let b := hs_body r1 r2 service eid pk eph nonce rest in
  idx (E:=SessionError.t) b 0 = Ok r1 ∧ idx (E:=SessionError.t) b 1 = Ok r2 ∧
  u32_ne b 2 service = Ok false ∧
  slice (E:=SessionError.t) b 6 22 = Ok eid ∧ slice (E:=SessionError.t) b 22 54 = Ok pk ∧
  slice (E:=SessionError.t) b 54 86 = Ok eph ∧ slice (E:=SessionError.t) b 86 118 = Ok nonce ∧
  len b = 118 + len rest.
Proof.
  intros He Hp Hh Hn Hs b. unfold b, hs_body. split_and!.
  - done.
  - done.
  - unfold u32_ne. replace (slice _ 2 (2 + 4)) with (Ok (E:=SessionError.t) (be_bytes 4 service))
      by (symmetry; slice_field).
    cbn [mbind outcome_bind]. rewrite be_value_be_bytes by (unfold_widths; simpl Z.of_nat; lia).
    by rewrite Z.eqb_refl.
  - slice_field.
  - slice_field.
  - slice_field.
  - slice_field.
  - unfold len. destruct He, Hp, Hh, Hn. rewrite !length_app, length_be_bytes. simpl. lia.
Qed.

(** The tail of an OPEN_AUTH body. *)
Lemma hs_body_tail r1 r2 service eid pk eph nonce boot cookie sig :
  wf_array 16 eid → wf_array 32 pk → wf_array 32 eph → wf_array 32 nonce →
  wf_array 16 boot → wf_array 32 cookie → wf_array 64 sig →
  let b := hs_body r1 r2 service eid pk eph nonce (boot ++ cookie ++ sig) in
  slice (E:=SessionError.t) b 118 134 = Ok boot ∧ slice (E:=SessionError.t) b 134 166 = Ok cookie ∧
  slice (E:=SessionError.t) b 166 230 = Ok sig.
Proof. intros ??????? b. unfold b, hs_body. split_and!; slice_field. Qed.

(** Validation of a handshake body: length and roles. *)
Lemma validate_body_handshake typ n r1 r2 rest :
  body_len typ = Some n → 1 ≤ typ ≤ 4 → 2 + len rest = n →
  role_ok r1 = true → role_ok r2 = true → r1 ≠ r2 →
  validate_body typ ([r1; r2] ++ rest) = Ok ().
Proof.
  intros Hb Ht Hl H1 H2 Hne. unfold validate_body. rewrite Hb. cbn [ok_or mbind outcome_bind].
  assert (len ([r1; r2] ++ rest) = n) as -> by (rewrite len_app; exact Hl).
  rewrite Z.ltb_irrefl, Z.eqb_refl. cbn [negb]. rewrite andb_false_r.
  assert ((typ =? OPEN) || (typ =? VERIFY_COOKIE) || (typ =? OPEN_AUTH) || (typ =? OPEN_ACK) = true)
    as -> by (unfold OPEN, VERIFY_COOKIE, OPEN_AUTH, OPEN_ACK; lia).
  assert ((typ =? SESSION_ACCEPT) || (typ =? SESSION_DATA) || (typ =? CLOSE) = false)
    as -> by (unfold SESSION_ACCEPT, SESSION_DATA, CLOSE; lia).
  unfold validate_role_pair. cbn [app idx lookup list_lookup mbind outcome_bind orM].
  rewrite H1, H2. cbn [negb mbind outcome_bind]. by assert (r1 =? r2 = false) as -> by lia.
Qed.

(** ** Handshake packets on the wire *)

Definition wire (prof scid typ : Z) (source destination body : bytes) : bytes :=
  header_bytes (ses_packet_header prof 0 0 scid source destination) (4 + len body) ++
  envelope typ prof ++ body.

Lemma handshake_ses_header prof scid typ source destination :
  0 ≤ prof ≤ 3 → is_u64 scid → scid ≠ 0 → 1 ≤ typ ≤ 4 →
  wf_array 16 source → wf_array 16 destination →
  ses_header (ses_packet_header prof 0 0 scid source destination) typ.
Proof.
  intros. unfold ses_header, ses_packet_header, wf_header, slot_rules, NH_SES. simpl.
  split_and!; try done; unfold_widths; lia.
Qed.

Lemma build_packet_wire c source destination scid typ body :
  0 ≤ hc_profile c ≤ 3 → is_u64 scid → scid ≠ 0 → 1 ≤ typ ≤ 4 →
  wf_array 16 source → wf_array 16 destination →
  validate_body typ body = Ok () → 52 + len body ≤ hc_budget c → 52 + len body ≤ SERIALIZED_R8_MAX →
  build_packet c source destination scid typ 0 0 body =
  Ok (wire (hc_profile c) scid typ source destination body).
Proof.
  intros Hp Hsc H0 Ht Hs Hd Hv Hb Hm. unfold SERIALIZED_R8_MAX in *. pose proof (len_nonneg body).
  unfold build_packet, message_encode. cbn [msg_typ msg_body msg_profile]. rewrite Hv.
  cbn [mbind outcome_bind]. rewrite checked_add_Some by (unfold_widths; lia).
  cbn [mbind outcome_bind ok_or]. assert (hc_budget c <? 4 + len body = false) as -> by lia.
  cbn [mbind outcome_bind].
  change ([typ; SESSION_VERSION; hc_profile c; 0] ++ body) with (envelope typ (hc_profile c) ++ body).
  set (h := ses_packet_header _ _ _ _ _ _).
  assert (ses_header h typ) as Hh by by apply handshake_ses_header.
  assert (len (envelope typ (hc_profile c) ++ body) = 4 + len body) as Hl by (by rewrite len_app).
  rewrite pack_intro; [by rewrite Hl|by apply ses_validate| |];
    rewrite Hl; unfold HEADER_LEN, SERIALIZED_R8_MAX; lia.
Qed.

Lemma unpack_wire prof scid typ source destination body budget :
  0 ≤ prof ≤ 3 → is_u64 scid → scid ≠ 0 → 1 ≤ typ ≤ 4 →
  wf_array 16 source → wf_array 16 destination →
  52 + len body ≤ budget → 52 + len body ≤ SERIALIZED_R8_MAX →
  unpack_with_budget (wire prof scid typ source destination body) budget =
  Ok (ses_packet_header prof 0 0 scid source destination, envelope typ prof ++ body).
Proof.
  intros. apply (unpack_ses (ses_packet_header prof 0 0 scid source destination));
    [by apply handshake_ses_header|unfold HEADER_LEN in *; lia..].
Qed.

Lemma handshake_header_good c scid source destination :
  handshake_header_bad c (ses_packet_header (hc_profile c) 0 0 scid source destination) scid
    source destination = false.
Proof.
  unfold handshake_header_bad, ses_packet_header. simpl.
  by rewrite !Z.eqb_refl, !beq_refl.
Qed.

(** ** The server before it keeps state *)

Section Admission.
Context `{C : Crypto}.

Lemma validate_body_exact typ body n :
  validate_body typ body = Ok () → body_len typ = Some n → typ ≠ SESSION_DATA → len body = n.
Proof.
  unfold validate_body. intros Hv Hb Ht. rewrite Hb in Hv. cbn [ok_or mbind outcome_bind] in Hv.
  inv_ok; (destruct (Z.eqb_spec typ SESSION_DATA); [done|]); simpl in *; lia.
Qed.

Lemma message_decode_inv p prof budget msg :
  message_decode p prof budget = Ok msg →
  len p = 4 + len (msg_body msg) ∧ validate_body (msg_typ msg) (msg_body msg) = Ok ().
Proof.
  unfold message_decode. intros H. inv_ok. subst msg. simpl.
  match goal with H : slice_from _ _ = Ok _ |- _ => apply slice_inv in H as (? & _ & Hl) end.
  match goal with u : () |- _ => destruct u end. split; [|done]. unfold len in *. lia.
Qed.

Lemma unpack_length packet budget h payload :
  wf_bytes packet → unpack_with_budget packet budget = Ok (h, payload) →
  len packet = 48 + len payload.
Proof.
  intros Hw (Hh & -> & _)%unpack_inv; [|done]. rewrite len_app. unfold len at 1.
  by rewrite length_header_bytes.
Qed.

Lemma build_packet_length c source destination scid typ flags slot body n p :
  wf_array 16 source → wf_array 16 destination →
  build_packet c source destination scid typ flags slot body = Ok p →
  body_len typ = Some n → typ ≠ SESSION_DATA → len p = 52 + n.
Proof.
  intros [Hs _] [Hd _] H Hn Ht. unfold build_packet, message_encode in H. inv_ok. subst.
  match goal with H : validate_body _ _ = Ok ?u |- _ => destruct u; rename H into Hv end.
  match goal with H : pack_with_budget _ _ _ = Ok _ |- _ => apply pack_inv in H as (_ & -> & _) end.
  cbn [msg_typ msg_body] in *. pose proof (validate_body_exact _ _ _ Hv Hn Ht).
  unfold header_bytes, ses_packet_header. cbn [src dst Wire.scid].
  rewrite !len_app, !len_be_bytes. unfold len in *. rewrite Hs, Hd. simpl length. lia.
Qed.

(** The stateless reply to an OPEN is exactly as long as the request: an unauthenticated
    sender never gets back more bytes than it sent, and the limiter's accounting constant is the
    length of the reply. *)
Theorem open_reply_not_amplified m packet binding bucket reply :
  wf_bytes packet →
  wf_array 16 (hc_source (sv_config m)) → wf_array 16 (hc_destination (sv_config m)) →
  receive_open m packet binding bucket = Ok reply → len reply = 170 ∧ len packet = 170.
Proof.
  intros Hw Hs Hd H. unfold receive_open in H. inv_ok.
  match goal with x : Header * bytes |- _ => destruct x as [h payload] end. inv_ok.
  match goal with H : unpack_with_budget _ _ = Ok _ |- _ => apply unpack_length in H as Hl; [|done] end.
  match goal with H : message_decode _ _ _ = Ok ?x |- _ => apply message_decode_inv in H as [Hp Hv] end.
  match goal with H : negb (msg_typ ?x =? OPEN) = false |- _ =>
    apply negb_false_iff, Z.eqb_eq in H as Ht; rewrite Ht in Hv end.
  pose proof (validate_body_exact _ _ 118 Hv eq_refl ltac:(done)).
  apply (build_packet_length _ _ _ _ _ _ _ _ 118) in H; [|done..]. lia.
Qed.

(** What entitles a client to a new pending session: the pinned identity, a fresh cookie for this
    binding and this server instance, and a signature over the transcript. *)
Definition entitled (m : ServerMachine) (h : Header) (body : bytes) (binding : ObservedBinding)
    (now : Z) : Prop :=
  let c := sv_config m in
  let k := sv_material m in
  ∃ client eph nonce supplied sig t0 key bucket input,
    client_identity c body = Ok client ∧ id_public_key client = id_public_key (hc_peer c) ∧
    slice (E:=SessionError.t) body 134 166 = Ok supplied ∧
    accepted_key (current_cookie_key k) (previous_cookie_key k) (previous_key_rotated_ms k) now key ∧
    accepted_bucket now bucket ∧
    cookie_input (mkCookieContext binding client (hc_local c) (scid h) eph (boot_instance k) bucket
      (hc_server_context_id c)) = Ok input ∧
    supplied = cookie key input ∧
    transcript_t0 (auth_transcript (hc_profile c) (scid h) client (hc_local c) eph nonce
      (boot_instance k)) = Ok t0 ∧
    ed25519_verify (id_public_key client) (OPEN_AUTH_DOMAIN ++ t0) sig = true.

Lemma client_identity_pin c body client :
  client_identity c body = Ok client → id_public_key client = id_public_key (hc_peer c).
Proof.
  unfold client_identity. intros H. inv_ok. subst client. simpl.
  match goal with H : negb (beq _ _) = false |- _ => by apply negb_false_iff, beq_true in H end.
Qed.

Lemma cookie_matches_ok cur prev rot sup c now b :
  cookie_matches_buckets cur prev rot sup c now = Ok b → is_ok (cookie_input c) = true.
Proof.
  unfold cookie_matches_buckets. intros (i & Hi & _)%bind_Ok.
  replace c with (with_bucket (cc_bucket c) c) by by destruct c.
  rewrite (cookie_input_bucket c _ (now / 10000)). by rewrite Hi.
Qed.

Lemma open_auth_keys_entitled m h body binding now bucket hm r :
  0 ≤ now → open_auth_keys m h body binding now bucket hm = Ok r → entitled m h body binding now.
Proof.
  intros Hnow H. unfold open_auth_keys in H. inv_ok.
  repeat match goal with
  | H : negb (beq _ _) = false |- _ => apply negb_false_iff, beq_true in H
  | H : negb ?x = false |- _ => is_var x; apply negb_false_iff in H; subst x
  | u : () |- _ => destruct u
  end. subst.
  match goal with H : verify_signature _ _ _ _ = Ok _ |- _ => apply verify_signature_inv in H as [_ Hv] end.
  match goal with H : cookie_matches_buckets ?a ?b ?r ?s ?c ?n = Ok true |- _ =>
    pose proof (cookie_matches_ok _ _ _ _ _ _ _ H) as Hok;
    destruct (cookie_matches_buckets_spec a b r s c n Hok Hnow) as (bb & Hb & Hiff);
    rewrite H in Hb; apply Ok_inj in Hb; subst bb;
    destruct (proj1 Hiff eq_refl) as (key & bk & input & Hkey & Hbk & Hin & Hsup)
  end.
  match goal with H : client_identity _ _ = Ok _ |- _ => pose proof (client_identity_pin _ _ _ H) end.
  unfold entitled, with_bucket in *. simpl in Hin.
  match goal with
  | Hc : client_identity _ _ = Ok ?cl, He : slice _ 54 86 = Ok ?e, Hn : slice _ 86 118 = Ok ?n,
    Hs : slice _ 134 166 = Ok ?su, Hv : ed25519_verify _ (OPEN_AUTH_DOMAIN ++ ?t) ?sg = true |- _ =>
      exists cl, e, n, su, sg, t, key, bk, input; clear Hiff; split_and!; done
  end.
Qed.

(** C26: a server answers an OPEN_AUTH only in two ways: it repeats the acknowledgement it cached
    for exactly this packet and carrier binding, leaving its sessions as they are; or the client is
    entitled to a session (pinned key, fresh cookie for this binding and boot instance, valid
    signature), there was room, and exactly one pending session with a five-second deadline is
    added. *)
Theorem open_auth_admission packet binding now bucket hm mw ack m' w' :
  0 ≤ now →
  receive_open_auth packet binding now bucket hm mw = (Ok ack, (m', w')) →
  let '(m, w) := expire now mw in
  ((m', w') = (m, w) ∧
    ((∃ p, p ∈ sv_pending m ∧ ps_opening p = packet ∧ ps_binding p = binding ∧ ps_cached_ack p = ack) ∨
     (∃ e, e ∈ sv_established m ∧ es_opening e = packet ∧ es_binding e = binding ∧
           es_cached_ack e = ack))) ∨
  (∃ h body p,
    handshake_message (sv_config m) packet OPEN_AUTH = Ok (h, body) ∧
    entitled m h body binding now ∧
    len (sv_pending m) < hc_pending_limit (sv_config m) ∧
    m' = set_pending (sv_pending m ++ [p]) m ∧
    ps_scid p = scid h ∧ scid h ∉ (entries m).*1 ∧ ps_binding p = binding ∧
    ps_cached_ack p = ack ∧ ps_deadline_ms p = sat_add now 5000).
Proof.
  intros Hnow H. unfold receive_open_auth in H. destruct (binding_validate binding); [|done..].
  destruct (expire now mw) as [m w].
  destruct (handshake_message (sv_config m) packet OPEN_AUTH) as [[h body]| |] eqn:Hm; [|done..].
  destruct (find_pending (scid h) (sv_pending m)) as [[n p]|] eqn:Hp.
  { apply find_pending_Some in Hp as [Hn _]. destruct (beq (ps_opening p) packet && _) eqn:Hb; [|done].
    apply andb_prop in Hb as [Ho%beq_true Hb%bool_decide_eq_true]. injection H as <- <- <-.
    left. split; [done|]. left. exists p. split_and!; try done. by eapply list_elem_of_lookup_2. }
  destruct (find_established (scid h) (sv_established m)) as [[n e]|] eqn:He.
  { apply find_established_Some in He as [Hn _]. destruct (beq (es_opening e) packet && _) eqn:Hb; [|done].
    apply andb_prop in Hb as [Ho%beq_true Hb%bool_decide_eq_true]. injection H as <- <- <-.
    left. split; [done|]. right. exists e. split_and!; try done. by eapply list_elem_of_lookup_2. }
  destruct (open_auth_keys m h body binding now bucket hm) as [[[[[ack0 hash] sched] sk] rk]| |] eqn:Hk; [|done..].
  destruct (session_new sk rk hash _ w) as [[s| |] w1]; [|done..]. injection H as -> <- <-.
  right. eexists h, body, _. split; [done|]. split; [by eapply open_auth_keys_entitled|].
  split; [by eapply open_auth_keys_capacity|]. split; [done|].
  by split_and!; try apply scid_fresh.
Qed.
End Admission.

(** ** An honest handshake *)

Lemma orM_false {E} (a b : outcome E bool) : a = Ok false → b = Ok false → orM a b = Ok false.
Proof. by intros -> ->. Qed.

(** Both ends, their secrets and the carrier: everything an honest run needs. *)
Record honest `{C : Crypto} (cc cs : HandshakeConfig) (ck sk : bytes) (k : ClientMaterial)
    (hm : ServerHandshakeMaterial) (mat : ServerMaterial) (binding : ObservedBinding)
    (scid : Z) : Prop := {
  hn_client : config_validate cc = Ok ();
  hn_server : config_validate cs = Ok ();
  hn_local : hc_local cs = hc_peer cc;
  hn_peer : hc_peer cs = hc_local cc;
  hn_profile : hc_profile cs = hc_profile cc ∧ 0 ≤ hc_profile cc;
  hn_source : hc_source cs = hc_source cc ∧ wf_array 16 (hc_source cc);
  hn_destination : hc_destination cs = hc_destination cc ∧ wf_array 16 (hc_destination cc);
  hn_budgets : 282 ≤ hc_budget cc ∧ 282 ≤ hc_budget cs;
  hn_identities : wf_identity (hc_local cc) ∧ wf_identity (hc_peer cc);
  hn_client_key : ed25519_public ck = id_public_key (hc_local cc) ∧ wf_array 32 ck;
  hn_server_key : ed25519_public sk = id_public_key (hc_peer cc) ∧ wf_array 32 sk;
  hn_material : wf_array 32 (cm_ephemeral_secret k) ∧ wf_array 32 (cm_nonce k);
  hn_hmaterial : wf_array 32 (sh_ephemeral_secret hm) ∧ wf_array 32 (sh_nonce hm);
  hn_boot : wf_array 16 (boot_instance mat) ∧ wf_array 32 (current_cookie_key mat);
  hn_context : is_u32 (hc_server_context_id cs);
  hn_binding : wf_binding binding ∧ binding_validate binding = Ok ();
  hn_scid : is_u64 scid ∧ scid ≠ 0;
  hn_dh : x25519_dh (cm_ephemeral_secret k) (x25519_public (sh_ephemeral_secret hm)) ≠ zero_key;
}.

Section Honest.
Context `{C : Crypto} {L : CryptoLaws C}.
Context (cc cs : HandshakeConfig) (ck sk : bytes) (k : ClientMaterial)
  (hm : ServerHandshakeMaterial) (mat : ServerMaterial) (binding : ObservedBinding) (scid : Z).
Context (H : honest cc cs ck sk k hm mat binding scid).

Lemma config_facts (c : HandshakeConfig) :
  config_validate c = Ok () →
  identity_validate (hc_local c) = Ok () ∧ identity_validate (hc_peer c) = Ok () ∧
  id_role (hc_local c) ≠ id_role (hc_peer c) ∧
  id_service_context (hc_local c) = id_service_context (hc_peer c) ∧
  hc_profile c ≤ 3 ∧ hc_budget c ≤ 1280 ∧ 1 ≤ hc_pending_limit c ∧ 1 ≤ hc_established_limit c ∧
  hc_server_context_id c ≠ 0.
Proof.
  unfold config_validate. intros Hv. inv_ok.
  repeat match goal with u : () |- _ => destruct u end. split_and!; try done; lia.
Qed.

Lemma identity_facts (i : Identity) :
  identity_validate i = Ok () →
  role_ok (id_role i) = true ∧ id_service_context i ≠ 0 ∧ eid (id_public_key i) = id_eid i.
Proof.
  unfold identity_validate. intros Hv. inv_ok.
  repeat match goal with H : negb _ = false |- _ => apply negb_false_iff in H end.
  split_and!; [done|lia|by apply beq_true].
Qed.

Let c_eph := x25519_public (cm_ephemeral_secret k).
Let s_eph := x25519_public (sh_ephemeral_secret hm).
Let client := hc_local cc.
Let server := hc_peer cc.
Let prof := hc_profile cc.
Let source := hc_source cc.
Let destination := hc_destination cc.
Let boot := boot_instance mat.

(** The facts every step uses, in one place. *)
Lemma facts :
  0 ≤ prof ≤ 3 ∧ 282 ≤ hc_budget cc ≤ 1280 ∧ 282 ≤ hc_budget cs ≤ 1280 ∧
  role_ok (id_role client) = true ∧ role_ok (id_role server) = true ∧
  id_role client ≠ id_role server ∧
  id_service_context client = id_service_context server ∧ id_service_context client ≠ 0 ∧
  wf_array 32 c_eph ∧ wf_array 32 s_eph ∧ is_u64 scid ∧ scid ≠ 0 ∧
  wf_array 16 source ∧ wf_array 16 destination.
Proof.
  destruct H. destruct hn_profile0, hn_budgets0, hn_source0, hn_destination0, hn_scid0,
    hn_material0, hn_hmaterial0.
  destruct (config_facts _ hn_client0) as (Hl & Hp & ? & ? & ? & ? & _).
  destruct (config_facts _ hn_server0) as (_ & _ & _ & _ & _ & ? & _).
  destruct (identity_facts _ Hl) as (? & ? & _), (identity_facts _ Hp) as (? & _ & _).
  split_and!; try done; try lia; by apply x25519_public_array.
Qed.

Definition hs_open : bytes := wire prof scid OPEN source destination (open_body cc k).

Lemma open_body_hs :
  open_body cc k = hs_body (id_role client) (id_role server) (id_service_context client)
    (id_eid client) (id_public_key client) c_eph (cm_nonce k) [].
Proof. unfold open_body, hs_body. by rewrite app_nil_r. Qed.

Lemma wf_client_fields :
  wf_array 16 (id_eid client) ∧ wf_array 32 (id_public_key client) ∧ is_u32 (id_service_context client).
Proof. destruct (hn_identities _ _ _ _ _ _ _ _ _ H) as [(?&?&?&?) _]. done. Qed.

Lemma wf_server_fields :
  wf_array 16 (id_eid server) ∧ wf_array 32 (id_public_key server) ∧ is_u32 (id_service_context server).
Proof. destruct (hn_identities _ _ _ _ _ _ _ _ _ H) as [_ (?&?&?&?)]. done. Qed.

Lemma len_hs_body r1 r2 service (e p eph n rest : bytes) :
  wf_array 16 e → wf_array 32 p → wf_array 32 eph → wf_array 32 n →
  len (hs_body r1 r2 service e p eph n rest) = 118 + len rest.
Proof.
  intros [? _] [? _] [? _] [? _]. unfold hs_body, len.
  rewrite !length_app, length_be_bytes. simpl. lia.
Qed.

Lemma len_open_body : len (open_body cc k) = 118.
Proof.
  rewrite open_body_hs. destruct facts as (_&_&_&_&_&_&_&_&?&_), wf_client_fields as (?&?&_).
  rewrite len_hs_body; [done..|]. apply (hn_material _ _ _ _ _ _ _ _ _ H).
Qed.

Lemma validate_open_body : validate_body OPEN (open_body cc k) = Ok ().
Proof.
  pose proof len_open_body as Hl. rewrite open_body_hs in *. unfold hs_body in *.
  destruct facts as (_&_&_&?&?&?&_). eapply validate_body_handshake; try done.
  rewrite len_app in Hl. exact Hl.
Qed.

Definition client0 : ClientMachine := mkClient cc ck Idle source destination.
Definition server0 : ServerMachine := mkServer cs sk mat [] [] destination source.
Definition client1 (t : Z) : ClientMachine :=
  set_state (CookieWait scid k hs_open (sat_add t 5000)) client0.

Lemma honest_start t w :
  start scid k t (client0, w) = (Ok hs_open, (client1 t, w)).
Proof.
  destruct facts as (?&?&_&_&_&_&_&_&_&_&?&?&?&?). unfold start, client0. cbn [cl_state cl_config].
  assert ((scid =? 0) || negb true = false) as -> by (simpl; lia).
  unfold client_packet. rewrite build_packet_wire; try done; rewrite ?len_open_body;
    unfold OPEN, SERIALIZED_R8_MAX; try lia. apply validate_open_body.
Qed.

(** A handshake body built from an identity is recognised as that identity. *)
Lemma client_identity_hs (eph n rest : bytes) :
  wf_array 32 eph → wf_array 32 n →
  client_identity cs (hs_body (id_role client) (id_role server) (id_service_context client)
    (id_eid client) (id_public_key client) eph n rest) = Ok client.
Proof.
  intros He Hn. destruct wf_client_fields as (Hi & Hp & Hs), facts as (_&_&_&_&_&_&Hsv&_).
  pose proof (hs_body_fields (id_role client) (id_role server) (id_service_context client)
    (id_eid client) (id_public_key client) eph n rest Hi Hp He Hn Hs) as Hf. cbv zeta in Hf.
  destruct Hf as (F0 & F1 & F2 & F3 & F4 & _).
  revert F0 F1 F2 F3 F4. generalize (hs_body (id_role client) (id_role server)
    (id_service_context client) (id_eid client) (id_public_key client) eph n rest).
  intros b F0 F1 F2 F3 F4. unfold client_identity.
  rewrite (hn_local _ _ _ _ _ _ _ _ _ H), (hn_peer _ _ _ _ _ _ _ _ _ H). fold client server.
  unfold byte_ne. rewrite F0, F1. cbn [mbind outcome_bind orM]. rewrite !Z.eqb_refl.
  cbn [negb mbind outcome_bind orM]. rewrite F2. cbn [mbind outcome_bind].
  rewrite F3, F4. cbn [mbind outcome_bind]. rewrite beq_refl. cbn [negb].
  destruct (config_facts _ (hn_client _ _ _ _ _ _ _ _ _ H)) as (Hv & _). fold client in Hv.
  replace (mkIdentity _ _ _ _) with client by by destruct client. by rewrite Hv.
Qed.

(** *** The stateless reply *)

Definition hs_context (bucket : Z) : CookieContext :=
  mkCookieContext binding client server scid c_eph boot bucket (hc_server_context_id cs).

Lemma cookie_input_ok bucket : is_ok (cookie_input (hs_context bucket)) = true.
Proof.
  unfold cookie_input, hs_context. cbn [cc_client cc_server cc_server_context_id cc_binding].
  destruct (config_facts _ (hn_client _ _ _ _ _ _ _ _ _ H)) as (Hl & Hp & _).
  destruct (config_facts _ (hn_server _ _ _ _ _ _ _ _ _ H)) as (_&_&_&_&_&_&_&_&Hx).
  unfold client, server. rewrite Hl, Hp. cbn [mbind outcome_bind].
  destruct (Z.eqb_spec (hc_server_context_id cs) 0); [done|].
  by rewrite (proj2 (hn_binding _ _ _ _ _ _ _ _ _ H)).
Qed.

Definition hs_cookie (bucket : Z) : bytes :=
  match cookie_input (hs_context bucket) with
  | Ok input => cookie (current_cookie_key mat) input
  | _ => []
  end.

Lemma cookie_input_wf bucket input : cookie_input (hs_context bucket) = Ok input → wf_bytes input.
Proof.
  intros Hi. unfold cookie_input, hs_context in Hi. inv_ok. subst input.
  cbn [cc_client cc_server cc_server_context_id cc_binding cc_scid cc_client_ephemeral cc_boot cc_bucket].
  destruct wf_client_fields as ([_ ?] & [_ ?] & _), facts as (_&_&_&Hr1&Hr2&_&_&_&[_ ?]&_).
  destruct (hn_boot _ _ _ _ _ _ _ _ _ H) as [[_ ?] _], (hn_binding _ _ _ _ _ _ _ _ _ H) as [Hb _].
  destruct (sha256_array (id_public_key client)) as [_ ?]; [done|].
  destruct (sha256_array c_eph) as [_ ?]; [done|].
  assert (wf_bytes (binding_encode binding)).
  { destruct binding as [u|d mac]; [done|]. destruct Hb as [? [_ ?]]. cbn [binding_encode]. solve_wf. }
  apply wf_bytes_app; [compute_decide|]. unfold role_ok in *. unfold WIRE_VERSION, SESSION_VERSION.
  solve_wf.
Qed.

Lemma hs_cookie_array bucket : wf_array 32 (hs_cookie bucket).
Proof.
  pose proof (cookie_input_ok bucket) as Ho. unfold hs_cookie.
  destruct (cookie_input (hs_context bucket)) as [input| |] eqn:Hi; [|done..].
  destruct (hn_boot _ _ _ _ _ _ _ _ _ H) as [_ [_ ?]].
  apply hmac_array; [done|by eapply cookie_input_wf].
Qed.

Definition hs_verify_body (bucket : Z) : bytes :=
  verify_body cs client c_eph boot (hs_cookie bucket).
Definition hs_verify (bucket : Z) : bytes :=
  wire prof scid VERIFY_COOKIE destination source (hs_verify_body bucket).

Lemma verify_body_layout bucket :
  hs_verify_body bucket =
  [id_role server; id_role client] ++ be_bytes 4 (id_service_context client) ++
  id_public_key client ++ sha256 c_eph ++ boot ++ hs_cookie bucket.
Proof.
  unfold hs_verify_body, verify_body. rewrite (hn_local _ _ _ _ _ _ _ _ _ H). fold server.
  destruct facts as (_&_&_&_&_&_&Hs&_). by rewrite Hs.
Qed.

Lemma sha_c_eph : wf_array 32 (sha256 c_eph).
Proof. destruct facts as (_&_&_&_&_&_&_&_&[_ ?]&_). by apply sha256_array. Qed.

Lemma len_verify_body bucket : len (hs_verify_body bucket) = 118.
Proof.
  rewrite verify_body_layout.
  destruct (hs_cookie_array bucket) as [Hc _], sha_c_eph as [Hs _], wf_client_fields as (_&[Hp _]&_).
  destruct (hn_boot _ _ _ _ _ _ _ _ _ H) as [[Hb _] _]. fold boot in Hb.
  unfold len. rewrite !length_app, length_be_bytes, Hc, Hs, Hp, Hb. done.
Qed.

Lemma validate_verify_body bucket : validate_body VERIFY_COOKIE (hs_verify_body bucket) = Ok ().
Proof.
  pose proof (len_verify_body bucket) as Hl. rewrite verify_body_layout in *.
  destruct facts as (_&_&_&?&?&?&_). eapply validate_body_handshake; try done.
  rewrite len_app in Hl. exact Hl.
Qed.

Lemma honest_open bucket : receive_open server0 hs_open binding bucket = Ok (hs_verify bucket).
Proof.
  destruct facts as (Hpr&Hb1&Hb2&_&_&_&_&_&Heph&_&?&?&Hs&Hd).
  destruct (hn_profile _ _ _ _ _ _ _ _ _ H) as [Hpc _].
  destruct (hn_source _ _ _ _ _ _ _ _ _ H) as [Hsc _].
  destruct (hn_destination _ _ _ _ _ _ _ _ _ H) as [Hdc _].
  unfold receive_open, server0. cbn [sv_config sv_material].
  rewrite (proj2 (hn_binding _ _ _ _ _ _ _ _ _ H)). cbn [mbind outcome_bind].
  unfold hs_open. rewrite unpack_wire by
    (try done; rewrite ?len_open_body; unfold OPEN, SERIALIZED_R8_MAX; lia).
  cbn [mbind outcome_bind map_err]. unfold validate_handshake_header.
  rewrite Hsc, Hdc. fold source destination.
  assert (prof = hc_profile cs) as Hpp by done. rewrite Hpp.
  rewrite handshake_header_good. cbn [mbind outcome_bind].
  rewrite message_decode_layout by (try apply validate_open_body; rewrite len_open_body; lia).
  cbn [mbind outcome_bind msg_typ msg_body]. rewrite Z.eqb_refl. cbn [negb].
  rewrite open_body_hs. destruct (hn_material _ _ _ _ _ _ _ _ _ H) as [_ Hn].
  rewrite client_identity_hs by done. cbn [mbind outcome_bind].
  destruct wf_client_fields as (Hi & Hp & Hsv).
  destruct (hs_body_fields (id_role client) (id_role server) (id_service_context client)
    (id_eid client) (id_public_key client) c_eph (cm_nonce k) [] Hi Hp Heph Hn Hsv)
    as (_&_&_&_&_&F&_). rewrite F. cbn [mbind outcome_bind].
  rewrite (hn_local _ _ _ _ _ _ _ _ _ H). fold server boot.
  change (Wire.scid (ses_packet_header (hc_profile cs) 0 0 scid source destination)) with scid.
  fold (hs_context bucket). pose proof (cookie_input_ok bucket) as Ho.
  pose proof (eq_refl (hs_cookie bucket)) as Hc. unfold hs_cookie at 2 in Hc.
  destruct (cookie_input (hs_context bucket)) as [input| |]; [|done..]. cbn [mbind outcome_bind].
  rewrite <-Hc. fold (hs_verify_body bucket). unfold server_packet. rewrite Hsc, Hdc.
  fold source destination. unfold hs_verify. rewrite Hpp.
  rewrite build_packet_wire; try done; rewrite ?len_verify_body;
    unfold VERIFY_COOKIE, SERIALIZED_R8_MAX; try lia. apply validate_verify_body.
Qed.

(** *** OPEN_AUTH *)

Lemma transcript_ok (c : TranscriptContext) :
  identity_validate (tx_client c) = Ok () → role_ok (id_role (tx_server c)) = true →
  id_service_context (tx_client c) = id_service_context (tx_server c) →
  id_service_context (tx_client c) ≠ 0 →
  id_public_key (tx_server c) = zero_key ∨ eid (id_public_key (tx_server c)) = id_eid (tx_server c) →
  ∃ t0, transcript_t0 c = Ok t0.
Proof.
  intros Hv Hr Hs Hz He. unfold transcript_t0. rewrite Hv. cbn [mbind outcome_bind].
  rewrite Hr, <-Hs. simpl negb. destruct (Z.eqb_spec (id_service_context (tx_client c)) 0); [done|].
  rewrite Z.eqb_refl. simpl orb.
  destruct He as [->| ->]; rewrite beq_refl; simpl; [|rewrite andb_false_r]; eauto.
Qed.

Lemma transcript_wf (c : TranscriptContext) t0 :
  wf_transcript_context c → transcript_t0 c = Ok t0 → wf_bytes t0.
Proof.
  intros (?&?&(?&?&[_ ?]&[_ ?])&(?&?&[_ ?]&[_ ?])&[_ ?]&[_ ?]&[_ ?]&[_ ?]&[_ ?]) Ht.
  unfold transcript_t0 in Ht. inv_ok. subst t0.
  apply wf_bytes_app; [compute_decide|]. unfold WIRE_VERSION. solve_wf.
Qed.

Definition auth_context : TranscriptContext :=
  auth_transcript prof scid client server c_eph (cm_nonce k) boot.

Definition hs_auth_t0 : bytes := match transcript_t0 auth_context with Ok t => t | _ => [] end.

Lemma wf_zero_key : wf_array 32 zero_key.
Proof. compute_decide. Qed.

Lemma auth_t0_ok : transcript_t0 auth_context = Ok hs_auth_t0 ∧ wf_bytes hs_auth_t0.
Proof.
  destruct facts as (Hpr&_&_&_&?&_&?&?&?&_&?&_).
  destruct (config_facts _ (hn_client _ _ _ _ _ _ _ _ _ H)) as (Hl & _).
  destruct (transcript_ok auth_context) as [t0 Ht]; try done; [by left|].
  unfold hs_auth_t0. rewrite Ht. split; [done|]. eapply transcript_wf; [|done].
  destruct (hn_identities _ _ _ _ _ _ _ _ _ H) as [(?&?&?&?) (?&?&?&?)].
  destruct (hn_material _ _ _ _ _ _ _ _ _ H), (hn_boot _ _ _ _ _ _ _ _ _ H).
  pose proof wf_zero_key. unfold wf_transcript_context, auth_context, auth_transcript, wf_identity.
  unfold prof, boot, client, server, c_eph in *.
  simpl. split_and!; try done; try apply wf_zero_key; unfold_widths; lia.
Qed.

Definition hs_client_sig : bytes := sign_open_auth ck hs_auth_t0.

Lemma client_sig_array : wf_array 64 hs_client_sig.
Proof.
  destruct (hn_client_key _ _ _ _ _ _ _ _ _ H) as [_ ?], auth_t0_ok as [_ ?].
  apply ed25519_sign_array; [done|]. apply wf_bytes_app; [compute_decide|done].
Qed.

Definition hs_auth_body (bucket : Z) : bytes :=
  open_auth_body cc k boot (hs_cookie bucket) hs_client_sig.
Definition hs_auth (bucket : Z) : bytes :=
  wire prof scid OPEN_AUTH source destination (hs_auth_body bucket).

Lemma auth_body_layout bucket :
  hs_auth_body bucket =
  hs_body (id_role client) (id_role server) (id_service_context client) (id_eid client)
    (id_public_key client) c_eph (cm_nonce k) (boot ++ hs_cookie bucket ++ hs_client_sig).
Proof.
  unfold hs_auth_body, open_auth_body. rewrite open_body_hs. unfold hs_body.
  by rewrite <-!app_assoc, app_nil_l.
Qed.

Lemma wf_hello : wf_array 16 boot ∧ wf_array 32 (cm_nonce k) ∧ wf_array 32 c_eph.
Proof.
  destruct (hn_material _ _ _ _ _ _ _ _ _ H), (hn_boot _ _ _ _ _ _ _ _ _ H).
  by destruct facts as (_&_&_&_&_&_&_&_&?&_).
Qed.

Lemma len_auth_body bucket : len (hs_auth_body bucket) = 230.
Proof.
  rewrite auth_body_layout. destruct wf_client_fields as (?&?&_), wf_hello as ([Hb _]&?&?).
  rewrite len_hs_body by done.
  destruct (hs_cookie_array bucket) as [Hc _], client_sig_array as [Hs _].
  unfold len. rewrite !length_app, Hb, Hc, Hs. done.
Qed.

Lemma validate_auth_body bucket : validate_body OPEN_AUTH (hs_auth_body bucket) = Ok ().
Proof.
  pose proof (len_auth_body bucket) as Hl. rewrite auth_body_layout in *. unfold hs_body in *.
  destruct facts as (_&_&_&?&?&?&_). eapply validate_body_handshake; try done.
  rewrite len_app in Hl. exact Hl.
Qed.

Definition client2 (t bucket : Z) : ClientMachine :=
  set_state (AuthWait scid k boot hs_open
    (ses_packet_header prof 0 0 scid destination source) (hs_cookie bucket) (hs_auth bucket)
    (sat_add t 5000)) client0.

Lemma u32_ne_false (p : bytes) a v :
  is_u32 v → slice (E:=SessionError.t) p a (a + 4) = Ok (be_bytes 4 v) → u32_ne p a v = Ok false.
Proof.
  intros Hv Hs. unfold u32_ne. rewrite Hs. cbn [mbind outcome_bind].
  rewrite be_value_be_bytes by (unfold_widths; simpl Z.of_nat; lia). by rewrite Z.eqb_refl.
Qed.

Lemma verify_cookie_ok t bucket :
  validate_verify_cookie (client1 t) (hs_verify bucket) scid k hs_open =
  Ok (ses_packet_header prof 0 0 scid destination source, boot, hs_cookie bucket).
Proof.
  destruct facts as (Hpr&Hb1&Hb2&_&_&_&Hsv&_&Heph&_&?&?&Hs&Hd).
  destruct wf_client_fields as (Hi & Hp & Hu), wf_hello as (Hbt & Hn & _).
  pose proof sha_c_eph as Hsha. pose proof (hs_cookie_array bucket) as Hck.
  unfold validate_verify_cookie. change (cl_config (client1 t)) with cc.
  unfold hs_open at 1. rewrite unpack_wire by
    (try done; rewrite ?len_open_body; unfold OPEN, SERIALIZED_R8_MAX; lia).
  cbn [mbind outcome_bind map_err]. fold c_eph prof source destination client server.
  assert (len (envelope OPEN prof ++ open_body cc k) = 122) as Hl1 by (by rewrite len_app, len_open_body).
  rewrite Hl1, handshake_header_good.
  set (P := envelope OPEN prof ++ open_body cc k) in *.
  assert (P = envelope OPEN prof ++ hs_body (id_role client) (id_role server)
    (id_service_context client) (id_eid client) (id_public_key client) c_eph (cm_nonce k) []) as HP
    by (unfold P; by rewrite open_body_hs).
  assert (slice (E:=SessionError.t) P 26 58 = Ok (id_public_key client)) as HP1
    by (rewrite HP; unfold hs_body, envelope; slice_field).
  assert (slice (E:=SessionError.t) P 58 90 = Ok c_eph) as HP2
    by (rewrite HP; unfold hs_body, envelope; slice_field).
  match goal with |- mbind _ ?x = _ => assert (x = Ok false) as -> end.
  { repeat apply orM_false; try reflexivity; try (apply byte_ne_false; reflexivity);
      try (apply slice_ne_false); try done.
    - apply u32_ne_false; [done|]. rewrite HP. unfold hs_body, envelope. slice_field.
    - rewrite HP. unfold hs_body, envelope. slice_field.
    - rewrite HP. unfold hs_body, envelope. slice_field. }
  cbn [mbind outcome_bind]. unfold hs_verify. rewrite unpack_wire by
    (try done; rewrite ?len_verify_body; unfold VERIFY_COOKIE, SERIALIZED_R8_MAX; lia).
  cbn [mbind outcome_bind map_err].
  assert (len (envelope VERIFY_COOKIE prof ++ hs_verify_body bucket) = 122) as Hl2
    by (by rewrite len_app, len_verify_body).
  rewrite Hl2, handshake_header_good.
  set (Q := envelope VERIFY_COOKIE prof ++ hs_verify_body bucket) in *.
  assert (Q = envelope VERIFY_COOKIE prof ++ [id_role server; id_role client] ++
    be_bytes 4 (id_service_context client) ++ id_public_key client ++ sha256 c_eph ++ boot ++
    hs_cookie bucket) as HQ by (unfold Q; by rewrite verify_body_layout).
  match goal with |- mbind _ ?x = _ => assert (x = Ok false) as -> end.
  { repeat apply orM_false; try reflexivity;
      try (apply byte_ne_false; rewrite HQ; reflexivity).
    - apply u32_ne_false; [done|]. rewrite HQ. unfold envelope. slice_field.
    - rewrite HP1. cbn [mbind outcome_bind]. apply slice_ne_false. rewrite HQ.
      unfold envelope. slice_field. }
  cbn [mbind outcome_bind]. rewrite HP2. cbn [mbind outcome_bind].
  assert (slice_ne (E:=SessionError.t) Q 42 74 (sha256 c_eph) = Ok false) as ->
    by (apply slice_ne_false; rewrite HQ; unfold envelope; slice_field).
  cbn [mbind outcome_bind].
  assert (slice (E:=SessionError.t) Q 74 90 = Ok boot) as ->
    by (rewrite HQ; unfold envelope; slice_field).
  cbn [mbind outcome_bind].
  assert (slice (E:=SessionError.t) Q 90 122 = Ok (hs_cookie bucket)) as ->
    by (rewrite HQ; unfold envelope; slice_field).
  done.
Qed.

Lemma honest_verify t t' bucket w :
  t' < sat_add t 5000 →
  receive_verify (hs_verify bucket) t' (client1 t, w) = (Ok (hs_auth bucket), (client2 t bucket, w)).
Proof.
  intros Ht. destruct facts as (?&?&_&_&_&_&_&_&_&_&?&?&?&?).
  assert (verify_result (client1 t) (hs_verify bucket) scid k hs_open =
    Ok (ses_packet_header prof 0 0 scid destination source, boot, hs_cookie bucket, hs_auth bucket)) as Hv.
  { unfold verify_result. rewrite verify_cookie_ok. cbn [mbind outcome_bind].
    change (cl_config (client1 t)) with cc. change (cl_signing_key (client1 t)) with ck.
    fold client server c_eph prof auth_context. rewrite (proj1 auth_t0_ok). cbn [mbind outcome_bind].
    fold hs_client_sig. unfold client_packet. fold (hs_auth_body bucket).
    rewrite build_packet_wire; try done; rewrite ?len_auth_body;
      unfold OPEN_AUTH, SERIALIZED_R8_MAX; try lia. apply validate_auth_body. }
  unfold receive_verify, cookie_wait_expired. change (cl_state (client1 t)) with
    (CookieWait scid k hs_open (sat_add t 5000)). cbv iota.
  assert (sat_add t 5000 <=? t' = false) as -> by lia.
  assert (t' <? sat_add t 5000 = true) as -> by lia. rewrite Hv. done.
Qed.

(** *** OPEN_ACK *)

Definition full_context : TranscriptContext :=
  mkTranscriptContext prof scid client server c_eph s_eph (cm_nonce k) (sh_nonce hm) boot.
Definition hs_t0 : bytes := match transcript_t0 full_context with Ok t => t | _ => [] end.
Definition hs_server_sig : bytes := sign_open_ack sk hs_t0.
Definition hs_hash : bytes := transcript_hash hs_t0 hs_client_sig hs_server_sig.
Definition hs_shared : bytes := x25519_dh (cm_ephemeral_secret k) s_eph.
Definition hs_schedule : bytes := hkdf_prk hs_shared hs_hash.

Lemma full_t0_ok : transcript_t0 full_context = Ok hs_t0 ∧ wf_bytes hs_t0.
Proof.
  destruct facts as (Hpr&_&_&_&?&_&?&?&?&?&?&_).
  destruct (config_facts _ (hn_client _ _ _ _ _ _ _ _ _ H)) as (Hl & Hp & _).
  destruct (identity_facts _ Hp) as (_ & _ & He).
  destruct (transcript_ok full_context) as [t0 Ht]; try done; [by right|].
  unfold hs_t0. rewrite Ht. split; [done|]. eapply transcript_wf; [|done].
  destruct (hn_identities _ _ _ _ _ _ _ _ _ H), (hn_hmaterial _ _ _ _ _ _ _ _ _ H).
  destruct (hn_material _ _ _ _ _ _ _ _ _ H), (hn_boot _ _ _ _ _ _ _ _ _ H).
  unfold wf_transcript_context, full_context. unfold prof in *. simpl.
  split_and!; try done; unfold_widths; lia.
Qed.

Lemma server_sig_array : wf_array 64 hs_server_sig.
Proof.
  destruct (hn_server_key _ _ _ _ _ _ _ _ _ H) as [_ ?], full_t0_ok as [_ ?].
  apply ed25519_sign_array; [done|]. apply wf_bytes_app; [compute_decide|done].
Qed.

Lemma hash_array : wf_array 32 hs_hash.
Proof.
  destruct full_t0_ok as [_ ?], client_sig_array as [_ ?], server_sig_array as [_ ?].
  apply sha256_array. solve_wf.
Qed.

Lemma schedule_array : wf_array 32 hs_schedule.
Proof.
  destruct hash_array, facts as (_&_&_&_&_&_&_&_&_&?&_).
  apply hkdf_extract_array; [done|]. apply x25519_dh_array; [|done].
  apply (hn_material _ _ _ _ _ _ _ _ _ H).
Qed.

(** The keys of the two directions of slot zero. *)
Lemma direction_keys :
  ∃ kc ks,
    derive_key_from_prk hs_schedule hs_hash prof (id_role client) (id_role server) 0 = Ok kc ∧
    derive_key_from_prk hs_schedule hs_hash prof (id_role server) (id_role client) 0 = Ok ks ∧
    wf_array 32 kc ∧ wf_array 32 ks.
Proof.
  destruct facts as (?&_&_&?&?&Hne&_). pose proof hash_array. pose proof schedule_array.
  destruct (derive_key_Ok hs_schedule hs_hash prof (id_role client) (id_role server) 0)
    as (kc & ? & ?); try done; [unfold_widths; lia|].
  destruct (derive_key_Ok hs_schedule hs_hash prof (id_role server) (id_role client) 0)
    as (ks & ? & ?); try done; [unfold_widths; lia|]. by exists kc, ks.
Qed.

Definition hs_ack_body : bytes :=
  hs_body (id_role server) (id_role client) (id_service_context server) (id_eid server)
    (id_public_key server) s_eph (sh_nonce hm) hs_server_sig.
Definition hs_ack : bytes := wire prof scid OPEN_ACK destination source hs_ack_body.

Lemma len_ack_body : len hs_ack_body = 182.
Proof.
  destruct wf_server_fields as (?&?&_), facts as (_&_&_&_&_&_&_&_&_&?&_).
  destruct (hn_hmaterial _ _ _ _ _ _ _ _ _ H). unfold hs_ack_body. rewrite len_hs_body by done.
  destruct server_sig_array as [Hs _]. unfold len. by rewrite Hs.
Qed.

Lemma validate_ack_body : validate_body OPEN_ACK hs_ack_body = Ok ().
Proof.
  pose proof len_ack_body as Hl. unfold hs_ack_body, hs_body in *.
  destruct facts as (_&_&_&?&?&?&_). eapply validate_body_handshake; try done.
  rewrite len_app in Hl. exact Hl.
Qed.

Lemma cookie_accepted bucket now :
  0 ≤ now → accepted_bucket now bucket →
  cookie_matches_buckets (current_cookie_key mat) (previous_cookie_key mat)
    (previous_key_rotated_ms mat) (hs_cookie bucket) (hs_context 0) now = Ok true.
Proof.
  intros Hn Hb.
  destruct (cookie_matches_buckets_spec (current_cookie_key mat) (previous_cookie_key mat)
    (previous_key_rotated_ms mat) (hs_cookie bucket) (hs_context 0) now) as (b & -> & Hiff);
    [apply cookie_input_ok|done|].
  f_equal. apply Hiff. pose proof (cookie_input_ok bucket) as Ho. unfold hs_cookie.
  destruct (cookie_input (hs_context bucket)) as [input| |] eqn:Hi; [|done..].
  exists (current_cookie_key mat), bucket, input. split_and!; try done; [by left|..]; apply Hb.
Qed.

Lemma cookie_matches_bucket_irrelevant cur prev rot sup b1 b2 now :
  cookie_matches_buckets cur prev rot sup (hs_context b1) now =
  cookie_matches_buckets cur prev rot sup (hs_context b2) now.
Proof. done. Qed.

Lemma honest_auth_keys bucket bucket' now h :
  0 ≤ now → accepted_bucket now bucket → Wire.scid h = scid →
  ∃ kc ks, wf_array 32 kc ∧ wf_array 32 ks ∧
    derive_key_from_prk hs_schedule hs_hash prof (id_role client) (id_role server) 0 = Ok kc ∧
    derive_key_from_prk hs_schedule hs_hash prof (id_role server) (id_role client) 0 = Ok ks ∧
    open_auth_keys server0 h (hs_auth_body bucket) binding now bucket' (Some hm) =
    Ok (hs_ack, hs_hash, hs_schedule, ks, kc).
Proof.
  intros Hnow Hbk Hh. destruct direction_keys as (kc & ks & Hkc & Hks & Hwc & Hws).
  exists kc, ks. split_and!; try done.
  destruct facts as (Hpr&Hb1&Hb2&_&_&_&Hsv&_&Heph&Hseph&?&?&Hs&Hd).
  destruct (hn_profile _ _ _ _ _ _ _ _ _ H) as [Hpc _].
  destruct (hn_source _ _ _ _ _ _ _ _ _ H) as [Hsc _].
  destruct (hn_destination _ _ _ _ _ _ _ _ _ H) as [Hdc _].
  destruct wf_client_fields as (Hi & Hp & Hu), wf_hello as (Hbt & Hn & _).
  pose proof (hs_cookie_array bucket) as Hck. pose proof client_sig_array as Hsg.
  unfold open_auth_keys, server0. cbn [sv_config sv_material sv_pending sv_signing_key].
  rewrite auth_body_layout, client_identity_hs by done. cbn [mbind outcome_bind].
  set (B := hs_body _ _ _ _ _ _ _ _).
  destruct (hs_body_fields (id_role client) (id_role server) (id_service_context client)
    (id_eid client) (id_public_key client) c_eph (cm_nonce k)
    (boot ++ hs_cookie bucket ++ hs_client_sig) Hi Hp Heph Hn Hu) as (_&_&_&_&_&F5&F6&_).
  destruct (hs_body_tail (id_role client) (id_role server) (id_service_context client)
    (id_eid client) (id_public_key client) c_eph (cm_nonce k) boot (hs_cookie bucket) hs_client_sig
    Hi Hp Heph Hn Hbt Hck Hsg) as (F7 & F8 & F9).
  fold B in F5, F6, F7, F8, F9. rewrite F5, F6, F7, F8, F9.
  cbn [mbind outcome_bind]. fold boot. rewrite beq_refl, Hh. cbn [negb].
  rewrite (hn_local _ _ _ _ _ _ _ _ _ H). fold server.
  change (mkCookieContext binding client server scid c_eph boot bucket' (hc_server_context_id cs))
    with (hs_context bucket').
  rewrite (cookie_matches_bucket_irrelevant _ _ _ _ bucket' 0), cookie_accepted by done.
  cbn [mbind outcome_bind negb].
  destruct (config_facts _ (hn_server _ _ _ _ _ _ _ _ _ H)) as (_&_&_&_&_&_&Hpl&_).
  assert (hc_pending_limit cs <=? len [] = false) as -> by (apply Z.leb_gt; unfold len; simpl; lia).
  cbn [ok_or mbind outcome_bind]. rewrite Hpc. fold prof auth_context.
  destruct auth_t0_ok as [-> Hw0]. cbn [mbind outcome_bind].
  destruct (hn_client_key _ _ _ _ _ _ _ _ _ H) as [Hpk Hck'].
  assert (verify_signature (id_public_key client) OPEN_AUTH_DOMAIN hs_auth_t0 hs_client_sig = Ok ()) as ->.
  { unfold verify_signature, hs_client_sig, sign_open_auth, sign. unfold client. rewrite <-Hpk.
    rewrite ed25519_public_ok by done. cbn [negb].
    by rewrite ed25519_verify_sign by first [done | apply wf_bytes_app; [compute_decide|done]]. }
  cbn [mbind outcome_bind]. destruct (hn_material _ _ _ _ _ _ _ _ _ H) as [Hm1 Hm2].
  destruct (hn_hmaterial _ _ _ _ _ _ _ _ _ H) as [Hm3 Hm4].
  assert (x25519 (sh_ephemeral_secret hm) c_eph = Ok hs_shared) as ->.
  { unfold x25519, c_eph. rewrite <-x25519_agree by done. fold s_eph hs_shared.
    pose proof (hn_dh _ _ _ _ _ _ _ _ _ H) as Hdh. fold s_eph hs_shared in Hdh.
    by rewrite (proj2 (beq_false _ _) Hdh). }
  cbn [mbind outcome_bind]. fold s_eph full_context. destruct full_t0_ok as [-> _].
  cbn [mbind outcome_bind]. fold hs_server_sig hs_hash hs_schedule.
  rewrite Hks, Hkc. cbn [mbind outcome_bind].
  assert (ack_body cs client s_eph (sh_nonce hm) hs_server_sig = hs_ack_body) as ->
    by (unfold ack_body; by rewrite (hn_local _ _ _ _ _ _ _ _ _ H)).
  unfold server_packet. rewrite Hsc, Hdc. fold source destination.
  rewrite build_packet_wire; try done; rewrite ?len_ack_body, ?Hpc;
    unfold OPEN_ACK, SERIALIZED_R8_MAX; try lia; try done. apply validate_ack_body.
Qed.

Lemma handshake_message_auth bucket :
  handshake_message cs (hs_auth bucket) OPEN_AUTH =
  Ok (ses_packet_header prof 0 0 scid source destination, hs_auth_body bucket).
Proof.
  destruct facts as (Hpr&Hb1&Hb2&_&_&_&_&_&_&_&?&?&Hs&Hd).
  destruct (hn_profile _ _ _ _ _ _ _ _ _ H) as [Hpc _].
  destruct (hn_source _ _ _ _ _ _ _ _ _ H) as [Hsc _].
  destruct (hn_destination _ _ _ _ _ _ _ _ _ H) as [Hdc _].
  unfold handshake_message, hs_auth. rewrite unpack_wire by
    (try done; rewrite ?len_auth_body; unfold OPEN_AUTH, SERIALIZED_R8_MAX; lia).
  cbn [mbind outcome_bind map_err]. unfold validate_handshake_header. rewrite Hsc, Hdc.
  fold source destination. assert (prof = hc_profile cs) as Hpp by done. rewrite Hpp.
  rewrite handshake_header_good. cbn [mbind outcome_bind].
  rewrite message_decode_layout by (try apply validate_auth_body; rewrite len_auth_body; lia).
  done.
Qed.

Definition hs_schedule_opt : option bytes := if prof =? 3 then Some hs_schedule else None.

Definition server_session (kc ks : bytes) (owner : Z) : DirectionalSession :=
  mkSession ks kc counters_new window_new hs_hash (hc_budget cs) owner.
Definition client_session (kc ks : bytes) (owner : Z) : DirectionalSession :=
  mkSession kc ks counters_new window_new hs_hash (hc_budget cc) owner.

Definition hs_pending (bucket now : Z) (s : DirectionalSession) : PendingSession :=
  mkPending scid (hs_auth bucket) hs_ack binding (sat_add now 5000) s hs_schedule_opt.

Definition world_add (w : World) : World := mkWorld (next_owner w + 1) ({[next_owner w]} ∪ leases w).

Lemma session_new_ok a b th budget w :
  0 < next_owner w < u64_max →
  session_new a b th budget w =
  (Ok (mkSession a b counters_new window_new th budget (next_owner w)), world_add w).
Proof.
  intros. unfold session_new, allocate_session_owner, mbind, st_bind, get, put.
  by assert ((next_owner w =? 0) || (next_owner w =? u64_max) = false) as -> by lia.
Qed.

Lemma honest_auth bucket bucket' now w :
  0 ≤ now → accepted_bucket now bucket → 0 < next_owner w < u64_max →
  ∃ kc ks, wf_array 32 kc ∧ wf_array 32 ks ∧
    derive_key_from_prk hs_schedule hs_hash prof (id_role client) (id_role server) 0 = Ok kc ∧
    derive_key_from_prk hs_schedule hs_hash prof (id_role server) (id_role client) 0 = Ok ks ∧
    receive_open_auth (hs_auth bucket) binding now bucket' (Some hm) (server0, w) =
    (Ok hs_ack, (set_pending [hs_pending bucket now (server_session kc ks (next_owner w))] server0,
                 world_add w)).
Proof.
  intros Hnow Hb Hw. destruct (hn_profile _ _ _ _ _ _ _ _ _ H) as [Hpc _].
  destruct (honest_auth_keys bucket bucket' now
    (ses_packet_header prof 0 0 scid source destination)) as (kc & ks & ? & ? & ? & ? & Hk); try done.
  exists kc, ks. split_and!; try done. unfold receive_open_auth.
  rewrite (proj2 (hn_binding _ _ _ _ _ _ _ _ _ H)).
  change (expire now (server0, w)) with (server0, w).
  cbv beta iota zeta. change (sv_config server0) with cs. rewrite handshake_message_auth.
  change (find_pending _ (sv_pending server0)) with (@None (nat * PendingSession)).
  change (find_established _ (sv_established server0)) with (@None (nat * EstablishedSession)).
  cbv iota. rewrite Hk, session_new_ok by done. unfold hs_pending, hs_schedule_opt. by rewrite Hpc.
Qed.

(** *** SESSION_ACCEPT *)

Definition accept_header_of : Header := ses_packet_header prof 1 0 scid source destination.

Lemma accept_ses_header : ses_header accept_header_of SESSION_ACCEPT.
Proof.
  destruct facts as (?&_&_&_&_&_&_&_&_&_&?&?&?&?).
  unfold ses_header, accept_header_of, ses_packet_header, wf_header, slot_rules, NH_SES, SESSION_ACCEPT.
  simpl. split_and!; try done; unfold_widths; lia.
Qed.

Lemma len_accept_plaintext : len (accept_plaintext hs_hash) = 44.
Proof. destruct hash_array as [Hl _]. unfold accept_plaintext, len. by rewrite length_app, Hl. Qed.

Lemma honest_ack_keys t bucket kc ks :
  derive_key_from_prk hs_schedule hs_hash prof (id_role client) (id_role server) 0 = Ok kc →
  derive_key_from_prk hs_schedule hs_hash prof (id_role server) (id_role client) 0 = Ok ks →
  ack_keys (client2 t bucket) hs_ack scid k boot (hs_auth bucket) =
  Ok (hs_hash, hs_schedule, kc, ks).
Proof.
  intros Hkc Hks. destruct facts as (Hpr&Hb1&Hb2&_&_&_&Hsv&_&Heph&Hseph&?&?&Hs&Hd).
  destruct wf_server_fields as (Hi & Hp & Hu), wf_hello as (Hbt & Hn & _).
  destruct (hn_hmaterial _ _ _ _ _ _ _ _ _ H) as [Hm3 Hm4].
  destruct wf_client_fields as (Hi' & Hp' & Hu').
  pose proof client_sig_array as Hsg. pose proof server_sig_array as Hsg'.
  pose proof (hs_cookie_array bucket) as Hck.
  unfold ack_keys. change (cl_config (client2 t bucket)) with cc.
  unfold hs_ack. rewrite unpack_wire by
    (try done; rewrite ?len_ack_body; unfold OPEN_ACK, SERIALIZED_R8_MAX; lia).
  cbn [mbind outcome_bind map_err]. fold source destination prof.
  change prof with (hc_profile cc). rewrite handshake_header_good.
  rewrite message_decode_layout by (try apply validate_ack_body; rewrite len_ack_body; lia).
  cbn [mbind outcome_bind msg_typ msg_body]. rewrite Z.eqb_refl. cbn [negb].
  fold client server. unfold hs_ack_body.
  destruct (hs_body_fields (id_role server) (id_role client) (id_service_context server)
    (id_eid server) (id_public_key server) s_eph (sh_nonce hm) hs_server_sig Hi Hp Hseph Hm4 Hu)
    as (F0 & F1 & F2 & F3 & F4 & F5 & F6 & _).
  set (B := hs_body _ _ _ _ _ _ _ _) in *.
  assert (slice (E:=SessionError.t) B 118 182 = Ok hs_server_sig) as F7 by (unfold B, hs_body; slice_field).
  unfold byte_ne, slice_ne. rewrite F0, F1. cbn [mbind outcome_bind orM]. rewrite !Z.eqb_refl.
  cbn [negb mbind outcome_bind orM]. rewrite F2. cbn [mbind outcome_bind].
  rewrite F3, F4. cbn [mbind outcome_bind]. rewrite !bool_decide_true by done.
  cbn [negb mbind outcome_bind orM]. rewrite F5, F6, F7. cbn [mbind outcome_bind].
  fold c_eph prof full_context. destruct full_t0_ok as [-> Hw]. cbn [mbind outcome_bind].
  destruct (hn_server_key _ _ _ _ _ _ _ _ _ H) as [Hpk Hsk].
  assert (verify_signature (id_public_key server) OPEN_ACK_DOMAIN hs_t0 hs_server_sig = Ok ()) as ->.
  { unfold verify_signature, hs_server_sig, sign_open_ack, sign. unfold server. rewrite <-Hpk.
    rewrite ed25519_public_ok by done. cbn [negb].
    by rewrite ed25519_verify_sign by first [done | apply wf_bytes_app; [compute_decide|done]]. }
  cbn [mbind outcome_bind]. unfold x25519. fold hs_shared.
  pose proof (hn_dh _ _ _ _ _ _ _ _ _ H) as Hdh. fold s_eph hs_shared in Hdh.
  rewrite (proj2 (beq_false _ _) Hdh). cbn [mbind outcome_bind].
  unfold unpack, hs_auth. rewrite unpack_wire by
    (try done; rewrite ?len_auth_body; unfold OPEN_AUTH, SERIALIZED_R8_MAX; lia).
  cbn [mbind outcome_bind map_err].
  rewrite slice_from_Ok by (unfold envelope; simpl; lia). cbn [mbind outcome_bind].
  rewrite drop_app_length' by done. rewrite auth_body_layout.
  destruct (hs_body_tail (id_role client) (id_role server) (id_service_context client)
    (id_eid client) (id_public_key client) c_eph (cm_nonce k) boot (hs_cookie bucket) hs_client_sig
    Hi' Hp' Heph Hn Hbt Hck Hsg) as (_ & _ & ->).
  cbn [mbind outcome_bind]. fold hs_hash hs_schedule. fold prof. rewrite Hkc, Hks. done.
Qed.

Lemma honest_ack t t' bucket kc ks w :
  t' < sat_add t 5000 → 0 < next_owner w < u64_max → wf_array 32 kc →
  derive_key_from_prk hs_schedule hs_hash prof (id_role client) (id_role server) 0 = Ok kc →
  derive_key_from_prk hs_schedule hs_hash prof (id_role server) (id_role client) 0 = Ok ks →
  ∃ ct,
    len ct = 60 ∧
    open kc 1 (aad_of accept_header_of 72 SESSION_ACCEPT 1) ct = Ok (accept_plaintext hs_hash) ∧
    let accept := header_bytes accept_header_of 72 ++ envelope SESSION_ACCEPT prof ++ be_bytes 8 1 ++ ct in
    wf_bytes accept ∧
    receive_ack hs_ack t' (client2 t bucket, w) =
    (Ok accept,
     (set_state (Established scid
        (set_counters (mkCounters 2) (client_session kc ks (next_owner w))) hs_schedule_opt accept)
        client0, world_add w)).
Proof.
  intros Ht Hw Hwk Hkc Hks. pose proof accept_ses_header as Hh. pose proof len_accept_plaintext as Hl.
  destruct facts as (Hpr&Hb1&_).
  assert (wf_bytes (accept_plaintext hs_hash)) as Hpt.
  { destruct hash_array as [_ ?]. apply wf_bytes_app; [compute_decide|done]. }
  destruct (seal_with_counter kc accept_header_of SESSION_ACCEPT (accept_plaintext hs_hash)
    (hc_budget cc) 1) as (ct & _ & Hop & Hct & Hctw & Henc); try done.
  { rewrite Hl. unfold SERIALIZED_R8_MAX. lia. }
  { rewrite Hl. lia. }
  rewrite Hl in *. exists ct. split; [lia|]. split; [done|]. split.
  { apply wf_bytes_app; [apply wf_header_bytes; [apply Hh|simpl; lia]|].
    unfold envelope, SESSION_ACCEPT, SESSION_VERSION. solve_wf. }
  unfold receive_ack. change (cl_state (client2 t bucket)) with
    (AuthWait scid k boot hs_open (ses_packet_header prof 0 0 scid destination source)
       (hs_cookie bucket) (hs_auth bucket) (sat_add t 5000)). cbv iota.
  assert (sat_add t 5000 <=? t' = false) as -> by lia.
  rewrite (honest_ack_keys t bucket kc ks Hkc Hks). rewrite session_new_ok by done.
  change (cl_config (client2 t bucket)) with cc. fold prof source destination accept_header_of.
  rewrite encrypt_layout; [|left; split; [done|by rewrite Hl]| | |done];
    rewrite ?Hl; [|unfold SERIALIZED_R8_MAX; lia|lia].
  cbn [send_key next send_counters counters_new]. rewrite Henc. done.
Qed.

Lemma accept_header_ok ct :
  len ct = 60 →
  accept_header cs (header_bytes accept_header_of 72 ++ envelope SESSION_ACCEPT prof ++ be_bytes 8 1 ++ ct)
  = Ok accept_header_of.
Proof.
  intros Hct. destruct facts as (Hpr&_&Hb2&_).
  destruct (hn_profile _ _ _ _ _ _ _ _ _ H) as [Hpc _].
  destruct (hn_source _ _ _ _ _ _ _ _ _ H) as [Hsc _].
  destruct (hn_destination _ _ _ _ _ _ _ _ _ H) as [Hdc _].
  assert (len (be_bytes 8 1 ++ ct) = 68) as Hl by (rewrite len_app, len_be_bytes; lia).
  unfold accept_header, protected_message.
  pose proof (unpack_ses accept_header_of SESSION_ACCEPT (be_bytes 8 1 ++ ct) (hc_budget cs)
    accept_ses_header) as Hu. rewrite Hl in Hu. change (4 + 68) with 72 in Hu.
  change (profile accept_header_of) with prof in Hu.
  rewrite Hu by (unfold HEADER_LEN, SERIALIZED_R8_MAX; lia).
  cbn [mbind outcome_bind map_err]. rewrite Hsc, Hdc, Hpc.
  assert (validate_protected_header accept_header_of (hc_profile cc) (Wire.scid accept_header_of)
    (hc_source cc) (hc_destination cc) = Ok ()) as ->.
  { unfold validate_protected_header, accept_header_of, ses_packet_header, prof, source, destination.
    simpl. by rewrite !Z.eqb_refl, !beq_refl. }
  cbn [mbind outcome_bind]. change (profile accept_header_of) with prof.
  rewrite message_decode_layout; [done| |lia].
  apply validate_body_protected; [left; split; [done|lia]|lia|done].
Qed.

Lemma accept_matches w pv :
  pp_receive_owner pv ∈ leases w → pp_plaintext pv = accept_plaintext hs_hash →
  accept_mismatch w pv hs_hash = Ok false.
Proof.
  intros Ho Hp. pose proof len_accept_plaintext as Hl. destruct hash_array as [Hh _].
  assert (plaintext w pv = Ok (accept_plaintext hs_hash)) as Hpt
    by (unfold plaintext; by rewrite bool_decide_true, Hp).
  unfold accept_mismatch. rewrite Hpt. cbn [mbind outcome_bind]. rewrite Hl.
  apply orM_false; [apply orM_false; [done|]|].
  - assert (slice (E:=SessionError.t) (accept_plaintext hs_hash) 0 12 =
      Ok (ascii_bytes "R8 ACCEPT v1")) as ->
      by (unfold accept_plaintext; rewrite slice_app_l, slice_all by (simpl; lia); done).
    done.
  - rewrite slice_from_Ok by (unfold accept_plaintext; rewrite length_app; simpl; lia).
    cbn [mbind outcome_bind]. unfold accept_plaintext.
    rewrite drop_app_length' by done. by rewrite beq_refl.
Qed.

Lemma expire_one p now w :
  now < ps_deadline_ms p →
  expire now (set_pending [p] server0, w) = (set_pending [p] server0, w).
Proof.
  intros Hlt. unfold expire. cbn [sv_pending sv_established set_pending server0].
  rewrite filter_cons_True, filter_cons_False by (unfold pending_live; tauto || done). done.
Qed.

Lemma honest_accept bucket now now2 kc ks w ct :
  now2 < sat_add now 5000 →
  open kc 1 (aad_of accept_header_of 72 SESSION_ACCEPT 1) ct = Ok (accept_plaintext hs_hash) →
  len ct = 60 →
  let packet := header_bytes accept_header_of 72 ++ envelope SESSION_ACCEPT prof ++ be_bytes 8 1 ++ ct in
  let s := server_session kc ks (next_owner w) in
  ∃ w',
    repr w' {[1]} ∧
    receive_accept packet now2 (set_pending [hs_pending bucket now s] server0, world_add w) =
    (Ok (), (set_established [establish (hs_pending bucket now s) (set_replay w' s) packet now2] server0,
             world_add w)).
Proof.
  intros Hlt Hop Hct packet s. destruct facts as (Hpr&_&Hb2&_).
  destruct (session_commit_acceptable s ∅ 1 (accept_plaintext hs_hash)) as (w' & Hcommit & Hr & _);
    [apply repr_new|apply demo_acceptable|by vm_compute|].
  exists w'. split; [by replace ({[1]} : gset Z) with ({[1]} ∪ ∅ : gset Z) by set_solver|].
  unfold receive_accept. rewrite expire_one by done. cbv beta iota zeta.
  change (sv_config (set_pending [hs_pending bucket now s] server0)) with cs.
  unfold packet at 1. rewrite accept_header_ok by done.
  change (find_established _ (sv_established (set_pending _ server0))) with (@None (nat * EstablishedSession)).
  cbv iota.
  assert (find_pending (Wire.scid accept_header_of)
    (sv_pending (set_pending [hs_pending bucket now s] server0)) = Some (0%nat, hs_pending bucket now s)) as ->.
  { unfold find_pending. simpl. by rewrite decide_True. }
  change (ps_session (hs_pending bucket now s)) with s.
  assert (accept_preview (set_pending [hs_pending bucket now s] server0) (world_add w) s packet =
    Ok (mkPreview (accept_plaintext hs_hash) (mkCommit 1 0) (next_owner w))) as ->.
  { unfold accept_preview, packet. replace 72 with (12 + len ct) in * by lia.
    change prof with (profile accept_header_of).
    rewrite session_preview_layout;
      [|apply accept_ses_header|left; split; [done|lia]|lia|done|unfold SERIALIZED_R8_MAX; lia|simpl; lia].
    change (replay s) with window_new. rewrite (preview_acceptable _ ∅ 1 repr_new demo_acceptable). cbn [mbind outcome_bind].
    change (receive_key s) with kc. rewrite Hop. cbn [mbind outcome_bind].
    change (ds_transcript_hash s) with hs_hash.
    rewrite accept_matches; [|simpl; set_solver|done]. cbn [mbind outcome_bind].
    destruct (config_facts _ (hn_server _ _ _ _ _ _ _ _ _ H)) as (_&_&_&_&_&_&_&Hel&_).
    cbn [sv_config sv_established set_pending server0].
    assert (hc_established_limit cs <=? len [] = false) as -> by (apply Z.leb_gt; unfold len; simpl; lia).
    done. }
  change (mkCommit 1 0) with (mkCommit 1 (generation (replay s))).
  change (next_owner w) with (receive_owner s) at 1. rewrite Hcommit. done.
Qed.
End Honest.

(** C1: an honest client and an honest server that know each other's pinned keys complete the
    handshake: every message is accepted, and both end established under the same session id and
    transcript hash with crossed keys, whatever secrets and nonces were drawn (as long as the key
    agreement is not degenerate) and however the messages are timed within the deadlines. *)
Theorem honest_handshake_completes `{C : Crypto} {L : CryptoLaws C}
    cc cs ck sk k hm mat binding scid wc ws tc tc1 tc2 ts1 ts2 bucket :
  honest cc cs ck sk k hm mat binding scid →
  0 < next_owner wc < u64_max → 0 < next_owner ws < u64_max →
  tc1 < sat_add tc 5000 → tc2 < sat_add tc 5000 →
  0 ≤ ts1 → ts2 < sat_add ts1 5000 → accepted_bucket ts1 bucket →
  ∃ m0c m0s mc ms wc' ws' opening verify auth ack accept sc ss schedule e mc1 mc2 ms1 ws1,
    client_new cc ck = Ok m0c ∧ server_new cs sk mat = Ok m0s ∧
    start scid k tc (m0c, wc) = (Ok opening, (mc1, wc)) ∧
    receive_open m0s opening binding bucket = Ok verify ∧
    receive_verify verify tc1 (mc1, wc) = (Ok auth, (mc2, wc)) ∧
    receive_open_auth auth binding ts1 bucket (Some hm) (m0s, ws) = (Ok ack, (ms1, ws1)) ∧
    receive_ack ack tc2 (mc2, wc) = (Ok accept, (mc, wc')) ∧
    receive_accept accept ts2 (ms1, ws1) = (Ok (), (ms, ws')) ∧
    cl_state mc = Established scid sc schedule accept ∧
    sv_pending ms = [] ∧ sv_established ms = [e] ∧ es_scid e = scid ∧ es_session e = ss ∧
    es_schedule e = schedule ∧
    send_key sc = receive_key ss ∧ receive_key sc = send_key ss ∧
    ds_transcript_hash sc = ds_transcript_hash ss.
Proof.
  intros H Hwc Hws Ht1 Ht2 Hts Hts2 Hb.
  destruct (honest_auth cc cs ck sk k hm mat binding scid H bucket bucket ts1 ws Hts Hb Hws)
    as (kc & ks & Hkc & Hks & Hdc & Hds & Hauth).
  destruct (honest_ack cc cs ck sk k hm mat binding scid H tc tc2 bucket kc ks wc Ht2 Hwc Hkc Hdc Hds)
    as (ct & Hct & Hop & _ & Hack).
  destruct (honest_accept cc cs ck sk k hm mat binding scid H bucket ts1 ts2 kc ks ws ct Hts2 Hop Hct)
    as (w' & _ & Hacc).
  assert (client_new cc ck = Ok (client0 cc ck)) as Hc0.
  { unfold client_new. rewrite (hn_client _ _ _ _ _ _ _ _ _ H). cbn [mbind outcome_bind].
    rewrite (proj1 (hn_client_key _ _ _ _ _ _ _ _ _ H)). by rewrite beq_refl. }
  assert (server_new cs sk mat = Ok (server0 cc cs sk mat)) as Hs0.
  { unfold server_new. rewrite (hn_server _ _ _ _ _ _ _ _ _ H). cbn [mbind outcome_bind].
    rewrite (hn_local _ _ _ _ _ _ _ _ _ H), (proj1 (hn_server_key _ _ _ _ _ _ _ _ _ H)), beq_refl.
    unfold server0. by rewrite (proj1 (hn_source _ _ _ _ _ _ _ _ _ H)),
      (proj1 (hn_destination _ _ _ _ _ _ _ _ _ H)). }
  do 19 eexists.
  split; [exact Hc0|]. split; [exact Hs0|].
  split; [apply (honest_start cc cs ck sk k hm mat binding scid H)|].
  split; [apply (honest_open cc cs ck sk k hm mat binding scid H)|].
  split; [apply (honest_verify cc cs ck sk k hm mat binding scid H); exact Ht1|].
  split; [exact Hauth|]. split; [exact Hack|]. split; [exact Hacc|].
  repeat (split; [reflexivity|]). reflexivity.
Qed.
