(* ===== verification/Scenario.v ===== *)
(** * A concrete handshake

    A client and a server with concrete identities over the arithmetic
    stand-ins of the primitives: the instances at which the theorems of
    Client.v, ServerInv.v and Handshake.v apply. *)

From stdpp Require Import gmap sets.
From S2P Require Import Prelude Wire Checksum Codec HeaderRules Crypto SessionMsg Replay SessionCrypto Directional Client Limiter Server ServerInv Handshake.

Definition sc_client : HandshakeConfig :=
  mkConfig demo_client_id demo_server_id 3 demo_src demo_dst 1280 16 64 12.
Definition sc_server : HandshakeConfig :=
  mkConfig demo_server_id demo_client_id 3 demo_src demo_dst 1280 16 64 12.
Definition sc_material : ClientMaterial := mkClientMaterial (replicate 31 0 ++ [5]) (replicate 32 1).
Definition sc_handshake : ServerHandshakeMaterial :=
  mkServerHandshakeMaterial (replicate 31 0 ++ [7]) (replicate 32 2).
Definition sc_boot : ServerMaterial :=
  mkServerMaterial (replicate 16 6) (replicate 32 3) (replicate 32 4) 0.

Lemma sc_honest :
  honest sc_client sc_server demo_client_key demo_server_key sc_material sc_handshake sc_boot
    demo_binding 99.
Proof.
  constructor; first [reflexivity | by vm_compute | compute_decide | idtac].
  all: first [split; first [reflexivity | by vm_compute | compute_decide] | idtac].
Qed.

Lemma sc_world : 0 < next_owner world_init < u64_max.
Proof. done. Qed.

Lemma honest_handshake_completes_witness :
  ∃ m0c m0s mc ms wc' ws' opening verify auth ack accept sc ss schedule e mc1 mc2 ms1 ws1,
    client_new sc_client demo_client_key = Ok m0c ∧
    server_new sc_server demo_server_key sc_boot = Ok m0s ∧
    start 99 sc_material 1000 (m0c, world_init) = (Ok opening, (mc1, world_init)) ∧
    receive_open m0s opening demo_binding 4 = Ok verify ∧
    receive_verify verify 1200 (mc1, world_init) = (Ok auth, (mc2, world_init)) ∧
    receive_open_auth auth demo_binding 45000 4 (Some sc_handshake) (m0s, world_init) =
      (Ok ack, (ms1, ws1)) ∧
    receive_ack ack 1400 (mc2, world_init) = (Ok accept, (mc, wc')) ∧
    receive_accept accept 46000 (ms1, ws1) = (Ok (), (ms, ws')) ∧
    cl_state mc = Established 99 sc schedule accept ∧
    sv_pending ms = [] ∧ sv_established ms = [e] ∧ es_scid e = 99 ∧ es_session e = ss ∧
    es_schedule e = schedule ∧
    send_key sc = receive_key ss ∧ receive_key sc = send_key ss ∧
    ds_transcript_hash sc = ds_transcript_hash ss.
Proof.
  apply (honest_handshake_completes sc_client sc_server demo_client_key demo_server_key sc_material
    sc_handshake sc_boot demo_binding 99 world_init world_init 1000 1200 1400 45000 46000 4 sc_honest);
    first [exact sc_world | by vm_compute | idtac].
Defined.

Definition sc_client0 : ClientMachine := mkClient sc_client demo_client_key Idle demo_src demo_dst.

Lemma client_lifecycle_witness :
  let mw := snd (start 99 sc_material 1000 (sc_client0, world_init)) in
  phase (cl_state (fst mw)) = 1 ∧ phase Idle ≤ phase (cl_state (fst mw)).
Proof.
  split; [by vm_compute|].
  apply (client_lifecycle (sc_client0, world_init) (snd (start 99 sc_material 1000 (sc_client0, world_init)))).
  apply rtc_once, step_start.
Defined.

Lemma ack_authenticates_server_witness :
  ∃ m packet accept m' w' se sn t0 sig,
    receive_ack packet 1400 (m, world_init) = (Ok accept, (m', w')) ∧
    transcript_t0 (client_transcript (cl_config m) 99 sc_material se sn (boot_instance sc_boot)) = Ok t0 ∧
    ed25519_verify (id_public_key (hc_peer (cl_config m))) (OPEN_ACK_DOMAIN ++ t0) sig = true.
Proof.
  destruct (direction_keys _ _ _ _ _ _ _ _ _ sc_honest) as (kc & ks & Hkc & Hks & Hw & _).
  destruct (honest_ack _ _ _ _ _ _ _ _ _ sc_honest 1000 1400 4 kc ks world_init ltac:(done) sc_world
    Hw Hkc Hks) as (ct & _ & _ & _ & Hack).
  eassert (cl_state (client2 sc_client sc_server demo_client_key sc_material sc_boot demo_binding
    99 1000 4) = AuthWait _ _ _ _ _ _ _ _) as Hst by reflexivity.
  destruct (ack_authenticates_server _ _ _ _ _ _ _ _ _ _ _ _ _ _ _ Hst Hack)
    as (_ & se & sn & sig & csig & t0 & session & schedule & Ht & Hv & _).
  do 5 eexists. exists se, sn, t0, sig. split; [exact Hack|]. split; [exact Ht|exact Hv].
Defined.

Lemma expired_handshake_refused_witness :
  let m := set_state (CookieWait 99 sc_material [1] 6000) sc_client0 in
  fst (retry 5999 (m, world_init)) = Ok [1] ∧ is_ok (fst (retry 6000 (m, world_init))) = false ∧
  cl_state (fst (client_expire 6000 (m, world_init))) = Released.
Proof.
  split; [done|].
  pose proof (expired_handshake_refused (set_state (CookieWait 99 sc_material [1] 6000) sc_client0)
    world_init [] 6000 6000 eq_refl ltac:(lia)) as (H1 & _ & _ & H2).
  split; [exact H1|exact H2].
Defined.

Definition sc_server0 : ServerMachine :=
  mkServer sc_server demo_server_key sc_boot [] [] demo_dst demo_src.

Lemma server_invariant_witness :
  server_inv (restart sc_boot (expire 5 (sc_server0, world_init))).
Proof.
  apply (server_invariant (sc_server0, world_init)).
  - eapply rtc_l; [apply (ss_expire 5)|]. apply rtc_once, ss_restart.
  - apply (server_new_inv sc_server demo_server_key sc_boot). by vm_compute.
Defined.

Definition sc_open : bytes :=
  match start 99 sc_material 1000 (sc_client0, world_init) with (Ok p, _) => p | _ => [] end.

Lemma open_reply_not_amplified_witness :
  ∃ reply, receive_open sc_server0 sc_open demo_binding 4 = Ok reply ∧ len reply = 170.
Proof.
  destruct (receive_open sc_server0 sc_open demo_binding 4) as [reply| |] eqn:E; [|by vm_compute in E..].
  exists reply. split; [done|].
  apply (open_reply_not_amplified sc_server0 sc_open demo_binding 4);
    [compute_decide|compute_decide|compute_decide|exact E].
Defined.

Lemma open_auth_admission_witness :
  ∃ packet ack m' w',
    receive_open_auth packet demo_binding 45000 4 (Some sc_handshake) (sc_server0, world_init) =
      (Ok ack, (m', w')) ∧ len (sv_pending m') = 1 ∧
    ∃ h body, entitled sc_server0 h body demo_binding 45000.
Proof.
  destruct (honest_auth _ _ _ _ _ _ _ _ _ sc_honest 4 4 45000 world_init ltac:(lia) ltac:(by vm_compute)
    sc_world) as (kc & ks & _ & _ & _ & _ & Hauth).
  assert (0 ≤ 45000) as Hnow by lia.
  pose proof (open_auth_admission _ _ _ _ _ _ _ _ _ Hnow Hauth) as Had.
  do 4 eexists. split; [exact Hauth|]. split; [done|].
  destruct Had as [[Heq _]|(h & body & p & _ & He & _)]; [|by exists h, body].
  apply (f_equal (λ x : ServerWorld, length (sv_pending (fst x)))) in Heq. by simpl in Heq.
Defined.
