(* ===== verification/Manifest.v ===== *)
(** * The native manifest of the daemon (src/rust/crates/r8d/src/manifest.rs)

    Interfaces, static routes and local locators, the validation of a decoded
    manifest against the startup allowlist, and longest-prefix route selection
    by the byte and bit tests of the source.  The JSON decoder (serde_json) is a
    parameter.  The theorems: validation accepts exactly the manifests that obey
    the declarative rules, and on an accepted manifest [route_for] returns the
    unique longest-prefix route of a locator. *)

From S2P Require Import Prelude.
From stdpp Require Import gmap sorting.
#[local] Open Scope Z_scope.

Module ManifestError.

Inductive t : Set := Syntax | Schema | Invariant.

#[export] Instance eq_dec : EqDecision t.
Proof. solve_decision. Defined.

End ManifestError.

(** ** Records *)

Record Interface : Set := mkInterface {
  descriptor_id : Z;
  interface_name : string;
  allowed_source_macs : list bytes;
  local_delivery : bool;
  transit : bool;
}.

Record Route : Set := mkRoute {
  destination_network : bytes;
  prefix_length : Z;
  egress_descriptor_id : Z;
  next_hop_mac : bytes;
}.

Record NativeManifest : Set := mkManifest {
  local_locs : list bytes;
  interfaces : list Interface;
  routes : list Route;
}.

#[export] Instance Interface_eq_dec : EqDecision Interface.
Proof. solve_decision. Defined.
#[export] Instance Route_eq_dec : EqDecision Route.
Proof. solve_decision. Defined.

(** The records of the JSON document, which have the fields of the validated ones; a raw
    prefix is the pair of its network and its length. *)
Record RawPrefix : Set := mkRawPrefix { network : bytes; raw_prefix_length : Z }.

Record RawInterface : Set := mkRawInterface {
  raw_descriptor_id : Z;
  raw_interface_name : string;
  raw_allowed_source_macs : list bytes;
  raw_local_delivery : bool;
  raw_transit : bool;
}.

Record RawRoute : Set := mkRawRoute {
  destination_prefix : RawPrefix;
  raw_egress_descriptor_id : Z;
  raw_next_hop_mac : bytes;
}.

Record RawManifest : Set := mkRawManifest {
  raw_local_locs : list bytes;
  raw_interfaces : list RawInterface;
  raw_routes : list RawRoute;
}.

(** The machine types of the fields the byte tests read. *)
Definition wf_raw (m : RawManifest) : Prop :=
  Forall (λ r, wf_array 16 (network (destination_prefix r)) ∧
               is_u8 (raw_prefix_length (destination_prefix r))) (raw_routes m).

#[export] Instance wf_raw_dec m : Decision (wf_raw m).
Proof. apply _. Defined.

(** ** Byte and bit tests *)

Definition permits_source_mac (i : Interface) (mac : bytes) : bool :=
  bool_decide (mac ∈ allowed_source_macs i).

Definition is_broadcast (mac : bytes) : bool := beq mac (replicate 6 0xff).

Definition is_canonical_network {E} (network : bytes) (prefix_length : Z) : outcome E bool :=
  let full_bytes := Z.to_nat (prefix_length / 8) in
  let remaining_bits := prefix_length mod 8 in
  let partial := negb (remaining_bits =? 0) in
  stray ← Ok partial &&?
    (b ← idx network full_bytes;
     Ok (negb (Z.land b (Z.shiftl 1 (8 - remaining_bits) - 1) =? 0)));
  if stray : bool then Ok false else
  rest ← slice_from network (full_bytes + Nat.b2n partial);
  Ok (forallb (λ b, b =? 0) rest).

Definition prefix_matches {E} (network loc : bytes) (prefix_length : Z) : outcome E bool :=
  let full_bytes := Z.to_nat (prefix_length / 8) in
  a ← slice network 0 full_bytes;
  b ← slice loc 0 full_bytes;
  if negb (beq a b) then Ok false else
  let remaining_bits := prefix_length mod 8 in
  Ok (remaining_bits =? 0) ||?
    (x ← idx network full_bytes; y ← idx loc full_bytes;
     Ok (Z.shiftr x (8 - remaining_bits) =? Z.shiftr y (8 - remaining_bits))).

Definition matches {E} (r : Route) (loc : bytes) : outcome E bool :=
  prefix_matches (destination_network r) loc (prefix_length r).

(** ** Queries *)

Definition is_local_loc (m : NativeManifest) (loc : bytes) : bool :=
  bool_decide (loc ∈ local_locs m).

Definition interface (m : NativeManifest) (id : Z) : option Interface :=
  find (λ i, descriptor_id i =? id) (interfaces m).

(** [Iterator::filter] with a test that may panic. *)
Fixpoint filterM {E A} (p : A → outcome E bool) (l : list A) : outcome E (list A) :=
  match l with
  | [] => Ok []
  | x :: l => keep ← p x; rest ← filterM p l; Ok (if keep : bool then x :: rest else rest)
  end.

(** [Iterator::max_by_key]: the last of the elements with the largest key. *)
Definition max_by_key {A} (key : A → Z) (l : list A) : option A :=
  match l with
  | [] => None
  | x :: l => Some (foldl (λ best y, if key y <? key best then best else y) x l)
  end.

Definition route_for {E} (m : NativeManifest) (loc : bytes) : outcome E (option Route) :=
  candidates ← filterM (λ r, matches r loc) (routes m);
  Ok (max_by_key prefix_length candidates).

(** ** Validation *)

(** The order of byte arrays, lexicographic. *)
Fixpoint bytes_compare (a b : bytes) : comparison :=
  match a, b with
  | [], [] => Eq
  | [], _ => Lt
  | _, [] => Gt
  | x :: a, y :: b => match x ?= y with Eq => bytes_compare a b | c => c end
  end.

(** [BTreeSet::insert] on a set iterated in ascending order; [None] when the key is present. *)
Fixpoint btree_insert (x : bytes) (s : list bytes) : option (list bytes) :=
  match s with
  | [] => Some [x]
  | y :: s' =>
      match bytes_compare x y with
      | Eq => None
      | Lt => Some (x :: s)
      | Gt => (y ::.) <$> btree_insert x s'
      end
  end.

Fixpoint macs_loop (source_macs : gset bytes) (macs : list bytes) :
  outcome ManifestError.t unit :=
  match macs with
  | [] => Ok ()
  | mac :: macs =>
      if is_broadcast mac || bool_decide (mac ∈ source_macs) then Err ManifestError.Invariant
      else macs_loop ({[mac]} ∪ source_macs) macs
  end.

Fixpoint interfaces_loop (allowed_names : gset string) (descriptor_ids : gset Z)
    (interface_names : gset string) (acc : list Interface) (raws : list RawInterface) :
  outcome ManifestError.t (gset Z * list Interface) :=
  match raws with
  | [] => Ok (descriptor_ids, acc)
  | raw :: raws =>
      if (raw_descriptor_id raw =? 0)
         || bool_decide (raw_interface_name raw = EmptyString)
         || negb (bool_decide (raw_interface_name raw ∈ allowed_names))
         || bool_decide (raw_descriptor_id raw ∈ descriptor_ids)
         || bool_decide (raw_interface_name raw ∈ interface_names)
         || bool_decide (raw_allowed_source_macs raw = [])
      then Err ManifestError.Invariant else
      macs_loop ∅ (raw_allowed_source_macs raw) ;;
      interfaces_loop allowed_names ({[raw_descriptor_id raw]} ∪ descriptor_ids)
        ({[raw_interface_name raw]} ∪ interface_names)
        (acc ++ [mkInterface (raw_descriptor_id raw) (raw_interface_name raw)
                   (raw_allowed_source_macs raw) (raw_local_delivery raw) (raw_transit raw)])
        raws
  end.

Fixpoint locs_loop (local_locs : list bytes) (locs : list bytes) :
  outcome ManifestError.t (list bytes) :=
  match locs with
  | [] => Ok local_locs
  | loc :: locs =>
      match btree_insert loc local_locs with
      | None => Err ManifestError.Invariant
      | Some local_locs => locs_loop local_locs locs
      end
  end.

Fixpoint routes_loop (descriptor_ids : gset Z) (route_keys : gset (bytes * Z))
    (acc : list Route) (raws : list RawRoute) : outcome ManifestError.t (list Route) :=
  match raws with
  | [] => Ok acc
  | raw :: raws =>
      let prefix := destination_prefix raw in
      bad ← Ok (raw_prefix_length prefix =? 0)
        ||? Ok (128 <? raw_prefix_length prefix)
        ||? (c ← is_canonical_network (network prefix) (raw_prefix_length prefix); Ok (negb c))
        ||? Ok (raw_egress_descriptor_id raw =? 0)
        ||? Ok (negb (bool_decide (raw_egress_descriptor_id raw ∈ descriptor_ids)))
        ||? Ok (is_broadcast (raw_next_hop_mac raw))
        ||? Ok (bool_decide ((network prefix, raw_prefix_length prefix) ∈ route_keys));
      if bad : bool then Err ManifestError.Invariant else
      routes_loop descriptor_ids ({[(network prefix, raw_prefix_length prefix)]} ∪ route_keys)
        (acc ++ [mkRoute (network prefix) (raw_prefix_length prefix)
                   (raw_egress_descriptor_id raw) (raw_next_hop_mac raw)])
        raws
  end.

(** [validate_manifest_json] after the document is decoded. *)
Definition validate_raw (raw : RawManifest) (allowlist : list string) :
  outcome ManifestError.t NativeManifest :=
  '(descriptor_ids, interfaces) ←
    interfaces_loop (list_to_set allowlist) ∅ ∅ [] (raw_interfaces raw);
  local_locs ← locs_loop [] (raw_local_locs raw);
  routes ← routes_loop descriptor_ids ∅ [] (raw_routes raw);
  Ok (mkManifest local_locs interfaces routes).

(** serde_json: the decoder of the document and the categories of its errors. *)
Class JsonDecoder (json_error : Type) := {
  from_slice : bytes → json_error + RawManifest;
  is_syntax : json_error → bool;
  is_eof : json_error → bool;
}.

Definition classify_json_error `{JsonDecoder J} (e : J) : ManifestError.t :=
  if is_syntax e || is_eof e then ManifestError.Syntax else ManifestError.Schema.

Definition validate_manifest_json `{JsonDecoder J} (data : bytes) (allowlist : list string) :
  outcome ManifestError.t NativeManifest :=
  match from_slice data with
  | inl e => Err (classify_json_error e)
  | inr raw => validate_raw raw allowlist
  end.

(** ** Bit prefixes

    A locator is a 128-bit big-endian number; its first [p] bits are its quotient by
    [2 ^ (128 - p)]. *)

Definition prefix_bits (loc : bytes) (p : Z) : Z := be_value loc / 2 ^ (128 - p).
Definition host_bits (loc : bytes) (p : Z) : Z := be_value loc mod 2 ^ (128 - p).

Definition covers (r : Route) (loc : bytes) : Prop :=
  prefix_bits (destination_network r) (prefix_length r) = prefix_bits loc (prefix_length r).

#[export] Instance covers_dec r loc : Decision (covers r loc).
Proof. unfold covers. apply _. Defined.

Lemma be_value_app a b : be_value (a ++ b) = be_value a * 256 ^ len b + be_value b.
Proof.
  induction b as [|x b IH] using rev_ind; [rewrite app_nil_r; unfold be_value, len; simpl; lia|].
  rewrite app_assoc, !be_value_snoc, IH, len_app. change (len [x]) with 1.
  rewrite Z.pow_add_r by (unfold len; lia). lia.
Qed.

Lemma be_value_zero l : wf_bytes l → be_value l = 0 ↔ forallb (λ b, b =? 0) l = true.
Proof.
  induction l as [|x l IH] using rev_ind; intros Hwf; [done|].
  apply wf_bytes_app_1 in Hwf as [Hl [Hx _]%wf_bytes_cons_1].
  rewrite be_value_snoc, forallb_app. simpl. pose proof (be_value_range l Hl).
  rewrite andb_true_r, andb_true_iff, <-IH by done. solve_width.
Qed.

(** A locator split at bit [8 * f + r]: the whole bytes, the partial byte, the rest. *)
Lemma prefix_bits_split a x c r :
  wf_bytes c → is_u8 x → 0 ≤ r ≤ 8 → len (a ++ x :: c) = 16 →
  let p := 8 * len a + r in
  prefix_bits (a ++ x :: c) p = be_value a * 2 ^ r + Z.shiftr x (8 - r) ∧
  host_bits (a ++ x :: c) p = (x mod 2 ^ (8 - r)) * 256 ^ len c + be_value c.
Proof.
  intros Hc Hx Hr Hl p. unfold prefix_bits, host_bits.
  rewrite len_app in Hl. change (len (x :: c)) with (Z.of_nat (S (length c))) in Hl.
  assert (len (x :: c) = len c + 1) as Hlx by (unfold len; simpl; lia).
  assert (len a + len c = 15) as Hl' by (unfold len in *; lia). pose proof (len_nonneg c).
  assert (2 ^ (128 - p) = 256 ^ len c * 2 ^ (8 - r)) as ->.
  { change 256 with (2 ^ 8). rewrite <-Z.pow_mul_r, <-Z.pow_add_r by lia. f_equal. lia. }
  replace (a ++ x :: c) with ((a ++ [x]) ++ c) by (by rewrite <-app_assoc).
  rewrite be_value_app, be_value_snoc. set (A := be_value a). set (C := be_value c).
  pose proof (be_value_range c Hc) as HC. fold C in HC. set (K := 256 ^ len c) in *.
  set (D := 2 ^ (8 - r)). assert (0 < D) by (apply Z.pow_pos_nonneg; lia).
  assert (256 = 2 ^ r * D) as H256
    by (unfold D; rewrite <-Z.pow_add_r by lia; replace (r + (8 - r)) with 8 by lia; done).
  assert (((A * 256 + x) * K + C) / K = A * 256 + x) as HK
    by (rewrite Z.div_add_l by lia; rewrite (Z.div_small C) by lia; lia).
  assert (((A * 256 + x) * K + C) mod K = C) as HKm
    by (rewrite Z.add_comm, Z.mod_add by lia; apply Z.mod_small; lia).
  split.
  - rewrite <-Z.div_div, HK by lia. rewrite Z.shiftr_div_pow2 by lia. fold D.
    rewrite H256, Z.mul_assoc, Z.div_add_l by lia. lia.
  - rewrite Z.rem_mul_r, HK, HKm by lia. rewrite H256, Z.mul_assoc, Z.add_comm.
    rewrite (Z.add_comm _ x), Z.mod_add by lia. lia.
Qed.

Lemma prefix_bits_whole a b :
  wf_bytes b → len (a ++ b) = 16 →
  prefix_bits (a ++ b) (8 * len a) = be_value a ∧ host_bits (a ++ b) (8 * len a) = be_value b.
Proof.
  intros Hb Hl. rewrite len_app in Hl. unfold prefix_bits, host_bits.
  pose proof (len_nonneg b). pose proof (be_value_range b Hb).
  assert (2 ^ (128 - 8 * len a) = 256 ^ len b) as ->
    by (change 256 with (2 ^ 8); rewrite <-Z.pow_mul_r by lia; f_equal; lia).
  rewrite be_value_app. split.
  - rewrite Z.div_add_l by lia. rewrite (Z.div_small (be_value b)) by lia. lia.
  - rewrite Z.add_comm, Z.mod_add by lia. apply Z.mod_small. lia.
Qed.

(** The two ways a valid prefix length cuts a 16-byte array. *)
Lemma bits_whole (l : bytes) p :
  wf_array 16 l → 0 ≤ p ≤ 128 → p mod 8 = 0 →
  let f := Z.to_nat (p / 8) in
  (f ≤ length l)%nat ∧ length (take f l) = f ∧
  prefix_bits l p = be_value (take f l) ∧ host_bits l p = be_value (drop f l).
Proof.
  intros [Hl Hwf] Hp Hr f. assert (f ≤ 16)%nat by (unfold f; Z.div_mod_to_equations; lia).
  assert (length (take f l) = f) as Ht by (rewrite length_take; lia).
  assert (p = 8 * len (take f l)) as Hlp
    by (unfold len; rewrite Ht; unfold f; Z.div_mod_to_equations; lia).
  split_and!; [lia|done|..]; rewrite <-(take_drop f l) at 1; rewrite Hlp at 1;
    apply prefix_bits_whole; try (solve_wf); rewrite take_drop; unfold len; by rewrite Hl.
Qed.

Lemma bits_partial (l : bytes) p :
  wf_array 16 l → 0 ≤ p ≤ 128 → p mod 8 ≠ 0 →
  let f := Z.to_nat (p / 8) in let r := p mod 8 in
  ∃ x, l !! f = Some x ∧ is_u8 x ∧ (f < length l)%nat ∧ length (take f l) = f ∧
       prefix_bits l p = be_value (take f l) * 2 ^ r + Z.shiftr x (8 - r) ∧
       host_bits l p = x mod 2 ^ (8 - r) * 256 ^ len (drop (S f) l) + be_value (drop (S f) l).
Proof.
  intros [Hl Hwf] Hp Hr f r. assert (f < 16)%nat by (unfold f; Z.div_mod_to_equations; lia).
  destruct (lookup_lt_is_Some_2 l f) as [x Hx]; [lia|].
  assert (length (take f l) = f) as Ht by (rewrite length_take; lia).
  assert (p = 8 * len (take f l) + r) as Hlp
    by (unfold len; rewrite Ht; unfold f, r; Z.div_mod_to_equations; lia).
  pose proof (Z.mod_pos_bound p 8 eq_refl) as Hb. fold r in Hb.
  exists x. split_and!; [done|by eapply wf_bytes_lookup|lia|done|..];
    rewrite <-(take_drop_middle l f x Hx) at 1; rewrite Hlp at 1;
    (apply prefix_bits_split; [solve_wf|by eapply wf_bytes_lookup|lia|]);
    rewrite (take_drop_middle l f x Hx); unfold len; by rewrite Hl.
Qed.

Lemma be_value_eq_iff a b :
  wf_bytes a → wf_bytes b → length a = length b → be_value a = be_value b ↔ a = b.
Proof. intros. split; [by apply be_value_inj|congruence]. Qed.

Lemma shiftr_u8_bound z r : is_u8 z → 0 ≤ r ≤ 8 → 0 ≤ Z.shiftr z (8 - r) < 2 ^ r.
Proof.
  intros Uz Hr. rewrite Z.shiftr_div_pow2 by lia. unfold_widths.
  assert (0 < 2 ^ (8 - r)) by (apply Z.pow_pos_nonneg; lia).
  split; [apply Z.div_pos; lia|]. apply Z.div_lt_upper_bound; [lia|].
  rewrite <-Z.pow_add_r by lia. replace (8 - r + r) with 8 by lia. lia.
Qed.

Lemma prefix_matches_spec {E} network loc p :
  wf_array 16 network → wf_array 16 loc → 0 ≤ p ≤ 128 →
  prefix_matches (E:=E) network loc p = Ok (bool_decide (prefix_bits network p = prefix_bits loc p)).
Proof.
  intros Hn Hl Hp. unfold prefix_matches. destruct (Z.eqb_spec (p mod 8) 0) as [Hr|Hr].
  - destruct (bits_whole network p Hn Hp Hr) as (Ln & Tn & -> & _).
    destruct (bits_whole loc p Hl Hp Hr) as (Ll & Tl & -> & _).
    destruct Hn as [Hn Wn], Hl as [Hl Wl]. set (f := Z.to_nat (p / 8)) in *.
    rewrite !slice_Ok, Nat.sub_0_r, !drop_0 by lia. cbn [mbind outcome_bind].
    assert (be_value (take f network) = be_value (take f loc) ↔ take f network = take f loc) as Heq
      by (apply be_value_eq_iff; [solve_wf..|congruence]).
    rewrite (bool_decide_ext _ _ Heq). unfold beq, orM. by case_bool_decide.
  - destruct (bits_partial network p Hn Hp Hr) as (x & Xn & Ux & Ln & Tn & -> & _).
    destruct (bits_partial loc p Hl Hp Hr) as (y & Xl & Uy & Ll & Tl & -> & _).
    destruct Hn as [Hn Wn], Hl as [Hl Wl]. set (f := Z.to_nat (p / 8)) in *.
    rewrite !slice_Ok, Nat.sub_0_r, !drop_0 by lia. cbn [mbind outcome_bind].
    unfold idx. rewrite Xn, Xl. cbn [orM mbind outcome_bind].
    pose proof (Z.mod_pos_bound p 8 eq_refl). set (r := p mod 8) in *.
    pose proof (shiftr_u8_bound x r Ux). pose proof (shiftr_u8_bound y r Uy).
    unfold beq. case_bool_decide as Ht; cbn [negb].
    + rewrite Ht. f_equal. case_bool_decide; lia.
    + f_equal. symmetry. apply bool_decide_eq_false. intros Heq. apply Ht.
      apply be_value_inj; [solve_wf..|congruence|]. nia.
Qed.

Lemma is_canonical_network_spec {E} network p :
  wf_array 16 network → 0 ≤ p ≤ 128 →
  is_canonical_network (E:=E) network p = Ok (bool_decide (host_bits network p = 0)).
Proof.
  intros Hn Hp. unfold is_canonical_network. destruct (Z.eqb_spec (p mod 8) 0) as [Hr|Hr].
  - destruct (bits_whole network p Hn Hp Hr) as (Ln & Tn & _ & ->). destruct Hn as [_ Wn].
    cbn [negb andM mbind outcome_bind Nat.b2n]. rewrite Nat.add_0_r, slice_from_Ok by lia.
    cbn [mbind outcome_bind]. f_equal. apply eq_true_iff_eq.
    rewrite bool_decide_eq_true. symmetry. apply be_value_zero. solve_wf.
  - destruct (bits_partial network p Hn Hp Hr) as (x & Xn & Ux & Ln & Tn & _ & ->).
    destruct Hn as [_ Wn]. set (f := Z.to_nat (p / 8)) in *.
    pose proof (Z.mod_pos_bound p 8 eq_refl) as Hb. set (r := p mod 8) in *.
    unfold idx. rewrite Xn. cbn [negb andM mbind outcome_bind Nat.b2n].
    rewrite Nat.add_1_r, slice_from_Ok by lia.
    assert (Z.land x (Z.shiftl 1 (8 - r) - 1) = x mod 2 ^ (8 - r)) as ->
      by (rewrite Z.shiftl_1_l, Z.sub_1_r, <-Z.ones_equiv; apply Z.land_ones; lia).
    assert (wf_bytes (drop (S f) network)) as Wd by solve_wf.
    pose proof (be_value_range _ Wd) as HC. pose proof (be_value_zero _ Wd) as HZ.
    assert (0 ≤ x mod 2 ^ (8 - r)) as Hx0
      by (apply Z.mod_pos_bound, Z.pow_pos_nonneg; lia).
    destruct (Z.eqb_spec (x mod 2 ^ (8 - r)) 0) as [->|Hx]; cbn [negb mbind outcome_bind]; f_equal.
    + rewrite Z.mul_0_l, Z.add_0_l. apply eq_true_iff_eq. rewrite bool_decide_eq_true. by rewrite HZ.
    + symmetry. apply bool_decide_eq_false. nia.
Qed.

(** ** The declarative rules of a manifest *)

Definition BROADCAST : bytes := replicate 6 0xff.

Definition interface_rules (allowlist : list string) (i : RawInterface) : Prop :=
  raw_descriptor_id i ≠ 0 ∧ raw_interface_name i ≠ EmptyString ∧
  raw_interface_name i ∈ allowlist ∧
  raw_allowed_source_macs i ≠ [] ∧ BROADCAST ∉ raw_allowed_source_macs i ∧
  NoDup (raw_allowed_source_macs i).

Definition raw_key (r : RawRoute) : bytes * Z :=
  (network (destination_prefix r), raw_prefix_length (destination_prefix r)).

(** A route names a declared interface and a prefix of 1 to 128 bits with no host bits set. *)
Definition route_rules (ids : list Z) (r : RawRoute) : Prop :=
  let p := raw_prefix_length (destination_prefix r) in
  1 ≤ p ≤ 128 ∧ host_bits (network (destination_prefix r)) p = 0 ∧
  raw_egress_descriptor_id r ≠ 0 ∧ raw_egress_descriptor_id r ∈ ids ∧
  raw_next_hop_mac r ≠ BROADCAST.

Definition manifest_rules (raw : RawManifest) (allowlist : list string) : Prop :=
  Forall (interface_rules allowlist) (raw_interfaces raw) ∧
  NoDup (raw_descriptor_id <$> raw_interfaces raw) ∧
  NoDup (raw_interface_name <$> raw_interfaces raw) ∧
  NoDup (raw_local_locs raw) ∧
  Forall (route_rules (raw_descriptor_id <$> raw_interfaces raw)) (raw_routes raw) ∧
  NoDup (raw_key <$> raw_routes raw).

#[export] Instance manifest_rules_dec raw allowlist : Decision (manifest_rules raw allowlist).
Proof. unfold manifest_rules, interface_rules, route_rules. apply _. Defined.

Definition cook_interface (i : RawInterface) : Interface :=
  mkInterface (raw_descriptor_id i) (raw_interface_name i) (raw_allowed_source_macs i)
    (raw_local_delivery i) (raw_transit i).
Definition cook_route (r : RawRoute) : Route :=
  mkRoute (network (destination_prefix r)) (raw_prefix_length (destination_prefix r))
    (raw_egress_descriptor_id r) (raw_next_hop_mac r).

(** [m] is the validated form of [raw]: the same interfaces and routes in the same order, the
    local locators in ascending order. *)
Definition validated_form (raw : RawManifest) (m : NativeManifest) : Prop :=
  interfaces m = cook_interface <$> raw_interfaces raw ∧
  routes m = cook_route <$> raw_routes raw ∧
  local_locs m ≡ₚ raw_local_locs raw ∧
  StronglySorted (λ a b, bytes_compare a b = Lt) (local_locs m).

(** A result that is [Ok] exactly under [P], and [Err e] otherwise. *)
Definition decides {E A} (m : outcome E A) (P : Prop) (Q : A → Prop) (e : E) : Prop :=
  (∃ a, m = Ok a ∧ P ∧ Q a) ∨ (m = Err e ∧ ¬ P).

Lemma decides_bind {E A B} (m : outcome E A) (k : A → outcome E B) P P' Q Q' e :
  decides m P Q e → (∀ a, Q a → decides (k a) P' Q' e) → decides (m ≫= k) (P ∧ P') Q' e.
Proof.
  intros [(a & -> & HP & HQ)|[-> HP]] Hk; [|right; naive_solver].
  cbn [mbind outcome_bind]. destruct (Hk a HQ) as [(b & -> & ? & ?)|[-> ?]]; [left|right]; naive_solver.
Qed.

Lemma decides_if {E A} (b : bool) (m : outcome E A) P P' Q e :
  (b = false ↔ P) → decides m P' Q e →
  decides (if b then Err e else m) (P ∧ P') Q e.
Proof. intros Hb [(a & -> & ?)|[-> ?]]; destruct b; [right|left|right|right]; naive_solver. Qed.

Lemma decides_iff {E A} (m : outcome E A) (P P' : Prop) (Q Q' : A → Prop) e :
  (P ↔ P') → (∀ a, P → Q a → Q' a) → decides m P Q e → decides m P' Q' e.
Proof. intros HP HQ [(a & -> & ?)|[-> ?]]; [left|right]; naive_solver. Qed.

Lemma is_broadcast_iff mac : is_broadcast mac = true ↔ mac = BROADCAST.
Proof. apply beq_true. Qed.

Lemma macs_loop_decides macs seen :
  decides (macs_loop seen macs)
    (BROADCAST ∉ macs ∧ NoDup macs ∧ ∀ mac, mac ∈ macs → mac ∉ seen) (λ _, True)
    ManifestError.Invariant.
Proof.
  revert seen. induction macs as [|mac macs IH]; intros seen; simpl.
  { left. exists (). split_and!; try done; [set_solver|constructor|set_solver]. }
  eapply decides_iff; [|done|apply (decides_if _ _ (mac ≠ BROADCAST ∧ mac ∉ seen)), IH].
  - rewrite NoDup_cons. set_solver.
  - pose proof (is_broadcast_iff mac) as Hb. destruct (is_broadcast mac); simpl.
    + naive_solver.
    + rewrite bool_decide_eq_false. naive_solver.
Qed.

Lemma interfaces_loop_decides allowed ids names acc raws :
  decides (interfaces_loop (list_to_set allowed) ids names acc raws)
    (Forall (interface_rules allowed) raws ∧
     NoDup (raw_descriptor_id <$> raws) ∧ NoDup (raw_interface_name <$> raws) ∧
     (∀ i, i ∈ raws → raw_descriptor_id i ∉ ids ∧ raw_interface_name i ∉ names))
    (λ '(ids', ifs), ids' = list_to_set (raw_descriptor_id <$> raws) ∪ ids ∧
                    ifs = acc ++ (cook_interface <$> raws))
    ManifestError.Invariant.
Proof.
  revert ids names acc. induction raws as [|raw raws IH]; intros ids names acc; simpl.
  { left. eexists. split; [done|]. rewrite app_nil_r.
    split_and!; try constructor; try set_solver. }
  eapply decides_iff; [| |apply decides_if; [reflexivity|]; eapply decides_bind;
    [apply macs_loop_decides|intros _ _; apply IH]].
  - rewrite !orb_false_iff, negb_false_iff, !bool_decide_eq_false, bool_decide_eq_true, Z.eqb_neq,
      elem_of_list_to_set, Forall_cons, !NoDup_cons, !list_elem_of_fmap. unfold interface_rules. split.
    + intros ((((((?&?)&?)&?)&?)&?) & (?&?&_) & ? & ? & ? & Hs). split_and!; try done.
      1, 2: intros (i & Heq & [Hi Hn]%Hs); apply not_elem_of_union in Hi as [Hi _], Hn as [Hn _];
        by rewrite not_elem_of_singleton, <-Heq in Hi || rewrite not_elem_of_singleton, <-Heq in Hn.
      intros i Hi. apply elem_of_cons in Hi as [->|Hi]; [done|]. destruct (Hs i Hi) as [Hid Hn].
      by apply not_elem_of_union in Hid as [_ ?], Hn as [_ ?].
    + intros (((?&?&?&?&?&?) & ?) & [Hi ?] & [Hn ?] & Hs).
      destruct (Hs raw) as [? ?]; [by left|]. split_and!; try done.
      intros i Hin. destruct (Hs i) as [? ?]; [by right|]. rewrite !not_elem_of_union.
      split_and!; try done; apply not_elem_of_singleton; intros Heq; [apply Hi|apply Hn]; eauto.
  - intros [ids' ifs] _ [-> ->]. rewrite <-app_assoc. split; [|done].
    rewrite (assoc_L (∪)). f_equal. apply (comm_L (∪)).
Qed.

(** ** The ordered set of local locators *)

Lemma bytes_compare_eq a b : bytes_compare a b = Eq ↔ a = b.
Proof.
  revert b. induction a as [|x a IH]; intros [|y b]; simpl; try done.
  destruct (Z.compare_spec x y) as [->|H|H]; [rewrite IH; naive_solver|split; [done|]..];
    intros [= -> ->]; lia.
Qed.

Lemma bytes_compare_gt a b : bytes_compare a b = Gt ↔ bytes_compare b a = Lt.
Proof.
  revert b. induction a as [|x a IH]; intros [|y b]; simpl; try done.
  rewrite (Z.compare_antisym x y). destruct (x ?= y); simpl; try done.
Qed.

Lemma bytes_compare_trans a b c :
  bytes_compare a b = Lt → bytes_compare b c = Lt → bytes_compare a c = Lt.
Proof.
  revert b c. induction a as [|x a IH]; intros [|y b] [|z c]; simpl; try done.
  destruct (Z.compare_spec x y) as [->|Hxy|Hxy]; [|intros _|done].
  - destruct (y ?= z); try done. apply IH.
  - destruct (Z.compare_spec y z) as [<-|Hyz|Hyz]; [intros _|intros _|done].
    + by rewrite (proj2 (Z.compare_lt_iff x y) Hxy).
    + by rewrite (proj2 (Z.compare_lt_iff x z)) by lia.
Qed.

Abbreviation ascending := (StronglySorted (λ a b, bytes_compare a b = Lt)).

Lemma btree_insert_spec x s :
  ascending s →
  match btree_insert x s with
  | None => x ∈ s
  | Some s' => x ∉ s ∧ s' ≡ₚ x :: s ∧ ascending s'
  end.
Proof.
  induction 1 as [|y s Hs IH Hy]; simpl; [split_and!; [set_solver|done|repeat constructor]|].
  destruct (bytes_compare x y) eqn:Hc.
  - apply bytes_compare_eq in Hc as ->. by left.
  - rewrite Forall_forall in Hy. split_and!; [|done|].
    + intros Hx. apply elem_of_cons in Hx as [->|Hx].
      * by rewrite (proj2 (bytes_compare_eq y y) eq_refl) in Hc.
      * pose proof (bytes_compare_trans _ _ _ Hc (Hy _ Hx)) as Hxx.
        by rewrite (proj2 (bytes_compare_eq x x) eq_refl) in Hxx.
    + constructor; [by constructor; [|rewrite Forall_forall]|]. constructor; [done|].
      rewrite Forall_forall. intros z Hz. by eapply bytes_compare_trans; [|apply Hy].
  - destruct (btree_insert x s) as [s'|]; simpl; [|by right]. destruct IH as (Hx & Hp & Ha).
    assert (x ≠ y) by (intros ->; by rewrite (proj2 (bytes_compare_eq y y) eq_refl) in Hc).
    split_and!; [by rewrite not_elem_of_cons|rewrite Hp; constructor|]. constructor; [done|].
    rewrite Hp. constructor; [by apply bytes_compare_gt|done].
Qed.

Lemma locs_loop_decides s locs :
  ascending s →
  decides (locs_loop s locs) (NoDup locs ∧ ∀ l, l ∈ locs → l ∉ s)
    (λ s', s' ≡ₚ locs ++ s ∧ ascending s') ManifestError.Invariant.
Proof.
  revert s. induction locs as [|l locs IH]; intros s Hs; simpl.
  { left. eexists. split_and!; [done|constructor|set_solver|done|done]. }
  pose proof (btree_insert_spec l s Hs) as Hi. destruct (btree_insert l s) as [s'|].
  - destruct Hi as (Hl & Hp & Ha). eapply decides_iff; [| |apply IH, Ha].
    + rewrite NoDup_cons. setoid_rewrite Hp. set_solver.
    + intros s'' _ [Hq ?]. split; [|done]. rewrite Hq, Hp. by rewrite Permutation_middle.
  - right. split; [done|]. intros [_ Hn]. apply (Hn l); [by left|done].
Qed.

(** ** Routes *)

Lemma orM_Ok {E} (a b : bool) : orM (E:=E) (Ok a) (Ok b) = Ok (a || b).
Proof. by destruct a. Qed.

Lemma routes_loop_decides ids keys acc raws :
  Forall (λ r, wf_array 16 (network (destination_prefix r)) ∧
               is_u8 (raw_prefix_length (destination_prefix r))) raws →
  decides (routes_loop (list_to_set ids) keys acc raws)
    (Forall (route_rules ids) raws ∧ NoDup (raw_key <$> raws) ∧ ∀ r, r ∈ raws → raw_key r ∉ keys)
    (λ rs, rs = acc ++ (cook_route <$> raws)) ManifestError.Invariant.
Proof.
  intros Hwf. revert keys acc. induction Hwf as [|raw raws [Hn Hu] _ IH]; intros keys acc; cbn [routes_loop].
  { left. eexists. split; [done|]. rewrite app_nil_r.
    split_and!; try constructor; try set_solver. }
  set (p := raw_prefix_length (destination_prefix raw)) in *.
  set (n := network (destination_prefix raw)) in *.
  match goal with |- decides (?c ≫= _) _ _ _ =>
    assert (∃ b, c = Ok b ∧ (b = false ↔ route_rules ids raw ∧ raw_key raw ∉ keys))
      as (b & -> & Hb) end.
  { unfold route_rules, raw_key. fold p n.
    destruct (decide (1 ≤ p ≤ 128)) as [Hp|Hp].
    - rewrite is_canonical_network_spec by (done || lia). cbn [mbind outcome_bind].
      rewrite !orM_Ok. eexists. split; [done|].
      rewrite !orb_false_iff, !negb_false_iff, bool_decide_eq_true, bool_decide_eq_false.
      rewrite bool_decide_eq_true, Z.eqb_neq, Z.eqb_neq, Z.ltb_ge, elem_of_list_to_set.
      rewrite <-(is_broadcast_iff (raw_next_hop_mac raw)), not_true_iff_false.
      split; [naive_solver|]. intros; destruct_and!; split_and!; done || lia.
    - exists true. split; [|naive_solver]. unfold is_u8 in Hu.
      assert ((p =? 0) || (128 <? p) = true) as Hpb by lia. rewrite orM_Ok, Hpb. done. }
  cbn [mbind outcome_bind].
  eapply decides_iff; [| |apply decides_if; [exact Hb|apply IH]].
  - rewrite Forall_cons, fmap_cons, NoDup_cons, list_elem_of_fmap. split.
    + intros ((?&?) & ? & ? & Hs). split_and!; try done.
      * intros (r & Heq & Hr%Hs). apply not_elem_of_union in Hr as [Hr _].
        by rewrite not_elem_of_singleton, <-Heq in Hr.
      * intros r Hr. apply elem_of_cons in Hr as [->|Hr]; [done|]. apply Hs in Hr.
        by apply not_elem_of_union in Hr as [_ ?].
    + intros ([? ?] & [Hnk ?] & Hs). split_and!; try done; [by apply Hs; left|].
      intros r Hr. rewrite not_elem_of_union, not_elem_of_singleton.
      split; [|by apply Hs; right]. intros Heq. apply Hnk. by exists r.
  - intros rs _ ->. by rewrite <-app_assoc.
Qed.

Lemma validate_raw_decides raw allowlist :
  wf_raw raw →
  decides (validate_raw raw allowlist) (manifest_rules raw allowlist) (validated_form raw)
    ManifestError.Invariant.
Proof.
  intros Hwf. unfold validate_raw.
  eapply decides_iff; [| |eapply decides_bind; [apply interfaces_loop_decides|]].
  3: { intros [ids ifs] [-> ->]. rewrite union_empty_r_L.
       eapply decides_bind; [apply locs_loop_decides; constructor|]. intros locs [Hp Ha].
       eapply decides_bind; [by apply routes_loop_decides|]. intros rs ->.
       left. eexists. split_and!; [done|exact I|].
       instantiate (1 := λ m, validated_form raw m). unfold validated_form. simpl.
       rewrite app_nil_r in Hp. done. }
  - unfold manifest_rules. split; intros; destruct_and!; split_and!; try done;
      intros; try split; apply not_elem_of_empty || apply not_elem_of_nil.
  - done.
Qed.

(** What forwarding relies on in a validated manifest. *)
Definition route_key (r : Route) : bytes * Z := (destination_network r, prefix_length r).

Definition wf_routes (m : NativeManifest) : Prop :=
  Forall (λ r, wf_array 16 (destination_network r) ∧ 1 ≤ prefix_length r ≤ 128 ∧
               host_bits (destination_network r) (prefix_length r) = 0) (routes m) ∧
  NoDup (route_key <$> routes m).

Lemma validated_wf_routes raw allowlist m :
  wf_raw raw → validate_raw raw allowlist = Ok m → wf_routes m.
Proof.
  intros Hwf Hv. destruct (validate_raw_decides raw allowlist Hwf) as [(m' & Hm & Hr & Hf)|[Hm _]];
    rewrite Hv in Hm; [|done]. apply Ok_inj in Hm as <-.
  destruct Hr as (_ & _ & _ & _ & Hr & Hk), Hf as (_ & Hrs & _).
  unfold wf_routes. rewrite Hrs, <-list_fmap_compose. split; [|exact Hk].
  apply Forall_fmap, Forall_forall. intros r Hin. unfold wf_raw in Hwf.
  rewrite Forall_forall in Hwf, Hr. destruct (Hwf r Hin), (Hr r Hin) as (?&?&_). done.
Qed.

Lemma filterM_total {E A} (p : A → outcome E bool) (q : A → Prop) `{∀ x, Decision (q x)} l :
  (∀ x, x ∈ l → p x = Ok (bool_decide (q x))) → filterM p l = Ok (filter q l).
Proof.
  induction l as [|x l IH]; intros Hp; [done|]. cbn [filterM].
  rewrite Hp by left. rewrite IH by (intros; apply Hp; by right). cbn [mbind outcome_bind].
  rewrite filter_cons. by case_bool_decide; case_decide.
Qed.

Lemma max_by_key_foldl {A} (key : A → Z) x l :
  let best := foldl (λ best y, if key y <? key best then best else y) x l in
  best ∈ x :: l ∧ ∀ y, y ∈ x :: l → key y ≤ key best.
Proof.
  revert x. induction l as [|z l IH]; intros x; cbn [foldl].
  { split; [by left|]. intros y Hy%list_elem_of_singleton. subst. lia. }
  destruct (IH (if key z <? key x then x else z)) as [Hin Hmax].
  set (best := foldl _ _ _) in *. split.
  - apply elem_of_cons in Hin as [->|Hin]; [|by do 2 right]. case_match; [by left|by right; left].
  - assert (key (if key z <? key x then x else z) ≤ key best) as Hk by (apply Hmax; by left).
    intros y Hy. apply elem_of_cons in Hy as [->|Hy]; [destruct (Z.ltb_spec (key z) (key x)); lia|].
    apply elem_of_cons in Hy as [->|Hy]; [destruct (Z.ltb_spec (key z) (key x)); lia|].
    apply Hmax. by right.
Qed.

(** Canonical networks of the same length with the same prefix are the same. *)
Lemma canonical_prefix_inj n1 n2 p :
  wf_array 16 n1 → wf_array 16 n2 → p ≤ 128 → host_bits n1 p = 0 → host_bits n2 p = 0 →
  prefix_bits n1 p = prefix_bits n2 p → n1 = n2.
Proof.
  intros [L1 W1] [L2 W2] Hp H1 H2 Heq. apply be_value_inj; [done..|congruence|].
  unfold host_bits, prefix_bits in *. assert (0 < 2 ^ (128 - p)) by (apply Z.pow_pos_nonneg; lia).
  rewrite (Z.div_mod (be_value n1) (2 ^ (128 - p))), (Z.div_mod (be_value n2) (2 ^ (128 - p))) by lia.
  by rewrite H1, H2, Heq.
Qed.

(** The candidates of a locator and the choice among them. *)
Lemma route_for_filter {E} m loc :
  wf_routes m → wf_array 16 loc →
  route_for (E:=E) m loc =
  Ok (max_by_key prefix_length (filter (λ r, covers r loc) (routes m))).
Proof.
  intros [Hr _] Hl. unfold route_for. rewrite Forall_forall in Hr.
  rewrite (filterM_total _ (λ r, covers r loc)); [done|].
  intros r (?&?&?)%Hr. apply prefix_matches_spec; [done..|lia].
Qed.

Definition longest_prefix_route (m : NativeManifest) (loc : bytes) (r : Route) : Prop :=
  r ∈ routes m ∧ covers r loc ∧
  ∀ r', r' ∈ routes m → covers r' loc → r' = r ∨ prefix_length r' < prefix_length r.

Lemma route_for_longest {E} m loc :
  wf_routes m → wf_array 16 loc →
  (∀ r, route_for (E:=E) m loc = Ok (Some r) ↔ longest_prefix_route m loc r) ∧
  (route_for (E:=E) m loc = Ok None ↔ ∀ r, r ∈ routes m → ¬ covers r loc).
Proof.
  intros Hm Hl. rewrite route_for_filter by done. destruct Hm as [Hr Hk].
  rewrite Forall_forall in Hr.
  assert (∀ r, r ∈ filter (λ r, covers r loc) (routes m) ↔ covers r loc ∧ r ∈ routes m) as Hin
    by (intros; by rewrite list_elem_of_filter).
  assert (∀ r r', r ∈ routes m → r' ∈ routes m → covers r loc → covers r' loc →
    prefix_length r = prefix_length r' → r = r') as Huniq.
  { intros r r' Hi Hi' Hc Hc' Hp. eapply NoDup_fmap_inj_on; [exact Hk|done..|].
    unfold route_key. rewrite Hp. f_equal. destruct (Hr r Hi) as (?&?&?), (Hr r' Hi') as (?&?&?).
    apply (canonical_prefix_inj _ _ (prefix_length r')); try done; [lia|congruence|].
    unfold covers in *. congruence. }
  set (cands := filter _ _) in *. destruct cands as [|x l]; cbn [max_by_key].
  { split; [|split; [intros _ r Hi Hc; destruct (not_elem_of_nil r); by apply Hin|done]].
    intros r. split; [done|]. intros (Hi & Hc & _). destruct (not_elem_of_nil r). by apply Hin. }
  destruct (max_by_key_foldl prefix_length x l) as [Hb Hmax]. set (best := foldl _ _ _) in *.
  apply Hin in Hb as [Hbc Hbi]. split; [|split; [done|naive_solver]].
  intros r. split.
  - intros [= <-]. split_and!; [done..|]. intros r' Hi' Hc'.
    destruct (decide (prefix_length r' = prefix_length best)) as [Heq|Hne]; [left; eauto|right].
    specialize (Hmax r' (proj2 (Hin r') (conj Hc' Hi'))). lia.
  - intros (Hi & Hc & Hlong). do 2 f_equal. destruct (Hlong best Hbi Hbc) as [|Hlt]; [done|].
    specialize (Hmax r (proj2 (Hin r) (conj Hc Hi))). lia.
Qed.

(** ** The properties *)

(** C36: validation decides the declarative rules.  A decoded document is accepted exactly when
    its interfaces have non-zero distinct descriptors, distinct allowlisted names and distinct
    non-broadcast source addresses, its local locators are distinct, and its routes have distinct
    canonical prefixes of 1 to 128 bits to declared interfaces; the result is the same document
    with the locators in ascending order.  Any other document is refused with [Invariant], and
    one the decoder refuses with [Syntax] or [Schema]; no document makes validation panic. *)
Theorem validate_manifest_json_decides `{JsonDecoder J} data allowlist :
  (∀ raw, from_slice data = inr raw → wf_raw raw) →
  (∃ e, from_slice data = inl e ∧
    validate_manifest_json data allowlist =
      Err (if is_syntax e || is_eof e then ManifestError.Syntax else ManifestError.Schema)) ∨
  (∃ raw, from_slice data = inr raw ∧
    ((∃ m, validate_manifest_json data allowlist = Ok m ∧
       manifest_rules raw allowlist ∧ validated_form raw m) ∨
     (validate_manifest_json data allowlist = Err ManifestError.Invariant ∧
       ¬ manifest_rules raw allowlist))).
Proof.
  intros Hwf. unfold validate_manifest_json. destruct (from_slice data) as [e|raw] eqn:Hd.
  - left. by exists e.
  - right. exists raw. split; [done|]. by apply validate_raw_decides, Hwf.
Qed.

(** C18: on a validated manifest the route lookup never panics and returns the route whose
    network agrees with the locator on the longest bit prefix; that route is the only one of its
    length that matches, so the order of the routes in the document is irrelevant; and it returns
    no route exactly when none covers the locator. *)
Theorem route_for_is_longest_prefix {E} raw allowlist m loc :
  wf_raw raw → validate_raw raw allowlist = Ok m → wf_array 16 loc →
  (∀ r, route_for (E:=E) m loc = Ok (Some r) ↔ longest_prefix_route m loc r) ∧
  (route_for (E:=E) m loc = Ok None ↔ ∀ r, r ∈ routes m → ¬ covers r loc).
Proof. intros. apply route_for_longest; [by eapply validated_wf_routes|done]. Qed.

(** ** Witnesses *)

Definition demo_mac (n : Z) : bytes := [2; 0; 0; 0; 0; n].

(** Two interfaces; a /12 route inside a /4 one, listed from the longest. *)
Definition demo_raw : RawManifest :=
  mkRawManifest []
    [mkRawInterface 7 "eth0" [demo_mac 1] false true;
     mkRawInterface 9 "eth1" [demo_mac 2; demo_mac 3] false true]
    [mkRawRoute (mkRawPrefix ([0x20; 0x10] ++ replicate 14 0) 12) 9 (demo_mac 3);
     mkRawRoute (mkRawPrefix ([0x20] ++ replicate 15 0) 4) 7 (demo_mac 1)].

Definition demo_allowlist : list string := ["eth0"; "eth1"].
Definition demo_manifest : NativeManifest :=
  mkManifest [] (cook_interface <$> raw_interfaces demo_raw) (cook_route <$> raw_routes demo_raw).

Lemma demo_validate_raw : validate_raw demo_raw demo_allowlist = Ok demo_manifest.
Proof. by vm_compute. Qed.

(** A decoder that knows one document. *)
#[local] Instance demo_decoder : JsonDecoder bool := {|
  from_slice := λ data, if beq data [123; 125] then inr demo_raw else inl true;
  is_syntax := λ e, e;
  is_eof := λ e, negb e;
|}.

Lemma validate_manifest_json_decides_witness :
  validate_manifest_json [123; 125] demo_allowlist = Ok demo_manifest ∧
  manifest_rules demo_raw demo_allowlist ∧
  validate_manifest_json [123] demo_allowlist = Err ManifestError.Syntax.
Proof.
  split; [by vm_compute|]. split.
  - destruct (validate_manifest_json_decides [123; 125] demo_allowlist) as [(e & He & _)|H].
    + intros raw [= <-]. compute_decide.
    + done.
    + destruct H as (raw & [= <-] & [(m & _ & Hr & _)|[Hv _]]); [exact Hr|]. by vm_compute in Hv.
  - destruct (validate_manifest_json_decides [123] demo_allowlist) as [(e & [= <-] & He)|H];
      [done|exact He|by destruct H as (? & ? & _)].
Defined.

Lemma route_for_is_longest_prefix_witness :
  longest_prefix_route demo_manifest ([0x20; 0x1f] ++ replicate 14 5)
    (mkRoute ([0x20; 0x10] ++ replicate 14 0) 12 9 (demo_mac 3)).
Proof.
  apply (route_for_is_longest_prefix (E:=unit) demo_raw demo_allowlist);
    [compute_decide|apply demo_validate_raw|compute_decide|by vm_compute].
Defined.
