(* ===== verification/Forward.v ===== *)
(** * Frame admission and forwarding (src/rust/crates/r8d/src/forward.rs)

    The descriptor budgets, and [process_frame], which admits one Ethernet II
    frame against a validated manifest and drops, delivers or forwards it.  The
    theorems: the function is total and takes each non-drop action exactly when
    the declarative admission rules hold; a forwarded packet is the received one
    with its hop limit one lower, still valid and with the same associated data;
    a packet crosses fewer relays than its hop limit; and a protected packet
    that crosses relays still opens at the peer. *)

From S2P Require Import Prelude Wire Checksum Codec Crypto SessionMsg Replay SessionCrypto Directional Manifest.
From stdpp Require Import gmap.
#[local] Open Scope Z_scope.

Definition ETHERNET_II_HEADER_LEN : Z := 14.
Definition MIN_R8_PACKET_BUDGET : Z := 48.

(** ** Descriptor budgets *)

Module DescriptorBudgetError.

Inductive t : Set := Invalid | Incomplete.

End DescriptorBudgetError.

Definition DescriptorBudgets : Set := gmap Z Z.

Fixpoint budgets_loop (values : gmap Z Z) (budgets : list (Z * Z)) :
  outcome DescriptorBudgetError.t (gmap Z Z) :=
  match budgets with
  | [] => Ok values
  | (descriptor_id, budget) :: budgets =>
      if negb ((MIN_R8_PACKET_BUDGET <=? budget) && (budget <=? SERIALIZED_R8_MAX))
         || bool_decide (is_Some (values !! descriptor_id))
      then Err DescriptorBudgetError.Invalid
      else budgets_loop (<[descriptor_id := budget]> values) budgets
  end.

Definition budgets_new (manifest : NativeManifest) (budgets : list (Z * Z)) :
  outcome DescriptorBudgetError.t DescriptorBudgets :=
  values ← budgets_loop ∅ budgets;
  if negb (Z.of_nat (size values) =? len (interfaces manifest))
     || existsb (λ i, negb (bool_decide (is_Some (values !! descriptor_id i)))) (interfaces manifest)
  then Err DescriptorBudgetError.Incomplete
  else Ok values.

Definition budgets_get (b : DescriptorBudgets) (descriptor_id : Z) : option Z :=
  (b : gmap Z Z) !! descriptor_id.

(** ** Frames *)

Inductive FrameDropReason : Set :=
| InvalidFrame | UnknownIngressDescriptor | SourceNotAllowed | IngressBudget | MalformedPacket
| LocalDeliveryDisabled | TransitDisabled | HopLimit | NoRoute | EgressBudget.

Inductive FrameAction : Set :=
| Drop (reason : FrameDropReason)
| Deliver (packet : bytes) (binding : ObservedBinding)
| Forward (packet : bytes) (egress : Z) (next_hop : bytes).

#[export] Instance FrameDropReason_eq_dec : EqDecision FrameDropReason.
Proof. solve_decision. Defined.
#[export] Instance FrameAction_eq_dec : EqDecision FrameAction.
Proof. solve_decision. Defined.

(** [packet[5] -= 1]: the subtraction is checked. *)
Definition decrement_hop {E} (packet : bytes) : outcome E bytes :=
  hop ← idx packet 5;
  hop ← expect (checked_sub hop 1);
  idx_set packet 5 hop.

Definition process_frame {E} (manifest : NativeManifest) (descriptor_budgets : DescriptorBudgets)
    (ingress_descriptor_id : Z) (ethernet_frame : bytes) : outcome E FrameAction :=
  invalid ← Ok (len ethernet_frame <? ETHERNET_II_HEADER_LEN)
    ||? slice_ne ethernet_frame 12 14 (be_bytes 2 R8_ETHERTYPE);
  if invalid : bool then Ok (Drop InvalidFrame) else
  match interface manifest ingress_descriptor_id with
  | None => Ok (Drop UnknownIngressDescriptor)
  | Some ingress =>
  source_mac ← slice ethernet_frame 6 12;
  if negb (permits_source_mac ingress source_mac) then Ok (Drop SourceNotAllowed) else
  packet ← slice_from ethernet_frame (Z.to_nat ETHERNET_II_HEADER_LEN);
  match budgets_get descriptor_budgets ingress_descriptor_id with
  | None => Ok (Drop IngressBudget)
  | Some ingress_budget =>
  if ingress_budget <? len packet then Ok (Drop IngressBudget) else
  match unpack_with_budget packet ingress_budget with
  | Panic => Panic
  | Err _ => Ok (Drop MalformedPacket)
  | Ok (header, _) =>
  if is_local_loc manifest (dst header) then
    if negb (local_delivery ingress) then Ok (Drop LocalDeliveryDisabled) else
    Ok (Deliver packet (Native ingress_descriptor_id source_mac))
  else
  if negb (transit ingress) then Ok (Drop TransitDisabled) else
  if hop_limit header <=? 1 then Ok (Drop HopLimit) else
  route ← route_for manifest (dst header);
  match route with
  | None => Ok (Drop NoRoute)
  | Some route =>
  match budgets_get descriptor_budgets (egress_descriptor_id route) with
  | None => Ok (Drop EgressBudget)
  | Some egress_budget =>
  if egress_budget <? len packet then Ok (Drop EgressBudget) else
  forwarded_packet ← decrement_hop packet;
  Ok (Forward forwarded_packet (egress_descriptor_id route) (next_hop_mac route))
  end end end end end.

(** ** Changing the hop limit *)

Lemma validate_header_with_hop n h payload :
  n ≠ 0 → validate_header h payload = Ok () → validate_header (with_hop n h) payload = Ok ().
Proof.
  intros Hn%Z.eqb_neq. destruct h as [pr t nh hop fl ps sc s d].
  unfold validate_header, validate_ses_header, with_hop. simpl. rewrite Hn.
  destruct (hop =? 0) eqn:Hh; [|done].
  destruct (known_next_header nh); [|done]. cbn [negb].
  destruct (nh =? NH_SES).
  - intros H. inv_ok.
  - intros H. inv_ok.
Qed.

Lemma wf_header_with_hop n h : is_u8 n → wf_header h → wf_header (with_hop n h).
Proof. intros ? (?&?&?&?&?&?&?&?&?). by unfold wf_header. Qed.

Lemma decrement_hop_layout {E} h n rest :
  wf_header h → 1 ≤ hop_limit h →
  decrement_hop (E:=E) (header_bytes h n ++ rest) =
  Ok (header_bytes (with_hop (hop_limit h - 1) h) n ++ rest).
Proof.
  intros Hh H1. unfold decrement_hop.
  assert (idx (E:=E) (header_bytes h n ++ rest) 5 = Ok (hop_limit h)) as -> by reflexivity.
  cbn [mbind outcome_bind]. unfold checked_sub. assert (1 <=? hop_limit h = true) as -> by lia.
  cbn [expect mbind outcome_bind].
  rewrite idx_set_Ok by (rewrite length_app, length_header_bytes by done; lia).
  by rewrite insert_hop.
Qed.

Lemma decrement_hop_packet {E} packet h payload :
  wf_header h → packet = header_bytes h (len payload) ++ payload → 1 ≤ hop_limit h →
  decrement_hop (E:=E) packet =
  Ok (header_bytes (with_hop (hop_limit h - 1) h) (len payload) ++ payload).
Proof. intros ? -> ?. by apply decrement_hop_layout. Qed.

(** A valid packet with another non-zero hop limit is valid. *)
Lemma unpack_with_hop n h payload budget :
  wf_header h → validate_header h payload = Ok () → is_u8 n → n ≠ 0 →
  HEADER_LEN + len payload ≤ SERIALIZED_R8_MAX → HEADER_LEN + len payload ≤ budget →
  unpack_with_budget (header_bytes (with_hop n h) (len payload) ++ payload) budget =
  Ok (with_hop n h, payload).
Proof.
  intros Hh Hv Hn Hn0 Hm Hb. pose proof (validate_header_with_hop n h payload Hn0 Hv) as Hv'.
  destruct (validate_header_inv _ _ Hv') as [Hk Hp].
  rewrite unpack_layout by (try apply wf_header_with_hop; done || lia). by rewrite Hv'.
Qed.

(** ** The declarative admission rules *)

Section Admission.
Context (m : NativeManifest) (budgets : DescriptorBudgets) (ingress : Z) (frame : bytes).

(** The frame is an R8 frame from an allowed source on a known interface, and carries a valid
    packet within the interface's budget. *)
Definition admitted (i : Interface) (source_mac packet : bytes) (h : Header) (payload : bytes) :
  Prop :=
  ∃ destination_mac budget,
    frame = destination_mac ++ source_mac ++ be_bytes 2 R8_ETHERTYPE ++ packet ∧
    length destination_mac = 6%nat ∧ length source_mac = 6%nat ∧
    interface m ingress = Some i ∧ source_mac ∈ allowed_source_macs i ∧
    budgets_get budgets ingress = Some budget ∧
    unpack_with_budget packet budget = Ok (h, payload).

Inductive frame_rule : FrameAction → Prop :=
| rule_deliver i source_mac packet h payload :
    admitted i source_mac packet h payload →
    dst h ∈ local_locs m → local_delivery i = true →
    frame_rule (Deliver packet (Native ingress source_mac))
| rule_forward i source_mac packet h payload r egress_budget :
    admitted i source_mac packet h payload →
    dst h ∉ local_locs m → transit i = true → 1 < hop_limit h →
    longest_prefix_route m (dst h) r →
    budgets_get budgets (egress_descriptor_id r) = Some egress_budget →
    len packet ≤ egress_budget →
    frame_rule (Forward (header_bytes (with_hop (hop_limit h - 1) h) (len payload) ++ payload)
                  (egress_descriptor_id r) (next_hop_mac r)).

Hypothesis Hroutes : wf_routes m.
Hypothesis Hframe : wf_bytes frame.

(** The Ethernet II layout, and what the code reads from it. *)
Definition ethernet (dm sm packet : bytes) : Prop :=
  frame = dm ++ sm ++ be_bytes 2 R8_ETHERTYPE ++ packet ∧
  length dm = 6%nat ∧ length sm = 6%nat.

Lemma ethernet_reads {E} dm sm packet :
  ethernet dm sm packet →
  len frame <? ETHERNET_II_HEADER_LEN = false ∧
  slice_ne (E:=E) frame 12 14 (be_bytes 2 R8_ETHERTYPE) = Ok false ∧
  slice (E:=E) frame 6 12 = Ok sm ∧ slice_from (E:=E) frame 14 = Ok packet ∧ wf_bytes packet.
Proof.
  intros (Hf & Hd & Hs). rewrite Hf in *. unfold ETHERNET_II_HEADER_LEN, R8_ETHERTYPE.
  set (et := be_bytes 2 _) in *. assert (length et = 2%nat) as He by done. clearbody et. split_and!.
  - unfold len. rewrite !length_app, Hd, Hs, He. apply Z.ltb_ge. lia.
  - apply slice_ne_false. rewrite slice_app_r, slice_app_r, slice_app_l by lia.
    rewrite Hd, Hs. by apply slice_all.
  - rewrite slice_app_r, slice_app_l by lia. rewrite Hd. by apply slice_all.
  - rewrite slice_from_Ok by (rewrite !length_app; lia).
    rewrite !drop_app_ge by lia. by rewrite Hd, Hs, He.
  - by apply wf_bytes_app_1 in Hframe as [_ [_ [_ ?]%wf_bytes_app_1]%wf_bytes_app_1].
Qed.

(** The first test of the code decides the layout. *)
Lemma ethernet_decides {E} :
  (∃ dm sm packet, ethernet dm sm packet) ∨
  ((Ok (len frame <? ETHERNET_II_HEADER_LEN)
     ||? slice_ne (E:=E) frame 12 14 (be_bytes 2 R8_ETHERTYPE)) = Ok true ∧
   ∀ dm sm packet, ¬ ethernet dm sm packet).
Proof.
  destruct (len frame <? ETHERNET_II_HEADER_LEN) eqn:Hl.
  { right. split; [done|]. intros dm sm p (Hl' & _)%(ethernet_reads (E:=E)). congruence. }
  cbn [orM mbind outcome_bind]. pose proof Hl as Hlen. apply (len_lt_length _ 14) in Hlen.
  destruct (slice_ne (E:=E) frame 12 14 (be_bytes 2 R8_ETHERTYPE)) as [[]| |] eqn:Hs.
  - right. split; [done|]. intros dm sm p (_ & Hs' & _)%(ethernet_reads (E:=E)). congruence.
  - left. exists (take 6 frame), (take 6 (drop 6 frame)), (drop 14 frame).
    apply slice_ne_false, slice_inv in Hs as (_ & Hs & _). change (14 - 12)%nat with 2%nat in Hs.
    unfold ethernet. rewrite !length_take, length_drop, Hs. split_and!; [|lia..].
    replace (drop 14 frame) with (drop 2 (drop 12 frame)) by (by rewrite drop_drop).
    rewrite take_drop. replace (drop 12 frame) with (drop 6 (drop 6 frame)) by (by rewrite drop_drop).
    by rewrite !take_drop.
  - unfold slice_ne in Hs. by rewrite slice_Ok in Hs by lia.
  - unfold slice_ne in Hs. by rewrite slice_Ok in Hs by lia.
Qed.

Lemma admitted_ethernet i sm packet h payload :
  admitted i sm packet h payload → ∃ dm, ethernet dm sm packet.
Proof. intros (dm & b & ? & ? & ? & _). by exists dm. Qed.

Lemma len_unpack packet b h payload :
  wf_bytes packet → unpack_with_budget packet b = Ok (h, payload) →
  wf_header h ∧ packet = header_bytes h (len payload) ++ payload ∧
  validate_header h payload = Ok () ∧ len packet = HEADER_LEN + len payload ∧
  len packet ≤ SERIALIZED_R8_MAX ∧ len packet ≤ b.
Proof.
  intros Hw Hu. destruct (unpack_inv _ _ _ _ Hw Hu) as (Hh & Hp & Hv & Hm & Hb).
  assert (len packet = HEADER_LEN + len payload) as Hl
    by (rewrite Hp, len_app; unfold len at 1; by rewrite length_header_bytes).
  rewrite Hl. done.
Qed.

(** The steps of [process_frame] on an admitted frame, after the packet is parsed. *)
Definition route_packet {E} (i : Interface) (source_mac packet : bytes) (h : Header) :
  outcome E FrameAction :=
  if is_local_loc m (dst h) then
    if negb (local_delivery i) then Ok (Drop LocalDeliveryDisabled) else
    Ok (Deliver packet (Native ingress source_mac))
  else
  if negb (transit i) then Ok (Drop TransitDisabled) else
  if hop_limit h <=? 1 then Ok (Drop HopLimit) else
  route ← route_for m (dst h);
  match route with
  | None => Ok (Drop NoRoute)
  | Some route =>
  match budgets_get budgets (egress_descriptor_id route) with
  | None => Ok (Drop EgressBudget)
  | Some egress_budget =>
  if egress_budget <? len packet then Ok (Drop EgressBudget) else
  forwarded_packet ← decrement_hop packet;
  Ok (Forward forwarded_packet (egress_descriptor_id route) (next_hop_mac route))
  end end.

(** Either the frame is dropped before routing and is not admitted, or it is admitted and its
    packet is routed. *)
Lemma process_frame_admission {E} :
  (∃ i source_mac packet h payload, admitted i source_mac packet h payload ∧ wf_bytes packet ∧
    process_frame (E:=E) m budgets ingress frame = route_packet i source_mac packet h) ∨
  ((∃ reason, process_frame (E:=E) m budgets ingress frame = Ok (Drop reason)) ∧
   ∀ i source_mac packet h payload, ¬ admitted i source_mac packet h payload).
Proof.
  unfold process_frame.
  destruct (ethernet_decides (E:=E)) as [(dm & sm & packet & Heth)|[-> Hno]]; last first.
  { right. split; [by eexists|]. intros i sm p h pl [dm H]%admitted_ethernet. by eapply Hno. }
  destruct (ethernet_reads (E:=E) _ _ _ Heth) as (Hl & Hne & Hsm & Hp & Hwp).
  assert (∀ i sm' p h pl, admitted i sm' p h pl → sm' = sm ∧ p = packet) as Huniq.
  { intros i sm' p h pl [dm' H]%admitted_ethernet.
    destruct (ethernet_reads (E:=E) _ _ _ H) as (_ & _ & Hsm' & Hp' & _).
    rewrite Hsm in Hsm'. rewrite Hp in Hp'. by apply Ok_inj in Hsm', Hp'. }
  rewrite Hl, Hne. cbn [orM mbind outcome_bind].
  destruct (interface m ingress) as [i|] eqn:Hi.
  2: { right. split; [by eexists|]. intros ????? (?&?&?&?&?&?&_). congruence. }
  rewrite Hsm. cbn [mbind outcome_bind]. unfold permits_source_mac.
  case_bool_decide as Hmac; cbn [negb]; last first.
  { right. split; [by eexists|]. intros i' sm' p h pl Ha.
    destruct (Huniq _ _ _ _ _ Ha) as [-> ->]. destruct Ha as (?&?&?&?&?&?&?&_). congruence. }
  change (Z.to_nat ETHERNET_II_HEADER_LEN) with 14%nat. rewrite Hp. cbn [mbind outcome_bind].
  destruct (budgets_get budgets ingress) as [b|] eqn:Hb.
  2: { right. split; [by eexists|]. intros ????? (?&?&?&?&?&?&?&?&_). congruence. }
  destruct (unpack_with_budget packet b) as [[h payload]|e|] eqn:Hu.
  - left. exists i, sm, packet, h, payload. split; [|split; [done|]].
    + destruct Heth as (?&?&?). by exists dm, b.
    + destruct (len_unpack _ _ _ _ Hwp Hu) as (_ & _ & _ & _ & _ & Hlb).
      by assert (b <? len packet = false) as -> by lia.
  - right. split; [case_match; by eexists|]. intros i' sm' p h pl Ha.
    destruct (Huniq _ _ _ _ _ Ha) as [-> ->].
    destruct Ha as (?&?&_&_&_&_&_&?&?). congruence.
  - by destruct (safe_unpack packet b).
Qed.


Lemma admitted_unique i sm p h pl i' sm' p' h' pl' :
  admitted i sm p h pl → admitted i' sm' p' h' pl' →
  i' = i ∧ sm' = sm ∧ p' = p ∧ h' = h ∧ pl' = pl.
Proof.
  intros (dm & b & Hf & Hd & Hs & Hi & _ & Hb & Hu) (dm' & b' & Hf' & Hd' & Hs' & Hi' & _ & Hb' & Hu').
  destruct (ethernet_reads (E:=unit) dm sm p) as (_ & _ & Hsm & Hp & _); [done|].
  destruct (ethernet_reads (E:=unit) dm' sm' p') as (_ & _ & Hsm' & Hp' & _); [done|].
  rewrite Hsm in Hsm'. rewrite Hp in Hp'. apply Ok_inj in Hsm' as <-, Hp' as <-.
  rewrite Hi in Hi'. rewrite Hb in Hb'. injection Hi' as <-. injection Hb' as <-.
  rewrite Hu in Hu'. by injection Hu' as <- <-.
Qed.

Definition is_drop (a : FrameAction) : bool := match a with Drop _ => true | _ => false end.

Lemma route_packet_total {E} i sm packet h payload :
  admitted i sm packet h payload → wf_bytes packet →
  ∃ a, route_packet (E:=E) i sm packet h = Ok a ∧ (is_drop a = false → frame_rule a).
Proof.
  intros Ha Hw. pose proof Ha as (dm & b & _ & _ & _ & _ & _ & _ & Hu).
  destruct (len_unpack _ _ _ _ Hw Hu) as (Hh & Hp & Hv & _). unfold route_packet, is_local_loc.
  case_bool_decide as Hloc.
  { destruct (local_delivery i) eqn:Hld; eexists; (split; [done|]); [|done]. by econstructor. }
  destruct (transit i) eqn:Htr; [|by eexists]. cbn [negb].
  destruct (Z.leb_spec (hop_limit h) 1) as [Hhop|Hhop]; [by eexists|].
  assert (wf_array 16 (dst h)) as Hd by apply Hh.
  destruct (route_for_longest (E:=E) m (dst h) Hroutes Hd) as [Hsome _].
  rewrite route_for_filter in * by done. cbn [mbind outcome_bind].
  destruct (max_by_key _ _) as [r|]; [|by eexists].
  assert (longest_prefix_route m (dst h) r) as Hr by by apply Hsome.
  destruct (budgets_get budgets _) as [eb|] eqn:Heb; [|by eexists].
  destruct (Z.ltb_spec eb (len packet)) as [?|Hle]; [by eexists|].
  rewrite (decrement_hop_packet (E:=E) packet h payload) by (done || lia). cbn [mbind outcome_bind].
  eexists. split; [done|]. intros _. by econstructor.
Qed.

Lemma route_packet_complete {E} i sm packet h payload a :
  admitted i sm packet h payload → wf_bytes packet → frame_rule a →
  route_packet (E:=E) i sm packet h = Ok a.
Proof.
  intros Ha Hw Hrule. pose proof Ha as (dm & b & _ & _ & _ & _ & _ & _ & Hu).
  destruct (len_unpack _ _ _ _ Hw Hu) as (Hh & Hp & Hv & _). unfold route_packet, is_local_loc.
  assert (wf_array 16 (dst h)) as Hd by apply Hh.
  destruct Hrule as [i' sm' p' h' pl' Ha' Hloc Hld|
                     i' sm' p' h' pl' r eb Ha' Hloc Htr Hhop Hr Heb Hle];
    destruct (admitted_unique _ _ _ _ _ _ _ _ _ _ Ha Ha') as (-> & -> & -> & -> & ->).
  - rewrite bool_decide_true by done. by rewrite Hld.
  - rewrite bool_decide_false by done. rewrite Htr. cbn [negb].
    assert (hop_limit h <=? 1 = false) as -> by lia.
    rewrite (proj2 (proj1 (route_for_longest (E:=E) m (dst h) Hroutes Hd) r) Hr).
    cbn [mbind outcome_bind]. rewrite Heb. assert (eb <? len packet = false) as -> by lia.
    by rewrite (decrement_hop_packet (E:=E) packet h payload) by (done || lia).
Qed.
End Admission.

(** ** The properties *)

(** C17: on a validated manifest [process_frame] is total, and it delivers or forwards exactly the
    frames the admission rules allow, with the action they prescribe: an R8 frame from an allowed
    source on a known interface whose packet is valid within the ingress budget is delivered when
    its destination is local and the interface delivers, and otherwise forwarded along its
    longest-prefix route when the interface takes transit, the hop limit is above one and the
    packet fits the egress budget.  Every other frame is dropped. *)
Theorem process_frame_iff_rule {E} m budgets ingress frame :
  wf_routes m → wf_bytes frame →
  (∃ a, process_frame (E:=E) m budgets ingress frame = Ok a) ∧
  ∀ a, is_drop a = false →
    (process_frame (E:=E) m budgets ingress frame = Ok a ↔ frame_rule m budgets ingress frame a).
Proof.
  intros Hm Hf.
  destruct (process_frame_admission m budgets ingress frame Hf (E:=E))
    as [(i & sm & p & h & pl & Ha & Hw & ->)|[[reason ->] Hno]].
  - destruct (route_packet_total m budgets ingress frame Hm (E:=E) _ _ _ _ _ Ha Hw) as (a & Hok & Hr).
    split; [by exists a|]. intros a' Hd. split.
    + intros Ha'. rewrite Hok in Ha'. apply Ok_inj in Ha' as <-. by apply Hr.
    + by eapply route_packet_complete.
  - split; [by eexists|]. intros a Hd. split; [intros [= <-]; done|].
    intros Hrule. exfalso. by destruct Hrule; eapply Hno.
Qed.

(** One relay: some node on the path forwards a frame that carries the packet. *)
Definition relays (p p' : bytes) : Prop :=
  ∃ m budgets ingress frame egress mac,
    wf_routes m ∧ wf_bytes frame ∧ drop 14 frame = p ∧
    process_frame (E:=unit) m budgets ingress frame = Ok (Forward p' egress mac).

(** A path of [n] relays. *)
Inductive relayed : bytes → nat → bytes → Prop :=
| relayed_none p : relayed p 0 p
| relayed_hop p p' n p'' : relays p p' → relayed p' n p'' → relayed p (S n) p''.

Lemma relays_inv p p' :
  relays p p' →
  ∃ h payload budget,
    wf_header h ∧ validate_header h payload = Ok () ∧ 1 < hop_limit h ∧
    HEADER_LEN + len payload ≤ SERIALIZED_R8_MAX ∧
    unpack_with_budget p budget = Ok (h, payload) ∧
    p = header_bytes h (len payload) ++ payload ∧
    p' = <[5%nat := hop_limit h - 1]> p.
Proof.
  intros (m & bs & ing & frame & e & mac & Hm & Hf & <- & Hp).
  destruct (process_frame_admission m bs ing frame Hf (E:=unit))
    as [(i & sm & p & h & pl & Ha & Hw & Heq)|[[reason Heq] Hno]]; rewrite Heq in Hp; [|done].
  destruct (route_packet_total m bs ing frame Hm (E:=unit) _ _ _ _ _ Ha Hw) as (a & Hok & Hr).
  rewrite Hok in Hp. apply Ok_inj in Hp as ->. specialize (Hr eq_refl). inversion Hr as [|? sm' p'' h' pl' r eb Ha'].
  destruct (admitted_unique _ _ _ _ Hf _ _ _ _ _ _ _ _ _ _ Ha Ha') as (_ & _ & -> & -> & ->).
  destruct Ha as (dm & b & Hfr & Hd & Hs & _ & _ & _ & Hu).
  destruct (len_unpack _ _ _ _ Hw Hu) as (Hh & Hpl & Hv & Hl & Hmax & _).
  exists h, pl, b. assert (drop 14 frame = p) as Hdrop.
  { destruct (ethernet_reads frame Hf (E:=unit) dm sm p) as (Hlen & _ & _ & Hsl & _); [done|].
    apply (len_lt_length _ 14) in Hlen. rewrite slice_from_Ok in Hsl by lia. by apply Ok_inj in Hsl. }
  rewrite Hdrop. split_and!; try done; [lia|]. rewrite Hpl at 1. by rewrite insert_hop.
Qed.

(** A path lowers the hop limit by its length and changes nothing else. *)
Lemma relayed_inv p n p' :
  relayed p n p' → n = O ∧ p' = p ∨
  ∃ hop, p !! 5%nat = Some hop ∧ is_u8 hop ∧ Z.of_nat n < hop ∧
         p' = <[5%nat := hop - Z.of_nat n]> p.
Proof.
  induction 1 as [|p p1 n p' H1 _ IH]; [by left|right].
  destruct (relays_inv _ _ H1) as (h & pl & b & Hh & _ & Hhop & _ & _ & Hp & ->).
  assert (p !! 5%nat = Some (hop_limit h)) as H5 by (by rewrite Hp).
  assert (is_u8 (hop_limit h)) as Hu by apply Hh. exists (hop_limit h).
  assert (5 < length p)%nat by (by apply lookup_lt_is_Some_1).
  destruct IH as [[-> ->]|(hop & Hop & _ & Hlt & ->)].
  - split_and!; try done; lia.
  - rewrite list_lookup_insert_eq in Hop by done. injection Hop as <-.
    split_and!; try done; [lia|]. rewrite list_insert_insert_eq. f_equal. lia.
Qed.

Lemma protected_aad_with_hop n h payload counter :
  wf_header h → validate_header h payload = Ok () → is_u8 n → n ≠ 0 →
  HEADER_LEN + len payload ≤ SERIALIZED_R8_MAX →
  protected_aad (header_bytes (with_hop n h) (len payload) ++ payload) counter =
  protected_aad (header_bytes h (len payload) ++ payload) counter.
Proof.
  intros Hh Hv Hn H0 Hm. pose proof (validate_header_with_hop n h payload H0 Hv) as Hv'.
  pose proof (wf_header_with_hop n h Hn Hh) as Hh'.
  destruct (decide (12 ≤ len payload)).
  { rewrite !protected_aad_layout by done. done. }
  assert (∀ g, wf_header g → len (header_bytes g (len payload) ++ payload) <? HEADER_LEN + 12 = true)
    as Hshort.
  { intros g Hg. rewrite len_app. unfold len at 1. rewrite length_header_bytes by done.
    apply Z.ltb_lt. unfold HEADER_LEN. lia. }
  unfold protected_aad. by rewrite !Hshort.
Qed.

(** C28: forwarding is transparent and terminates.  A packet that crosses [n] relays, whatever
    their manifests, arrives with every byte but the hop limit unchanged and the hop limit [n]
    lower; it is still a valid packet of the same header and payload, the associated data its
    session authenticates is the same, and [n] is below the initial hop limit, so no path, not
    even a routing loop, carries a packet more than 254 hops. *)
Theorem relayed_packet_intact p n p' budget h payload :
  relayed p n p' → wf_bytes p → unpack_with_budget p budget = Ok (h, payload) →
  (n = O ∨ Z.of_nat n < hop_limit h) ∧ Z.of_nat n ≤ 254 ∧
  unpack_with_budget p' budget = Ok (with_hop (hop_limit h - Z.of_nat n) h, payload) ∧
  (∀ i, i ≠ 5%nat → p' !! i = p !! i) ∧
  ∀ counter, protected_aad p' counter = protected_aad p counter.
Proof.
  intros Hrel Hw Hu. destruct (unpack_inv _ _ _ _ Hw Hu) as (Hh & Hp & Hv & Hm & Hb).
  destruct (relayed_inv _ _ _ Hrel) as [[-> ->]|(hop & H5 & H8 & Hlt & Hp')].
  - replace (hop_limit h - Z.of_nat 0) with (hop_limit h) by lia. rewrite Hu.
    split_and!; [by left|lia|by destruct h|done|done].
  - assert (hop = hop_limit h) as -> by (rewrite Hp in H5; injection H5 as <-; done).
    assert (is_u8 (hop_limit h - Z.of_nat n)) as H8' by solve_width.
    split_and!; [by right|solve_width| | |].
    + rewrite Hp', Hp, insert_hop by done. apply unpack_with_hop; done || lia.
    + intros i Hi. rewrite Hp'. by rewrite list_lookup_insert_ne.
    + intros c. rewrite Hp', Hp, insert_hop by done. apply protected_aad_with_hop; done || lia.
Qed.

(** C11: end-to-end delivery through the network: a packet a session encrypts is decrypted by the
    peer to the same plaintext after any path of relays, and a second copy, whatever path it took,
    is refused as a replay and leaves the receiver unchanged. *)
Theorem relayed_protected_delivery `{C : Crypto} {L : CryptoLaws C} s r h typ pt budget seen :
  let c := next (send_counters s) in
  ses_header h typ → plaintext_len_ok typ (len pt) → wf_bytes pt →
  76 + len pt ≤ SERIALIZED_R8_MAX → 76 + len pt ≤ budget → 76 + len pt ≤ receive_budget r →
  wf_array 32 (send_key s) → receive_key r = send_key s →
  repr (replay r) seen → acceptable seen (largest (replay r)) c → generation (replay r) < u64_max →
  ∃ packet r',
    encrypt h typ pt budget s = (Ok packet, set_counters (mkCounters (c + 1)) s) ∧
    ∀ n packet', relayed packet n packet' →
      decrypt packet' r = (Ok pt, r') ∧ decrypt packet' r' = (Err SessionError.Replay, r').
Proof.
  intros c Hh Hlen Hpt Hm Hb Hrb Hk Hkey Hr Ha Hg.
  destruct (delivery_any_hop s r h typ pt budget seen) as (packet & r' & He & H5 & _ & Hd); [done..|].
  exists packet, r'. split; [done|]. intros n packet' Hrel.
  destruct (relayed_inv _ _ _ Hrel) as [[-> ->]|(hop & Hop & H8 & Hlt & ->)].
  - rewrite <-(list_insert_id packet 5 (hop_limit h)) by done. apply Hd; apply Hh.
  - apply Hd; unfold_widths; lia.
Qed.

(** ** Witnesses *)

Definition demo_budgets : DescriptorBudgets := {[7 := 1280; 9 := 256]}.
Definition demo_transit_header : Header :=
  mkHeader 3 0 NH_SES 64 3 1 7 demo_src ([0x20; 0x1f] ++ replicate 14 5).
Definition demo_transit : bytes := header_bytes demo_transit_header 8 ++ demo_payload.
Definition demo_frame (packet : bytes) : bytes :=
  demo_mac 9 ++ demo_mac 1 ++ be_bytes 2 R8_ETHERTYPE ++ packet.
Definition demo_forwarded : bytes :=
  header_bytes (with_hop 63 demo_transit_header) 8 ++ demo_payload.

Lemma demo_wf_routes : wf_routes demo_manifest.
Proof. eapply validated_wf_routes; [|apply demo_validate_raw]. compute_decide. Qed.

Lemma demo_process_frame {E} :
  process_frame (E:=E) demo_manifest demo_budgets 7 (demo_frame demo_transit) =
  Ok (Forward demo_forwarded 9 (demo_mac 3)).
Proof. by vm_compute. Qed.

Example demo_budgets_new :
  budgets_new demo_manifest [(9, 256); (7, 1280)] = Ok demo_budgets ∧
  budgets_new demo_manifest [(9, 256)] = Err DescriptorBudgetError.Incomplete ∧
  budgets_new demo_manifest [(9, 47); (7, 1280)] = Err DescriptorBudgetError.Invalid.
Proof. by vm_compute. Qed.

Lemma process_frame_iff_rule_witness :
  frame_rule demo_manifest demo_budgets 7 (demo_frame demo_transit)
    (Forward demo_forwarded 9 (demo_mac 3)).
Proof.
  destruct (process_frame_iff_rule (E:=unit) demo_manifest demo_budgets 7 (demo_frame demo_transit))
    as [_ H]; [apply demo_wf_routes|compute_decide|].
  apply H; [done|apply demo_process_frame].
Defined.

Lemma demo_relayed : relayed demo_transit 1 demo_forwarded.
Proof.
  eapply relayed_hop; [|constructor].
  exists demo_manifest, demo_budgets, 7, (demo_frame demo_transit), 9, (demo_mac 3).
  split_and!; [apply demo_wf_routes|compute_decide|done|apply demo_process_frame].
Qed.

Lemma relayed_packet_intact_witness :
  unpack_with_budget demo_forwarded 1280 = Ok (with_hop 63 demo_transit_header, demo_payload) ∧
  ∀ counter, protected_aad demo_forwarded counter = protected_aad demo_transit counter.
Proof.
  destruct (relayed_packet_intact demo_transit 1 demo_forwarded 1280 demo_transit_header demo_payload)
    as (_ & _ & H & _ & Ha); [apply demo_relayed|compute_decide|by vm_compute|].
  split; [exact H|exact Ha].
Defined.

Lemma relayed_protected_delivery_witness :
  ∃ packet r',
    encrypt demo_data SESSION_DATA [1; 2; 3] 1280 demo_session =
      (Ok packet, set_counters (mkCounters 2) demo_session) ∧
    ∀ n packet', relayed packet n packet' →
      decrypt packet' demo_session = (Ok [1; 2; 3], r') ∧
      decrypt packet' r' = (Err SessionError.Replay, r').
Proof.
  apply (relayed_protected_delivery demo_session demo_session demo_data SESSION_DATA [1; 2; 3] 1280 ∅);
    first [compute_decide | by right; left | apply repr_new | apply demo_acceptable | by vm_compute].
Defined.
