(* ===== verification/Native.v ===== *)
(** * The native daemon runtime (src/rust/crates/r8d/src/native.rs)

    The long-lived forwarding runtime over the traits for frame I/O, revocation
    events, session hand-off and the clock.  The traits are type classes over one
    world, which holds the objects behind them and what these share; their
    implementations are parameters of the runtime.  The theorems: a runtime
    stops for good at its first fault and touches no interface afterwards; every
    received frame is counted exactly once; a runtime that [new] accepts never
    hands a packet to a session and every frame it sends is a received frame
    with its hop limit lowered, on the route's interface. *)

From S2P Require Import Prelude Wire Checksum Codec Crypto SessionMsg Replay SessionCrypto Directional Manifest Forward.
From stdpp Require Import gmap sorting.
#[local] Open Scope Z_scope.

Definition ETHERNET_HEADER_LEN : Z := 14.
Definition RECEIVE_CAPACITY : Z := ETHERNET_HEADER_LEN + SERIALIZED_R8_MAX + 1.

Module NativeError.

Inductive t : Set := Receive | Send | ShortWrite | Revoked | Invariant.

#[export] Instance eq_dec : EqDecision t.
Proof. solve_decision. Defined.

End NativeError.

Record RuntimeTelemetry : Set := mkTelemetry {
  received : Z;
  dropped : Z;
  forwarded : Z;
  delivered : Z;
  faults : Z;
  descriptor_high_water : Z;
}.

Definition telemetry_default : RuntimeTelemetry := mkTelemetry 0 0 0 0 0 0.

(** ** The traits *)

(** [receive] fills the buffer and returns the frame's length; [send] returns the bytes written. *)
Class NativeIo (W : Type) := {
  io_receive : Z → bytes → W → outcome NativeError.t (option Z) * bytes * W;
  io_send : Z → bytes → st W NativeError.t Z;
}.

Class EventSource (W : Type) := { event : st W NativeError.t bool }.

Class Clock (W : Type) := { now : st W NativeError.t unit }.

Class SessionDelivery (W : Type) := {
  deliver : bytes → ObservedBinding → st W NativeError.t unit;
}.

(** [DropSessions], the counted sink. *)
Record DropSessions : Set := mkDropSessions { sink_dropped : Z }.

#[export] Instance drop_sessions : SessionDelivery DropSessions := {|
  deliver := λ _ _ s, (Ok (), mkDropSessions (sat_add (sink_dropped s) 1));
|}.

Definition build_ethernet_frame (destination source packet : bytes) :
  outcome NativeError.t bytes :=
  if SERIALIZED_R8_MAX <? len packet then Err NativeError.Invariant else
  Ok (destination ++ source ++ be_bytes 2 R8_ETHERTYPE ++ packet).

(** ** The runtime *)

Record NativeRuntime : Set := mkRuntime {
  manifest : NativeManifest;
  budgets : DescriptorBudgets;
  local_macs : list (Z * bytes);
  telemetry : RuntimeTelemetry;
  stopped : bool;
}.

Definition set_telemetry (t : RuntimeTelemetry) (r : NativeRuntime) : NativeRuntime :=
  mkRuntime (manifest r) (budgets r) (local_macs r) t (stopped r).

(** [Vec::dedup]: one of each run of equal elements. *)
Fixpoint dedup (ids : list Z) : list Z :=
  match ids with
  | x :: ids' =>
      match ids' with
      | y :: _ => if x =? y then dedup ids' else x :: dedup ids'
      | [] => [x]
      end
  | [] => []
  end.

(** [ids.sort_unstable(); ids.dedup()] *)
Definition sort_dedup (ids : list Z) : list Z := dedup (merge_sort Z.le ids).

Definition bad_local_mac {E} (m : NativeManifest) (entry : Z * bytes) : outcome E bool :=
  let '(id, mac) := entry in
  Ok (bool_decide (interface m id = None)) ||? Ok (beq mac (replicate 6 0)) ||?
  Ok (beq mac (replicate 6 0xff)) ||?
  (b ← idx mac 0; Ok (negb (Z.land b 1 =? 0))).

(** [Iterator::any] with a test that may panic. *)
Fixpoint anyM {E A} (p : A → outcome E bool) (l : list A) : outcome E bool :=
  match l with
  | [] => Ok false
  | x :: l => p x ||? anyM p l
  end.

Definition runtime_new (m : NativeManifest) (b : DescriptorBudgets) (macs : list (Z * bytes)) :
  outcome NativeError.t NativeRuntime :=
  bad ← Ok (negb (bool_decide (local_locs m = []))) ||?
        Ok (existsb local_delivery (interfaces m)) ||?
        Ok (negb (len macs =? len (interfaces m))) ||?
        anyM (bad_local_mac m) macs;
  if bad : bool then Err NativeError.Invariant else
  let ids := sort_dedup (fst <$> macs) in
  if negb (len ids =? len macs)
     || existsb (λ i, bool_decide (budgets_get b (descriptor_id i) = None)) (interfaces m)
  then Err NativeError.Invariant else
  Ok (mkRuntime m b macs telemetry_default false).

Definition mac_of (r : NativeRuntime) (id : Z) : outcome NativeError.t bytes :=
  ok_or (snd <$> find (λ e, fst e =? id) (local_macs r)) NativeError.Invariant.

(** The lookups and [process_frame] return or panic; they have no error of their own. *)
Lemma idx_no_err {E A} (l : list A) i (e : E) : idx l i ≠ Err e.
Proof. unfold idx. by case_match. Qed.

Lemma slice_no_err {E A} (l : list A) a b (e : E) : slice l a b ≠ Err e.
Proof. unfold slice. by case_decide. Qed.

Lemma bind_no_err {E A B} (m : outcome E A) (k : A → outcome E B) (e : E) :
  m ≠ Err e → (∀ a, k a ≠ Err e) → (m ≫= k) ≠ Err e.
Proof. intros Hm Hk [?|(a & _ & Ha)]%bind_Err; [done|]. by apply (Hk a). Qed.

Ltac no_err :=
  repeat match goal with
  | |- (_ ≫= _) ≠ Err _ => apply bind_no_err; [|intros ?]
  | |- orM _ _ ≠ Err _ => apply bind_no_err; [|intros []]
  | |- slice_ne _ _ _ _ ≠ Err _ => apply bind_no_err; [|intros ?]
  | |- Ok _ ≠ Err _ => discriminate
  | |- Panic ≠ Err _ => discriminate
  | |- idx _ _ ≠ Err _ => apply idx_no_err
  | |- slice _ _ _ ≠ Err _ => apply slice_no_err
  | |- slice_from _ _ ≠ Err _ => apply slice_no_err
  | |- (if ?b then _ else _) ≠ Err _ => destruct b
  | |- (match ?x with _ => _ end) ≠ Err _ => destruct x
  end.

Lemma route_for_no_err {E} m loc (e : E) : route_for m loc ≠ Err e.
Proof.
  unfold route_for. apply bind_no_err; [|done].
  induction (routes m) as [|r rs IH]; [done|]. cbn [filterM].
  unfold matches, prefix_matches. no_err; apply IH.
Qed.

Lemma process_frame_no_err {E} m b id frame (e : E) : process_frame m b id frame ≠ Err e.
Proof.
  unfold process_frame, decrement_hop, idx_set, expect. no_err; apply route_for_no_err.
Qed.

Section Runtime.
Context {W : Type} `{!NativeIo W, !EventSource W, !SessionDelivery W, !Clock W}.

(** The runtime and the objects a call borrows mutably. *)
Record Node : Type := mkNode { rt : NativeRuntime; world : W }.

Abbreviation M A := (st Node NativeError.t A).

Definition set_rt (r : NativeRuntime) (n : Node) : Node := mkNode r (world n).
Definition set_world (w : W) (n : Node) : Node := mkNode (rt n) w.

(** [self.telemetry.<field> = ...saturating_add(1)] *)
Definition count (f : RuntimeTelemetry → RuntimeTelemetry) : M unit := λ n,
  (Ok (), set_rt (set_telemetry (f (telemetry (rt n))) (rt n)) n).

Definition inc_received (id : Z) (t : RuntimeTelemetry) : RuntimeTelemetry :=
  mkTelemetry (sat_add (received t) 1) (dropped t) (forwarded t) (delivered t) (faults t)
    (Z.max (descriptor_high_water t) id).
Definition inc_dropped (t : RuntimeTelemetry) : RuntimeTelemetry :=
  mkTelemetry (received t) (sat_add (dropped t) 1) (forwarded t) (delivered t) (faults t)
    (descriptor_high_water t).
Definition inc_forwarded (t : RuntimeTelemetry) : RuntimeTelemetry :=
  mkTelemetry (received t) (dropped t) (sat_add (forwarded t) 1) (delivered t) (faults t)
    (descriptor_high_water t).
Definition inc_delivered (t : RuntimeTelemetry) : RuntimeTelemetry :=
  mkTelemetry (received t) (dropped t) (forwarded t) (sat_add (delivered t) 1) (faults t)
    (descriptor_high_water t).
Definition inc_faults (t : RuntimeTelemetry) : RuntimeTelemetry :=
  mkTelemetry (received t) (dropped t) (forwarded t) (delivered t) (sat_add (faults t) 1)
    (descriptor_high_water t).

Definition fatal {A} (error : NativeError.t) : M A := λ n,
  let r := rt n in
  (Err error,
   if stopped r then n
   else set_rt (mkRuntime (manifest r) (budgets r) (local_macs r)
                  (inc_faults (telemetry r)) true) n).

(** [match m { Ok(v) => v, Err(error) => return self.fatal(error) }] *)
Definition or_fatal {A} (m : M A) : M A := λ n,
  match m n with
  | (Err e, n') => fatal e n'
  | res => res
  end.

Definition send (descriptor : Z) (destination packet : bytes) : M unit :=
  n ← get;
  source ← or_fatal (lift (mac_of (rt n) descriptor));
  frame ← or_fatal (lift (build_ethernet_frame destination source packet));
  written ← or_fatal (zoom world set_world (io_send descriptor frame));
  if written =? len frame then count inc_forwarded else fatal NativeError.ShortWrite.

(** The errors of the parsers and builders drop the packet. *)
Definition or_drop {E A} (m : outcome E A) (k : A → M unit) : M unit :=
  match m with
  | Ok a => k a
  | Err _ => count inc_dropped
  | Panic => lift Panic
  end.

Definition local (packet : bytes) (binding : ObservedBinding) : M unit :=
  n ← get;
  or_drop (unpack_with_budget packet SERIALIZED_R8_MAX) (λ '(header, payload),
  if next_header header =? NH_CTL then
    or_drop (parse_ctl header payload) (λ '(typ, _, body),
    if typ =? CTL_ECHO_REQUEST then
      route ← lift (route_for (manifest (rt n)) (src header));
      match route with
      | None => count inc_dropped
      | Some route =>
      match budgets_get (budgets (rt n)) (egress_descriptor_id route) with
      | None => count inc_dropped
      | Some budget =>
          let reply := header_new NH_CTL (dst header) (src header) in
          or_drop (build_ctl_with_budget reply CTL_ECHO_REPLY 0 body budget) (λ reply_packet,
          send (egress_descriptor_id route) (next_hop_mac route) reply_packet)
      end end
    else count inc_dropped)
  else if next_header header =? NH_DGRAM then count inc_dropped
  else if next_header header =? NH_SES then
    or_fatal (zoom world set_world (deliver packet binding)) ;;
    count inc_delivered
  else count inc_dropped).

(** One descriptor of the receive loop. *)
Definition poll (id : Z) : M unit :=
  n ← get;
  let '(res, buffer, w) := io_receive id (replicate (Z.to_nat RECEIVE_CAPACITY) 0) (world n) in
  put (set_world w n) ;;
  received ← or_fatal (lift res);
  match received with
  | None => mret ()
  | Some length =>
      count (inc_received id) ;;
      if ETHERNET_HEADER_LEN + SERIALIZED_R8_MAX <? length then count inc_dropped else
      frame ← lift (slice buffer 0 (Z.to_nat length));
      action ← lift (process_frame (manifest (rt n)) (budgets (rt n)) id frame);
      match action with
      | Drop _ => count inc_dropped
      | Forward packet egress next_hop => or_fatal (send egress next_hop packet)
      | Deliver packet binding => or_fatal (local packet binding)
      end
  end.

Fixpoint poll_all (ids : list Z) : M unit :=
  match ids with
  | [] => mret ()
  | id :: ids => poll id ;; poll_all ids
  end.

Definition step : M unit :=
  n ← get;
  if stopped (rt n) then throw NativeError.Invariant else
  revoked ← or_fatal (zoom world set_world event);
  if revoked : bool then fatal NativeError.Revoked else
  poll_all (fst <$> local_macs (rt n)).

Definition step_with_clock : M unit :=
  or_fatal (zoom world set_world now) ;; step.

(** ** What each operation does to the runtime *)

Definition failed (r : NativeRuntime) : NativeRuntime :=
  if stopped r then r
  else mkRuntime (manifest r) (budgets r) (local_macs r) (inc_faults (telemetry r)) true.

(** The three ways a received frame is accounted for. *)
Definition handled (f : RuntimeTelemetry → RuntimeTelemetry) : Prop :=
  f = inc_dropped ∨ f = inc_forwarded ∨ f = inc_delivered.

Lemma fatal_failed {A} e n : fatal (A:=A) e n = (Err e, set_rt (failed (rt n)) n).
Proof. unfold fatal, failed. destruct n as [r w]; simpl. by destruct (stopped r). Qed.

Lemma failed_failed r : failed (failed r) = failed r.
Proof. unfold failed. by destruct (stopped r) eqn:H; simpl; rewrite ?H. Qed.

Lemma or_fatal_lift {A} (m : outcome NativeError.t A) n :
  or_fatal (lift m) n =
  match m with Err e => (Err e, set_rt (failed (rt n)) n) | m => (m, n) end.
Proof. destruct m; [done| |done]. unfold or_fatal, lift. apply fatal_failed. Qed.

(** A frame the runtime sends on [d]. *)
Definition sends (r : NativeRuntime) (d : Z) (dest packet frame : bytes) : Prop :=
  ∃ source, mac_of r d = Ok source ∧ build_ethernet_frame dest source packet = Ok frame.

Lemma send_spec d dest p n :
  let '(res, n') := send d dest p n in
  (world n' = world n ∨ ∃ frame, sends (rt n) d dest p frame ∧ world n' = snd (io_send d frame (world n))) ∧
  match res with
  | Ok _ => rt n' = set_telemetry (inc_forwarded (telemetry (rt n))) (rt n)
  | Err _ => rt n' = failed (rt n)
  | Panic => True
  end.
Proof.
  unfold send, mbind, st_bind, get. rewrite or_fatal_lift.
  destruct (mac_of (rt n) d) as [source|e|] eqn:Hm; [|by auto..]. rewrite or_fatal_lift.
  destruct (build_ethernet_frame dest source p) as [frame|e|] eqn:Hf; [|by auto..].
  assert (sends (rt n) d dest p frame) as Hs by by exists source.
  unfold or_fatal, zoom. destruct (io_send d frame (world n)) as [[l|e|] w] eqn:Hio.
  - destruct (l =? len frame); [|rewrite fatal_failed]; simpl; (split; [|done]);
      right; exists frame; by rewrite Hio.
  - rewrite fatal_failed. simpl. split; [|done]. right. exists frame. by rewrite Hio.
  - simpl. split; [|done]. right. exists frame. by rewrite Hio.
Qed.

(** The result of handling one frame. *)
Definition handles (n : Node) (res : outcome NativeError.t unit * Node) : Prop :=
  match res with
  | (Ok _, n') => ∃ f, handled f ∧ rt n' = set_telemetry (f (telemetry (rt n))) (rt n)
  | (Err _, n') => rt n' = failed (rt n)
  | (Panic, _) => True
  end.

Lemma handles_dropped n : handles n (count inc_dropped n).
Proof. exists inc_dropped. split; [by left|done]. Qed.

Lemma handles_send d dest p n : handles n (send d dest p n).
Proof.
  pose proof (send_spec d dest p n) as H. destruct (send d dest p n) as [[| |] n'];
    destruct H as (_ & H); [|done..]. exists inc_forwarded. split; [by right; left|done].
Qed.

Lemma handles_or_drop {E A} (m : outcome E A) k n :
  (∀ a, m = Ok a → handles n (k a n)) → handles n (or_drop m k n).
Proof. intros Hk. destruct m; [by apply Hk|apply handles_dropped|done]. Qed.

Lemma local_spec packet binding n : handles n (local packet binding n).
Proof.
  unfold local, mbind at 1, st_bind at 1, get.
  apply handles_or_drop. intros [h payload] _. case_match.
  { apply handles_or_drop. intros [[typ code] body] _. case_match; [|apply handles_dropped].
    rewrite st_bind_lift. destruct (route_for _ _) as [[route|]|e|] eqn:Hr; [| | |done].
    3: by destruct (route_for_no_err _ _ _ Hr). 2: apply handles_dropped.
    destruct (budgets_get _ _); [|apply handles_dropped].
    apply handles_or_drop. intros p _. apply handles_send. }
  case_match; [apply handles_dropped|]. case_match; [|apply handles_dropped].
  unfold mbind, st_bind, or_fatal, zoom. destruct (deliver _ _ _) as [[] w]; [|by rewrite fatal_failed|done].
  exists inc_delivered. split; [by right; right|done].
Qed.

(** One descriptor: nothing received, a received frame handled, or a fault. *)
Lemma poll_spec id n :
  let counted := set_telemetry (inc_received id (telemetry (rt n))) (rt n) in
  match poll id n with
  | (Ok _, n') => rt n' = rt n ∨ ∃ f, handled f ∧ rt n' = set_telemetry (f (telemetry counted)) counted
  | (Err _, n') => rt n' = failed (rt n) ∨ rt n' = failed counted
  | (Panic, _) => True
  end.
Proof.
  unfold poll, mbind at 1, st_bind at 1, get.
  destruct (io_receive _ _ _) as [[res buffer] w]. unfold mbind at 1, st_bind at 1, put.
  unfold mbind at 1, st_bind at 1. rewrite or_fatal_lift.
  destruct res as [[l|]|e|]; [|by left|by left|done].
  unfold mbind at 1, st_bind at 1, count at 1.
  set (n1 := set_rt _ _). change (set_telemetry (inc_received id _) _) with (rt n1).
  destruct (_ <? l); [right; exists inc_dropped; split; [by left|done]|].
  rewrite st_bind_lift. destruct (slice _ _ _) as [frame|e|] eqn:Hs; [| |done].
  2: { unfold slice in Hs. by case_decide. }
  rewrite st_bind_lift. destruct (process_frame _ _ _ _) as [a|e|] eqn:Hp; [| |done].
  2: by destruct (process_frame_no_err _ _ _ _ _ Hp).
  assert (∀ m : M unit, handles n1 (m n1) → match or_fatal m n1 with
    | (Ok _, n') => ∃ f, handled f ∧ rt n' = set_telemetry (f (telemetry (rt n1))) (rt n1)
    | (Err _, n') => rt n' = failed (rt n1)
    | (Panic, _) => True end) as Hh.
  { intros m. unfold or_fatal. destruct (m n1) as [[| |] n']; [done| |done]. intros Hf.
    rewrite fatal_failed. simpl in *. by rewrite Hf, failed_failed. }
  destruct a as [reason|p b|p e mac].
  - right. exists inc_dropped. split; [by left|done].
  - specialize (Hh (local p b) (local_spec p b n1)). destruct (or_fatal _ n1) as [[| |] n']; auto.
  - specialize (Hh (send e mac p) (handles_send e mac p n1)).
    destruct (or_fatal _ n1) as [[| |] n']; auto.
Qed.

(** ** The invariant of the runtime *)

Definition handled_count (t : RuntimeTelemetry) : Z := dropped t + forwarded t + delivered t.

(** The fault counter tells whether the runtime stopped.  Until the receive counter saturates,
    every received frame is counted once, and at a fault at most the frame being handled is not. *)
Definition runtime_inv (r : NativeRuntime) : Prop :=
  let t := telemetry r in
  faults t = (if stopped r then 1 else 0) ∧
  (0 ≤ dropped t ∧ 0 ≤ forwarded t ∧ 0 ≤ delivered t ∧ 0 ≤ received t) ∧
  (received t < u64_max →
   if stopped r then handled_count t ≤ received t ≤ handled_count t + 1
   else received t = handled_count t).

Definition same_config (r r' : NativeRuntime) : Prop :=
  manifest r' = manifest r ∧ budgets r' = budgets r ∧ local_macs r' = local_macs r.

Lemma inv_handled id f r :
  handled f → runtime_inv r → stopped r = false →
  runtime_inv (set_telemetry (f (inc_received id (telemetry r))) r).
Proof.
  intros Hf (Hfa & Hnn & Hacc) Hs. unfold runtime_inv, handled_count in *. simpl. rewrite Hs in *.
  destruct Hf as [-> | [-> | ->]]; simpl; unfold sat_add in *; unfold_widths;
    (split_and!; [done|lia..|]); intros; lia.
Qed.

Lemma inv_failed r : runtime_inv r → runtime_inv (failed r) ∧ stopped (failed r) = true.
Proof.
  unfold runtime_inv, failed, handled_count, sat_add. destruct (stopped r) eqn:Hs; simpl; rewrite ?Hs.
  - done.
  - intros (-> & ? & Hacc). unfold sat_add. split; [|done]. split_and!; try done; lia.
Qed.

Lemma inv_failed_received id r :
  runtime_inv r → stopped r = false →
  runtime_inv (failed (set_telemetry (inc_received id (telemetry r)) r)) ∧
  stopped (failed (set_telemetry (inc_received id (telemetry r)) r)) = true.
Proof.
  intros (Hfa & Hnn & Hacc) Hs. unfold runtime_inv, failed, handled_count, sat_add in *. simpl.
  rewrite Hs in *. simpl. rewrite Hfa. unfold sat_add. unfold_widths. split; [|done].
  split_and!; try done; lia.
Qed.

(** What a run of the loop guarantees. *)
Definition run_post (r : NativeRuntime) (res : outcome NativeError.t unit * Node) : Prop :=
  match res with
  | (Ok _, n') => runtime_inv (rt n') ∧ stopped (rt n') = false ∧ same_config r (rt n')
  | (Err _, n') => runtime_inv (rt n') ∧ stopped (rt n') = true ∧ same_config r (rt n')
  | (Panic, _) => True
  end.

Lemma same_config_failed r : same_config r (failed r).
Proof. unfold failed. by destruct (stopped r). Qed.

Lemma poll_post id n :
  runtime_inv (rt n) → stopped (rt n) = false → run_post (rt n) (poll id n).
Proof.
  intros Hi Hs. pose proof (poll_spec id n) as H. cbv zeta in H. unfold run_post.
  destruct (poll id n) as [[| |] n']; [| |done].
  - destruct H as [->|(f & Hf & ->)]; [done|]. split; [exact (inv_handled id f (rt n) Hf Hi Hs)|done].
  - destruct H as [-> | ->].
    + destruct (inv_failed _ Hi). split_and!; [done..|apply same_config_failed].
    + destruct (inv_failed_received id _ Hi Hs). split_and!; [done..|].
      unfold failed. simpl. by rewrite Hs.
Qed.

Lemma poll_all_post ids n :
  runtime_inv (rt n) → stopped (rt n) = false → run_post (rt n) (poll_all ids n).
Proof.
  revert n. induction ids as [|id ids IH]; intros n Hi Hs; [done|]. cbn [poll_all].
  unfold mbind, st_bind. pose proof (poll_post id n Hi Hs) as Hp.
  destruct (poll id n) as [[u|e|] n1]; [|done..]. destruct Hp as (Hi1 & Hs1 & Hm & Hb & Hl).
  specialize (IH n1 Hi1 Hs1). destruct (poll_all ids n1) as [[| |] n2]; [..|done];
    destruct IH as (? & ? & ? & ? & ?); (split_and!; [done..|]); by split_and!; etrans.
Qed.

Lemma step_running n :
  stopped (rt n) = false →
  step n = match event (world n) with
           | (Ok false, w) => poll_all (fst <$> local_macs (rt n)) (set_world w n)
           | (Ok true, w) => (Err NativeError.Revoked, set_rt (failed (rt n)) (set_world w n))
           | (Err e, w) => (Err e, set_rt (failed (rt n)) (set_world w n))
           | (Panic, w) => (Panic, set_world w n)
           end.
Proof.
  intros Hs. unfold step, mbind, st_bind, get, or_fatal, zoom. rewrite Hs.
  destruct (event (world n)) as [[[]|e|] w]; by rewrite ?fatal_failed.
Qed.

Lemma step_post n :
  runtime_inv (rt n) → stopped (rt n) = false → run_post (rt n) (step n).
Proof.
  intros Hi Hs. rewrite step_running by done. destruct (inv_failed _ Hi) as [Hf ?].
  destruct (event (world n)) as [[[]|e|] w]; [..|done].
  - split_and!; [done..|apply same_config_failed].
  - apply (poll_all_post _ (set_world w n) Hi Hs).
  - split_and!; [done..|apply same_config_failed].
Qed.

(** ** Runs *)

(** A call of the runtime, with or without the clock. *)
Definition stepped (n : Node) (res : outcome NativeError.t unit) (n' : Node) : Prop :=
  step n = (res, n') ∨ step_with_clock n = (res, n').

Inductive run : Node → Node → Prop :=
| run_refl n : run n n
| run_step n res n' n'' : stepped n res n' → res ≠ Panic → run n' n'' → run n n''.

(** The clock was read. *)
Definition ticks (w w' : W) : Prop := w' = snd (now w).

Lemma stepped_cases n res n' :
  stepped n res n' →
  ∃ w, rtc ticks (world n) w ∧
    (step (set_world w n) = (res, n') ∨
     (∃ e, res = Err e ∧ n' = set_rt (failed (rt n)) (set_world w n)) ∨ res = Panic).
Proof.
  intros [H|H]; [exists (world n); split; [done|left; by destruct n]|].
  unfold step_with_clock, mbind, st_bind, or_fatal, zoom in H.
  destruct (now (world n)) as [[u|e|] w] eqn:Hnow; (exists w; split; [apply rtc_once; by unfold ticks; rewrite Hnow|]).
  - left. exact H.
  - rewrite fatal_failed in H. injection H as <- <-. right. left. by exists e.
  - injection H as <- <-. by do 2 right.
Qed.

Lemma stepped_post n res n' :
  runtime_inv (rt n) → stopped (rt n) = false → stepped n res n' → run_post (rt n) (res, n').
Proof.
  intros Hi Hs (w & _ & [<-|[(e & -> & ->)| -> ]])%stepped_cases; [|clear -Hi|done].
  - by apply (step_post (set_world w n)).
  - destruct (inv_failed _ Hi). split_and!; [done..|apply same_config_failed].
Qed.

(** Only the clock was read. *)
Definition frozen (n n' : Node) : Prop := rt n' = rt n ∧ rtc ticks (world n) (world n').

Lemma stepped_stopped n res n' :
  stopped (rt n) = true → stepped n res n' → res ≠ Panic → frozen n n' ∧ ∃ e, res = Err e.
Proof.
  intros Hs (w & Hw & [H|[(e & -> & ->)| -> ]])%stepped_cases Hp; [| |done].
  - unfold step, mbind, st_bind, get in H. simpl in H. rewrite Hs in H. injection H as <- <-.
    split; [done|by eexists].
  - unfold frozen, failed. simpl. rewrite Hs. split; [done|by eexists].
Qed.

Lemma run_stopped n n' : run n n' → stopped (rt n) = true → frozen n n'.
Proof.
  induction 1 as [|n res n1 n2 H1 Hp _ IH]; intros Hs; [done|].
  destruct (stepped_stopped _ _ _ Hs H1 Hp) as [(Hr & Hw) _].
  destruct IH as (Hr' & Hw'); [by rewrite Hr|]. split; [congruence|by etrans].
Qed.

Lemma run_inv n n' :
  run n n' → runtime_inv (rt n) → runtime_inv (rt n') ∧ same_config (rt n) (rt n').
Proof.
  induction 1 as [|n res n1 n2 H1 Hp _ IH]; intros Hi; [done|].
  assert (runtime_inv (rt n1) ∧ same_config (rt n) (rt n1)) as [Hi1 Hc].
  { destruct (stopped (rt n)) eqn:Hs.
    - destruct (stepped_stopped _ _ _ Hs H1 Hp) as [(Hr & _) _]. by rewrite Hr.
    - pose proof (stepped_post _ _ _ Hi Hs H1) as H. destruct res; [| |done]; by destruct H as (?&_&?). }
  destruct (IH Hi1) as [? (?&?&?)], Hc as (?&?&?). split; [done|]. split_and!; congruence.
Qed.

Lemma new_inv m b macs r :
  runtime_new m b macs = Ok r →
  runtime_inv r ∧ stopped r = false ∧ manifest r = m ∧ budgets r = b ∧ local_locs m = [].
Proof.
  unfold runtime_new. intros H. apply bind_Ok in H as ([] & Hbad & H); [done|].
  case_match; [done|]. apply Ok_inj in H as <-. repeat apply orM_Ok_false in Hbad as [Hbad _].
  apply Ok_inj, negb_false_iff, bool_decide_eq_true in Hbad. split_and!; done.
Qed.

(** C33: a runtime stops for good at its first fault.  After any sequence of calls, a call that
    returns an error leaves the runtime stopped with exactly one fault counted, and from then on
    no call receives, sends, polls events or delivers: the runtime never changes again, and what
    is behind its interfaces, events and sessions only by the reading of the clock.  A call that
    succeeds leaves it running. *)
Theorem native_fail_stop m b macs n n1 res n2 :
  runtime_new m b macs = Ok (rt n) → run n n1 → stepped n1 res n2 → res ≠ Panic →
  stopped (rt n2) = negb (is_ok res) ∧
  (stopped (rt n2) = true → faults (telemetry (rt n2)) = 1 ∧ ∀ n3, run n2 n3 → frozen n2 n3).
Proof.
  intros (Hi & Hs & _)%new_inv Hrun Hst Hp. destruct (run_inv _ _ Hrun Hi) as [Hi1 _].
  assert (runtime_inv (rt n2) ∧ stopped (rt n2) = negb (is_ok res)) as [Hi2 Hs2].
  { destruct (stopped (rt n1)) eqn:Hs1.
    - destruct (stepped_stopped _ _ _ Hs1 Hst Hp) as [(Hr & _) [e ->]]. by rewrite Hr, Hs1.
    - pose proof (stepped_post _ _ _ Hi1 Hs1 Hst) as H. destruct res; [| |done];
        by destruct H as (?&?&_). }
  split; [done|]. intros Hstop. split.
  - destruct Hi2 as (Hf & _). by rewrite Hstop in Hf.
  - intros n3 Hr3. by apply run_stopped.
Qed.

(** Every received frame is counted once.  After any sequence of calls, while the receive
    counter has not saturated, the frames received are those dropped, forwarded and delivered;
    when the runtime stopped on a fault, at most the frame being handled is missing. *)
Theorem native_accounting m b macs n n1 :
  runtime_new m b macs = Ok (rt n) → run n n1 →
  let t := telemetry (rt n1) in
  received t < u64_max →
  (stopped (rt n1) = false → received t = dropped t + forwarded t + delivered t) ∧
  dropped t + forwarded t + delivered t ≤ received t ≤ dropped t + forwarded t + delivered t + 1.
Proof.
  intros (Hi & _)%new_inv Hrun t Hlt. destruct (run_inv _ _ Hrun Hi) as [(_ & _ & Hacc) _].
  fold t in Hacc. specialize (Hacc Hlt). unfold handled_count in Hacc.
  destruct (stopped (rt n1)); (split; [intros; congruence|lia]).
Qed.
End Runtime.

(** ** What the runtime sends

    The world is wrapped in one that logs the frames handed to [send] and the
    packets handed to a session. *)

Record Logged (W : Type) : Type := mkLogged { inner : W; log : list (Z * bytes); handed : list bytes }.
Arguments mkLogged {W}.
Arguments inner {W}.
Arguments log {W}.
Arguments handed {W}.

Definition set_inner {W} (w : W) (l : Logged W) : Logged W := mkLogged w (log l) (handed l).

#[export] Instance logged_io {W} `{NativeIo W} : NativeIo (Logged W) := {|
  io_receive := λ id buffer l,
    let '(res, buffer', w) := io_receive id buffer (inner l) in (res, buffer', set_inner w l);
  io_send := λ id frame l,
    let '(res, w) := io_send id frame (inner l) in (res, mkLogged w (log l ++ [(id, frame)]) (handed l));
|}.
#[export] Instance logged_events {W} `{EventSource W} : EventSource (Logged W) :=
  {| event := zoom inner set_inner event |}.
#[export] Instance logged_clock {W} `{Clock W} : Clock (Logged W) := {| now := zoom inner set_inner now |}.
#[export] Instance logged_sessions {W} `{SessionDelivery W} : SessionDelivery (Logged W) := {|
  deliver := λ packet binding l,
    let '(res, w) := deliver packet binding (inner l) in (res, mkLogged w (log l) (handed l ++ [packet]));
|}.

Section Sends.
Context {W : Type} `{!NativeIo W, !EventSource W, !SessionDelivery W, !Clock W}.
Implicit Types n : Node (W:=Logged W).

(** A frame on the wire that forwards a received one: from the egress interface's own address to
    the next hop of the route [process_frame] chose. *)
Definition forwards (r : NativeRuntime) (sent : Z * bytes) : Prop :=
  ∃ ingress frame packet next_hop,
    process_frame (E:=NativeError.t) (manifest r) (budgets r) ingress frame =
      Ok (Forward packet sent.1 next_hop) ∧
    sends r sent.1 next_hop packet sent.2.

(** The effect on the logs of a call on a runtime without local locators. *)
Definition transit_only (r : NativeRuntime) (w w' : Logged W) : Prop :=
  handed w' = handed w ∧ ∃ sent, log w' = log w ++ sent ∧ Forall (forwards r) sent.

Lemma transit_refl r w w' : handed w' = handed w → log w' = log w → transit_only r w w'.
Proof. intros ? Hl. split; [done|]. exists []. by rewrite app_nil_r. Qed.

#[local] Instance transit_preorder r : PreOrder (transit_only r).
Proof.
  split; [intros w; by apply transit_refl|].
  intros w1 w2 w3 (Hs1 & l1 & Hl1 & Hf1) (Hs2 & l2 & Hl2 & Hf2). split; [congruence|].
  exists (l1 ++ l2). rewrite Hl2, Hl1, app_assoc. split; [done|]. by apply Forall_app.
Qed.

Lemma transit_ticks r w w' : rtc ticks w w' → transit_only r w w'.
Proof.
  induction 1 as [|w1 w2 w3 -> _ IH]; [done|]. etrans; [|exact IH].
  unfold now, logged_clock, zoom. destruct (now (inner w1)) as [? ?]. by apply transit_refl.
Qed.

Lemma no_local_delivery {E} m b id frame packet binding :
  local_locs m = [] → process_frame (E:=E) m b id frame ≠ Ok (Deliver packet binding).
Proof.
  intros Hl. unfold process_frame, is_local_loc. rewrite Hl. intros H.
  repeat first
    [ discriminate H
    | apply bind_Ok in H as (? & _ & H)
    | rewrite (bool_decide_false _ (not_elem_of_nil _)) in H
    | match type of H with
      | (if ?b then _ else _) = _ => destruct b
      | (match ?x with _ => _ end) = _ => destruct x as [[]| |] || destruct x
      end ].
Qed.

Lemma sends_config r r' d dest p frame :
  same_config r r' → sends r' d dest p frame → sends r d dest p frame.
Proof.
  intros (_ & _ & Hl) (source & Hm & Hf). exists source. unfold mac_of in *. by rewrite <-Hl.
Qed.

Lemma poll_transit r id n :
  same_config r (rt n) → local_locs (manifest r) = [] →
  transit_only r (world n) (world (snd (poll id n))).
Proof.
  intros Hc Hl. pose proof Hc as (Hm & Hb & _). unfold poll, mbind at 1, st_bind at 1, get.
  destruct (io_receive id _ (world n)) as [[res buffer] w] eqn:Hio.
  assert (transit_only r (world n) w) as Hw.
  { unfold io_receive, logged_io in Hio. destruct (io_receive _ _ (inner (world n))) as [[??]?].
    injection Hio as _ _ <-. by apply transit_refl. }
  unfold mbind at 1, st_bind at 1, put. unfold mbind at 1, st_bind at 1. rewrite or_fatal_lift.
  destruct res as [[l|]|e|]; [|done..].
  unfold mbind at 1, st_bind at 1, count at 1. set (n1 := set_rt _ _).
  assert (same_config r (rt n1)) as Hc1 by done.
  etrans; [exact Hw|]. change w with (world n1). destruct (_ <? l); [done|].
  rewrite st_bind_lift. destruct (slice _ _ _) as [frame|e|]; [|done..].
  rewrite st_bind_lift. destruct (process_frame _ _ _ _) as [a|e|] eqn:Hp; [|done..].
  rewrite Hm, Hb in Hp. destruct a as [reason|p b|p e mac]; [done| |].
  { by destruct (no_local_delivery (E:=NativeError.t) (manifest r) (budgets r) id frame p b). }
  assert (world (snd (or_fatal (send e mac p) n1)) = world (snd (send e mac p n1))) as ->.
  { unfold or_fatal. destruct (send e mac p n1) as [[| |] n']; [done| |done]. by rewrite fatal_failed. }
  pose proof (send_spec e mac p n1) as Hsend. destruct (send e mac p n1) as [res n'].
  destruct Hsend as (Hsent & _). cbn [snd]. destruct Hsent as [-> |(fr & Hsends & ->)]; [done|].
  unfold io_send, logged_io. destruct (io_send e fr (inner (world n1))). split; [done|].
  exists [(e, fr)]. split; [done|]. apply Forall_singleton. exists id, frame, p, mac.
  split; [done|]. by eapply sends_config.
Qed.

Lemma poll_all_transit r ids n :
  runtime_inv (rt n) → stopped (rt n) = false → same_config r (rt n) → local_locs (manifest r) = [] →
  transit_only r (world n) (world (snd (poll_all ids n))).
Proof.
  intros Hi Hs Hc Hl. revert n Hi Hs Hc. induction ids as [|id ids IH]; intros n Hi Hs Hc; [done|].
  cbn [poll_all]. unfold mbind, st_bind.
  pose proof (poll_transit r id n Hc Hl) as H1. pose proof (poll_post id n Hi Hs) as Hp.
  destruct (poll id n) as [[u|e|] n1]; [|done..]. simpl in H1.
  destruct Hp as (Hi1 & Hs1 & ? & ? & ?), Hc as (?&?&?).
  etrans; [exact H1|]. apply IH; [done..|]. split_and!; congruence.
Qed.

Lemma stepped_transit r n res n' :
  runtime_inv (rt n) → same_config r (rt n) → local_locs (manifest r) = [] → res ≠ Panic →
  stepped n res n' → transit_only r (world n) (world n').
Proof.
  intros Hi Hc Hl Hp Hst. destruct (stopped (rt n)) eqn:Hs.
  { destruct (stepped_stopped _ _ _ Hs Hst Hp) as [(_ & Hw) _]. by apply transit_ticks. }
  apply stepped_cases in Hst as (w & Hw%(transit_ticks r) & [H|[(e & -> & ->)| -> ]]); [|done..].
  etrans; [exact Hw|]. rewrite step_running in H by done. change (world (set_world w n)) with w in H.
  destruct (event w) as [ans w'] eqn:Hev.
  assert (transit_only r w w') as Hw'.
  { unfold event, logged_events, zoom in Hev. destruct (event (inner w)). injection Hev as _ <-.
    by apply transit_refl. }
  etrans; [exact Hw'|].
  pose proof (poll_all_transit r (fst <$> local_macs (rt n)) (set_world w' (set_world w n)) Hi Hs Hc Hl) as Ht.
  destruct ans as [[]|e|]; [injection H as <- <-; done| |injection H as <- <-; done..].
  change (rt (set_world w n)) with (rt n) in H. by rewrite H in Ht.
Qed.

Lemma run_transit r n n' :
  run n n' → runtime_inv (rt n) → same_config r (rt n) → local_locs (manifest r) = [] →
  transit_only r (world n) (world n').
Proof.
  induction 1 as [|n res n1 n2 H1 Hp Hrun IH]; intros Hi Hc Hl; [done|].
  etrans; [by eapply stepped_transit|].
  destruct (run_inv n n1) as [Hi1 (?&?&?)]; [by eapply run_step; [..|constructor]|done|].
  destruct Hc as (?&?&?). apply IH; [done| |done]. split_and!; congruence.
Qed.

(** The daemon only relays.  Over any sequence of calls, a runtime that [new] accepted never
    hands a packet to a session, and every frame it sends carries the packet of a frame that
    [process_frame] forwarded, on the interface and to the next hop of its route, from that
    interface's own address. *)
Theorem native_only_forwards m b macs n n1 :
  runtime_new m b macs = Ok (rt n) → run n n1 → log (world n) = [] → handed (world n) = [] →
  handed (world n1) = [] ∧ Forall (forwards (rt n)) (log (world n1)).
Proof.
  intros (Hi & _ & Hm & _ & Hl)%new_inv Hrun Hlog Hh.
  destruct (run_transit (rt n) n n1 Hrun Hi) as (Hs & sent & Hsent & Hf); [done|by rewrite Hm|].
  split; [by rewrite Hs|]. by rewrite Hsent, Hlog.
Qed.
End Sends.

(** ** Witnesses *)

(** Frames waiting on descriptors, and whether the link writes whole frames. *)
Record QueueIo : Set := mkQueue { queue : list (Z * bytes); writes : bool }.

#[export] Instance queue_io : NativeIo QueueIo := {|
  io_receive := λ id buffer q,
    match queue q with
    | (d, f) :: rest =>
        if d =? id then (Ok (Some (len f)), f ++ drop (length f) buffer, mkQueue rest (writes q))
        else (Ok None, buffer, q)
    | [] => (Ok None, buffer, q)
    end;
  io_send := λ _ frame q, (Ok (if writes q then len frame else 0), q);
|}.

#[export] Instance quiet_events : EventSource QueueIo := {| event := λ q, (Ok false, q) |}.
#[export] Instance queue_clock : Clock QueueIo := {| now := λ q, (Ok (), q) |}.
#[export] Instance queue_sessions : SessionDelivery QueueIo := {| deliver := λ _ _ q, (Ok (), q) |}.

Definition demo_macs : list (Z * bytes) := [(9, demo_mac 23); (7, demo_mac 21)].
Definition demo_runtime : NativeRuntime :=
  mkRuntime demo_manifest demo_budgets demo_macs telemetry_default false.

Lemma demo_runtime_new : runtime_new demo_manifest demo_budgets demo_macs = Ok demo_runtime.
Proof. by vm_compute. Qed.

(** A node with a frame to relay and a malformed one waiting. *)
Definition demo_node (ok : bool) : Node (W:=Logged QueueIo) :=
  mkNode demo_runtime (mkLogged (mkQueue [(7, demo_frame demo_transit); (7, [1; 2; 3])] ok) [] []).
Definition demo_after (ok : bool) := snd (step (demo_node ok)).
Definition demo_after2 := snd (step (demo_after true)).

Lemma demo_step_ok : step (demo_node true) = (Ok (), demo_after true).
Proof. by vm_compute. Qed.

Lemma demo_step_ok2 : step (demo_after true) = (Ok (), demo_after2).
Proof. by vm_compute. Qed.

Lemma demo_step_short : step (demo_node false) = (Err NativeError.ShortWrite, demo_after false).
Proof. by vm_compute. Qed.

Lemma demo_run : run (demo_node true) demo_after2.
Proof.
  eapply run_step; [left; apply demo_step_ok|done|].
  eapply run_step; [left; apply demo_step_ok2|done|constructor].
Qed.

Lemma native_fail_stop_witness :
  stopped (rt (demo_after false)) = true ∧
  ∀ n3, run (demo_after false) n3 → frozen (demo_after false) n3.
Proof.
  destruct (native_fail_stop demo_manifest demo_budgets demo_macs (demo_node false) (demo_node false)
    (Err NativeError.ShortWrite) (demo_after false)) as [Hs Hf];
    [apply demo_runtime_new|constructor|left; apply demo_step_short|done|].
  split; [exact Hs|]. by apply Hf.
Defined.

Lemma native_accounting_witness :
  let t := telemetry (rt demo_after2) in
  received t = 2 ∧ dropped t = 1 ∧ forwarded t = 1 ∧
  received t = dropped t + forwarded t + delivered t.
Proof.
  split_and!; [by vm_compute..|].
  apply (native_accounting demo_manifest demo_budgets demo_macs (demo_node true) demo_after2);
    [apply demo_runtime_new|apply demo_run|by vm_compute|by vm_compute].
Defined.

Lemma native_only_forwards_witness :
  length (log (world demo_after2)) = 1%nat ∧ handed (world demo_after2) = [] ∧
  Forall (forwards demo_runtime) (log (world demo_after2)).
Proof.
  split; [by vm_compute|].
  apply (native_only_forwards demo_manifest demo_budgets demo_macs (demo_node true) demo_after2);
    [apply demo_runtime_new|apply demo_run|done|done].
Defined.
