(* ===== verification/Bpf.v ===== *)
(** * The ingress packet filter (src/rust/crates/r8d/src/linux.rs, [r8_bpf_program])

    The classic BPF program the daemon attaches to its packet sockets.  The
    machine that runs it is in the kernel and is a parameter: its documented
    instruction semantics are the laws of [ClassicBpfLaws], for the five
    instructions the program uses.  The theorem: the filter passes exactly the
    frames with the R8 ethertype and version nibble, so it discards nothing the
    forwarding code would deliver, forward or send. *)

From S2P Require Import Prelude Wire Checksum Codec Crypto SessionMsg Replay SessionCrypto Directional Manifest Forward Native.
From stdpp Require Import gmap.
#[local] Open Scope Z_scope.

Definition ETH_P_R8 : Z := 0x88b5.
Definition R8_VERSION_MASK : Z := 0xf0.
Definition R8_VERSION_NIBBLE : Z := 0x80.

(** [libc::sock_filter] *)
Record sock_filter : Set := mkFilter { code : Z; jt : nat; jf : nat; k : Z }.

#[export] Instance sock_filter_eq_dec : EqDecision sock_filter.
Proof. solve_decision. Defined.

Definition r8_bpf_program : list sock_filter := [
  mkFilter 0x28 0 0 12;
  mkFilter 0x15 0 4 ETH_P_R8;
  mkFilter 0x30 0 0 14;
  mkFilter 0x54 0 0 R8_VERSION_MASK;
  mkFilter 0x15 0 1 R8_VERSION_NIBBLE;
  mkFilter 0x06 0 0 u32_max;
  mkFilter 0x06 0 0 0
].

(** ** The machine

    [bpf_run rest packet a] runs the instructions [rest] with the accumulator [a] and returns
    the verdict: the number of bytes of the packet that are kept, 0 to discard it. *)
Class ClassicBpf := { bpf_run : list sock_filter → bytes → Z → Z }.

(** The instructions the filter uses.  A load outside the packet ends the program with verdict 0;
    offsets from [2^31] on address kernel data and are not described. *)
Class ClassicBpfLaws (B : ClassicBpf) : Prop := {
  bpf_ldh i j off rest packet a : 0 ≤ off < 2 ^ 31 →
    bpf_run (mkFilter 0x28 i j off :: rest) packet a =
    match packet !! Z.to_nat off, packet !! Z.to_nat (off + 1) with
    | Some hi, Some lo => bpf_run rest packet (be_value [hi; lo])
    | _, _ => 0
    end;
  bpf_ldb i j off rest packet a : 0 ≤ off < 2 ^ 31 →
    bpf_run (mkFilter 0x30 i j off :: rest) packet a =
    match packet !! Z.to_nat off with Some b => bpf_run rest packet b | None => 0 end;
  bpf_and i j mask rest packet a :
    bpf_run (mkFilter 0x54 i j mask :: rest) packet a = bpf_run rest packet (Z.land a mask);
  bpf_jeq i j v rest packet a :
    bpf_run (mkFilter 0x15 i j v :: rest) packet a =
    bpf_run (drop (if a =? v then i else j) rest) packet a;
  bpf_ret i j v rest packet a : bpf_run (mkFilter 0x06 i j v :: rest) packet a = v;
}.

(** The frame passes the program whole. *)
Definition passes `{ClassicBpf} (program : list sock_filter) (frame : bytes) : Prop :=
  bpf_run program frame 0 = u32_max.

(** An Ethernet II frame with the R8 ethertype whose packet starts with the R8 version. *)
Definition r8_frame (frame : bytes) : Prop :=
  ∃ destination source b0 rest,
    frame = destination ++ source ++ be_bytes 2 ETH_P_R8 ++ b0 :: rest ∧
    length destination = 6%nat ∧ length source = 6%nat ∧ Z.shiftr b0 4 = VERSION.

(** The bytes the filter reads. *)
Lemma r8_frame_bytes frame :
  r8_frame frame ↔
  ∃ b0, frame !! 12%nat = Some 0x88 ∧ frame !! 13%nat = Some 0xb5 ∧ frame !! 14%nat = Some b0 ∧
        Z.shiftr b0 4 = VERSION.
Proof.
  split.
  - intros (d & s & b0 & rest & -> & Hd & Hs & Hv). exists b0.
    do 6 (destruct d as [|? d]; [done|]). destruct d; [|done].
    do 6 (destruct s as [|? s]; [done|]). by destruct s.
  - intros (b0 & H12 & H13 & H14 & Hv).
    exists (take 6 frame), (take 6 (drop 6 frame)), b0, (drop 15 frame).
    pose proof (lookup_lt_Some _ _ _ H14). rewrite !length_take, length_drop.
    split_and!; [|lia..|done].
    rewrite <- (take_drop 6 frame) at 1. f_equal.
    rewrite <- (take_drop 6 (drop 6 frame)) at 1. f_equal.
    rewrite drop_drop. change (6 + 6)%nat with 12%nat.
    rewrite (drop_S _ _ _ H12), (drop_S _ _ _ H13), (drop_S _ _ _ H14). done.
Qed.

Lemma version_nibble b :
  is_u8 b → Z.land b R8_VERSION_MASK =? R8_VERSION_NIBBLE = (Z.shiftr b 4 =? VERSION).
Proof.
  intros Hb. revert b Hb.
  assert (Forall (λ b, Z.land b R8_VERSION_MASK =? R8_VERSION_NIBBLE = (Z.shiftr b 4 =? VERSION))
            (seqZ 0 256)) as Hall by (apply (bool_decide_unpack _); by vm_compute).
  intros b Hb. rewrite Forall_forall in Hall. apply Hall, elem_of_seqZ. solve_width.
Qed.

Section Filter.
Context `{B : ClassicBpf} {L : ClassicBpfLaws B}.

Lemma ethertype_bytes hi lo v :
  is_u8 hi → is_u8 lo → is_u16 v →
  be_value [hi; lo] = v ↔ hi = v / 256 ∧ lo = v mod 256.
Proof. intros ???. unfold be_value. simpl. unfold_widths. Z.div_mod_to_equations. lia. Qed.

(** The verdict on every frame. *)
Lemma filter_verdict frame :
  wf_bytes frame →
  bpf_run r8_bpf_program frame 0 = if bool_decide (
    frame !! 12%nat = Some 0x88 ∧ frame !! 13%nat = Some 0xb5 ∧
    (λ b, Z.shiftr b 4) <$> frame !! 14%nat = Some VERSION) then u32_max else 0.
Proof.
  intros Hw. unfold r8_bpf_program.
  rewrite bpf_ldh by lia. change (Z.to_nat 12) with 12%nat. change (Z.to_nat (12 + 1)) with 13%nat.
  destruct (frame !! 12%nat) as [hi|] eqn:H12; [|by rewrite bool_decide_false by naive_solver].
  destruct (frame !! 13%nat) as [lo|] eqn:H13; [|by rewrite bool_decide_false by naive_solver].
  assert (is_u8 hi ∧ is_u8 lo) as [Hhi Hlo] by eauto using wf_bytes_lookup.
  pose proof (ethertype_bytes hi lo ETH_P_R8 Hhi Hlo ltac:(done)) as Het.
  change (ETH_P_R8 / 256) with 0x88 in Het. change (ETH_P_R8 mod 256) with 0xb5 in Het.
  rewrite bpf_jeq. destruct (Z.eqb_spec (be_value [hi; lo]) ETH_P_R8) as [Heq|Hne]; simpl drop.
  2: { rewrite bpf_ret. rewrite bool_decide_false; [done|]. intros ([= ->] & [= ->] & _). naive_solver. }
  apply Het in Heq as [-> ->].
  rewrite bpf_ldb by lia. change (Z.to_nat 14) with 14%nat.
  destruct (frame !! 14%nat) as [b|] eqn:H14; [|by rewrite bool_decide_false by naive_solver].
  rewrite bpf_and, bpf_jeq, version_nibble by eauto using wf_bytes_lookup.
  destruct (Z.eqb_spec (Z.shiftr b 4) VERSION) as [Hv|Hv]; simpl drop; rewrite bpf_ret.
  - by rewrite bool_decide_true by (simpl; rewrite Hv; done).
  - rewrite bool_decide_false; [done|]. simpl. naive_solver.
Qed.

Lemma passes_iff frame : wf_bytes frame → passes r8_bpf_program frame ↔ r8_frame frame.
Proof.
  intros Hw. unfold passes. rewrite filter_verdict by done. rewrite r8_frame_bytes.
  case_bool_decide as Hb.
  - split; [|done]. intros _. destruct Hb as (? & ? & Hv).
    destruct (frame !! 14%nat) as [b|]; [|done]. exists b. naive_solver.
  - split; [done|]. intros (b & ? & ? & H14 & Hv). destruct Hb. rewrite H14. simpl. by rewrite Hv.
Qed.

(** A valid packet starts with the version nibble. *)
Lemma header_version h n payload :
  wf_header h → profile h ≤ 3 →
  ∃ b0 rest, header_bytes h n ++ payload = b0 :: rest ∧ Z.shiftr b0 4 = VERSION.
Proof.
  intros (Hp & _) ?. eexists _, _. split; [done|]. apply version_profile. solve_width.
Qed.

Lemma r8_frame_packet dm sm h n payload :
  wf_header h → profile h ≤ 3 → length dm = 6%nat → length sm = 6%nat →
  r8_frame (dm ++ sm ++ be_bytes 2 R8_ETHERTYPE ++ header_bytes h n ++ payload).
Proof.
  intros Hh Hp Hd Hs. destruct (header_version h n payload Hh Hp) as (b0 & rest & -> & Hv).
  by exists dm, sm, b0, rest.
Qed.

Lemma frame_rule_r8 m budgets ingress frame a :
  wf_bytes frame → frame_rule m budgets ingress frame a → r8_frame frame.
Proof.
  intros Hw Ha.
  assert (∃ i sm p h pl, admitted m budgets ingress frame i sm p h pl) as (i & sm & p & h & pl & Had)
    by (destruct Ha; eauto 10).
  destruct Had as (dm & b & -> & Hd & Hs & _ & _ & _ & Hu).
  apply wf_bytes_app_1 in Hw as [_ [_ [_ Hw]%wf_bytes_app_1]%wf_bytes_app_1].
  destruct (len_unpack _ _ _ _ Hw Hu) as (Hh & -> & Hv & _).
  apply validate_header_inv in Hv as [_ ?]. by apply r8_frame_packet.
Qed.

Lemma frame_rule_forward m budgets ingress frame p egress mac :
  wf_bytes frame → frame_rule m budgets ingress frame (Forward p egress mac) →
  ∃ h n payload, wf_header h ∧ profile h ≤ 3 ∧ p = header_bytes h n ++ payload.
Proof.
  intros Hw Ha. inversion Ha as [|i sm packet h pl r b Had]; subst.
  destruct Had as (dm & ? & -> & _ & _ & _ & _ & _ & Hu).
  apply wf_bytes_app_1 in Hw as [_ [_ [_ Hw]%wf_bytes_app_1]%wf_bytes_app_1].
  destruct (len_unpack _ _ _ _ Hw Hu) as (Hh & _ & Hv & _).
  apply validate_header_inv in Hv as [_ Hp]. exists (with_hop (hop_limit h - 1) h), (len pl), pl. split_and!; [|by destruct h|done].
  apply wf_header_with_hop; [|done]. destruct Hh as (_&_&_&?&_). solve_width.
Qed.

(** C34: the ingress filter keeps a frame whole exactly when it is an Ethernet II frame with the R8
    ethertype and the R8 version nibble, and discards every other one; so it passes every frame
    the daemon delivers or forwards, and the frame the daemon emits for a forwarded packet passes
    the filter of the next node. *)
Theorem filter_exact frame :
  wf_bytes frame →
  (r8_frame frame → bpf_run r8_bpf_program frame 0 = u32_max) ∧
  (¬ r8_frame frame → bpf_run r8_bpf_program frame 0 = 0) ∧
  (∀ m budgets ingress a, wf_routes m →
     process_frame (E:=NativeError.t) m budgets ingress frame = Ok a → is_drop a = false →
     passes r8_bpf_program frame ∧
     ∀ p egress mac source emitted,
       a = Forward p egress mac → length mac = 6%nat → wf_array 6 source → wf_bytes mac →
       build_ethernet_frame mac source p = Ok emitted → wf_bytes p →
       passes r8_bpf_program emitted).
Proof.
  intros Hw. split_and!.
  - by apply passes_iff.
  - rewrite r8_frame_bytes, filter_verdict by done. case_bool_decide as Hb; [|done].
    intros []. destruct Hb as (? & ? & Hv). destruct (frame !! 14%nat) as [b|]; [|done].
    exists b. naive_solver.
  - intros m budgets ingress a Hm Ha Hd.
    apply (process_frame_iff_rule m budgets ingress frame Hm Hw) in Ha; [|done].
    split; [by eapply passes_iff, frame_rule_r8|].
    intros p egress mac source emitted -> Hmac [Hs Hsw] Hmw He Hp.
    destruct (frame_rule_forward _ _ _ _ _ _ _ Hw Ha) as (h & n & pl & Hh & Hpr & ->).
    unfold build_ethernet_frame in He. case_match; [done|]. apply Ok_inj in He as <-.
    apply passes_iff; [|by apply r8_frame_packet].
    apply wf_bytes_app; [done|]. apply wf_bytes_app; [done|].
    apply wf_bytes_app; [apply wf_be_bytes|done].
Qed.

End Filter.

(** ** An interpreter that satisfies the laws *)

(** Skipped instructions are counted, so the recursion follows the program. *)
Fixpoint exec (program : list sock_filter) (skip : nat) (packet : bytes) (a : Z) : Z :=
  match program, skip with
  | [], _ => 0
  | _ :: rest, S skip => exec rest skip packet a
  | i :: rest, O =>
      if code i =? 0x28 then
        match packet !! Z.to_nat (k i), packet !! Z.to_nat (k i + 1) with
        | Some hi, Some lo => exec rest 0 packet (be_value [hi; lo])
        | _, _ => 0
        end
      else if code i =? 0x30 then
        match packet !! Z.to_nat (k i) with Some b => exec rest 0 packet b | None => 0 end
      else if code i =? 0x54 then exec rest 0 packet (Z.land a (k i))
      else if code i =? 0x15 then exec rest (if a =? k i then jt i else jf i) packet a
      else if code i =? 0x06 then k i
      else 0
  end.

Lemma exec_skip program skip packet a : exec program skip packet a = exec (drop skip program) 0 packet a.
Proof. revert skip. induction program; intros [|skip]; by simpl. Qed.

#[export] Instance demo_bpf : ClassicBpf := {| bpf_run := λ program, exec program 0 |}.
#[export] Instance demo_bpf_laws : ClassicBpfLaws demo_bpf.
Proof. split; intros; try done. exact (exec_skip rest _ packet a). Qed.

Definition demo_emitted : bytes :=
  demo_mac 3 ++ demo_mac 9 ++ be_bytes 2 R8_ETHERTYPE ++ demo_forwarded.

Lemma filter_exact_witness :
  bpf_run r8_bpf_program (demo_frame demo_transit) 0 = u32_max ∧
  bpf_run r8_bpf_program (demo_frame (0x45 :: demo_transit)) 0 = 0 ∧
  passes r8_bpf_program demo_emitted.
Proof.
  assert (wf_bytes (demo_frame demo_transit)) as Hw by (apply (bool_decide_unpack _); by vm_compute).
  assert (wf_bytes (demo_frame (0x45 :: demo_transit))) as Hw'
    by (apply (bool_decide_unpack _); by vm_compute).
  split_and!.
  - apply (filter_exact _ Hw), r8_frame_bytes. exists 0x83. by vm_compute.
  - apply (filter_exact _ Hw'). intros (b & _ & _ & H14 & Hv)%r8_frame_bytes.
    vm_compute in H14. injection H14 as <-. by vm_compute in Hv.
  - destruct (filter_exact _ Hw) as (_ & _ & Hf).
    destruct (Hf demo_manifest demo_budgets 7 _ demo_wf_routes demo_process_frame eq_refl) as [_ He].
    apply (He demo_forwarded 9 (demo_mac 3) (demo_mac 9)); try done;
      apply (bool_decide_unpack _); by vm_compute.
Defined.
