(* ===== verification/Text.v ===== *)
(** * Text

    The functions of the Rust standard library on strings that the launcher
    uses.  A [str] that is read from a file is the list of its characters (the
    Unicode scalar values); a length in bytes and the byte-wise tests are taken
    of its UTF-8 encoding, as in the library.  Names, paths and arguments are
    [string]s, whose characters are the bytes of the encoding. *)

From S2P Require Import Prelude.
From stdpp Require Import gmap sorting strings.
#[local] Open Scope Z_scope.

Abbreviation text := (list Z).

Definition utf8_char (c : Z) : bytes :=
  if c <? 0x80 then [c] else
  if c <? 0x800 then [0xc0 + c / 64; 0x80 + c mod 64] else
  if c <? 0x10000 then [0xe0 + c / 4096; 0x80 + c / 64 mod 64; 0x80 + c mod 64] else
  [0xf0 + c / 262144; 0x80 + c / 4096 mod 64; 0x80 + c / 64 mod 64; 0x80 + c mod 64].

(** [str::as_bytes] *)
Definition utf8 (t : text) : bytes := t ≫= utf8_char.

(** [char::is_whitespace]: the characters with the property White_Space. *)
Definition is_whitespace (c : Z) : bool :=
  ((9 <=? c) && (c <=? 13)) || (c =? 32) || (c =? 0x85) || (c =? 0xa0) || (c =? 0x1680)
  || ((0x2000 <=? c) && (c <=? 0x200a)) || (c =? 0x2028) || (c =? 0x2029) || (c =? 0x202f)
  || (c =? 0x205f) || (c =? 0x3000).

(** The pieces between the characters that satisfy [p]; there is always one. *)
Fixpoint split_on (p : Z → bool) (t : text) : list text :=
  match t with
  | [] => [[]]
  | c :: t =>
      match split_on p t with
      | w :: ws => if p c then [] :: w :: ws else (c :: w) :: ws
      | [] => [[]]
      end
  end.

(** [str::split_whitespace] *)
Definition split_whitespace (t : text) : list text :=
  filter (λ w, w ≠ []) (split_on is_whitespace t).

(** [str::trim] *)
Fixpoint trim_start (t : text) : text :=
  match t with c :: t' => if is_whitespace c then trim_start t' else t | [] => [] end.
Definition trim (t : text) : text := reverse (trim_start (reverse (trim_start t))).

(** [str::lines]: a carriage return belongs to the terminator of a terminated line only. *)
Definition strip_cr (l : text) : text :=
  match last l with Some 13 => removelast l | _ => l end.
Fixpoint line_list (pieces : list text) : list text :=
  match pieces with
  | [] => []
  | [l] => if bool_decide (l = []) then [] else [l]
  | l :: pieces => strip_cr l :: line_list pieces
  end.
Definition lines (t : text) : list text := line_list (split_on (λ c, c =? 10) t).

(** [str::strip_prefix] *)
Fixpoint str_strip_prefix (prefix t : text) : option text :=
  match prefix, t with
  | [], t => Some t
  | p :: prefix, c :: t => if p =? c then str_strip_prefix prefix t else None
  | _ :: _, [] => None
  end.

(** ** Bytes *)

Definition is_ascii_digit (b : Z) : bool := (48 <=? b) && (b <=? 57).
Definition is_ascii_hexdigit (b : Z) : bool :=
  is_ascii_digit b || ((65 <=? b) && (b <=? 70)) || ((97 <=? b) && (b <=? 102)).
Definition is_ascii_alphanumeric (b : Z) : bool :=
  is_ascii_digit b || ((65 <=? b) && (b <=? 90)) || ((97 <=? b) && (b <=? 122)).

(** [char::to_digit] on a byte *)
Definition to_digit (radix b : Z) : option Z :=
  let d := if is_ascii_digit b then b - 48
           else if (97 <=? b) && (b <=? 122) then b - 87
           else if (65 <=? b) && (b <=? 90) then b - 55 else radix in
  if d <? radix then Some d else None.

(** [from_str_radix] at an unsigned type whose greatest value is [max]: an optional plus sign and
    at least one digit; every step is checked for overflow. *)
Fixpoint parse_digits (radix max acc : Z) (s : bytes) : option Z :=
  match s with
  | [] => Some acc
  | b :: s =>
      d ← to_digit radix b;
      let v := acc * radix + d in
      if max <? v then None else parse_digits radix max v s
  end.
Definition from_str_radix (radix max : Z) (s : bytes) : option Z :=
  match s with
  | [] => None
  | [b] => if (b =? 43) || (b =? 45) then None else parse_digits radix max 0 s
  | b :: s' => if b =? 43 then parse_digits radix max 0 s' else parse_digits radix max 0 s
  end.

(** ** Ordered sets of names

    A [BTreeSet<String>] is its elements in the order of their bytes. *)
Definition btree_set (names : list string) : list string :=
  merge_sort (λ a b, Is_true (String.leb a b)) (elements (list_to_set names : gset string)).

Lemma elem_of_btree_set n names : n ∈ btree_set names ↔ n ∈ names.
Proof.
  unfold btree_set. rewrite merge_sort_Permutation, elem_of_elements, elem_of_list_to_set. done.
Qed.

(** The set has as many elements as the list exactly when the list has no repetition. *)
Lemma length_btree_set names : length (btree_set names) = length names ↔ NoDup names.
Proof.
  unfold btree_set. rewrite merge_sort_Permutation. change (length (elements ?X)) with (size X).
  split.
  - induction names as [|n names IH]; [constructor|]. rewrite list_to_set_cons. simpl. intros Hs.
    assert (size (list_to_set names : gset string) ≤ length names)%nat as Hle.
    { clear. induction names as [|n names IH]; [done|]. rewrite list_to_set_cons.
      pose proof (size_union_alt {[n]} (list_to_set names : gset string)) as Hu.
      rewrite size_singleton in Hu.
      pose proof (subseteq_size ((list_to_set names : gset string) ∖ {[n]}) (list_to_set names)
        ltac:(set_solver)). simpl. lia. }
    destruct (decide (n ∈ names)) as [Hn|Hn].
    + assert ({[n]} ∪ list_to_set names = (list_to_set names : gset string)) as Heq by set_solver.
      rewrite Heq in Hs. lia.
    + constructor; [done|]. apply IH. rewrite size_union, size_singleton in Hs by set_solver. lia.
  - intros Hn. by rewrite size_list_to_set.
Qed.

(** ** Hexadecimal fields *)

(** A digit of a hexadecimal field, and a value as [n] digits, the most significant first. *)
Definition hex_digit (d : Z) : Z := if d <? 10 then 48 + d else 87 + d.
Fixpoint hex_field (n : nat) (v : Z) : text :=
  match n with O => [] | S n => hex_field n (v / 16) ++ [hex_digit (v mod 16)] end.

Lemma hex_digit_spec d :
  0 ≤ d < 16 → to_digit 16 (hex_digit d) = Some d ∧ is_whitespace (hex_digit d) = false ∧
               utf8_char (hex_digit d) = [hex_digit d] ∧ hex_digit d ≠ 43 ∧ hex_digit d ≠ 45.
Proof.
  intros Hd. revert d Hd.
  assert (Forall (λ d, to_digit 16 (hex_digit d) = Some d ∧ is_whitespace (hex_digit d) = false ∧
               utf8_char (hex_digit d) = [hex_digit d] ∧ hex_digit d ≠ 43 ∧ hex_digit d ≠ 45)
            (seqZ 0 16)) as Hall by (apply (bool_decide_unpack _); by vm_compute).
  intros d Hd. rewrite Forall_forall in Hall. apply Hall, elem_of_seqZ. lia.
Qed.

Lemma hex_field_digits n v : Forall (λ c, ∃ d, 0 ≤ d < 16 ∧ c = hex_digit d) (hex_field n v).
Proof.
  revert v. induction n as [|n IH]; intros v; simpl; [constructor|].
  apply Forall_app. split; [apply IH|]. constructor; [|constructor].
  exists (v mod 16). split; [apply Z.mod_pos_bound; lia|done].
Qed.

Lemma trim_no_whitespace t : Forall (λ c, is_whitespace c = false) t → trim t = t.
Proof.
  assert (∀ t, Forall (λ c, is_whitespace c = false) t → trim_start t = t) as Hs
    by (intros ? [|c t' Hc _]; simpl; [done|by rewrite Hc]).
  intros Ht. unfold trim. rewrite (Hs t), Hs by (rewrite ?Forall_reverse; done).
  apply reverse_involutive.
Qed.

Lemma utf8_ascii t : Forall (λ c, utf8_char c = [c]) t → utf8 t = t.
Proof. induction 1 as [|c t Hc _ IH]; [done|]. change (utf8_char c ++ utf8 t = c :: t). by rewrite Hc, IH. Qed.

Lemma parse_digits_hex max n v acc tail :
  0 ≤ acc → 0 ≤ v < 16 ^ Z.of_nat n → acc * 16 ^ Z.of_nat n + v ≤ max →
  parse_digits 16 max acc (hex_field n v ++ tail) =
  parse_digits 16 max (acc * 16 ^ Z.of_nat n + v) tail.
Proof.
  revert v tail. induction n as [|n IH]; intros v tail Ha Hv Hm.
  { simpl. f_equal. change (16 ^ Z.of_nat 0) with 1 in *. lia. }
  replace (Z.of_nat (S n)) with (Z.of_nat n + 1) in * by lia.
  rewrite Z.pow_add_r in * by lia. change (16 ^ 1) with 16 in *.
  pose proof (Z.div_mod v 16 ltac:(lia)). pose proof (Z.mod_pos_bound v 16 ltac:(lia)).
  set (q := v / 16) in *. set (r := v mod 16) in *. set (w := 16 ^ Z.of_nat n) in *.
  simpl. fold q r. rewrite <- (assoc_L (++)), IH by nia. simpl.
  rewrite (proj1 (hex_digit_spec r ltac:(lia))). simpl.
  replace ((acc * w + q) * 16 + r) with (acc * (w * 16) + v) by nia.
  by rewrite (proj2 (Z.ltb_ge _ _)) by lia.
Qed.

(** What the code reads back from a field of digits. *)
Lemma parse_hex_field max n v :
  0 ≤ v < 16 ^ Z.of_nat (S (S n)) → v ≤ max →
  from_str_radix 16 max (utf8 (trim (hex_field (S (S n)) v))) = Some v.
Proof.
  intros Hv Hm. pose proof (hex_field_digits (S (S n)) v) as Hd.
  rewrite trim_no_whitespace, utf8_ascii.
  2,3: eapply Forall_impl; [exact Hd|]; by intros c (d & Hr & ->); destruct (hex_digit_spec d Hr) as (_ & ? & ? & _).
  pose proof (parse_digits_hex max (S (S n)) v 0 [] ltac:(lia) Hv ltac:(lia)) as Hp.
  rewrite app_nil_r in Hp. rewrite Z.mul_0_l, Z.add_0_l in Hp. simpl parse_digits at 2 in Hp.
  rewrite <- Hp.
  assert (2 ≤ length (hex_field (S (S n)) v))%nat as Hl by (simpl; rewrite !length_app; simpl; lia).
  destruct (hex_field (S (S n)) v) as [|c [|c' s]]; simpl in Hl; [lia..|].
  apply Forall_cons_1 in Hd as [(d & Hr & ->) _]. apply hex_digit_spec in Hr as (_ & _ & _ & Hp' & _).
  unfold from_str_radix. by rewrite (proj2 (Z.eqb_neq _ _) Hp').
Qed.
