(* ===== verification/Loc.v ===== *)
(** * Locators and addresses as text (src/rust/crates/r8-proto/src/lib.rs, [parse_loc], [fmt_loc])

    A locator is written as an IPv6 address.  The parser and the printer are
    those of the standard library, [Ipv6Addr::from_str] and its [Display]; the
    programs also read socket addresses with the library's parser.  The theorem:
    a printed locator parses back to itself. *)

From S2P Require Import Prelude Text.
From stdpp Require Import gmap strings.
#[local] Open Scope Z_scope.

(** ** The parser

    A reader takes the remaining text and returns what it read and the rest; a
    reader that fails consumes nothing. *)

Definition read_given_char (c : Z) (s : bytes) : option bytes :=
  match s with b :: s => if b =? c then Some s else None | [] => None end.

(** The digits in front, at most [limit] of them where there is a limit; the value is checked
    against the greatest of the type after each digit where there is none. *)
Fixpoint read_digits (radix : Z) (limit : option nat) (max result : Z) (count : nat) (s : bytes) :
  option (Z * nat * bytes) :=
  match s with
  | [] => Some (result, count, s)
  | b :: s' =>
      match to_digit radix b with
      | None => Some (result, count, s)
      | Some d =>
          let result := result * radix + d in
          match limit with
          | Some limit =>
              if (limit <? S count)%nat then None
              else read_digits radix (Some limit) max result (S count) s'
          | None => if max <? result then None else read_digits radix None max result (S count) s'
          end
      end
  end.

Definition read_number (radix : Z) (limit : option nat) (allow_zero_prefix : bool) (max : Z)
    (s : bytes) : option (Z * bytes) :=
  '(result, count, rest) ← read_digits radix limit max 0 0 s;
  if (count =? 0)%nat then None else
  if negb allow_zero_prefix && bool_decide (head s = Some 48) && (1 <? count)%nat then None else
  if max <? result then None else Some (result, rest).

(** [read_separator]: the separator before every item but the first. *)
Definition read_separator {A} (sep : Z) (index : nat) (inner : bytes → option (A * bytes))
    (s : bytes) : option (A * bytes) :=
  match index with
  | O => inner s
  | S _ => s ← read_given_char sep s; inner s
  end.

Definition read_octet (index : nat) : bytes → option (Z * bytes) :=
  read_separator 46 index (read_number 10 (Some 3%nat) false u8_max).

Definition read_ipv4_addr (s : bytes) : option (bytes * bytes) :=
  '(a, s) ← read_octet 0 s;
  '(b, s) ← read_octet 1 s;
  '(c, s) ← read_octet 2 s;
  '(d, s) ← read_octet 3 s;
  Some ([a; b; c; d], s).

(** [read_groups]: the groups read, whether an IPv4 address ended them, and the rest.  [room] is
    the number of groups that may still come. *)
Fixpoint read_groups (room i : nat) (acc : list Z) (s : bytes) : list Z * bool * bytes :=
  match room with
  | O => (acc, false, s)
  | S room =>
      let v4 := match room with O => None | S _ => read_separator 58 i read_ipv4_addr s end in
      match v4 with
      | Some (octets, s) =>
          (acc ++ [be_value (take 2 octets); be_value (drop 2 octets)], true, s)
      | None =>
          match read_separator 58 i (read_number 16 (Some 4%nat) true u16_max) s with
          | Some (g, s) => read_groups room (S i) (acc ++ [g]) s
          | None => (acc, false, s)
          end
      end
  end.

Definition octets (segments : list Z) : bytes := segments ≫= be_bytes 2.

Definition read_ipv6_addr (s : bytes) : option (bytes * bytes) :=
  let '(head, head_ipv4, s) := read_groups 8 0 [] s in
  if (length head =? 8)%nat then Some (octets head, s) else
  if head_ipv4 : bool then None else
  s ← read_given_char 58 s; s ← read_given_char 58 s;
  let '(tail, _, s) := read_groups (8 - (length head + 1)) 0 [] s in
  Some (octets (head ++ replicate (8 - length head - length tail) 0 ++ tail), s).

(** [FromStr]: the whole text is read. *)
Definition parse_all {A} (read : bytes → option (A * bytes)) (s : bytes) : option A :=
  match read s with Some (a, []) => Some a | _ => None end.

Definition parse_loc (s : string) : option bytes := parse_all read_ipv6_addr (ascii_bytes s).

(** ** The printer *)

(** [{:x}]: no leading zero, one digit at least. *)
Definition fmt_hex (g : Z) : bytes :=
  if g <? 0x10 then hex_field 1 g else
  if g <? 0x100 then hex_field 2 g else
  if g <? 0x1000 then hex_field 3 g else hex_field 4 g.

Definition fmt_dec (b : Z) : bytes :=
  if b <? 10 then [48 + b] else
  if b <? 100 then [48 + b / 10; 48 + b mod 10] else
  [48 + b / 100; 48 + b / 10 mod 10; 48 + b mod 10].

(** [fmt_subslice] *)
Fixpoint fmt_tail (gs : list Z) : bytes :=
  match gs with [] => [] | g :: gs => 58 :: fmt_hex g ++ fmt_tail gs end.
Definition fmt_subslice (gs : list Z) : bytes :=
  match gs with [] => [] | g :: gs => fmt_hex g ++ fmt_tail gs end.

(** The longest run of zeros, the first of the longest: start and length. *)
Fixpoint zero_span (i : nat) (longest current : nat * nat) (gs : list Z) : nat * nat :=
  match gs with
  | [] => longest
  | g :: gs =>
      if g =? 0 then
        let current := ((if (snd current =? 0)%nat then i else fst current), S (snd current)) in
        zero_span (S i) (if (snd longest <? snd current)%nat then current else longest) current gs
      else zero_span (S i) longest (0, 0)%nat gs
  end.

Definition segments (l : bytes) : list Z := (λ i, be_value (take 2 (drop (2 * i) l))) <$> seq 0 8.

Definition mapped_prefix : bytes := replicate 10 0 ++ [0xff; 0xff].

Definition fmt_ipv4 (octets : bytes) : bytes :=
  match octets with
  | [a; b; c; d] => fmt_dec a ++ 46 :: fmt_dec b ++ 46 :: fmt_dec c ++ 46 :: fmt_dec d
  | _ => []
  end.

Definition fmt_ipv6 (l : bytes) : bytes :=
  if bool_decide (take 12 l = mapped_prefix) then ascii_bytes "::ffff:" ++ fmt_ipv4 (drop 12 l) else
  let gs := segments l in
  let '(start, n) := zero_span 0 (0, 0)%nat (0, 0)%nat gs in
  if (1 <? n)%nat then fmt_subslice (take start gs) ++ [58; 58] ++ fmt_subslice (drop (start + n) gs)
  else fmt_subslice gs.

(** A string of ASCII bytes. *)
Definition string_of_bytes (b : bytes) : string :=
  foldr (λ c, String (Ascii.ascii_of_N (Z.to_N c))) EmptyString b.

Definition fmt_loc (l : bytes) : string := string_of_bytes (fmt_ipv6 l).

(** ** Socket addresses *)

Inductive SocketAddr : Set :=
| V4 (ip : bytes) (port : Z)
| V6 (ip : bytes) (port flowinfo scope : Z).

#[export] Instance SocketAddr_eq_dec : EqDecision SocketAddr.
Proof. solve_decision. Defined.

Definition port_of (a : SocketAddr) : Z := match a with V4 _ p => p | V6 _ p _ _ => p end.

Definition read_port (s : bytes) : option (Z * bytes) :=
  s ← read_given_char 58 s; read_number 10 None true u16_max s.

Definition read_scope_id (s : bytes) : option (Z * bytes) :=
  s ← read_given_char 37 s; read_number 10 None true u32_max s.

Definition read_socket_addr_v4 (s : bytes) : option (SocketAddr * bytes) :=
  '(ip, s) ← read_ipv4_addr s; '(port, s) ← read_port s; Some (V4 ip port, s).

Definition read_socket_addr_v6 (s : bytes) : option (SocketAddr * bytes) :=
  s ← read_given_char 91 s;
  '(ip, s) ← read_ipv6_addr s;
  let '(scope, s) := match read_scope_id s with Some r => r | None => (0, s) end in
  s ← read_given_char 93 s;
  '(port, s) ← read_port s;
  Some (V6 ip port 0 scope, s).

Definition read_socket_addr (s : bytes) : option (SocketAddr * bytes) :=
  match read_socket_addr_v4 s with Some r => Some r | None => read_socket_addr_v6 s end.

Definition parse_socket_addr (s : string) : option SocketAddr :=
  parse_all read_socket_addr (ascii_bytes s).

Example loc_examples :
  parse_loc "::1" = Some (replicate 15 0 ++ [1]) ∧
  fmt_loc (replicate 15 0 ++ [1]) = "::1"%string ∧
  fmt_loc ([0x20; 1; 0xd; 0xb8] ++ replicate 8 0 ++ [0; 0xa; 0; 0]) = "2001:db8::a:0"%string ∧
  parse_loc "::ffff:10.0.255.1" = Some (mapped_prefix ++ [10; 0; 255; 1]) ∧
  fmt_loc (mapped_prefix ++ [10; 0; 255; 1]) = "::ffff:10.0.255.1"%string ∧
  parse_loc "1:2:3:4:5:6:7::" = Some (octets [1; 2; 3; 4; 5; 6; 7; 0]) ∧
  parse_loc "1::2::3" = None ∧ parse_loc "12345::" = None ∧ parse_loc "::1 " = None ∧
  parse_loc "1:2:3:4:5:6:7:8:9" = None ∧ parse_loc "::1.2.3.04" = None ∧
  parse_socket_addr "127.0.0.1:9" = Some (V4 [127; 0; 0; 1] 9) ∧
  parse_socket_addr "[::1%3]:80" = Some (V6 (replicate 15 0 ++ [1]) 80 0 3) ∧
  parse_socket_addr "127.0.0.1:65536" = None ∧ parse_socket_addr "127.0.0.1" = None.
Proof. by vm_compute. Qed.

(** ** A printed locator parses back *)

(** The text that follows a number does not go on with a digit. *)
Definition stops (radix : Z) (rest : bytes) : Prop :=
  match rest with b :: _ => to_digit radix b = None | [] => True end.

Lemma read_digits_stop radix limit max result count rest :
  stops radix rest → read_digits radix limit max result count rest = Some (result, count, rest).
Proof. destruct rest as [|b rest]; [done|]. simpl. by intros ->. Qed.

Lemma read_digits_step radix limit max result count b d s :
  to_digit radix b = Some d → (count < limit)%nat →
  read_digits radix (Some limit) max result count (b :: s) =
  read_digits radix (Some limit) max (result * radix + d) (S count) s.
Proof. simpl. intros -> Hc. by rewrite (proj2 (Nat.ltb_ge _ _)) by lia. Qed.

Lemma read_digits_hex limit max result count n v s :
  0 ≤ v < 16 ^ Z.of_nat n → (count + n ≤ limit)%nat →
  read_digits 16 (Some limit) max result count (hex_field n v ++ s) =
  read_digits 16 (Some limit) max (result * 16 ^ Z.of_nat n + v) (count + n) s.
Proof.
  revert v s. induction n as [|n IH]; intros v s Hv Hc.
  { rewrite Nat.add_0_r. simpl hex_field. simpl app. f_equal. change (16 ^ Z.of_nat 0) with 1 in *. lia. }
  replace (Z.of_nat (S n)) with (Z.of_nat n + 1) in * by lia.
  rewrite Z.pow_add_r in * by lia. change (16 ^ 1) with 16 in *.
  pose proof (Z.div_mod v 16 ltac:(lia)). pose proof (Z.mod_pos_bound v 16 ltac:(lia)).
  simpl hex_field. rewrite <- (assoc_L (++)), IH by (try split; try apply Z.div_pos; try apply Z.div_lt_upper_bound; lia).
  simpl app. rewrite (read_digits_step _ _ _ _ _ _ (v mod 16)) by (try apply hex_digit_spec; lia).
  f_equal; [nia|lia].
Qed.

Lemma fmt_hex_field g :
  0 ≤ g ≤ u16_max → ∃ n, (1 ≤ n ≤ 4)%nat ∧ fmt_hex g = hex_field n g ∧ 0 ≤ g < 16 ^ Z.of_nat n.
Proof.
  intros Hg. unfold fmt_hex, u16_max in *.
  destruct (Z.ltb_spec g 0x10); [exists 1%nat; split_and!; lia || done|].
  destruct (Z.ltb_spec g 0x100); [exists 2%nat; split_and!; lia || done|].
  destruct (Z.ltb_spec g 0x1000); [exists 3%nat; split_and!; lia || done|].
  exists 4%nat. split_and!; lia || done.
Qed.

Lemma read_number_hex g rest :
  is_u16 g → stops 16 rest →
  read_number 16 (Some 4%nat) true u16_max (fmt_hex g ++ rest) = Some (g, rest).
Proof.
  intros Hg Hr. destruct (fmt_hex_field g Hg) as (n & Hn & -> & Hv). unfold read_number.
  rewrite read_digits_hex, read_digits_stop by (done || lia). simpl. rewrite Z.add_0_l.
  destruct n; [lia|]. simpl. by rewrite (proj2 (Z.ltb_ge _ _)) by (unfold is_u16 in Hg; lia).
Qed.

Lemma to_digit_10 d : 0 ≤ d < 10 → to_digit 10 (48 + d) = Some d.
Proof.
  intros Hd. unfold to_digit, is_ascii_digit.
  rewrite (proj2 (Z.leb_le _ _)), (proj2 (Z.leb_le _ _)) by lia. simpl.
  replace (48 + d - 48) with d by lia. by rewrite (proj2 (Z.ltb_lt _ _)) by lia.
Qed.

Lemma read_number_dec a rest :
  is_u8 a → stops 10 rest →
  read_number 10 (Some 3%nat) false u8_max (fmt_dec a ++ rest) = Some (a, rest).
Proof.
  intros Ha Hr. unfold read_number, fmt_dec. unfold is_u8 in Ha.
  pose proof (Z.div_mod a 10 ltac:(lia)). pose proof (Z.mod_pos_bound a 10 ltac:(lia)).
  pose proof (Z.div_mod a 100 ltac:(lia)). pose proof (Z.mod_pos_bound a 100 ltac:(lia)).
  pose proof (Z.div_mod (a / 10) 10 ltac:(lia)). pose proof (Z.mod_pos_bound (a / 10) 10 ltac:(lia)).
  assert (a / 10 / 10 = a / 100) as Hdd by (rewrite Z.div_div by lia; done).
  unfold u8_max in *.
  destruct (Z.ltb_spec a 10); [|destruct (Z.ltb_spec a 100)]; simpl app;
    repeat (erewrite read_digits_step; [|apply to_digit_10; lia|lia]);
    rewrite read_digits_stop by done; cbn [mbind option_bind].
  - simpl. rewrite andb_false_r. simpl. by rewrite (proj2 (Z.ltb_ge _ _)) by lia.
  - rewrite bool_decide_false by (simpl; intros [=]; lia). simpl.
    rewrite (proj2 (Z.ltb_ge _ _)) by lia. do 2 f_equal. lia.
  - rewrite bool_decide_false by (simpl; intros [=]; lia). simpl.
    rewrite (proj2 (Z.ltb_ge _ _)) by lia. do 2 f_equal. lia.
Qed.

(** *** Groups *)

Lemma read_number_suffix radix limit zero max s v rest :
  read_number radix limit zero max s = Some (v, rest) → ∃ front, s = front ++ rest.
Proof.
  assert (∀ s result count r c rest,
    read_digits radix limit max result count s = Some (r, c, rest) → ∃ front, s = front ++ rest) as Hd.
  { clear. induction s as [|b s IH]; simpl; intros result count r c rest.
    { intros [= _ _ <-]. by exists []. }
    destruct (to_digit radix b); [|intros [= _ _ <-]; by exists []].
    destruct limit as [limit|].
    - case_match; [done|]. intros (front & ->)%IH. by exists (b :: front).
    - case_match; [done|]. intros (front & ->)%IH. by exists (b :: front). }
  unfold read_number. destruct (read_digits _ _ _ _ _ s) as [[[r c] t]|] eqn:Hr; [|done]. simpl.
  repeat case_match; try done. intros [= _ <-]. by eapply Hd.
Qed.

(** An IPv4 address has a dot. *)
Lemma read_ipv4_dotless s : 46 ∉ s → read_ipv4_addr s = None.
Proof.
  intros Hs. unfold read_ipv4_addr, read_octet, read_separator.
  destruct (read_number _ _ _ _ s) as [[a t]|] eqn:Hr; [|done]. simpl.
  apply read_number_suffix in Hr as [front ->]. destruct t as [|b t]; [done|]. simpl.
  destruct (Z.eqb_spec b 46) as [->|]; [|done]. set_solver.
Qed.

(** What may follow the groups: the end, or the two colons. *)
Definition ends_groups (rest : bytes) : Prop := rest = [] ∨ ∃ t, rest = 58 :: 58 :: t.

Lemma ends_groups_stops rest : ends_groups rest → stops 16 rest.
Proof. by intros [->|[t ->]]. Qed.

Lemma ends_groups_fail i rest :
  ends_groups rest → read_separator 58 i (read_number 16 (Some 4%nat) true u16_max) rest = None.
Proof. by destruct i; intros [->|[t ->]]. Qed.

Lemma separator_dotless i s : 46 ∉ s → read_separator 58 i read_ipv4_addr s = None.
Proof.
  intros Hs. destruct i; simpl; [by apply read_ipv4_dotless|]. destruct s as [|b s]; [done|]. simpl.
  case_match; [|done]. apply read_ipv4_dotless. set_solver.
Qed.

(** The groups of a text that has no dot. *)
Lemma read_groups_dotless room i acc s :
  46 ∉ s →
  read_groups room i acc s =
  match room with
  | O => (acc, false, s)
  | S room =>
      match read_separator 58 i (read_number 16 (Some 4%nat) true u16_max) s with
      | Some (g, s) => read_groups room (S i) (acc ++ [g]) s
      | None => (acc, false, s)
      end
  end.
Proof.
  intros Hs. destruct room as [|[|room]]; [done..|]. cbn [read_groups]. by rewrite separator_dotless.
Qed.

Lemma fmt_tail_stops gs rest : stops 16 rest → stops 16 (fmt_tail gs ++ rest).
Proof. by destruct gs. Qed.

Lemma read_groups_tail gs room i acc rest :
  Forall is_u16 gs → (length gs ≤ room)%nat → ends_groups rest → 46 ∉ fmt_tail gs ++ rest →
  read_groups room (S i) acc (fmt_tail gs ++ rest) = (acc ++ gs, false, rest).
Proof.
  revert room i acc. induction gs as [|g gs IH]; intros room i acc Hgs Hl He Hd.
  - rewrite read_groups_dotless, app_nil_r by done. destruct room; [done|].
    simpl app. by rewrite ends_groups_fail.
  - apply Forall_cons_1 in Hgs as [Hg Hgs]. destruct room as [|room]; simpl in Hl; [lia|].
    rewrite read_groups_dotless by done. simpl. rewrite <- (assoc_L (++)).
    rewrite read_number_hex by (done || by apply fmt_tail_stops, ends_groups_stops).
    rewrite IH; [by rewrite <- (assoc_L (++))|done|lia|done|]. simpl in Hd. set_solver.
Qed.

Lemma read_groups_subslice gs room rest :
  Forall is_u16 gs → (length gs ≤ room)%nat → ends_groups rest → 46 ∉ fmt_subslice gs ++ rest →
  read_groups room 0 [] (fmt_subslice gs ++ rest) = (gs, false, rest).
Proof.
  intros Hgs Hl He Hd. destruct gs as [|g gs].
  - rewrite read_groups_dotless by done. destruct room; [done|]. simpl app. by rewrite ends_groups_fail.
  - apply Forall_cons_1 in Hgs as [Hg Hgs]. destruct room as [|room]; simpl in Hl; [lia|].
    rewrite read_groups_dotless by done. simpl. rewrite <- (assoc_L (++)).
    rewrite read_number_hex by (done || by apply fmt_tail_stops, ends_groups_stops).
    rewrite read_groups_tail; [done|done|lia|done|]. simpl in Hd. set_solver.
Qed.

(** *** What is printed has no dot, and is ASCII *)

Definition hex_or_colon (b : Z) : Prop := b ≠ 46 ∧ 0 ≤ b < 256.

Lemma hex_field_bytes n v : Forall hex_or_colon (hex_field n v).
Proof.
  eapply Forall_impl; [apply hex_field_digits|]. intros c (d & Hd & ->). unfold hex_or_colon, hex_digit.
  case_match; lia.
Qed.

Lemma fmt_hex_bytes g : Forall hex_or_colon (fmt_hex g).
Proof. unfold fmt_hex. repeat case_match; apply hex_field_bytes. Qed.

Lemma fmt_tail_bytes gs : Forall hex_or_colon (fmt_tail gs).
Proof.
  induction gs as [|g gs IH]; simpl; [constructor|]. constructor; [by unfold hex_or_colon|].
  apply Forall_app. split; [apply fmt_hex_bytes|done].
Qed.

Lemma fmt_subslice_bytes gs : Forall hex_or_colon (fmt_subslice gs).
Proof. destruct gs; [constructor|]. apply Forall_app. split; [apply fmt_hex_bytes|apply fmt_tail_bytes]. Qed.

Lemma dotless s : Forall hex_or_colon s → 46 ∉ s.
Proof. intros Hs Hin. rewrite Forall_forall in Hs. by destruct (Hs _ Hin). Qed.

Lemma fmt_dec_bytes b : is_u8 b → wf_bytes (fmt_dec b).
Proof.
  intros Hb. unfold fmt_dec.
  pose proof (Z.div_mod b 10 ltac:(lia)). pose proof (Z.mod_pos_bound b 10 ltac:(lia)).
  pose proof (Z.div_mod b 100 ltac:(lia)). pose proof (Z.mod_pos_bound b 100 ltac:(lia)).
  pose proof (Z.mod_pos_bound (b / 10) 10 ltac:(lia)).
  repeat case_match; repeat apply wf_bytes_cons; try apply wf_bytes_nil; solve_width.
Qed.

(** *** The longest run of zeros *)

Definition span_ok (l : list Z) (span : nat * nat) : Prop :=
  snd span = 0%nat ∨
  (fst span + snd span ≤ length l)%nat ∧ take (snd span) (drop (fst span) l) = replicate (snd span) 0.

Lemma span_ok_app l l' span : span_ok l span → span_ok (l ++ l') span.
Proof.
  intros [H|[H1 H2]]; [by left|]. right. rewrite length_app. split; [lia|].
  rewrite drop_app_le, take_app_le by (rewrite ?length_drop; lia). done.
Qed.

(** The run that ends a list, one zero later. *)
Lemma span_ok_snoc l a n :
  (a + n = length l)%nat → take n (drop a l) = replicate n 0 → span_ok (l ++ [0]) (a, S n).
Proof.
  intros Hl Hz. right. simpl. rewrite length_app. simpl. split; [lia|].
  rewrite drop_app_le by lia. rewrite take_ge by (rewrite length_app, length_drop; simpl; lia).
  rewrite take_ge in Hz by (rewrite length_drop; lia). rewrite Hz.
  change (0 :: replicate n 0) with (replicate (S n) 0). by rewrite replicate_S_end.
Qed.

Lemma zero_span_ok l longest current gs :
  span_ok l longest →
  (snd current ≠ 0%nat → (fst current + snd current = length l)%nat ∧ span_ok l current) →
  span_ok (l ++ gs) (zero_span (length l) longest current gs).
Proof.
  revert l longest current. induction gs as [|g gs IH]; intros l longest [a n] Hlong Hcur; simpl.
  { by rewrite app_nil_r. }
  replace (l ++ g :: gs) with ((l ++ [g]) ++ gs) by (by rewrite <- (assoc_L (++))).
  replace (S (length l)) with (length (l ++ [g])) by (rewrite length_app; simpl; lia).
  destruct (Z.eqb_spec g 0) as [->|Hg]; [|apply IH; [by apply span_ok_app|done]].
  set (c := ((if (n =? 0)%nat then length l else a), S n)).
  assert ((fst c + snd c)%nat = length (l ++ [0]) ∧ span_ok (l ++ [0]) c) as [Hc Hok].
  { rewrite length_app. unfold c. simpl. destruct (Nat.eqb_spec n 0) as [->|Hn].
    - split; [lia|]. apply span_ok_snoc; [lia|done].
    - destruct (Hcur Hn) as [Hl [Hz|[_ Hz]]]; [done|]. simpl in *. split; [lia|]. by apply span_ok_snoc. }
  simpl snd. apply IH; [|done]. case_match; [done|by apply span_ok_app].
Qed.

(** *** The round trip *)

Lemma octets_segments l : wf_array 16 l → octets (segments l) = l ∧ Forall is_u16 (segments l).
Proof.
  intros Hl. assert (∀ a b, is_u8 a → is_u8 b → be_bytes 2 (be_value [a; b]) = [a; b]) as Hpair.
  { intros a b Ha Hb. apply be_bytes_be_value; auto with r8. }
  inv_wf. do 16 (destruct l as [|? l]; [done|]). destruct l; [|done]. inv_wf.
  split.
  - unfold octets, segments. cbn -[be_bytes be_value]. by rewrite !Hpair.
  - unfold segments. cbn -[be_value]. unfold be_value. simpl.
    repeat constructor; unfold is_u16, is_u8, u16_max, u8_max in *; lia.
Qed.

Lemma read_ipv4_fmt a b c d :
  wf_bytes [a; b; c; d] → read_ipv4_addr (fmt_ipv4 [a; b; c; d]) = Some ([a; b; c; d], []).
Proof.
  intros Hw. inv_wf. unfold read_ipv4_addr, fmt_ipv4, read_octet.
  do 3 (cbn -[read_number fmt_dec]; rewrite read_number_dec by done).
  cbn -[read_number fmt_dec]. by rewrite <- (app_nil_r (fmt_dec d)), read_number_dec.
Qed.

(** After the two colons and [ffff] the address is read as the IPv4 address it is. *)
Lemma parse_mapped t o :
  read_ipv4_addr t = Some (o, []) → wf_array 4 o →
  parse_all read_ipv6_addr (ascii_bytes "::ffff:" ++ t) = Some (mapped_prefix ++ o).
Proof.
  intros Ht [Hl Hw]. unfold parse_all, read_ipv6_addr.
  assert (read_groups 7 0 [] ([102; 102; 102; 102; 58] ++ t) =
    ([0xffff; be_value (take 2 o); be_value (drop 2 o)], true, [])) as Htail.
  { change (read_groups 7 0 [] ([102; 102; 102; 102; 58] ++ t)) with
      (read_groups 6 1 [0xffff] (58 :: t)).
    cbn [read_groups]. change (read_separator 58 1 read_ipv4_addr (58 :: t)) with (read_ipv4_addr t).
    by rewrite Ht. }
  change (ascii_bytes "::ffff:" ++ t) with (58 :: 58 :: [102; 102; 102; 102; 58] ++ t).
  set (u := [102; 102; 102; 102; 58] ++ t) in *. clearbody u.
  change (read_groups 8 0 [] (58 :: 58 :: u)) with (@nil Z, false, 58 :: 58 :: u).
  cbn -[read_groups octets]. rewrite Htail. f_equal.
  unfold octets. cbn -[be_bytes be_value].
  rewrite !be_bytes_be_value by (rewrite ?length_drop, ?length_take; auto with r8 || lia).
  rewrite app_nil_r. by rewrite (take_drop 2 o).
Qed.

(** Every other address is read as its groups. *)
Lemma parse_groups gs :
  Forall is_u16 gs → length gs = 8%nat →
  parse_all read_ipv6_addr (fmt_subslice gs) = Some (octets gs).
Proof.
  intros Hgs Hl. unfold parse_all, read_ipv6_addr. rewrite <- (app_nil_r (fmt_subslice gs)).
  rewrite read_groups_subslice; [|done|lia|by left|rewrite app_nil_r; apply dotless, fmt_subslice_bytes].
  by rewrite Hl.
Qed.

Lemma parse_compressed front n back :
  Forall is_u16 front → Forall is_u16 back → (1 < n)%nat →
  (length front + n + length back)%nat = 8%nat →
  parse_all read_ipv6_addr (fmt_subslice front ++ [58; 58] ++ fmt_subslice back) =
  Some (octets (front ++ replicate n 0 ++ back)).
Proof.
  intros Hf Hb Hn Hl. unfold parse_all, read_ipv6_addr.
  rewrite read_groups_subslice; [|done|lia|right; by eexists|].
  2: { apply dotless, Forall_app. split; [apply fmt_subslice_bytes|].
       repeat constructor; try done. apply fmt_subslice_bytes. }
  rewrite (proj2 (Nat.eqb_neq _ _)) by lia. simpl.
  rewrite <- (app_nil_r (fmt_subslice back)).
  rewrite read_groups_subslice; [|done|lia|by left|rewrite app_nil_r; apply dotless, fmt_subslice_bytes].
  by replace (8 - length front - length back)%nat with n by lia.
Qed.

Lemma zero_span_split gs start n :
  zero_span 0 (0, 0)%nat (0, 0)%nat gs = (start, n) → (1 < n)%nat →
  gs = take start gs ++ replicate n 0 ++ drop (start + n) gs ∧ (start + n ≤ length gs)%nat.
Proof.
  intros Hspan Hn. pose proof (zero_span_ok [] (0, 0)%nat (0, 0)%nat gs) as Hok. simpl in Hok.
  rewrite Hspan in Hok. destruct Hok as [Hz|[Hle Htake]]; [by left|done|simpl in Hz; lia|]. simpl in *.
  split; [|done]. by rewrite <- Htake, <- drop_drop, !take_drop.
Qed.

Lemma parse_fmt_ipv6 l : wf_array 16 l → parse_all read_ipv6_addr (fmt_ipv6 l) = Some l.
Proof.
  intros Hl. unfold fmt_ipv6. case_bool_decide as Hm.
  - destruct Hl as [Hl Hw]. rewrite <- (take_drop 12 l) at 2. rewrite Hm.
    assert (wf_array 4 (drop 12 l)) as Ho by (split; [rewrite length_drop; lia|auto with r8]).
    apply parse_mapped; [|done]. destruct Ho as [Hlo Hwo].
    destruct (drop 12 l) as [|a [|b [|c [|d [|]]]]]; try done. by apply read_ipv4_fmt.
  - destruct (octets_segments l Hl) as [Ho Hgs].
    assert (length (segments l) = 8%nat) as Hlen by done.
    destruct (zero_span _ _ _ _) as [start n] eqn:Hspan.
    destruct (Nat.ltb_spec 1 n) as [Hn|Hn]; [|rewrite <- Ho at 2; by apply parse_groups].
    destruct (zero_span_split _ _ _ Hspan Hn) as [Heq Hle].
    rewrite <- Ho at 3. rewrite Heq at 3. apply parse_compressed; [by apply Forall_take|by apply Forall_drop|done|].
    rewrite length_take, length_drop. lia.
Qed.

(** The text is ASCII, so that the string is its bytes. *)
Lemma ascii_string_of_bytes b : wf_bytes b → ascii_bytes (string_of_bytes b) = b.
Proof.
  induction b as [|c b IH]; intros Hw; [done|]. inv_wf. simpl. rewrite IH by done. f_equal.
  rewrite Ascii.N_ascii_embedding by (unfold is_u8, u8_max in *; lia).
  unfold is_u8 in *. lia.
Qed.

Lemma fmt_ipv6_bytes l : wf_array 16 l → wf_bytes (fmt_ipv6 l).
Proof.
  intros Hl. assert (∀ s, Forall hex_or_colon s → wf_bytes s) as Hhex.
  { intros s Hs. eapply Forall_impl; [done|]. unfold hex_or_colon. solve_width. }
  unfold fmt_ipv6. case_bool_decide.
  - apply Forall_app. split; [by repeat constructor|]. inv_wf.
    assert (wf_bytes (drop 12 l)) as Hw by auto with r8.
    destruct (drop 12 l) as [|a [|b [|c [|d [|]]]]]; try by constructor. inv_wf.
    simpl. repeat first [apply wf_bytes_app|apply wf_bytes_cons|apply fmt_dec_bytes]; done.
  - destruct (zero_span _ _ _ _) as [start n]. case_match; [|apply Hhex, fmt_subslice_bytes].
    apply wf_bytes_app; [apply Hhex, fmt_subslice_bytes|]. apply wf_bytes_app; [by repeat constructor|].
    apply Hhex, fmt_subslice_bytes.
Qed.

(** [parse_loc] of [fmt_loc]: the text printed for a locator, whichever of its three forms it
    takes (IPv4-mapped, with the first longest run of zero groups left out, or in full), is read
    back by the parser as the same sixteen bytes. *)
Theorem loc_roundtrip (l : bytes) : wf_array 16 l → parse_loc (fmt_loc l) = Some l.
Proof.
  intros Hl. unfold parse_loc, fmt_loc.
  by rewrite ascii_string_of_bytes, parse_fmt_ipv6 by (done || by apply fmt_ipv6_bytes).
Qed.

Lemma loc_roundtrip_witness :
  parse_loc (fmt_loc ([0x20; 1; 0xd; 0xb8] ++ replicate 8 0 ++ [0; 0xa; 0; 0])) =
  Some ([0x20; 1; 0xd; 0xb8] ++ replicate 8 0 ++ [0; 0xa; 0; 0]).
Proof. apply loc_roundtrip. split; [done|]. by repeat constructor. Defined.
