(* ===== verification/Udp.v ===== *)
(** * UDP sockets and the environment of the programs

    The programs of the repository (r8d, r8ping, r8session and the mobility
    endpoint) run on the sockets, clocks and descriptors of the operating system,
    which are a parameter here: a state and an answer to each call, with the
    calls as a type indexed by what they return.  The parts of the standard
    library that the programs use on top of the calls are definitions, and so are
    the helpers that r8d and r8ping share (src/rust/crates/r8d/src/main.rs).

    A program that may run for ever is run for a number of passes; [Running] is
    the result of a run whose passes are used up.  Every kernel has a logged
    version, which keeps the calls made and their answers: what a program does on
    the network is stated of that trace. *)

From S2P Require Import Prelude Wire Text Loc.
From stdpp Require Import gmap strings pretty.
#[local] Open Scope Z_scope.

(** ** The calls *)

Inductive ErrorKind : Set := TimedOut | WouldBlock | WriteZero | InvalidInput | OtherKind.

(** [std::io::Error] *)
Record io_error : Set := mkIoError { kind : ErrorKind; raw_os_error : option Z }.

#[export] Instance ErrorKind_eq_dec : EqDecision ErrorKind.
Proof. solve_decision. Defined.
#[export] Instance io_error_eq_dec : EqDecision io_error.
Proof. solve_decision. Defined.

(** A call by the type of its answer.  An instant is a number of nanoseconds of the monotonic
    clock; a C call returns its value and what it wrote. *)
Inductive call : Set → Type :=
| UdpBind (address : SocketAddr) : call (io_error + Z)
| SetSockOpt (socket level option value : Z) : call Z
| LastError : call Z
| SetReadTimeout (socket ns : Z) : call (io_error + unit)
| RecvFrom (socket size : Z) : call (io_error + bytes * SocketAddr)
| SendTo (socket : Z) (packet : bytes) (peer : SocketAddr) : call (io_error + Z)
| ToSocketAddrs (host : string) : call (io_error + list SocketAddr)
| ProcessId : call Z
| Now : call Z
| GetRandom (n : nat) : call (option bytes)
| MonotonicClock : call (Z * (Z * Z))
| WriteFd (fd : Z) (data : bytes) : call Z
| ReadFd (fd count : Z) : call (Z * bytes)
| Errno : call Z
| Sleep (ns : Z) : call unit
| Rusage : call (Z * (Z * Z) * (Z * Z))
| Print (line : string) : call unit.

Class Net (K : Type) := { net : ∀ {A : Set}, call A → K → A * K }.

(** ** Programs *)

(** How a run ends without a result: with an error, or still running. *)
Inductive stop (E : Type) : Type := Failed (e : E) | Running.
Arguments Failed {E} e.
Arguments Running {E}.

Section Programs.
Context {K : Type} `{NC : Net K}.

Definition ask {E} {A : Set} (c : call A) : st K E A := λ k, let '(a, k') := net c k in (Ok a, k').

Definition print {E} (line : string) : st K E unit := ask (Print line).

(** An error of the source. *)
Definition fail {E A} (e : E) : st K (stop E) A := throw (Failed e).

(** The [Result] of an operation as a value; a panic unwinds. *)
Definition attempt {E E' A} (m : st K E A) : st K E' (E + A) := λ k,
  match m k with
  | (Ok a, k') => (Ok (inr a), k')
  | (Err e, k') => (Ok (inl e), k')
  | (Panic, k') => (Panic, k')
  end.

(** The [?] operator on an outcome and on an answer of a call. *)
Definition lift_err {E F A} (f : E → F) (m : outcome E A) : st K (stop F) A :=
  lift (map_err (λ e, Failed (f e)) m).
Definition ask_err {E : Set} {F} {A : Set} (f : E → F) (c : call (E + A)) : st K (stop F) A :=
  r ← ask c; match r with inr a => mret a | inl e => fail (f e) end.

(** A loop, for at most [n] passes: [inl] goes on, [inr] leaves it. *)
Fixpoint loop {E A B} (n : nat) (body : A → st K (stop E) (A + B)) (a : A) : st K (stop E) B :=
  match n with
  | O => throw Running
  | S n => r ← body a; match r with inl a => loop n body a | inr b => mret b end
  end.

(** [UdpSocket::set_read_timeout] of a duration: the library refuses zero. *)
Definition set_read_timeout {E} (socket ns : Z) : st K E (io_error + unit) :=
  if ns =? 0 then mret (inl (mkIoError InvalidInput None)) else ask (SetReadTimeout socket ns).

Lemma ask_bind {E A} {B : Set} (c : call B) (f : B → st K E A) k :
  (ask c ≫= f) k = f (fst (net c k)) (snd (net c k)).
Proof. unfold mbind, st_bind, ask. by destruct (net c k). Qed.

Lemma print_bind {E A} line (f : unit → st K E A) k :
  (print line ≫= f) k = f () (snd (net (Print line) k)).
Proof. unfold print. rewrite ask_bind. by destruct (fst _). Qed.

End Programs.

(** ** Calls beside the state of a program *)

(** A call of the kernel beside the state of a machine, one of a machine whose [Result] is taken as
    a value, and the [Result] of a function as a value. *)
Definition sysm {K S E A} (m : st K E A) : st (K * S) E A := zoom fst (λ k x, (k, snd x)) m.
Definition machine {K S E E' A} (m : st S E A) : st (K * S) E' (E + A) := λ x,
  match m (snd x) with
  | (Ok a, s) => (Ok (inr a), (fst x, s))
  | (Err e, s) => (Ok (inl e), (fst x, s))
  | (Panic, s) => (Panic, (fst x, s))
  end.
Definition result {S E E' A} (m : outcome E A) : st S E' (E + A) :=
  match m with Ok a => mret (inr a) | Err e => mret (inl e) | Panic => lift Panic end.

(** [let x = match m { Ok(x) => x, Err(_) => other }] *)
Definition or_else {S E E1 A B} (m : st S E (E1 + A)) (other : st S E B) (k : A → st S E B) : st S E B :=
  r ← m; match r with inr a => k a | inl _ => other end.
Notation "x ←ok m 'else' d ; k" := (or_else m d (λ x, k))
  (at level 20, m at level 100, d at level 100, k at level 200, only parsing).

(** [Duration::from_millis] and [Instant::saturating_duration_since] *)
Definition millis (ms : Z) : Z := ms * 1000000.
Definition saturating_duration_since (later earlier : Z) : Z := Z.max 0 (later - earlier).

(** [str::parse] at the unsigned and signed types *)
Definition parse_unsigned (max : Z) (s : string) : option Z :=
  from_str_radix 10 max (ascii_bytes s).

(** ** Addresses *)

Definition ip_octets (a : SocketAddr) : bytes := match a with V4 ip _ | V6 ip _ _ _ => ip end.

Definition is_ipv4 (a : SocketAddr) : bool := match a with V4 _ _ => true | _ => false end.

(** [is_loopback], [is_private], [is_link_local], [is_unique_local] and [is_unicast_link_local] of
    the standard library, on the octets. *)
Definition is_loopback (a : SocketAddr) : bool :=
  match a with
  | V4 ip _ => bool_decide (head ip = Some 127)
  | V6 ip _ _ _ => beq ip (replicate 15 0 ++ [1])
  end.
Definition is_private (ip : bytes) : bool :=
  match ip with
  | a :: b :: _ => (a =? 10) || ((a =? 172) && (16 <=? b) && (b <=? 31)) || ((a =? 192) && (b =? 168))
  | _ => false
  end.
Definition is_link_local (ip : bytes) : bool := beq (take 2 ip) [169; 254].
Definition is_unique_local (ip : bytes) : bool :=
  match ip with a :: _ => Z.land a 0xfe =? 0xfc | [] => false end.
Definition is_unicast_link_local (ip : bytes) : bool :=
  match ip with a :: b :: _ => (a =? 0xfe) && (Z.land b 0xc0 =? 0x80) | _ => false end.

Definition isolated (a : SocketAddr) : bool :=
  match a with
  | V4 ip _ => is_private ip || is_link_local ip
  | V6 ip _ _ _ => is_unique_local ip || is_unicast_link_local ip
  end.

Definition validate_underlay (addr : SocketAddr) (allow_isolated : bool) : outcome string unit :=
  if negb (is_ipv4 addr) then Err "only IPv4 UDP underlay is supported"%string else
  if is_loopback addr || (allow_isolated && isolated addr) then Ok () else
  if isolated addr then Err "isolated underlay requires --allow-isolated-underlay"%string else
  Err "public underlay is rejected"%string.

(** ** What r8d and r8ping share *)

(** [Box<dyn Error>] *)
Inductive MainError : Set :=
| Text (message : string)
| FromWire (error : WireError.t)
| FromIo (error : io_error)
| ParseInt
| ParseAddr.

Definition EMSGSIZE : Z := 90.
Definition IPPROTO_IP : Z := 0.
Definition IP_MTU_DISCOVER : Z := 10.
Definition IP_PMTUDISC_DO : Z := 2.
Definition DEFAULT_BUDGET : Z := 1252.

Definition is_budget_send_error (e : io_error) : bool := bool_decide (raw_os_error e = Some EMSGSIZE).

Definition validate_send_count (sent expected : Z) : outcome io_error unit :=
  if sent =? expected then Ok () else Err (mkIoError WriteZero None).

Section Shared.
Context {K : Type} `{NC : Net K}.

Definition set_df (socket : Z) : st K (stop MainError) unit :=
  r ← ask (SetSockOpt socket IPPROTO_IP IP_MTU_DISCOVER IP_PMTUDISC_DO);
  if r =? 0 then mret () else
  errno ← ask LastError; fail (FromIo (mkIoError OtherKind (Some errno))).

Definition send_packet_with (packet : bytes) (peer : SocketAddr)
    (send : bytes → SocketAddr → st K (stop MainError) (io_error + Z)) : st K (stop MainError) Z :=
  r ← send packet peer;
  match r with
  | inr sent => lift_err FromIo (validate_send_count sent (len packet)) ;; mret sent
  | inl e => if is_budget_send_error e then fail (FromWire WireError.BindingBudget)
             else fail (FromIo e)
  end.

Definition send_packet (socket : Z) (packet : bytes) (peer : SocketAddr) : st K (stop MainError) Z :=
  send_packet_with packet peer (λ packet peer, ask (SendTo socket packet peer)).

End Shared.

(** ** Traces *)

Record event : Type := mkEvent { ev_type : Set; ev_call : call ev_type; ev_answer : ev_type }.

(** Every kernel with the calls it answered. *)
#[export] Instance logged {K} `{NC : Net K} : Net (K * list event) := {|
  net A c '(k, t) := let '(a, k') := net c k in (a, (k', t ++ [mkEvent A c a]))
|}.

(** A datagram that was received, with its source, and one that was given to a socket. *)
Definition received_of (e : event) : option (bytes * SocketAddr) :=
  match e with
  | mkEvent _ c a =>
      match c in call A return A → option (bytes * SocketAddr) with
      | RecvFrom _ _ => λ a, match a with inr d => Some d | inl _ => None end
      | _ => λ _, None
      end a
  end.
Definition sent_of (e : event) : option (bytes * SocketAddr) :=
  match e with
  | mkEvent _ c a =>
      match c with SendTo _ packet peer => Some (packet, peer) | _ => None end
  end.
Definition received (t : list event) : list (bytes * SocketAddr) := omap received_of t.
Definition sent (t : list event) : list (bytes * SocketAddr) := omap sent_of t.

Lemma received_app t t' : received (t ++ t') = received t ++ received t'.
Proof. apply omap_app. Qed.
Lemma sent_app t t' : sent (t ++ t') = sent t ++ sent t'.
Proof. apply omap_app. Qed.

(** ** Reasoning about traces

    [emits m Q]: whatever the kernel answers, [m] extends the trace by a part that satisfies [Q]
    together with the result. *)
Section Emits.
Context {K : Type} `{NC : Net K}.
Abbreviation T := (K * list event)%type.

Definition emits {E A} (m : st T E A) (Q : outcome E A → list event → Prop) : Prop :=
  ∀ k t0, ∃ t, snd (snd (m (k, t0))) = t0 ++ t ∧ Q (fst (m (k, t0))) t.

Lemma emits_ret {E A} (a : A) (Q : outcome E A → list event → Prop) : Q (Ok a) [] → emits (mret a) Q.
Proof. intros HQ k t0. exists []. by rewrite app_nil_r. Qed.

Lemma emits_lift {E A} (m : outcome E A) (Q : outcome E A → list event → Prop) :
  Q m [] → emits (lift m) Q.
Proof. intros HQ k t0. exists []. by rewrite app_nil_r. Qed.

Lemma emits_throw {E A} (e : E) (Q : outcome E A → list event → Prop) : Q (Err e) [] → emits (throw e) Q.
Proof. intros HQ k t0. exists []. by rewrite app_nil_r. Qed.

Lemma emits_ask {E} {A : Set} (c : call A) (Q : outcome E A → list event → Prop) :
  (∀ a, Q (Ok a) [mkEvent A c a]) → emits (ask c) Q.
Proof.
  intros HQ k t0. unfold ask, net, logged. destruct (@net K NC A c k) as [a k'] eqn:Hn.
  exists [mkEvent A c a]. split; [done|apply HQ].
Qed.

Lemma emits_bind {E A B} (m : st T E A) (f : A → st T E B) (Q : outcome E B → list event → Prop) :
  emits m (λ r t, match r with
                  | Ok a => emits (f a) (λ r' t', Q r' (t ++ t'))
                  | Err e => Q (Err e) t
                  | Panic => Q Panic t
                  end) →
  emits (m ≫= f) Q.
Proof.
  intros Hm k t0. destruct (Hm k t0) as (t & Ht & HQ). unfold mbind, st_bind.
  destruct (m (k, t0)) as [[a|e|] [k1 t1]]; simpl in *; subst; [|by eexists..].
  destruct (HQ k1 (t0 ++ t)) as (t' & Ht' & HQ'). exists (t ++ t'). by rewrite Ht', (assoc_L (++)).
Qed.

Lemma emits_mono {E A} (m : st T E A) (Q Q' : outcome E A → list event → Prop) :
  emits m Q → (∀ r t, Q r t → Q' r t) → emits m Q'.
Proof. intros Hm HQ k t0. destruct (Hm k t0) as (t & Ht & Hr). eauto. Qed.

Lemma emits_attempt {E E' A} (m : st T E A) (Q : outcome E' (E + A) → list event → Prop) :
  emits m (λ r t, match r with
                  | Ok a => Q (Ok (inr a)) t
                  | Err e => Q (Ok (inl e)) t
                  | Panic => Q Panic t
                  end) →
  emits (attempt m) Q.
Proof.
  intros Hm k t0. destruct (Hm k t0) as (t & Ht & HQ). unfold attempt.
  destruct (m (k, t0)) as [[a|e|] [k1 t1]]; simpl in *; eauto.
Qed.

(** A loop keeps what every pass adds to. *)
Lemma emits_loop {E A B} n (body : A → st T (stop E) (A + B)) (I : A → list event → Prop)
    (Q : outcome (stop E) B → list event → Prop) a t :
  I a t →
  (∀ a t, I a t → emits (body a) (λ r t', match r with
     | Ok (inl a) => I a (t ++ t')
     | Ok (inr b) => Q (Ok b) (t ++ t')
     | Err e => Q (Err e) (t ++ t')
     | Panic => Q Panic (t ++ t')
     end)) →
  (∀ a t, I a t → Q (Err Running) t) →
  emits (loop n body a) (λ r t', Q r (t ++ t')).
Proof.
  intros HI Hbody Hrun. revert a t HI. induction n as [|n IH]; intros a t HI.
  { apply emits_throw. rewrite app_nil_r. by eapply Hrun. }
  apply emits_bind. eapply emits_mono; [by apply Hbody|]. intros [[a'|b]|e|] t' Hr; [|..|done|done].
  - eapply emits_mono; [by apply (IH a')|]. simpl. intros r t''. by rewrite (assoc_L (++)).
  - apply emits_ret. by rewrite app_nil_r.
Qed.

(** A part of a run that receives nothing, sends [ss] and does not panic. *)
Definition sends {E A} (ss : list (bytes * SocketAddr)) (r : outcome E A) (t : list event) : Prop :=
  received t = [] ∧ sent t = ss ∧ r ≠ Panic.

Lemma emits_print {E} line : emits (E:=E) (print line) (sends []).
Proof. apply emits_ask. by intros []. Qed.

Lemma sends_app {E A E' A'} ss ss' (r : outcome E A) (r' : outcome E' A') t t' :
  sends ss r t → sends ss' r' t' → sends (ss ++ ss') r' (t ++ t').
Proof.
  intros (Hr & Hs & _) (Hr' & Hs' & Hp). unfold sends. by rewrite received_app, sent_app, Hr, Hs, Hr', Hs'.
Qed.

Lemma emits_then {E A E' A'} ss ss' (r : outcome E A) t (m : st T E' A') :
  sends ss r t → emits m (sends ss') → emits m (λ r' t', sends (ss ++ ss') r' (t ++ t')).
Proof. intros Hs Hm. eapply emits_mono; [exact Hm|]. intros r' t'. by eapply sends_app. Qed.

Lemma emits_throw_sends {E A} (e : E) : emits (throw (A:=A) e) (sends []).
Proof. by apply emits_throw. Qed.

Lemma emits_send_packet socket p peer : emits (send_packet socket p peer) (sends [(p, peer)]).
Proof.
  apply emits_bind, emits_ask. intros [e|n]; [case_match; by apply emits_throw|].
  apply emits_bind, emits_lift. unfold validate_send_count.
  destruct (n =? len p); [by apply emits_ret|done].
Qed.

End Emits.

(** A datagram is a string of bytes. *)
Class NetBytes (K : Type) `{NC : Net K} : Prop := {
  recv_bytes s n k d peer : fst (net (RecvFrom s n) k) = inr (d, peer) → wf_bytes d;
}.
