(* ===== verification/Responder.v ===== *)
(** * The echo responder (src/rust/crates/r8d/src/main.rs)

    The whole program: arguments, the socket and the endless loop.  The theorem:
    on any network, the datagrams it sends are exactly the replies to the valid
    echo requests for its locator, each once, to the source of the request, and
    of the length of the request; every other datagram is dropped. *)

From S2P Require Import Prelude Wire Checksum Codec Text Loc Udp.
From stdpp Require Import gmap strings pretty.
#[local] Open Scope Z_scope.

Module R8d.

(** ** Arguments *)

Record Args : Set := mkArgs {
  address : option string;
  bind : string;
  budget : Z;
  allow_isolated : bool;
}.

Definition default_args : Args := mkArgs None "127.0.0.1:52808" DEFAULT_BUDGET false.

Fixpoint arguments (a : Args) (args : list string) : outcome MainError Args :=
  match args with
  | [] => Ok a
  | arg :: args =>
      if bool_decide (arg = "--address"%string) then
        match args with
        | [] => Err (Text "--address needs a value")
        | v :: args => arguments (mkArgs (Some v) (bind a) (budget a) (allow_isolated a)) args
        end
      else if bool_decide (arg = "--bind"%string) then
        match args with
        | [] => Err (Text "--bind needs a value")
        | v :: args => arguments (mkArgs (address a) v (budget a) (allow_isolated a)) args
        end
      else if bool_decide (arg = "--binding-budget"%string) then
        match args with
        | [] => Err (Text "--binding-budget needs a value")
        | v :: args =>
            n ← ok_or (parse_unsigned usize_max v) ParseInt;
            arguments (mkArgs (address a) (bind a) n (allow_isolated a)) args
        end
      else if bool_decide (arg = "--allow-isolated-underlay"%string) then
        arguments (mkArgs (address a) (bind a) (budget a) true) args
      else Err (Text "invalid argument")
  end.

Section Program.
Context {K : Type} `{NC : Net K}.

(** ** One datagram *)

Definition reply (socket : Z) (me : bytes) (budget : Z) (header : Header) (body : bytes)
    (peer : SocketAddr) : st K (stop MainError) unit :=
  match build_ctl_with_budget (header_new NH_CTL me (src header)) CTL_ECHO_REPLY 0 body budget with
  | Ok packet =>
      r ← attempt (send_packet socket packet peer);
      match r with
      | inr _ => print ("[echo] reply length=" +:+ pretty (len packet))
      | inl (Failed (FromWire WireError.BindingBudget)) => print "[drop] E-BUDGET"
      | inl e => throw e
      end
  | Err e => print ("[drop] " +:+ WireError.as_str e)
  | Panic => lift Panic
  end.

Definition dispatch (socket : Z) (me : bytes) (budget : Z) (header : Header) (payload : bytes)
    (peer : SocketAddr) : st K (stop MainError) unit :=
  if next_header header =? NH_CTL then
    match parse_ctl header payload with
    | Ok (typ, code, body) =>
        if (typ =? CTL_ECHO_REQUEST) && (code =? 0) then reply socket me budget header body peer
        else print "[drop] CTL"
    | Err e => print ("[drop] " +:+ WireError.as_str e)
    | Panic => lift Panic
    end
  else if next_header header =? NH_DGRAM then
    match parse_dgram header payload with
    | Ok (_, _, data) => print ("[dgram] received length=" +:+ pretty (len data))
    | Err e => print ("[drop] " +:+ WireError.as_str e)
    | Panic => lift Panic
    end
  else print "[drop] NEXT_HEADER".

Definition respond (socket : Z) (me : bytes) (budget : Z) : st K (stop MainError) unit :=
  '(data, peer) ← ask_err FromIo (RecvFrom socket (budget + 1));
  if budget <? len data then print ("[drop] E-BUDGET length=" +:+ pretty (len data)) else
  match unpack_with_budget data budget with
  | Ok (header, payload) =>
      if negb (beq (dst header) me) then print "[drop] DST" else
      dispatch socket me budget header payload peer
  | Err e => print ("[drop] " +:+ WireError.as_str e)
  | Panic => lift Panic
  end.

(** ** The program *)

Definition run (n : nat) (socket : Z) (me : bytes) (budget : Z) : st K (stop MainError) Empty_set :=
  loop n (λ _, respond socket me budget ;; mret (inl ())) ().

Definition main (n : nat) (args : list string) : st K (stop MainError) Empty_set :=
  a ← lift_err id (arguments default_args args);
  if negb ((HEADER_LEN <=? budget a) && (budget a <=? SERIALIZED_R8_MAX))
  then fail (Text "--binding-budget must be 48..1280") else
  bind ← lift_err id (ok_or (parse_socket_addr (bind a)) ParseAddr);
  lift_err Text (validate_underlay bind (allow_isolated a)) ;;
  address ← lift_err id (ok_or (address a) (Text "--address is required"));
  me ← lift_err id (ok_or (parse_loc address) ParseAddr);
  socket ← ask_err FromIo (UdpBind bind);
  set_df socket ;;
  print ("[r8d] ready budget=" +:+ pretty (budget a)) ;;
  run n socket me (budget a).

End Program.

(** ** What is answered *)

(** A valid echo request for [me]. *)
Definition echo_request (me : bytes) (budget : Z) (d : bytes) (h : Header) (body : bytes) : Prop :=
  ∃ payload, unpack_with_budget d budget = Ok (h, payload) ∧ next_header h = NH_CTL ∧ dst h = me ∧
    parse_ctl h payload = Ok (CTL_ECHO_REQUEST, 0, body).

(** The reply to it: from [me] to the source of the request, with the same body and length. *)
Definition echo_reply (me : bytes) (budget : Z) (d : bytes) (h : Header) (body p : bytes) : Prop :=
  ∃ payload, unpack_with_budget p budget = Ok (header_new NH_CTL me (src h), payload) ∧
    parse_ctl (header_new NH_CTL me (src h)) payload = Ok (CTL_ECHO_REPLY, 0, body) ∧ len p = len d.

(** [answered me budget ds ss]: [ss] is what a correct responder sends for the datagrams [ds]. *)
Inductive answered (me : bytes) (budget : Z) :
  list (bytes * SocketAddr) → list (bytes * SocketAddr) → Prop :=
| answered_nil : answered me budget [] []
| answered_drop d peer ds ss :
    (∀ h body, ¬ echo_request me budget d h body) →
    answered me budget ds ss → answered me budget ((d, peer) :: ds) ss
| answered_reply d peer p h body ds ss :
    echo_request me budget d h body → echo_reply me budget d h body p →
    answered me budget ds ss → answered me budget ((d, peer) :: ds) ((p, peer) :: ss).

Lemma parse_ctl_inv h payload typ code body :
  parse_ctl h payload = Ok (typ, code, body) →
  ∃ hi lo, payload = typ :: code :: hi :: lo :: body ∧ validate_ctl typ code body = Ok ().
Proof.
  unfold parse_ctl, validate_ctl_shape. intros Hp. inv_ok. simplify_eq.
  repeat match goal with H : idx _ _ = Ok _ |- _ => apply idx_Ok in H end.
  destruct payload as [|p0 [|p1 [|p2 [|p3 payload]]]]; try done.
  repeat match goal with H : slice_from _ 4 = Ok _ |- _ =>
    rewrite slice_from_Ok in H by (simpl; lia); simpl in H; apply Ok_inj in H end.
  simplify_eq/=. repeat match goal with u : () |- _ => destruct u end. eauto.
Qed.

Lemma unpack_len d budget h payload :
  unpack_with_budget d budget = Ok (h, payload) → len d = HEADER_LEN + len payload.
Proof.
  unfold unpack_with_budget. intros Hu. inv_ok. simplify_eq. unfold HEADER_LEN in *.
  match goal with H : slice d (Z.to_nat 48) _ = Ok _ |- _ => apply slice_inv in H as (_ & _ & Hl) end.
  unfold len in *. lia.
Qed.

Lemma unpack_budget d budget h payload :
  unpack_with_budget d budget = Ok (h, payload) → len d ≤ budget.
Proof. unfold unpack_with_budget. intros Hu. inv_ok. lia. Qed.

Lemma plain_new s d : wf_array 16 s → wf_array 16 d → plain_header NH_CTL (header_new NH_CTL s d).
Proof. intros Hs Hd. unfold plain_header, wf_header. simpl. split_and!; done || solve_width. Qed.

Lemma build_ctl_wf h typ code body budget p :
  plain_header NH_CTL h → is_u8 typ → is_u8 code → wf_bytes body →
  build_ctl_with_budget h typ code body budget = Ok p → wf_bytes p.
Proof.
  intros (Hh & _ & Hp & _) Ht Hc Hb. unfold build_ctl_with_budget. intros Hbuild. inv_ok. simplify_eq.
  match goal with H : copy_slice _ _ _ _ = Ok _ |- _ => rewrite copy_slice_Ok in H by
    (rewrite ?length_be_bytes; simpl; lia); apply Ok_inj in H; subst end.
  apply pack_inv in Hbuild as (_ & -> & _). apply wf_bytes_app.
  - apply wf_header_bytes; [done|]. rewrite Hp. lia.
  - repeat first [apply wf_bytes_app | apply wf_be_bytes | apply wf_bytes_take | apply wf_bytes_drop
      | apply wf_bytes_cons | apply wf_bytes_nil]; try done; try solve_width;
      match goal with |- is_u8 (?z mod 256) => pose proof (Z.mod_pos_bound z 256); solve_width end.
Qed.

Section Answers.
Context {K : Type} `{NC : Net K} (socket : Z) (me : bytes) (budget : Z).
Hypothesis me_wf : wf_array 16 me.

(** The reply to a valid request can always be built. *)
Lemma reply_built d h body :
  wf_bytes d → echo_request me budget d h body →
  ∃ p, build_ctl_with_budget (header_new NH_CTL me (src h)) CTL_ECHO_REPLY 0 body budget = Ok p ∧
       echo_reply me budget d h body p.
Proof.
  intros Hd (payload & Hu & _ & _ & Hp). pose proof (unpack_len _ _ _ _ Hu) as Hld.
  apply unpack_inv in Hu as (Hh & -> & _ & Hm & Hb); [|done].
  apply wf_bytes_app_1 in Hd as [_ Hd]. apply parse_ctl_inv in Hp as (hi & lo & -> & Hv).
  assert (wf_bytes body) as Hwb by by do 4 apply wf_bytes_cons_1 in Hd as [_ Hd].
  assert (∀ a b c e, len (a :: b :: c :: e :: body) = 4 + len body) as Hl by (intros; unfold len; simpl; lia).
  rewrite Hl in *.
  destruct (build_ctl_roundtrip (header_new NH_CTL me (src h)) CTL_ECHO_REPLY 0 body budget)
    as (p & payload & Hbuild & Hun & Hparse); try done; try lia.
  { apply plain_new; [done|apply Hh]. }
  exists p. split; [done|]. exists payload. split_and!; [done..|].
  apply unpack_len in Hun. apply parse_ctl_inv in Hparse as (? & ? & -> & _). rewrite Hl in Hun. lia.
Qed.

Lemma emits_reply d h body peer :
  wf_bytes d → echo_request me budget d h body →
  emits (K:=K) (reply socket me budget h body peer)
    (λ r t, ∃ p, echo_reply me budget d h body p ∧ sends [(p, peer)] r t).
Proof.
  intros Hd Hreq. destruct (reply_built d h body Hd Hreq) as (p & Hbuild & Hrep).
  assert (emits (K:=K) (reply socket me budget h body peer) (sends [(p, peer)])) as Hm.
  { unfold reply. rewrite Hbuild. apply emits_bind, emits_attempt.
    eapply emits_mono; [apply emits_send_packet|].
    intros [n|e|] t Ht; [..|by destruct Ht as (_ & _ & ?)].
    - apply (emits_then _ [] _ _ _ Ht), emits_print.
    - apply (emits_then _ [] _ _ _ Ht).
      destruct e as [[| [] | | |]|]; auto using emits_throw_sends, emits_print. }
  eapply emits_mono; [exact Hm|]. eauto.
Qed.

(** A pass, after its datagram. *)
Definition handle (data : bytes) (peer : SocketAddr) : st (K * list event) (stop MainError) unit :=
  if budget <? len data then print ("[drop] E-BUDGET length=" +:+ pretty (len data)) else
  match unpack_with_budget data budget with
  | Ok (header, payload) =>
      if negb (beq (dst header) me) then print "[drop] DST" else
      dispatch socket me budget header payload peer
  | Err e => print ("[drop] " +:+ WireError.as_str e)
  | Panic => lift Panic
  end.

Lemma emits_handle d peer :
  wf_bytes d →
  emits (handle d peer) (λ r t, ∃ ss, answered me budget [(d, peer)] ss ∧ sends ss r t).
Proof.
  intros Hd.
  assert (∀ line, (∀ h body, ¬ echo_request me budget d h body) →
    emits (E:=stop MainError) (print line) (λ r t, ∃ ss, answered me budget [(d, peer)] ss ∧ sends ss r t)) as Hdrop.
  { intros line Hno. eapply emits_mono; [apply emits_print|]. intros r t Ht. exists [].
    split; [|done]. by repeat constructor. }
  unfold handle. destruct (Z.ltb_spec budget (len d)) as [Hb|Hb].
  { apply Hdrop. intros h body (payload & Hu & _). apply unpack_inv in Hu as (Hh & -> & _ & _ & Hl); [|done].
    rewrite len_app in Hb. unfold len at 1 in Hb. rewrite length_header_bytes in Hb by done.
    unfold HEADER_LEN in *. lia. }
  pose proof (safe_unpack d budget) as Hsafe.
  destruct (unpack_with_budget d budget) as [[h payload]|e|] eqn:Hu; [..|done].
  2: { apply Hdrop. intros h body (payload & Hu' & _). by rewrite Hu in Hu'. }
  assert (∀ h' body, echo_request me budget d h' body → h' = h ∧ dst h = me ∧
    next_header h = NH_CTL ∧ parse_ctl h payload = Ok (CTL_ECHO_REQUEST, 0, body)) as Hinv.
  { intros h' body (payload' & Hu' & Hn & Hdst & Hp). rewrite Hu in Hu'. by simplify_eq. }
  destruct (beq (dst h) me) eqn:Hdst; simpl.
  2: { apply beq_false in Hdst. apply Hdrop. by intros h' body (_ & ? & _)%Hinv. }
  apply beq_true in Hdst. unfold dispatch. destruct (Z.eqb_spec (next_header h) NH_CTL) as [Hn|Hn].
  2: { assert (∀ h' body, ¬ echo_request me budget d h' body) as Hno by (by intros h' body (_ & _ & ? & _)%Hinv).
       case_match; [|by apply Hdrop]. pose proof (safe_parse_dgram h payload) as Hs.
       destruct (parse_dgram h payload) as [[[] ]| |]; [by apply Hdrop..|done]. }
  pose proof (safe_parse_ctl h payload) as Hs.
  destruct (parse_ctl h payload) as [[[typ code] body]|e|] eqn:Hp; [..|done].
  2: { apply Hdrop. intros h' body (_ & _ & _ & ?)%Hinv. by simplify_eq. }
  destruct ((typ =? CTL_ECHO_REQUEST) && (code =? 0)) eqn:Ht.
  - apply andb_true_iff in Ht as [->%Z.eqb_eq ->%Z.eqb_eq].
    assert (echo_request me budget d h body) as Hreq by (exists payload; done).
    eapply emits_mono; [by apply (emits_reply d)|]. intros r t (p & Hrep & Hs').
    exists [(p, peer)]. split; [|done]. eapply answered_reply; [done|done|constructor].
  - apply Hdrop. intros h' body' (_ & _ & _ & [= -> -> ->])%Hinv. done.
Qed.

Lemma answered_app ds ss ds' ss' :
  answered me budget ds ss → answered me budget ds' ss' →
  answered me budget (ds ++ ds') (ss ++ ss').
Proof.
  induction 1; intros; simpl; [done|apply answered_drop; auto|eapply answered_reply; eauto].
Qed.

(** Whatever the bytes are, the rest of the pass receives nothing. *)
Lemma quiet_handle d peer : emits (handle d peer) (λ _ t, received t = []).
Proof.
  assert (∀ line, emits (K:=K) (E:=stop MainError) (print line) (λ _ t, received t = [])) as Hprint
    by (intros; eapply emits_mono; [apply emits_print|]; by intros r t []).
  assert (∀ h body, emits (K:=K) (reply socket me budget h body peer) (λ _ t, received t = [])) as Hreply.
  { intros h body. unfold reply. case_match; [|done|by apply emits_lift].
    apply emits_bind, emits_attempt. eapply emits_mono; [apply emits_send_packet|].
    intros [n|e|] t (Ht & _); [..|done];
      (eapply emits_mono; [|intros ?? Hr; rewrite received_app, Ht; exact Hr]).
    - apply Hprint.
    - destruct e as [[| [] | | |]|]; first [apply Hprint | by apply emits_throw]. }
  unfold handle, dispatch.
  repeat case_match; apply Hprint || apply Hreply || by apply emits_lift.
Qed.

Lemma emits_respond :
  emits (K:=K) (respond socket me budget) (λ r t,
    Forall (λ d, wf_bytes d.1) (received t) → answered me budget (received t) (sent t) ∧ r ≠ Panic).
Proof.
  apply emits_bind, emits_bind, emits_ask. intros [e|[d peer]].
  { apply emits_throw. split; [constructor|done]. }
  apply emits_ret. fold (handle d peer).
  destruct (decide (wf_bytes d)) as [Hd|Hd].
  - eapply emits_mono; [by apply emits_handle|]. intros r t (ss & Ha & Hr & Hs & Hp) _.
    rewrite !received_app, !sent_app, Hr, Hs. done.
  - eapply emits_mono; [by apply quiet_handle|]. intros r t Hr Hall.
    rewrite !received_app, Hr in Hall. by apply Forall_cons_1 in Hall as [? _].
Qed.

Lemma emits_run n :
  emits (K:=K) (run n socket me budget) (λ r t,
    Forall (λ d, wf_bytes d.1) (received t) → answered me budget (received t) (sent t) ∧ r ≠ Panic).
Proof.
  apply (emits_loop n _ (λ _ t, Forall (λ d, wf_bytes d.1) (received t) →
      answered me budget (received t) (sent t)) _ () []); [constructor| |].
  - intros [] t Ht. apply emits_bind. eapply emits_mono; [apply emits_respond|].
    intros r t' Hr.
    assert (Forall (λ d, wf_bytes d.1) (received (t ++ t')) →
      answered me budget (received (t ++ t')) (sent (t ++ t')) ∧ r ≠ Panic) as Hboth.
    { rewrite received_app, sent_app. intros [Hw Hw']%Forall_app.
      destruct (Hr Hw'). split; [|done]. apply answered_app; auto. }
    destruct r as [[]|e|]; [apply emits_ret; rewrite app_nil_r; by apply Hboth| |].
    + intros Hw. by destruct (Hboth Hw).
    + intros Hw. by destruct (Hboth Hw).
  - intros a t Ht Hw. auto.
Qed.
End Answers.

(** C6: on any network and for any number of passes, the datagrams the responder sends are exactly
    the replies to the valid echo requests for its locator, in the order of the requests: each
    request is answered once, to the endpoint it came from, with its own body and a packet of its
    own length, from the responder's locator to the source locator of the request; every other
    datagram is dropped without an answer, and the program never panics. *)
Theorem responder_answers {K} `{NC : Net K} (n : nat) (socket : Z) (me : bytes) (budget : Z) (k : K) :
  wf_array 16 me →
  ∃ t, snd (snd (run n socket me budget (k, []))) = t ∧
    (Forall (λ d, wf_bytes d.1) (received t) →
     answered me budget (received t) (sent t) ∧ fst (run n socket me budget (k, [])) ≠ Panic).
Proof.
  intros Hme. destruct (emits_run socket me budget Hme n k []) as (t & Ht & HQ). by exists t.
Qed.

(** A network that delivers a list of datagrams and accepts everything that is sent. *)
Definition Script : Type := list (bytes * SocketAddr).
Definition script_net {A : Set} (c : call A) : Script → A * Script :=
  match c in call A return Script → A * Script with
  | UdpBind _ => λ k, (inr 3, k)
  | SetSockOpt _ _ _ _ => λ k, (0, k)
  | LastError => λ k, (0, k)
  | SetReadTimeout _ _ => λ k, (inr (), k)
  | RecvFrom _ size => λ k,
      match k with
      | (d, peer) :: k => (inr (take (Z.to_nat size) d, peer), k)
      | [] => (inl (mkIoError WouldBlock (Some 11)), [])
      end
  | SendTo _ packet _ => λ k, (inr (len packet), k)
  | ToSocketAddrs _ => λ k, (inr [], k)
  | ProcessId => λ k, (1, k)
  | Now => λ k, (0, k)
  | GetRandom n => λ k, (Some (replicate n 1), k)
  | MonotonicClock => λ k, (0, (0, 0), k)
  | WriteFd _ data => λ k, (len data, k)
  | ReadFd _ _ => λ k, ((0, []), k)
  | Errno => λ k, (0, k)
  | Sleep _ => λ k, ((), k)
  | Rusage => λ k, ((0, (0, 0), (0, 0)), k)
  | Print _ => λ k, ((), k)
  end.
#[global] Instance script : Net Script := {| net A c := script_net c |}.

Definition demo_peer : SocketAddr := V4 [127; 0; 0; 1] 4000.
Definition demo_request : bytes :=
  match build_ctl_with_budget demo_ctl CTL_ECHO_REQUEST 0 [0; 7; 0; 1] 1252 with Ok d => d | _ => [] end.

(** A request, a corrupted copy, and a request that is too long for the budget: one answer, as
    long as the request; then the socket fails and the program stops. *)
Example responder_run :
  let '(r, (_, t)) := run 5 3 demo_dst 1252
    ([(demo_request, demo_peer); (<[51%nat := 0]> demo_request, demo_peer);
      (replicate 1300 0, demo_peer)], []) in
  r = Err (Failed (FromIo (mkIoError WouldBlock (Some 11)))) ∧
  (λ s, (len s.1, s.2)) <$> sent t = [(len demo_request, demo_peer)] ∧
  received t = [(demo_request, demo_peer); (<[51%nat := 0]> demo_request, demo_peer);
                (replicate 1253 0, demo_peer)].
Proof. by vm_compute. Qed.

Lemma responder_answers_witness :
  ∃ t, snd (snd (run 1 3 demo_dst 1252 ([(demo_request, demo_peer)], []))) = t ∧
    answered demo_dst 1252 [(demo_request, demo_peer)] (sent t) ∧ sent t ≠ [].
Proof.
  destruct (responder_answers 1 3 demo_dst 1252 [(demo_request, demo_peer)]) as (t & Ht & HQ);
    [compute_decide|].
  exists t. split; [exact Ht|]. rewrite <- Ht in *.
  assert (received (snd (snd (run 1 3 demo_dst 1252 ([(demo_request, demo_peer)], [])))) =
    [(demo_request, demo_peer)]) as Hr by (vm_compute; reflexivity).
  rewrite Hr in HQ. destruct HQ as [Ha _]; [compute_decide|]. split; [exact Ha|by vm_compute].
Defined.

End R8d.
