(* ===== verification/Ping.v ===== *)
(** * The echo client (src/rust/crates/r8ping/src/main.rs)

    The whole program: arguments, the datagram it sends on request, and the
    echo requests with their replies.  The theorems: a successful run has sent
    every request of its count and received nothing but their replies; on a
    network that carries every request to the responder of [Responder.v] within
    the timeout the run succeeds. *)

From S2P Require Import Prelude Wire Checksum Codec Text Loc Udp Responder.
From stdpp Require Import gmap strings pretty.
#[local] Open Scope Z_scope.

Module R8ping.

(** ** Arguments *)

Record Args : Set := mkArgs {
  address : option string;
  peer : option string;
  bind : string;
  count : Z;
  timeout_ms : Z;
  dgram : option string;
  sport : Z;
  dport : Z;
  budget : Z;
  allow_isolated : bool;
  target : option string;
}.

Definition default_args : Args :=
  mkArgs None None "127.0.0.1:0" 4 1000 None 1000 9000 DEFAULT_BUDGET false None.

(** The flags that take a value. *)
Definition value_flags : list string :=
  ["--address"; "--peer"; "--bind"; "--count"; "--timeout-ms"; "--dgram"; "--sport"; "--dport";
   "--binding-budget"]%string.

Definition parse_num (max : Z) (v : string) : outcome MainError Z :=
  ok_or (parse_unsigned max v) ParseInt.

(** The arm of a flag with its value. *)
Definition set_value (a : Args) (flag v : string) : outcome MainError Args :=
  let '(mkArgs ad pe bi co ti dg sp dp bu al ta) := a in
  if bool_decide (flag = "--address"%string) then Ok (mkArgs (Some v) pe bi co ti dg sp dp bu al ta) else
  if bool_decide (flag = "--peer"%string) then Ok (mkArgs ad (Some v) bi co ti dg sp dp bu al ta) else
  if bool_decide (flag = "--bind"%string) then Ok (mkArgs ad pe v co ti dg sp dp bu al ta) else
  if bool_decide (flag = "--count"%string) then
    n ← parse_num u16_max v; Ok (mkArgs ad pe bi n ti dg sp dp bu al ta) else
  if bool_decide (flag = "--timeout-ms"%string) then
    n ← parse_num u64_max v; Ok (mkArgs ad pe bi co n dg sp dp bu al ta) else
  if bool_decide (flag = "--dgram"%string) then Ok (mkArgs ad pe bi co ti (Some v) sp dp bu al ta) else
  if bool_decide (flag = "--sport"%string) then
    n ← parse_num u16_max v; Ok (mkArgs ad pe bi co ti dg n dp bu al ta) else
  if bool_decide (flag = "--dport"%string) then
    n ← parse_num u16_max v; Ok (mkArgs ad pe bi co ti dg sp n bu al ta) else
  n ← parse_num usize_max v; Ok (mkArgs ad pe bi co ti dg sp dp n al ta).

Fixpoint arguments (a : Args) (args : list string) : outcome MainError Args :=
  match args with
  | [] => Ok a
  | arg :: args =>
      if bool_decide (arg ∈ value_flags) then
        match args with
        | [] => Err (Text (arg +:+ " needs a value"))
        | v :: args => a ← set_value a arg v; arguments a args
        end
      else
        let '(mkArgs ad pe bi co ti dg sp dp bu al ta) := a in
        if bool_decide (arg = "--allow-isolated-underlay"%string)
        then arguments (mkArgs ad pe bi co ti dg sp dp bu true ta) args
        else if negb (bool_decide (head (ascii_bytes arg) = Some 45)) && bool_decide (ta = None)
        then arguments (mkArgs ad pe bi co ti dg sp dp bu al (Some arg)) args
        else Err (Text "invalid argument")
  end.

(** [str::split_once] at an equals sign *)
Fixpoint split_once (s : string) : option (string * string) :=
  match s with
  | EmptyString => None
  | String c s =>
      if Z.of_N (Ascii.N_of_ascii c) =? 61 then Some (EmptyString, s) else
      '(a, b) ← split_once s; Some (String c a, b)
  end.

(** [+= 1] on a counter of type [u32] *)
Definition incr {E} (n : Z) : outcome E Z := if n =? u32_max then Panic else Ok (n + 1).

(** Everything the echo exchange uses. *)
Record Target : Set := mkTarget {
  socket : Z;
  me : bytes;
  to : bytes;
  endpoint : SocketAddr;
  ident : Z;
  timeout : Z;
  max : Z;
}.

Section Program.
Context {K : Type} `{NC : Net K}.

(** How the elapsed time of a reply is printed: milliseconds with two decimals. *)
Variable fmt_latency : Z → string.

Definition resolve (host : string) : st K (stop MainError) SocketAddr :=
  l ← ask_err FromIo (ToSocketAddrs host);
  match l with a :: _ => mret a | [] => fail (Text "peer endpoint is unresolved") end.

(** ** The exchange *)

Definition echo_body (e : Target) (sequence : Z) : bytes :=
  [ident e / 256; ident e mod 256; sequence / 256; sequence mod 256].

Definition is_reply (e : Target) (sequence : Z) (header : Header) (typ code : Z) (reply : bytes) : bool :=
  (typ =? CTL_ECHO_REPLY) && (code =? 0) && (next_header header =? NH_CTL) && beq (src header) (to e)
  && beq (dst header) (me e) && beq reply (echo_body e sequence).

(** What a datagram is: [None] goes on waiting. *)
Definition on_datagram (e : Target) (sequence started : Z) (counts : Z * Z) (data : bytes)
    (source : SocketAddr) : st K (stop MainError) (Z * Z + (Z * Z * bool)) :=
  let '(received, invalid) := counts in
  let reject : st K (stop MainError) (Z * Z + (Z * Z * bool)) :=
    invalid ← lift (incr invalid); mret (inl (received, invalid)) in
  if (max e <? len data) || negb (bool_decide (source = endpoint e)) then reject else
  match unpack_with_budget data (max e) with
  | Panic => lift Panic
  | Err _ => reject
  | Ok (header, payload) =>
      match parse_ctl header payload with
      | Panic => lift Panic
      | Err _ => reject
      | Ok (typ, code, reply) =>
          if is_reply e sequence header typ code reply then
            received ← lift (incr received);
            now ← ask Now;
            print ("R8-ECHO reply sequence=" +:+ pretty sequence +:+ " latency_ms="
                   +:+ fmt_latency (saturating_duration_since now started)) ;;
            mret (inr (received, invalid, true))
          else reject
      end
  end.

Definition await_pass (e : Target) (sequence started deadline : Z) (counts : Z * Z) :
  st K (stop MainError) (Z * Z + (Z * Z * bool)) :=
  let '(received, invalid) := counts in
  now ← ask Now;
  if negb (now <? deadline) then mret (inr (received, invalid, false)) else
  now ← ask Now;
  r ← set_read_timeout (socket e) (saturating_duration_since deadline now);
  match r with inl err => fail (FromIo err) | inr _ =>
  r ← ask (RecvFrom (socket e) (max e + 1));
  match r with
  | inl err =>
      if bool_decide (kind err = TimedOut) || bool_decide (kind err = WouldBlock)
      then mret (inr (received, invalid, false)) else fail (FromIo err)
  | inr (data, source) => on_datagram e sequence started (received, invalid) data source
  end
  end.

Definition request (e : Target) (sequence : Z) : outcome MainError bytes :=
  map_err (λ _, Text "E-BUDGET")
    (build_ctl_with_budget (header_new NH_CTL (me e) (to e)) CTL_ECHO_REQUEST 0 (echo_body e sequence)
       (max e)).

(** One request and the wait for its reply, of at most [n] datagrams. *)
Definition ping (n : nat) (e : Target) (sequence : Z) (counts : Z * Z) :
  st K (stop MainError) (Z * Z) :=
  packet ← lift_err id (request e sequence);
  started ← ask Now;
  send_packet (socket e) packet (endpoint e) ;;
  '(received, invalid, matched) ←
    loop n (await_pass e sequence started (started + timeout e)) counts;
  (if matched : bool then mret () else print ("R8-ECHO timeout sequence=" +:+ pretty sequence)) ;;
  mret (received, invalid).

Fixpoint pings (n : nat) (e : Target) (sequences : list Z) (counts : Z * Z) :
  st K (stop MainError) (Z * Z) :=
  match sequences with
  | [] => mret counts
  | sequence :: sequences => counts ← ping n e sequence counts; pings n e sequences counts
  end.

(** ** The program *)

(** Up to the open socket, with the datagram to send if there is one. *)
Definition setup (a : Args) : st K (stop MainError) (Z * bytes * bytes * SocketAddr) :=
  if count a =? 0 then fail (Text "--count must be greater than zero") else
  if negb ((HEADER_LEN <=? budget a) && (budget a <=? SERIALIZED_R8_MAX))
  then fail (Text "--binding-budget must be 48..1280") else
  address ← lift_err id (ok_or (address a) (Text "--address is required"));
  me ← lift_err id (ok_or (parse_loc address) ParseAddr);
  target ← lift_err id (ok_or (target a) (Text "target locator is required"));
  target ← lift_err id (ok_or (parse_loc target) ParseAddr);
  peer_argument ← lift_err id (ok_or (peer a) (Text "--peer is required"));
  '(peer_loc, peer_text) ← lift_err id (ok_or (split_once peer_argument) (Text "--peer must be loc=host:port"));
  peer_loc ← lift_err id (ok_or (parse_loc peer_loc) ParseAddr);
  if negb (beq peer_loc target) then fail (Text "peer locator does not match target") else
  peer ← resolve peer_text;
  bind ← lift_err id (ok_or (parse_socket_addr (bind a)) ParseAddr);
  lift_err Text (validate_underlay bind (allow_isolated a)) ;;
  lift_err Text (validate_underlay peer (allow_isolated a)) ;;
  socket ← ask_err FromIo (UdpBind bind);
  set_df socket ;;
  mret (socket, me, target, peer).

Definition send_dgram (a : Args) (message : string) (socket : Z) (me target : bytes) (peer : SocketAddr) :
  st K (stop MainError) unit :=
  packet ← lift_err (λ _, Text "E-BUDGET")
    (build_dgram_with_budget (header_new NH_DGRAM me target) (sport a) (dport a) (ascii_bytes message)
       (budget a));
  send_packet socket packet peer ;;
  print ("[dgram] sent length=" +:+ pretty (len packet)).

Definition echo (n : nat) (e : Target) (count : Z) : st K (stop MainError) unit :=
  '(received, invalid) ← pings n e (seqZ 1 count) (0, 0);
  print ("R8-ECHO summary sent=" +:+ pretty count +:+ " received=" +:+ pretty received
         +:+ " invalid=" +:+ pretty invalid) ;;
  if negb (count =? received) || negb (invalid =? 0) then fail (Text "echo loss or invalid reply")
  else mret ().

Definition main (n : nat) (args : list string) : st K (stop MainError) unit :=
  a ← lift_err id (arguments default_args args);
  '(socket, me, target, peer) ← setup a;
  match dgram a with
  | Some message => send_dgram a message socket me target peer
  | None =>
      pid ← ask ProcessId;
      echo n (mkTarget socket me target peer (Z.land pid u16_max) (millis (timeout_ms a)) (budget a))
        (count a)
  end.

End Program.
(** ** A successful run *)

(** The reply to the request of that sequence number. *)
Definition answers (e : Target) (sequence : Z) (d : bytes) : Prop :=
  ∃ h payload, unpack_with_budget d (max e) = Ok (h, payload) ∧ next_header h = NH_CTL ∧
    src h = to e ∧ dst h = me e ∧
    parse_ctl h payload = Ok (CTL_ECHO_REPLY, 0, echo_body e sequence).

Lemma is_reply_spec e sequence h typ code reply :
  is_reply e sequence h typ code reply = true →
  typ = CTL_ECHO_REPLY ∧ code = 0 ∧ next_header h = NH_CTL ∧ src h = to e ∧ dst h = me e ∧
  reply = echo_body e sequence.
Proof.
  unfold is_reply. rewrite !andb_true_iff, !Z.eqb_eq, !beq_true. naive_solver.
Qed.

Lemma incr_Ok {E} n m : incr (E:=E) n = Ok m → m = n + 1.
Proof. unfold incr. case_match; [done|]. by intros [= <-]. Qed.

Section Success.
Context {K : Type} `{NC : Net K} (fmt_latency : Z → string) (e : Target).

(** What a pass of the wait leaves behind. *)
Definition pass_result (sequence rc iv : Z) (r : outcome (stop MainError) (Z * Z + (Z * Z * bool)))
    (t : list event) : Prop :=
  sent t = [] ∧
  match r with
  | Ok (inl (rc', iv')) => rc' = rc ∧ iv' = iv + 1
  | Ok (inr (rc', iv', matched)) =>
      iv' = iv ∧
      if matched then rc' = rc + 1 ∧ ∃ d, received t = [(d, endpoint e)] ∧ answers e sequence d
      else rc' = rc ∧ received t = []
  | _ => True
  end.

Lemma emits_datagram sequence started rc iv data source :
  emits (K:=K) (on_datagram fmt_latency e sequence started (rc, iv) data source) (λ r t,
    pass_result sequence rc iv r (mkEvent _ (RecvFrom 0 0) (inr (data, source)) :: t)).
Proof.
  assert (emits (K:=K) (E:=stop MainError) (A:=Z * Z + (Z * Z * bool))
    (invalid ← lift (incr iv); mret (inl (rc, invalid)))
    (λ r t, pass_result sequence rc iv r (mkEvent _ (RecvFrom 0 0) (inr (data, source)) :: t))) as Hreject.
  { apply emits_bind, emits_lift. destruct (incr iv) as [iv'| |] eqn:Hi; [|done..].
    apply emits_ret. by apply incr_Ok in Hi. }
  unfold on_datagram.
  destruct (max e <? len data) eqn:Hl; [done|]. case_bool_decide as Hs; [|done]. subst source. simpl.
  destruct (unpack_with_budget _ _) as [[h payload]| |] eqn:Hu; [|done|by apply emits_lift].
  destruct (parse_ctl h payload) as [[[typ code] reply]| |] eqn:Hp; [|done|by apply emits_lift].
  destruct (is_reply _ _ _ _ _ _) eqn:Hr; [|done]. apply is_reply_spec in Hr as (-> & -> & ? & ? & ? & ->).
  apply emits_bind, emits_lift. destruct (incr rc) as [rc'| |] eqn:Hi; [|done..]. apply incr_Ok in Hi as ->.
  apply emits_bind, emits_ask. intros now. apply emits_bind, emits_ask. intros []. apply emits_ret.
  split; [done|]. split; [done|]. split; [done|]. exists data. split; [done|]. by exists h, payload.
Qed.

Lemma emits_pass sequence started deadline rc iv :
  emits (K:=K) (await_pass fmt_latency e sequence started deadline (rc, iv))
    (pass_result sequence rc iv).
Proof.
  apply emits_bind, emits_ask. intros now. destruct (now <? deadline); simpl; [|by apply emits_ret].
  apply emits_bind, emits_ask. intros now'. apply emits_bind. unfold set_read_timeout.
  eapply (emits_mono _ (λ r t, sent t = [] ∧ received t = [] ∧ ∃ x, r = Ok x)).
  { case_match; [apply emits_ret|apply emits_ask]; eauto. }
  intros ? t (Hs & Hr & [err|[]] & ->); [apply emits_throw; split; [|done]; simpl; by rewrite app_nil_r|].
  apply emits_bind, emits_ask. intros [err|[data source]].
  - case_match; [apply emits_ret|apply emits_throw]; unfold pass_result; simpl;
      rewrite !sent_app, ?received_app, Hs, ?Hr; done.
  - eapply emits_mono; [apply emits_datagram|]. intros r t'. unfold pass_result; simpl.
    rewrite !sent_app, !received_app, Hs, Hr. simpl. done.
Qed.

(** The whole wait: when no invalid datagram was counted, at most the reply came. *)
Definition wait_counts (sequence rc iv rc' iv' : Z) (t : list event) : Prop :=
  iv ≤ iv' ∧
  (rc' = rc ∨ rc' = rc + 1 ∧
   (iv' = iv → ∃ d, received t = [(d, endpoint e)] ∧ answers e sequence d)).

Lemma emits_wait n sequence started deadline rc iv :
  emits (K:=K) (loop n (await_pass fmt_latency e sequence started deadline) (rc, iv))
    (λ r t, sent t = [] ∧ ∀ rc' iv' m, r = Ok (rc', iv', m) → wait_counts sequence rc iv rc' iv' t).
Proof.
  apply (emits_loop n _ (λ c t, sent t = [] ∧ c.1 = rc ∧ iv ≤ c.2 ∧ (c.2 = iv → received t = []))
    (λ r t, sent t = [] ∧ ∀ rc' iv' m, r = Ok (rc', iv', m) → wait_counts sequence rc iv rc' iv' t)
    (rc, iv) []); [done| |].
  - intros [rc1 iv1] t (Hs & Hrc & Hiv & Hr). simpl in *. subst rc1.
    eapply emits_mono; [apply emits_pass|].
    intros [[[rc' iv']|[[rc' iv'] matched]]|err|] t' (Hs' & Ht'); rewrite sent_app, Hs, Hs'; simpl.
    + destruct Ht' as [-> ->]. split_and!; [done..|lia|lia].
    + destruct Ht' as [-> Ht']. split; [done|]. intros ? ? ? [= <- <- <-]. split; [done|].
      destruct matched; destruct Ht' as [-> Hd]; [right|by left]. split; [done|]. intros Heq.
      rewrite received_app, Hr by done. done.
    + done.
    + done.
  - intros [rc1 iv1] t (Hs & _). done.
Qed.

(** One request: it is sent once. *)
Lemma emits_ping n sequence rc iv :
  emits (K:=K) (ping fmt_latency n e sequence (rc, iv)) (λ r t, ∀ rc' iv', r = Ok (rc', iv') →
    (∃ p, request e sequence = Ok p ∧ sent t = [(p, endpoint e)]) ∧
    wait_counts sequence rc iv rc' iv' t).
Proof.
  apply emits_bind, emits_lift. destruct (request e sequence) as [p|err|] eqn:Hreq; [|done..].
  apply emits_bind, emits_ask. intros started. apply emits_bind.
  eapply emits_mono; [apply emits_send_packet|]. intros [sz|err|] ts (Hrs & Hss & _); [|done..].
  apply emits_bind. eapply emits_mono; [apply emits_wait|].
  intros [[[rc' iv'] m]|err|] tw (Hsw & Hw); [|done..]. specialize (Hw _ _ _ eq_refl).
  apply emits_bind.
  eapply (emits_mono _ (λ r t, sent t = [] ∧ received t = [])); [destruct m; [by apply emits_ret|by apply emits_ask]|].
  intros [[]|err|] tp (Hsp & Hrp); [|done..]. apply emits_ret. intros ? ? [= <- <-].
  unfold wait_counts in *. rewrite !sent_app, !received_app, Hss, Hsw, Hsp, Hrs, Hrp. simpl.
  rewrite !app_nil_r. split; [by exists p|done].
Qed.

(** The requests of [sequences] in order, and the datagrams that answer them in order. *)
Definition exchanged (sequences : list Z) (t : list event) : Prop :=
  ∃ ps ds, Forall2 (λ q p, request e q = Ok p) sequences ps ∧
    sent t = (λ p, (p, endpoint e)) <$> ps ∧
    Forall2 (answers e) sequences ds ∧ received t = (λ d, (d, endpoint e)) <$> ds.

Lemma emits_pings n sequences rc iv :
  emits (K:=K) (pings fmt_latency n e sequences (rc, iv)) (λ r t, ∀ rc' iv', r = Ok (rc', iv') →
    iv ≤ iv' ∧ rc' ≤ rc + len sequences ∧
    (iv' = iv → rc' = rc + len sequences → exchanged sequences t)).
Proof.
  revert rc iv. induction sequences as [|q sequences IH]; intros rc iv.
  { apply emits_ret. intros ? ? [= <- <-]. split_and!; [done|unfold len; simpl; lia|].
    intros _ _. exists [], []. repeat split; constructor. }
  apply emits_bind. eapply emits_mono; [apply emits_ping|]. intros [[rc1 iv1]|err|] t Ht; [|done..].
  destruct (Ht _ _ eq_refl) as ((p & Hp & Hs) & Hiv & Hd).
  eapply emits_mono; [apply IH|]. intros r t' Hr rc' iv' ->.
  destruct (Hr _ _ eq_refl) as (Hiv' & Hrc & Hex). change (q :: sequences) with ([q] ++ sequences).
  rewrite len_app. change (len [q]) with 1.
  split_and!; [lia|lia|]. intros Heq Heq'. destruct Hex as (ps & ds & Hps & Hsp & Hds & Hrd); [lia..|].
  destruct Hd as [->|[-> Hd]]; [lia|]. destruct Hd as (d & Hrt & Hd); [lia|].
  exists (p :: ps), (d :: ds). rewrite sent_app, received_app, Hs, Hsp, Hrt, Hrd.
  split_and!; by constructor.
Qed.

Lemma emits_echo n count :
  0 ≤ count →
  emits (K:=K) (echo fmt_latency n e count) (λ r t, r = Ok () → exchanged (seqZ 1 count) t).
Proof.
  intros Hc. apply emits_bind. eapply emits_mono; [apply emits_pings|].
  intros [[rc iv]|err|] t Ht; [|done..]. specialize (Ht _ _ eq_refl) as (_ & _ & Ht).
  apply emits_bind, emits_ask. intros []. destruct (negb (count =? rc) || negb (iv =? 0)) eqn:Hz.
  { by apply emits_throw. }
  apply orb_false_iff in Hz as [Hrc%negb_false_iff%Z.eqb_eq Hiv%negb_false_iff%Z.eqb_eq].
  apply emits_ret. intros _. destruct Ht as (ps & ds & Hps & Hs & Hds & Hr); [done| |].
  { unfold len. rewrite length_seqZ. lia. }
  exists ps, ds. rewrite !sent_app, !received_app, Hs, Hr. simpl. by rewrite !app_nil_r.
Qed.
End Success.

(** C40: an echo run that ends well, on whatever network: it sent exactly one request for every
    sequence number from 1 to its count, in order, to the peer, and the only datagrams that came
    are their replies, in order and from the peer: each a control packet from the target locator
    to its own that repeats the request's identifier and sequence number. *)
Theorem ping_success {K} `{NC : Net K} (fmt_latency : Z → string) (n : nat) (e : Target) (count : Z) (k : K) :
  0 ≤ count →
  let '(r, (_, t)) := echo fmt_latency n e count (k, []) in
  r = Ok () → exchanged e (seqZ 1 count) t.
Proof.
  intros Hc. destruct (emits_echo fmt_latency e n count Hc k []) as (t & Ht & HQ).
  destruct (echo fmt_latency n e count (k, [])) as [r [k' t']]. simpl in *. by subst.
Qed.

(** ** A run against the responder *)

(** A network on which the peer is a responder for [target]: a request that is sent is answered by
    one datagram, which waits until it is received.  No call takes longer than [latency]. *)
Class EchoNet (K : Type) `{NC : Net K} (target : bytes) (budget : Z) (peer : SocketAddr) (latency : Z) := {
  clock : K → Z;
  inbox : K → list bytes;
  clock_law {A : Set} (c : call A) k : clock k ≤ clock (snd (net c k)) ≤ clock k + latency;
  now_law k : clock k ≤ fst (net Now k) ≤ clock (snd (net Now k));
  frame_law {A : Set} (c : call A) k :
    match c with SendTo _ _ _ | RecvFrom _ _ => False | _ => True end →
    inbox (snd (net c k)) = inbox k;
  send_law s p h body k :
    wf_bytes p → R8d.echo_request target budget p h body →
    fst (net (SendTo s p peer) k) = inr (len p) ∧
    ∃ d, R8d.echo_reply target budget p h body d ∧ inbox (snd (net (SendTo s p peer) k)) = inbox k ++ [d];
  recv_law s n k d l :
    inbox k = d :: l →
    fst (net (RecvFrom s n) k) = inr (take (Z.to_nat n) d, peer) ∧ inbox (snd (net (RecvFrom s n) k)) = l;
  timeout_law s ns k : fst (net (SetReadTimeout s ns) k) = inr ();
}.

Section Completes.
Context {K : Type} `{NC : Net K} (fmt_latency : Z → string) (e : Target) (latency : Z).
Context `{EN : !EchoNet K (to e) (max e) (endpoint e) latency}.
Hypothesis me_wf : wf_array 16 (me e).
Hypothesis to_wf : wf_array 16 (to e).
Hypothesis ident_u16 : is_u16 (ident e).
Hypothesis budget_ok : HEADER_LEN + 8 ≤ max e.
Hypothesis in_time : 4 * latency < timeout e.

Lemma wf_echo_body q : is_u16 q → wf_bytes (echo_body e q) ∧ len (echo_body e q) = 4.
Proof using ident_u16.
  clear -ident_u16. intros Hq. split; [|done]. unfold echo_body.
  repeat apply wf_bytes_cons; try apply wf_bytes_nil; unfold_widths; Z.div_mod_to_equations; lia.
Qed.

Lemma request_ok q :
  is_u16 q → ∃ p, request e q = Ok p ∧ wf_bytes p ∧
    R8d.echo_request (to e) (max e) p (header_new NH_CTL (me e) (to e)) (echo_body e q).
Proof using me_wf to_wf ident_u16 budget_ok.
  intros Hq. destruct (wf_echo_body q Hq) as [Hw Hl]. unfold HEADER_LEN in *.
  destruct (build_ctl_roundtrip (header_new NH_CTL (me e) (to e)) CTL_ECHO_REQUEST 0 (echo_body e q) (max e))
    as (p & payload & Hb & Hu & Hp).
  { by apply R8d.plain_new. }
  1-3: done.
  { unfold validate_ctl. by rewrite Hl. }
  1-2: unfold HEADER_LEN, SERIALIZED_R8_MAX; rewrite Hl; lia.
  exists p. unfold request. rewrite Hb. split; [done|]. split; [|by exists payload].
  by eapply R8d.build_ctl_wf; [apply R8d.plain_new| | | |exact Hb].
Qed.

(** The reply is recognised. *)
Lemma reply_recognised d body p :
  R8d.echo_reply (to e) (max e) p (header_new NH_CTL (me e) (to e)) body d →
  ∃ payload, unpack_with_budget d (max e) = Ok (header_new NH_CTL (to e) (me e), payload) ∧
    parse_ctl (header_new NH_CTL (to e) (me e)) payload = Ok (CTL_ECHO_REPLY, 0, body).
Proof. intros (payload & Hu & Hp & _). by exists payload. Qed.

Lemma send_packet_bind {A} p (f : Z → st K (stop MainError) A) k :
  fst (net (SendTo (socket e) p (endpoint e)) k) = inr (len p) →
  (send_packet (socket e) p (endpoint e) ≫= f) k =
  f (len p) (snd (net (SendTo (socket e) p (endpoint e)) k)).
Proof.
  intros Hs. unfold send_packet, send_packet_with, mbind, st_bind, ask.
  destruct (net _ k) as [r k']. simpl in *. subst r. unfold lift_err, validate_send_count, lift.
  by rewrite Z.eqb_refl.
Qed.

(** With the reply waiting, one pass ends the wait. *)
Lemma pass_receives q started deadline rc k d payload :
  0 ≤ rc < u32_max → inbox k = [d] → clock k + 2 * latency < deadline →
  unpack_with_budget d (max e) = Ok (header_new NH_CTL (to e) (me e), payload) →
  parse_ctl (header_new NH_CTL (to e) (me e)) payload = Ok (CTL_ECHO_REPLY, 0, echo_body e q) →
  ∃ k', await_pass fmt_latency e q started deadline (rc, 0) k = (Ok (inr (rc + 1, 0, true)), k') ∧
        inbox k' = [].
Proof.
  intros Hrc Hbox Ht Hu Hp. pose proof (R8d.unpack_budget _ _ _ _ Hu) as Hl.
  unfold await_pass. cbv beta iota.
  rewrite ask_bind. pose proof (now_law k) as Hn1. pose proof (clock_law Now k) as Hc1.
  pose proof (frame_law Now k I) as Hb1. set (k1 := snd (net Now k)) in *. set (n1 := fst (net Now k)) in *.
  rewrite (proj2 (Z.ltb_lt n1 deadline)) by lia. cbn [negb]. cbv iota.
  rewrite ask_bind. pose proof (now_law k1) as Hn2. pose proof (clock_law Now k1) as Hc2.
  pose proof (frame_law Now k1 I) as Hb2. set (k2 := snd (net Now k1)) in *. set (n2 := fst (net Now k1)) in *.
  unfold set_read_timeout, saturating_duration_since.
  rewrite (proj2 (Z.eqb_neq (Z.max 0 (deadline - n2)) 0)) by lia.
  set (c := SetReadTimeout _ _). rewrite ask_bind. pose proof (frame_law c k2 I) as Hb3.
  unfold c at 1. rewrite timeout_law. set (k3 := snd (net c k2)) in *.
  rewrite ask_bind. destruct (recv_law (socket e) (max e + 1) k3 d []) as [Hr Hb4]; [congruence|].
  rewrite Hr. rewrite take_ge by (unfold len in Hl; lia).
  set (k4 := snd (net (RecvFrom _ _) k3)) in *.
  unfold on_datagram. rewrite (proj2 (Z.ltb_ge _ _)) by lia. rewrite bool_decide_true by done. cbn [orb negb]. cbv iota.
  rewrite Hu, Hp.
  assert (is_reply e q (header_new NH_CTL (to e) (me e)) CTL_ECHO_REPLY 0 (echo_body e q) = true) as ->.
  { unfold is_reply. by rewrite !beq_refl. }
  unfold incr. rewrite (proj2 (Z.eqb_neq _ _)) by lia. change (lift (Ok ?a) ≫= ?f) with (f a). cbv beta.
  rewrite ask_bind. rewrite print_bind.
  eexists. split; [done|]. rewrite (frame_law (Print _) _ I), (frame_law Now _ I). done.
Qed.

Lemma ping_one n q rc k :
  is_u16 q → 0 ≤ rc < u32_max → inbox k = [] →
  ∃ k', ping fmt_latency (S n) e q (rc, 0) k = (Ok (rc + 1, 0), k') ∧ inbox k' = [].
Proof.
  intros Hq Hrc Hbox. destruct (request_ok q Hq) as (p & Hreq & Hwp & Hecho).
  unfold ping, lift_err. rewrite Hreq.
  cbn [map_err]. change (lift (Ok p) ≫= ?f) with (f p). cbv beta.
  rewrite ask_bind. pose proof (now_law k) as Hn1. pose proof (clock_law Now k) as Hc1.
  pose proof (frame_law Now k I) as Hb1. set (k1 := snd (net Now k)) in *. set (n1 := fst (net Now k)) in *.
  destruct (send_law (socket e) p _ _ k1 Hwp Hecho) as (Hsend & d & Hrep & Hb2).
  pose proof (clock_law (SendTo (socket e) p (endpoint e)) k1) as Hc2.
  rewrite send_packet_bind by done. set (k2 := snd (net (SendTo _ _ _) k1)) in *.
  rewrite Hb1, Hbox in Hb2. destruct (reply_recognised _ _ _ Hrep) as (payload & Hu & Hp).
  destruct (pass_receives q n1 (n1 + timeout e) rc k2 d payload) as (k3 & Hpass & Hb3); try done; try lia.
  cbn [loop].
  unfold mbind at 1, st_bind at 1. unfold mbind at 1, st_bind at 1. rewrite Hpass.
  cbn. eexists. split; [done|done].
Qed.

Lemma pings_all n sequences rc k :
  Forall is_u16 sequences → 0 ≤ rc → rc + len sequences ≤ u32_max → inbox k = [] →
  ∃ k', pings fmt_latency (S n) e sequences (rc, 0) k = (Ok (rc + len sequences, 0), k').
Proof.
  revert rc k. induction sequences as [|q sequences IH]; intros rc k Hall Hrc Hm Hbox.
  { exists k. simpl. by rewrite Z.add_0_r. }
  apply Forall_cons_1 in Hall as [Hq Hall]. change (q :: sequences) with ([q] ++ sequences) in *.
  rewrite len_app in *. change (len [q]) with 1 in *. pose proof (len_nonneg sequences).
  destruct (ping_one n q rc k) as (k1 & Hp & Hb1); [done|lia|done|].
  destruct (IH (rc + 1) k1) as (k2 & Hps); [done|lia..|done|].
  exists k2. simpl. unfold mbind, st_bind. rewrite Hp, Hps. do 3 f_equal. lia.
Qed.
End Completes.

(** C7: on a network that carries every request to a responder for the target locator, where no
    call takes longer than a quarter of the timeout, an echo run of any count ends well: every
    request is answered and recognised, no datagram counts as invalid, and no wait needs more than
    one pass. *)
Theorem ping_completes {K} `{NC : Net K} (fmt_latency : Z → string) (n : nat) (e : Target)
    (count latency : Z) `{EN : !EchoNet K (to e) (max e) (endpoint e) latency} (k : K) :
  wf_array 16 (me e) → wf_array 16 (to e) → is_u16 (ident e) → HEADER_LEN + 8 ≤ max e →
  4 * latency < timeout e → is_u16 count → inbox k = [] →
  fst (echo fmt_latency (S n) e count k) = Ok ().
Proof.
  intros Hme Hto Hid Hmax Ht Hc Hbox. unfold is_u16, u16_max in Hc.
  destruct (pings_all fmt_latency e latency Hme Hto Hid Hmax Ht n (seqZ 1 count) 0 k) as (k1 & Hp).
  - apply Forall_forall. intros q Hq%elem_of_seqZ. solve_width.
  - lia.
  - unfold len. rewrite length_seqZ. solve_width.
  - done.
  - unfold echo. unfold mbind at 1, st_bind at 1. rewrite Hp.
    assert (len (seqZ 1 count) = count) as -> by (unfold len; rewrite length_seqZ; lia).
    rewrite Z.add_0_l, print_bind. by rewrite Z.eqb_refl.
Qed.

(** ** A network with the responder on it

    A datagram that is sent is one pass of the program of r8d; what it sends waits for the client.
    Every call takes a microsecond. *)
Record Lab : Set := mkLab { lab_clock : Z; lab_inbox : list bytes }.

Definition lab_responds (target : bytes) (budget : Z) (p : bytes) : list bytes :=
  fst <$> sent (snd (snd (R8d.respond 3 target budget ([(p, R8d.demo_peer)] : R8d.Script, [])))).

Definition lab_call (target : bytes) (budget : Z) (peer : SocketAddr) {A : Set} (c : call A) :
    Lab → A * list bytes :=
  match c in call A return Lab → A * list bytes with
  | SendTo _ p _ => λ k, (inr (len p), lab_inbox k ++ lab_responds target budget p)
  | RecvFrom _ size => λ k,
      match lab_inbox k with
      | d :: l => (inr (take (Z.to_nat size) d, peer), l)
      | [] => (inl (mkIoError WouldBlock (Some 11)), [])
      end
  | Now => λ k, (lab_clock k, lab_inbox k)
  | SetReadTimeout _ _ => λ k, (inr (), lab_inbox k)
  | c => λ k, (fst (R8d.script_net c []), lab_inbox k)
  end.

Section Lab.
Context (target : bytes) (budget : Z) (peer : SocketAddr).

#[local] Instance lab_net : Net Lab := {|
  net A c k := let '(a, l) := lab_call target budget peer c k in (a, mkLab (lab_clock k + 1000) l)
|}.

(** What the responder sends for a request is its reply. *)
Lemma lab_responds_reply p h body :
  wf_array 16 target → wf_bytes p → len p ≤ budget + 1 → R8d.echo_request target budget p h body →
  ∃ d, R8d.echo_reply target budget p h body d ∧ lab_responds target budget p = [d].
Proof.
  intros Ht Hp Hl Hreq. unfold lab_responds.
  assert (R8d.respond 3 target budget ([(p, R8d.demo_peer)] : R8d.Script, []) =
    R8d.handle (K:=R8d.Script) 3 target budget p R8d.demo_peer
      ([], [mkEvent _ (RecvFrom 3 (budget + 1)) (inr (p, R8d.demo_peer))])) as Hpass.
  { rewrite <- (take_ge p (Z.to_nat (budget + 1))) at 2 3 by (unfold len in Hl; lia). done. }
  destruct (R8d.emits_handle (K:=R8d.Script) 3 target budget Ht p R8d.demo_peer Hp []
    [mkEvent _ (RecvFrom 3 (budget + 1)) (inr (p, R8d.demo_peer))])
    as (t & Heq & ss & Ha & _ & Hs & _).
  assert (snd (snd (R8d.respond 3 target budget ([(p, R8d.demo_peer)] : R8d.Script, []))) =
    [mkEvent _ (RecvFrom 3 (budget + 1)) (inr (p, R8d.demo_peer))] ++ t) as -> by (rewrite Hpass; exact Heq).
  rewrite sent_app, Hs. simpl. inversion Ha as [|? ? ? ? Hno|? ? d h' body' ? ? Hreq' Hrep' Hnil]; subst.
  { exfalso. by eapply Hno. }
  inversion Hnil; subst. exists d. split; [|done].
  destruct Hreq as (q & Hu & _ & _ & Hq), Hreq' as (q' & Hu' & _ & _ & Hq').
  rewrite Hu in Hu'. simplify_eq. rewrite Hq in Hq'. by simplify_eq.
Qed.

Lemma lab_echo : wf_array 16 target → HEADER_LEN ≤ budget → EchoNet Lab target budget peer 1000.
Proof.
  intros Ht Hbudget.
  refine {| clock := lab_clock; inbox := lab_inbox |}.
  - intros A c k. unfold net, lab_net. destruct (lab_call _ _ _ c k). simpl. lia.
  - intros k. simpl. lia.
  - intros A c k Hc. by destruct c.
  - intros s p h body k Hp Hreq. split; [done|].
    destruct (lab_responds_reply p h body) as (d & Hd & Hl); [done|done| |done|].
    { destruct Hreq as (q & Hu & _). apply R8d.unpack_budget in Hu. lia. }
    exists d. split; [done|]. simpl. by rewrite Hl.
  - intros s n k d l Hbox. unfold net, lab_net, lab_call. by rewrite Hbox.
  - done.
Defined.
End Lab.

(** The loop reads the clock twice.  When the deadline passes in between, the timeout it asks for
    is zero, which the library refuses, and the run ends with that error instead of counting a
    lost reply. *)
Lemma deadline_between_reads {K} `{NC : Net K} fmt_latency e sequence started deadline counts k :
  fst (net Now k) < deadline → deadline ≤ fst (net Now (snd (net Now k))) →
  fst (await_pass fmt_latency e sequence started deadline counts k) =
  Err (Failed (FromIo (mkIoError InvalidInput None))).
Proof.
  intros H1 H2. destruct counts as [rc iv]. unfold await_pass. cbv beta iota. rewrite ask_bind.
  rewrite (proj2 (Z.ltb_lt _ _) H1). cbn [negb]. cbv iota. rewrite ask_bind.
  unfold set_read_timeout, saturating_duration_since. by rewrite Z.max_l by lia.
Qed.

Definition lab_target : Target :=
  mkTarget 3 demo_src demo_dst (V4 [127; 0; 0; 1] 52808) 0x1234 (millis 1000) 1252.

Lemma ping_completes_witness :
  fst (echo (NC:=lab_net demo_dst 1252 (endpoint lab_target)) (λ _, ""%string) 1 lab_target 3 (mkLab 0 []))
  = Ok ().
Proof.
  pose proof (lab_echo demo_dst 1252 (endpoint lab_target) ltac:(compute_decide) ltac:(vm_compute; congruence)) as EN.
  apply (ping_completes (NC:=lab_net demo_dst 1252 (endpoint lab_target)) (λ _, ""%string) 0 lab_target 3 1000
    (EN:=lab_echo demo_dst 1252 (endpoint lab_target) ltac:(compute_decide) ltac:(vm_compute; congruence)) (mkLab 0 []));
    first [compute_decide | vm_compute; congruence].
Defined.

Lemma ping_success_witness :
  exists t, snd (snd (echo (NC:=logged (NC:=lab_net demo_dst 1252 (endpoint lab_target)))
                   (λ _, ""%string) 1 lab_target 2 (mkLab 0 [], []))) = t ∧
    exchanged lab_target [1; 2] t ∧ len (sent t) = 2.
Proof.
  eexists. split; [reflexivity|].
  pose proof (ping_success (NC:=lab_net demo_dst 1252 (endpoint lab_target)) (λ _, ""%string) 1 lab_target 2 (mkLab 0 [])
    ltac:(lia)) as Hs.
  split; [|vm_compute; reflexivity].
  destruct (echo _ _ _ _ _) as [r [k t]] eqn:He. apply Hs.
  change (fst (r, (k, t)) = Ok ()). rewrite <- He. vm_compute. reflexivity.
Defined.

End R8ping.
