(* ===== verification/SessionCli.v ===== *)
(** * The session program: arguments and sockets (src/rust/crates/r8-session/src/main.rs)

    The command line of r8session, the endpoints and their carrier bindings, and
    the sending and receiving of datagrams.  The client and the server are in
    [SessionProgram.v]. *)

From S2P Require Import Prelude Wire Checksum Codec Crypto SessionMsg Text Loc Udp.
From stdpp Require Import gmap strings.
#[local] Open Scope Z_scope.
#[local] Existing Instance SessionError.eq_dec.

Module R8session.

Definition RECV_EXTRA : Z := 1.
Definition DEFAULT_BUDGET : Z := 1252.
Definition RETRIES : list Z := [millis 500; millis 1000; millis 2000].

Inductive Mode : Set := Serve | Connect.

#[export] Instance Mode_eq_dec : EqDecision Mode.
Proof. solve_decision. Defined.

Inductive CliError : Set := Session (error : SessionError.t) | Io.

#[export] Instance CliError_eq_dec : EqDecision CliError.
Proof. solve_decision. Defined.

Definition as_str (e : CliError) : string :=
  match e with Session e => SessionError.as_str e | Io => "IO" end.

Record Options : Set := mkOptions {
  mode : Mode;
  local_seed : bytes;
  peer_key : bytes;
  service : Z;
  server_context : Z;
  source : bytes;
  destination : bytes;
  bind : SocketAddr;
  peer : option SocketAddr;
  budget : Z;
  timeout : Z;
  max_sessions : Z;
  message : option bytes;
  opt_scid : option Z;
  ready_fd : option Z;
  opt_isolated : bool;
}.

(** ** Values *)

(** [str::is_char_boundary]: not in front of a continuation byte. *)
Definition is_char_boundary (s : bytes) (i : nat) : bool :=
  match s !! i with
  | Some b => negb ((0x80 <=? b) && (b <=? 0xbf))
  | None => (i =? length s)%nat
  end.

(** [&text[a..b]] on a string *)
Definition str_slice {E} (s : bytes) (a b : nat) : outcome E bytes :=
  if is_char_boundary s a && is_char_boundary s b then slice s a b else Panic.

Fixpoint hex_loop (s : bytes) (ids : list nat) : outcome SessionError.t bytes :=
  match ids with
  | [] => Ok []
  | i :: ids =>
      digits ← str_slice s i (i + 2);
      b ← ok_or (from_str_radix 16 u8_max digits) SessionError.ConfigError;
      l ← hex_loop s ids;
      Ok (b :: l)
  end.

Definition hex (text : string) : outcome SessionError.t bytes :=
  let s := ascii_bytes text in
  if negb (len s mod 2 =? 0) then Err SessionError.ConfigError else
  hex_loop s ((λ i, 2 * i)%nat <$> seq 0 (length s / 2)).

Definition fixed (n : nat) (text : string) : outcome SessionError.t bytes :=
  l ← hex text; if (length l =? n)%nat then Ok l else Err SessionError.ConfigError.

(** [str::parse] at [i32] *)
Definition parse_i32 (s : string) : option Z :=
  match ascii_bytes s with
  | 45 :: ((_ :: _) as rest) => v ← parse_digits 10 2147483648 0 rest; Some (- v)
  | _ => parse_unsigned 2147483647 s
  end.

Definition number {A} (parse : string → option A) (text : string) : outcome SessionError.t A :=
  ok_or (parse text) SessionError.ConfigError.

Definition loc (text : string) : outcome SessionError.t bytes :=
  ok_or (parse_loc text) SessionError.ConfigError.

(** ** Options *)

Definition value_flags : list string :=
  ["--local-seed-hex"; "--peer-public-key-hex"; "--service-context"; "--server-context-id";
   "--address"; "--peer-address"; "--bind"; "--binding-budget"; "--timeout"; "--ready-fd"; "--peer";
   "--message-hex"; "--scid"; "--max-sessions"]%string.

Definition starts_with_dashes (s : string) : bool := bool_decide (take 2 (ascii_bytes s) = [45; 45]).

(** The loop over the arguments: the slots by their flags, and whether the underlay is isolated. *)
Fixpoint slots_loop (slots : gmap string string) (isolated : bool) (args : list string) :
  outcome SessionError.t (gmap string string * bool) :=
  match args with
  | [] => Ok (slots, isolated)
  | flag :: args =>
      if bool_decide (flag ∈ value_flags) then
        if bool_decide (is_Some (slots !! flag)) then Err SessionError.ConfigError else
        match args with
        | [] => Err SessionError.ConfigError
        | value :: args =>
            if starts_with_dashes value then Err SessionError.ConfigError
            else slots_loop (<[flag := value]> slots) isolated args
        end
      else if bool_decide (flag = "--allow-isolated-underlay"%string) && negb isolated
      then slots_loop slots true args
      else Err SessionError.ConfigError
  end.

(** [slot.map(f).transpose()] *)
Definition transpose {A B E} (f : A → outcome E B) (o : option A) : outcome E (option B) :=
  match o with Some a => b ← f a; Ok (Some b) | None => Ok None end.

Definition required {E A} (e : E) (f : string → outcome E A) (o : option string) : outcome E A :=
  s ← ok_or o e; f s.

Definition parse_options (args : list string) : outcome SessionError.t Options :=
  let config := SessionError.ConfigError in
  mode ← match args with
         | _ :: m :: _ =>
             if bool_decide (m = "serve"%string) then Ok Serve else
             if bool_decide (m = "connect"%string) then Ok Connect else Err config
         | _ => Err config
         end;
  '(slots, isolated) ← slots_loop ∅ false (drop 2 args);
  let slot := λ name : string, slots !! name in
  let given := λ name : string, bool_decide (is_Some (slot name)) in
  if bool_decide (mode = Serve) && (given "--peer" || given "--message-hex" || given "--scid")%string
     || bool_decide (mode = Connect)
        && (given "--max-sessions" || negb (given "--peer") || negb (given "--message-hex"))%string
  then Err config else
  budget ← transpose (number (parse_unsigned usize_max)) (slot "--binding-budget"%string);
  let budget := default DEFAULT_BUDGET budget in
  if negb ((48 <=? budget) && (budget <=? 1252)) then Err config else
  service ← required config (number (parse_unsigned u32_max)) (slot "--service-context"%string);
  server_context ← required config (number (parse_unsigned u32_max)) (slot "--server-context-id"%string);
  if (service =? 0) || (server_context =? 0) then Err config else
  timeout ← transpose (number (parse_unsigned u64_max)) (slot "--timeout"%string);
  let timeout := default 5 timeout in
  if timeout =? 0 then Err config else
  message ← transpose hex (slot "--message-hex"%string);
  if bool_decide (message = Some []) then Err config else
  scid ← transpose (number (parse_unsigned u64_max)) (slot "--scid"%string);
  if bool_decide (scid = Some 0) then Err config else
  max_sessions ← transpose (number (parse_unsigned usize_max)) (slot "--max-sessions"%string);
  let max_sessions := default 1 max_sessions in
  if (max_sessions =? 0) || (1024 <? max_sessions) then Err config else
  local_seed ← required config (fixed 32) (slot "--local-seed-hex"%string);
  peer_key ← required config (fixed 32) (slot "--peer-public-key-hex"%string);
  source ← required config loc (slot "--address"%string);
  destination ← required config loc (slot "--peer-address"%string);
  bind ← required config (number parse_socket_addr) (slot "--bind"%string);
  peer ← transpose (number parse_socket_addr) (slot "--peer"%string);
  ready_fd ← transpose (number parse_i32) (slot "--ready-fd"%string);
  Ok (mkOptions mode local_seed peer_key service server_context source destination bind peer budget
        (timeout * 1000000000) max_sessions message scid ready_fd isolated).

(** ** Endpoints *)

Definition allowed_underlay (address : SocketAddr) (isolated : bool) : bool :=
  match address with
  | V4 ip _ => is_loopback address || (isolated && (is_private ip || is_link_local ip))
  | V6 ip _ _ _ => is_loopback address || (isolated && is_unicast_link_local ip)
  end.

Definition canonical_endpoint (endpoint : SocketAddr) : bytes :=
  match endpoint with
  | V4 ip port => [4] ++ ip ++ be_bytes 2 port
  | V6 ip port _ _ => [6] ++ ip ++ be_bytes 2 port
  end.

Definition endpoint_binding (endpoint : SocketAddr) (selector : bytes) : outcome SessionError.t UdpBinding :=
  match endpoint with
  | V4 ip port => udp_ipv4 ip port 1 selector
  | V6 ip port _ _ => udp_ipv6 ip port 1 selector
  end.

Abbreviation Bindings := (gmap Z (SocketAddr * UdpBinding)).

Definition peer_matches (peers : Bindings) (scid : Z) (endpoint : SocketAddr) (binding : UdpBinding) : bool :=
  match peers !! scid with
  | Some (expected_endpoint, expected_binding) =>
      bool_decide (expected_endpoint = endpoint) && bool_decide (expected_binding = binding)
  | None => false
  end.

Definition retain_live_peer_bindings (peers : Bindings) (is_live : Z → bool) : Bindings :=
  filter (λ p, is_live p.1 = true) peers.

Section WithCrypto.
Context `{C : Crypto}.

Definition opaque_source (endpoint : SocketAddr) (key : bytes) : bytes :=
  hmac_sha256 key (canonical_endpoint endpoint).

End WithCrypto.

(** ** Sockets *)

Definition send_error (e : io_error) : CliError :=
  if is_budget_send_error e then Session SessionError.Budget else Io.

Definition receive_error (e : io_error) : CliError :=
  if bool_decide (kind e = TimedOut) || bool_decide (kind e = WouldBlock)
  then Session SessionError.Timeout else Io.

Section Sockets.
Context {K : Type} `{NC : Net K}.
Abbreviation M := (st K (stop CliError)).

Definition configure_df (socket : Z) : M unit :=
  r ← ask (SetSockOpt socket IPPROTO_IP IP_MTU_DISCOVER IP_PMTUDISC_DO);
  if r =? 0 then mret () else fail Io.

Definition random (n : nat) : M bytes :=
  r ← ask (GetRandom n);
  match r with Some b => mret b | None => fail (Session SessionError.RngFailure) end.

(** Drawn until it is not zero, for at most [n] draws. *)
Definition random_scid (n : nat) : M Z :=
  loop n (λ _ : unit, b ← random 8;
    let value := be_value b in mret (if value =? 0 then inl () else inr value)) ().

(** [as u64] of a C long *)
Definition as_u64 (v : Z) : Z := v mod 2 ^ 64.

Definition ready (fd : option Z) : M unit :=
  match fd with
  | None => mret ()
  | Some fd =>
      '(r, (sec, nsec)) ← ask MonotonicClock;
      if negb (r =? 0) then fail Io else
      let value := be_bytes 8 (sat_add (sat_mul (as_u64 sec) 1000000000) (as_u64 nsec)) in
      n ← ask (WriteFd fd value);
      if negb (n =? len value) then fail Io else mret ()
  end.

Definition send (socket : Z) (packet : bytes) (peer : SocketAddr) : M unit :=
  r ← ask (SendTo socket packet peer);
  match r with
  | inr written => if written =? len packet then mret () else fail Io
  | inl e => fail (send_error e)
  end.

Definition receive (socket timeout budget : Z) : M (bytes * SocketAddr) :=
  r ← set_read_timeout socket timeout;
  match r with
  | inl _ => fail Io
  | inr _ =>
      size ← lift_err id (ok_or (checked_add budget RECV_EXTRA) (Session SessionError.Budget));
      r ← ask (RecvFrom socket size);
      match r with
      | inr (data, peer) => if len data <=? budget then mret (data, peer)
                            else fail (Session SessionError.Budget)
      | inl e => fail (receive_error e)
      end
  end.

(** [Instant::elapsed] in whole milliseconds, as a [u64] *)
Definition elapsed_ms {E} (start : Z) : st K E Z :=
  now ← ask Now; mret (saturating_duration_since now start / 1000000 mod 2 ^ 64).

End Sockets.

(** The repository's tests of the helpers. *)
Example strict_hex_and_underlay :
  hex "0" = Err SessionError.ConfigError ∧ hex "00ff7A" = Ok [0; 255; 122] ∧
  allowed_underlay (V4 [8; 8; 8; 8] 9) true = false ∧ allowed_underlay (V4 [127; 0; 0; 1] 9) false = true.
Proof. by vm_compute. Qed.

(** What [u8::from_str_radix] makes of a sign, and where a character is cut. *)
Example lenient_hex :
  hex "+f" = Ok [15] ∧
  hex (string_of_bytes [97; 0xc3; 0xa9; 98]) = Panic.
Proof. by vm_compute. Qed.

Definition valid_args (mode : string) : list string :=
  ["r8session"; mode; "--local-seed-hex"; string_of_bytes (replicate 64 48);
   "--peer-public-key-hex"; string_of_bytes (replicate 64 49); "--service-context"; "1";
   "--server-context-id"; "1"; "--address"; "::1"; "--peer-address"; "::2"; "--bind"; "127.0.0.1:1"]%string.

#[export] Instance Options_eq_dec : EqDecision Options.
Proof. solve_decision. Defined.

Definition rejected (args : list string) : bool :=
  bool_decide (parse_options args = Err SessionError.ConfigError).

Example argv_validation :
  rejected (valid_args "serve") = false ∧
  rejected (valid_args "serve" ++ ["--unknown"; "secret-value"]%string) = true ∧
  rejected (valid_args "serve" ++ ["--bind"; "127.0.0.1:2"]%string) = true ∧
  rejected (valid_args "serve" ++ ["secret-value"]%string) = true ∧
  rejected (valid_args "serve" ++ ["--timeout"]%string) = true ∧
  rejected (valid_args "serve" ++ ["--peer"; "127.0.0.1:2"]%string) = true ∧
  rejected (valid_args "connect" ++ ["--peer"; "127.0.0.1:2"; "--message-hex"; "00"]%string) = false ∧
  rejected (valid_args "connect" ++
    ["--peer"; "127.0.0.1:2"; "--message-hex"; "00"; "--max-sessions"; "1"]%string) = true.
Proof. by vm_compute. Qed.

End R8session.
