(* ===== verification/SessionProgram.v ===== *)
(** * The session program: client and server (src/rust/crates/r8-session/src/main.rs)

    [connect], [serve] and [main] of r8session over the machines of [Client.v]
    and [Server.v].  The properties are in [SessionServe.v]. *)

From S2P Require Import Prelude Wire Checksum Codec Crypto SessionMsg Replay SessionCrypto Directional Client Limiter Server Text Loc Udp SessionCli.
From stdpp Require Import gmap strings.
#[local] Open Scope Z_scope.
Import R8session.

Module R8sessionMain.

Definition machine_config (local peer : Identity) (source destination : bytes) (o : Options) :
    HandshakeConfig :=
  mkConfig local peer 0 source destination (budget o) 256 1024 (server_context o).

(** The first byte of a payload. *)
Definition first (payload : bytes) : option Z := head payload.

Section Program.
Context `{C : Crypto}.
Context {K : Type} `{NC : Net K}.

(** The [?] operator on the [Result] of a method. *)
Definition machine_try {S A} (m : st S SessionError.t A) : st (K * S) (stop CliError) A :=
  r ← machine m; match r with inr a => mret a | inl e => throw (Failed (Session e)) end.

(** ** The client *)

(** Wait for an answer from [peer] that [receive_packet] accepts, sending [packet] again. *)
Fixpoint retry_loop {S A} (socket : Z) (peer : SocketAddr) (packet : bytes) (budget : Z)
    (receive_packet : bytes → st (K * S) (stop CliError) (SessionError.t + A)) (timeouts : list Z) :
    st (K * S) (stop CliError) A :=
  match timeouts with
  | [] => throw (Failed (Session SessionError.Timeout))
  | timeout :: timeouts =>
      let again :=
        sysm (send socket packet peer) ;;
        retry_loop socket peer packet budget receive_packet timeouts in
      r ← attempt (sysm (receive socket timeout budget));
      match r with
      | inr (response, source) =>
          if bool_decide (source = peer) then
            r ← receive_packet response;
            match r with inr value => mret value | inl _ => again end
          else retry_loop socket peer packet budget receive_packet timeouts
      | inl (Failed (Session SessionError.Timeout)) => again
      | inl e => throw e
      end
  end.

Definition receive_retry {S A} (socket : Z) (peer : SocketAddr) (packet : bytes) (budget : Z)
    (receive_packet : bytes → st (K * S) (stop CliError) (SessionError.t + A)) :
    st (K * S) (stop CliError) A :=
  retry_loop socket peer packet budget receive_packet RETRIES.

(** Open socket and machine. *)
Definition client_setup (o : Options) : st K (stop CliError) (Z * SocketAddr * ClientMachine) :=
  r ← ask (UdpBind (bind o));
  match r with
  | inl _ => fail Io
  | inr socket =>
      configure_df socket ;;
      peer_endpoint ← lift_err Session (ok_or (peer o) SessionError.ConfigError);
      if negb (allowed_underlay peer_endpoint (opt_isolated o))
         || negb (allowed_underlay (bind o) (opt_isolated o))
      then fail (Session SessionError.ConfigError) else
      local ← lift_err Session
        (identity_from_public_key 1 (service o) (ed25519_public (local_seed o)));
      peer ← lift_err Session (identity_from_public_key 2 (service o) (peer_key o));
      client ← lift_err Session
        (client_new (machine_config local peer (source o) (destination o) o) (local_seed o));
      mret (socket, peer_endpoint, client)
  end.

(** The exchange, from OPEN to CLOSE. *)
Definition client_exchange (n : nat) (o : Options) (socket : Z) (peer : SocketAddr) :
    st (K * ClientWorld) (stop CliError) unit :=
  start_time ← sysm (ask Now);
  drawn ← sysm (random_scid n);
  ephemeral_secret ← sysm (random 32);
  nonce ← sysm (random 32);
  open ← machine_try (start (default drawn (opt_scid o)) (mkClientMaterial ephemeral_secret nonce) 0);
  sysm (send socket open peer) ;;
  auth ← receive_retry socket peer open (budget o)
    (λ verify, now ← sysm (elapsed_ms start_time); machine (receive_verify verify now));
  sysm (send socket auth peer) ;;
  accept ← receive_retry socket peer auth (budget o)
    (λ ack, now ← sysm (elapsed_ms start_time); machine (receive_ack ack now));
  sysm (send socket accept peer) ;;
  sysm (ready (ready_fd o)) ;;
  message ← lift (map_err (λ e, Failed (Session e)) (ok_or (message o) SessionError.ConfigError));
  data ← machine_try (client_send_data message);
  sysm (send socket data peer) ;;
  receive_retry socket peer data (budget o) (λ echo, machine (client_receive_data echo)) ;;
  close ← machine_try (client_close 0);
  sysm (send socket close peer) ;;
  sysm (print "r8session: OK").

(** The machine lives in a fresh process. *)
Definition connect (n : nat) (o : Options) : st K (stop CliError) unit := λ k,
  match client_setup o k with
  | (Ok (socket, peer, client), k) =>
      let '(r, (k, _)) := client_exchange n o socket peer (k, (client, world_init)) in (r, k)
  | (Err e, k) => (Err e, k)
  | (Panic, k) => (Panic, k)
  end.

(** ** The server *)

(** Everything the loop changes. *)
Record Node : Set := mkNode {
  server : ServerMachine;
  world : World;
  peer_bindings : Bindings;
  limiter : PrevalidationLimiter;
  successes : Z;
  last_cookie_rotation_ms : Z;
  ready_sent : bool;
}.

(** What it does not change. *)
Record Fixed : Set := mkFixed {
  fx_socket : Z;
  fx_selector : bytes;
  fx_source_hash_key : bytes;
  fx_started : Z;
}.

Definition set_server (mw : ServerWorld) (s : Node) : Node :=
  mkNode (fst mw) (snd mw) (peer_bindings s) (limiter s) (successes s) (last_cookie_rotation_ms s)
    (ready_sent s).
Definition set_peers (peers : Bindings) (s : Node) : Node :=
  mkNode (server s) (world s) peers (limiter s) (successes s) (last_cookie_rotation_ms s)
    (ready_sent s).
Definition set_limiter (l : PrevalidationLimiter) (s : Node) : Node :=
  mkNode (server s) (world s) (peer_bindings s) l (successes s) (last_cookie_rotation_ms s)
    (ready_sent s).
Definition set_rotation (now : Z) (s : Node) : Node :=
  mkNode (server s) (world s) (peer_bindings s) (limiter s) (successes s) now (ready_sent s).
Definition set_ready_sent (s : Node) : Node :=
  mkNode (server s) (world s) (peer_bindings s) (limiter s) (successes s)
    (last_cookie_rotation_ms s) true.
Definition add_success (s : Node) : Node :=
  mkNode (server s) (world s) (peer_bindings s) (limiter s) (successes s + 1)
    (last_cookie_rotation_ms s) (ready_sent s).

Definition server_view (s : Node) : ServerWorld := (server s, world s).

(** A method of the server, its [Result] as a value. *)
Definition on_server {A} (m : st ServerWorld SessionError.t A) :
    st (K * Node) (stop CliError) (SessionError.t + A) :=
  machine (zoom server_view (λ mw s, set_server mw s) m).

Definition update (f : Node → Node) : st (K * Node) (stop CliError) unit := λ x,
  (Ok (), (fst x, f (snd x))).
Definition node : st (K * Node) (stop CliError) Node := λ x, (Ok (snd x), x).

(** [Result::ok] *)
Definition ok_value {E A} (r : E + A) : option A := match r with inr a => Some a | inl _ => None end.

(** The rotation of the cookie key every ten minutes. *)
Definition maybe_rotate (now : Z) : st (K * Node) (stop CliError) unit :=
  s ← node;
  if 600000 <=? sat_sub now (last_cookie_rotation_ms s) then
    key ← sysm (random 32);
    update (λ s, set_rotation now
      (set_server (rotate_cookie_key key now (server s), world s) s))
  else mret ().

(** A message of an established peer: [None] when it did not come from the endpoint that opened
    the session. *)
Definition from_peer (scid : Z) (endpoint : SocketAddr) (binding : UdpBinding) :
    st (K * Node) (stop CliError) bool :=
  s ← node; mret (peer_matches (peer_bindings s) scid endpoint binding).

(** The reply to a packet; [None] stands for [continue]. *)
Definition respond (o : Options) (f : Fixed) (packet : bytes) (endpoint : SocketAddr)
    (binding : UdpBinding) (now : Z) : st (K * Node) (stop CliError) (option (option bytes)) :=
  let bucket := now / 10000 in
  match unpack_with_budget packet (budget o) with
  | Panic => lift Panic
  | Err _ => mret (Some None)
  | Ok (header, payload) =>
      if bool_decide (first payload = Some OPEN) then
        s ← node;
        let '(r, l) := receive_open_limited (server s) packet (Udp binding)
                         (opaque_source endpoint (fx_source_hash_key f)) now bucket (limiter s) in
        update (set_limiter l) ;;
        match r with
        | Ok response => mret (Some (Some response))
        | Err _ => mret (Some None)
        | Panic => lift Panic
        end
      else if bool_decide (first payload = Some OPEN_AUTH) then
        ephemeral_secret ← sysm (random 32);
        nonce ← sysm (random 32);
        r ← on_server (receive_open_auth packet (Udp binding) now bucket
                         (Some (mkServerHandshakeMaterial ephemeral_secret nonce)));
        match r with
        | inr response =>
            update (λ s, set_peers (<[scid header := (endpoint, binding)]> (peer_bindings s)) s) ;;
            mret (Some (Some response))
        | inl _ => mret (Some None)
        end
      else if bool_decide (first payload = Some SESSION_ACCEPT) then
        mine ← from_peer (scid header) endpoint binding;
        if negb mine then mret None else
        r ← on_server (receive_accept packet now);
        match r with
        | inl _ => mret None
        | inr _ =>
            s ← node;
            (if ready_sent s then mret () else
             sysm (ready (ready_fd o)) ;; update set_ready_sent) ;;
            mret (Some None)
        end
      else if bool_decide (first payload = Some SESSION_DATA) then
        mine ← from_peer (scid header) endpoint binding;
        if negb mine then mret None else
        r ← on_server (server_receive_data packet now);
        match r with
        | inl _ => mret (Some None)
        | inr plaintext =>
            r ← on_server (server_send_data (scid header) plaintext);
            mret (Some (ok_value r))
        end
      else if bool_decide (first payload = Some CLOSE) then
        mine ← from_peer (scid header) endpoint binding;
        if negb mine then mret None else
        r ← on_server (server_receive_close packet now);
        match r with
        | inl _ => mret ()
        | inr _ => update (λ s, add_success (set_peers (delete (scid header) (peer_bindings s)) s))
        end ;;
        mret (Some None)
      else mret (Some None)
  end.

(** The end of a pass: expired sessions and the bindings of sessions that are gone. *)
Definition cleanup (now : Z) (s : Node) : Node :=
  let s := set_server (expire now (server_view s)) s in
  set_peers (retain_live_peer_bindings (peer_bindings s) (is_live (server s))) s.

(** A datagram. *)
Definition on_packet (o : Options) (f : Fixed) (packet : bytes) (endpoint : SocketAddr) :
    st (K * Node) (stop CliError) unit :=
  if negb (allowed_underlay endpoint (opt_isolated o)) then mret () else
  match endpoint_binding endpoint (fx_selector f) with
  | Panic => lift Panic
  | Err _ => mret ()
  | Ok binding =>
      now ← sysm (elapsed_ms (fx_started f));
      maybe_rotate now ;;
      r ← respond o f packet endpoint binding now;
      match r with
      | None => mret ()
      | Some response =>
          match response with
          | Some response => sysm (send (fx_socket f) response endpoint)
          | None => mret ()
          end ;;
          update (cleanup now)
      end
  end.

(** A pass of the loop: [inr] leaves it. *)
Definition serve_pass (o : Options) (f : Fixed) : st (K * Node) (stop CliError) (unit + unit) :=
  s ← node;
  if negb (successes s <? max_sessions o) then mret (inr ()) else
  r ← attempt (sysm (receive (fx_socket f) (timeout o) (budget o)));
  match r with
  | inr (packet, endpoint) => on_packet o f packet endpoint ;; mret (inl ())
  | inl (Failed (Session SessionError.Timeout)) => mret (inr ())
  | inl e => throw e
  end.

(** [loop] over the two parts of the state *)
Fixpoint serve_loop (n : nat) (o : Options) (f : Fixed) : st (K * Node) (stop CliError) unit :=
  match n with
  | O => throw Running
  | S n => r ← serve_pass o f; match r with inl _ => serve_loop n o f | inr _ => mret () end
  end.

Definition server_setup (o : Options) : st K (stop CliError) (Fixed * Node) :=
  r ← ask (UdpBind (bind o));
  match r with
  | inl _ => fail Io
  | inr socket =>
      configure_df socket ;;
      if negb (allowed_underlay (bind o) (opt_isolated o))
      then fail (Session SessionError.ConfigError) else
      local ← lift_err Session
        (identity_from_public_key 2 (service o) (ed25519_public (local_seed o)));
      peer ← lift_err Session (identity_from_public_key 1 (service o) (peer_key o));
      boot_instance ← random 16;
      current ← random 32;
      previous ← random 32;
      server ← lift_err Session
        (server_new (machine_config local peer (destination o) (source o) o) (local_seed o)
           (mkServerMaterial boot_instance current previous 0));
      selector ← random 16;
      source_hash_key ← random 32;
      started ← ask Now;
      mret (mkFixed socket selector source_hash_key started,
            mkNode server world_init ∅ limiter_new 0 0 false)
  end.

Definition serve (n : nat) (o : Options) : st K (stop CliError) unit := λ k,
  match server_setup o k with
  | (Ok (f, s), k) =>
      let '(r, (k, s)) := serve_loop n o f (k, s) in
      match r with
      | Ok _ => if successes s =? max_sessions o then print "r8session: OK" k
                else fail (Session SessionError.Timeout) k
      | Err e => (Err e, k)
      | Panic => (Panic, k)
      end
  | (Err e, k) => (Err e, k)
  | (Panic, k) => (Panic, k)
  end.

(** The exit code. *)
Definition main (n : nat) (args : list string) : st K (stop CliError) Z :=
  r ← attempt (o ← lift (map_err (λ e, Failed (Session e)) (parse_options args));
               match mode o with Connect => connect n o | Serve => serve n o end);
  match r with
  | inr _ => mret 0
  | inl (Failed e) => print ("r8session: " +:+ as_str e) ;; mret 1
  | inl Running => throw Running
  end.

End Program.
End R8sessionMain.
