(* ===== verification/SessionServe.v ===== *)
(** * The sessions of the server program

    Which endpoint may speak for a session of [serve]: the invariant of its table
    of peers along any run, and what it means for the packets of others. *)

From S2P Require Import Prelude Wire Checksum Codec HeaderRules Crypto SessionMsg Replay SessionCrypto Directional Client Limiter Server ServerInv Text Loc Udp SessionCli SessionProgram.
From stdpp Require Import gmap strings.
#[local] Open Scope Z_scope.
Import R8session R8sessionMain.

(** ** The bindings of the sessions of a server *)

Definition bound (m : ServerMachine) : list (Z * ObservedBinding) :=
  ((λ p, (ps_scid p, ps_binding p)) <$> sv_pending m) ++
  ((λ e, (es_scid e, es_binding e)) <$> sv_established m).

Lemma bound_scids m : (bound m).*1 = (entries m).*1.
Proof. unfold bound, entries. by rewrite !fmap_app, <- !list_fmap_compose. Qed.

(** The same configuration, and no session that was not there. *)
Definition shrinks (m m' : ServerMachine) : Prop :=
  sv_config m' = sv_config m ∧ ∀ x, x ∈ bound m' → x ∈ bound m.

Lemma shrinks_refl m : shrinks m m.
Proof. done. Qed.
Lemma shrinks_trans m1 m2 m3 : shrinks m1 m2 → shrinks m2 m3 → shrinks m1 m3.
Proof. intros [H1 H2] [H3 H4]. split; [congruence|auto]. Qed.

Lemma elem_of_bound x m :
  x ∈ bound m ↔ (∃ p, p ∈ sv_pending m ∧ x = (ps_scid p, ps_binding p)) ∨
                (∃ e, e ∈ sv_established m ∧ x = (es_scid e, es_binding e)).
Proof. unfold bound. rewrite elem_of_app, !list_elem_of_fmap. naive_solver. Qed.


Lemma shrinks_expire now m w : shrinks m (fst (expire now (m, w))).
Proof.
  split; [done|]. intros x. rewrite !elem_of_bound. simpl.
  intros [(p & [_ Hp]%list_elem_of_filter & ->)|(e & [_ He]%list_elem_of_filter & ->)]; eauto.
Qed.

Lemma shrinks_update m n e e' :
  sv_established m !! n = Some e → es_scid e' = es_scid e → es_binding e' = es_binding e →
  shrinks m (set_established (<[n := e']> (sv_established m)) m).
Proof.
  intros Hn Hs Hb. split; [done|]. intros x. rewrite !elem_of_bound. simpl.
  intros [?|(e0 & He & ->)]; [by left|]. right. apply list_elem_of_lookup in He as [j Hj].
  apply list_lookup_insert_Some in Hj as [(_ & <- & _)|[_ Hj]].
  - exists e. split; [by eapply list_elem_of_lookup_2|by rewrite Hs, Hb].
  - exists e0. split; [by eapply list_elem_of_lookup_2|done].
Qed.

Lemma shrinks_delete m n : shrinks m (set_established (delete n (sv_established m)) m).
Proof.
  split; [done|]. intros x. rewrite !elem_of_bound. simpl.
  intros [?|(e & He & ->)]; [by left|]. right. exists e. split; [|done].
  by apply (sublist_subseteq _ _ (sublist_delete _ n)).
Qed.

(** ** What the operations do to the sessions *)

Section Operations.
Context `{C : Crypto}.

Lemma receive_accept_shrinks p now m w : shrinks m (fst (snd (receive_accept p now (m, w)))).
Proof.
  unfold receive_accept. pose proof (shrinks_expire now m w) as He.
  destruct (expire now (m, w)) as [m1 w1]. cbn [fst] in He.
  destruct (accept_header _ p) as [h| |]; [|done..].
  destruct (find_established _ _) as [[? ?]|]; [done|].
  destruct (find_pending _ _) as [[n q]|] eqn:Hf; [|done]. apply find_pending_Some in Hf as [Hn _].
  destruct (accept_preview _ _ _ _) as [pv| |]; [|done..].
  destruct (session_commit pv (ps_session q)) as [[?| |] s']; [..|done]; eapply shrinks_trans; try exact He;
    (split; [done|]); intros x; rewrite !elem_of_bound; simpl.
  - intros [(p0 & Hp & ->)|(e0 & He0 & ->)].
    + left. exists p0. split; [|done]. by apply (sublist_subseteq _ _ (sublist_delete _ n)).
    + apply elem_of_app in He0 as [He0| ->%list_elem_of_singleton]; [right; eauto|]. left. exists q.
      split; [by eapply list_elem_of_lookup_2|done].
  - intros [(p0 & Hp & ->)|?]; [|by right]. left. apply list_elem_of_lookup in Hp as [j Hj].
    apply list_lookup_insert_Some in Hj as [(_ & <- & _)|[_ Hj]].
    + exists q. split; [by eapply list_elem_of_lookup_2|done].
    + exists p0. split; [by eapply list_elem_of_lookup_2|done].
Qed.

Lemma preview_shrinks p a b now m w :
  shrinks m (fst (snd (server_preview_data_with_locs p a b now (m, w)))).
Proof.
  unfold server_preview_data_with_locs. pose proof (shrinks_expire now m w) as He.
  by destruct (expire now (m, w)).
Qed.

Lemma commit_data_shrinks p now m w : shrinks m (fst (snd (server_commit_data p now (m, w)))).
Proof.
  unfold server_commit_data. case_match; [done|]. pose proof (shrinks_expire now m w) as He.
  destruct (expire now (m, w)) as [m1 w1]. cbn [fst] in He.
  destruct (find_established _ _) as [[n e]|] eqn:Hf; [|done]. apply find_established_Some in Hf as [Hn _].
  destruct (session_commit _ _) as [r s']. eapply shrinks_trans; [exact He|].
  eapply shrinks_update; [done|by destruct (is_ok r)..].
Qed.

Lemma receive_data_shrinks p now m w : shrinks m (fst (snd (server_receive_data p now (m, w)))).
Proof.
  unfold server_receive_data. pose proof (shrinks_expire now m w) as He.
  destruct (expire now (m, w)) as [m1 w1]. cbn [fst] in He.
  pose proof (preview_shrinks p [] [] now m1 w1) as Hp.
  destruct (server_preview_data_with_locs _ _ _ _ _) as [[dp| |] [m2 w2]]; simpl in *;
    [|by eapply shrinks_trans..].
  eapply shrinks_trans; [exact He|]. eapply shrinks_trans; [exact Hp|]. apply commit_data_shrinks.
Qed.

Lemma send_shrinks i typ pt a b close m w : shrinks m (fst (snd (server_send i typ pt a b close (m, w)))).
Proof.
  unfold server_send. destruct (find_established _ _) as [[n e]|] eqn:Hf; [|done].
  apply find_established_Some in Hf as [Hn _]. destruct (encrypt _ _ _ _ _) as [r s'].
  assert (shrinks m (set_established (<[n := set_es_session s' e]> (sv_established m)) m)) as Hkeep
    by (by eapply shrinks_update).
  pose proof (shrinks_delete m n) as Hrem. destruct r as [?|[]|], close; done.
Qed.

Lemma receive_close_shrinks p now m w : shrinks m (fst (snd (server_receive_close p now (m, w)))).
Proof.
  unfold server_receive_close. pose proof (shrinks_expire now m w) as He.
  destruct (expire now (m, w)) as [m1 w1]. cbn [fst] in He.
  destruct (close_target m1 p) as [[n e]| |] eqn:Hc; [|done..].
  assert (sv_established m1 !! n = Some e) as Hn.
  { unfold close_target in Hc. apply bind_Ok in Hc as ([h pl] & _ & Hc).
    apply bind_Ok in Hc as ([n' e'] & Hf & Hc). inv_ok. simplify_eq.
    by apply find_established_Some in Hf as [? _]. }
  destruct (decrypt p (es_session e)) as [r s'].
  assert (shrinks m (set_established (<[n := set_es_session s' e]> (sv_established m1)) m1)) as Hkeep
    by (eapply shrinks_trans; [exact He|by eapply shrinks_update]).
  assert (shrinks m (set_established (delete n (sv_established m1)) m1)) as Hrem
    by (eapply shrinks_trans; [exact He|apply shrinks_delete]).
  destruct r as [[|? [|? []]]| |]; done.
Qed.

(** OPEN_AUTH: one session at most is new; after a positive answer the session of the packet is
    there with the binding of the packet. *)
Lemma open_auth_bound p b now bucket hm m w h payload :
  unpack_with_budget p (hc_budget (sv_config m)) = Ok (h, payload) →
  let '(r, (m', _)) := receive_open_auth p b now bucket hm (m, w) in
  sv_config m' = sv_config m ∧
  (∀ x, x ∈ bound m' → x ∈ bound m ∨ is_ok r = true ∧ x = (scid h, b)) ∧
  (is_ok r = true → (scid h, b) ∈ bound m').
Proof.
  intros Hu. unfold receive_open_auth. destruct (binding_validate b) as [[]| |].
  2,3: split_and!; [done|by left|done].
  pose proof (shrinks_expire now m w) as [Hc Hb].
  destruct (expire now (m, w)) as [m1 w1]. cbn [fst] in Hc, Hb.
  assert (sv_config m1 = sv_config m ∧ (∀ x, x ∈ bound m1 → x ∈ bound m ∨ false = true ∧ x = (scid h, b)) ∧
    (false = true → (scid h, b) ∈ bound m1)) as Hkeep by (split_and!; [done|by left; auto|done]).
  destruct (handshake_message (sv_config m1) p OPEN_AUTH) as [[h' body]| |] eqn:Hm; [|exact Hkeep..].
  assert (h' = h) as ->.
  { unfold handshake_message in Hm. rewrite Hc, Hu in Hm. simpl in Hm. inv_ok. by simplify_eq. }
  destruct (find_pending (scid h) (sv_pending m1)) as [[n q]|] eqn:Hp.
  { apply find_pending_Some in Hp as [Hn Hs]. destruct (beq (ps_opening q) p && _) eqn:Hq; [|exact Hkeep].
    apply andb_true_iff in Hq as [_ Hq%bool_decide_eq_true]. split_and!; [done|by left; auto|].
    intros _. apply elem_of_bound. left. exists q. split; [by eapply list_elem_of_lookup_2|by rewrite Hs, Hq]. }
  destruct (find_established (scid h) (sv_established m1)) as [[n e]|] eqn:He.
  { apply find_established_Some in He as [Hn Hs]. destruct (beq (es_opening e) p && _) eqn:Hq; [|exact Hkeep].
    apply andb_true_iff in Hq as [_ Hq%bool_decide_eq_true]. split_and!; [done|by left; auto|].
    intros _. apply elem_of_bound. right. exists e. split; [by eapply list_elem_of_lookup_2|by rewrite Hs, Hq]. }
  destruct (open_auth_keys _ _ _ _ _ _ _) as [[[[[ack hash] sched] sk] rk]| |]; [|exact Hkeep..].
  destruct (session_new sk rk hash _ w1) as [[s| |] w2]; [|exact Hkeep..].
  split_and!; [done| |].
  - intros x Hx. apply elem_of_bound in Hx as [(q & Hq & ->)|(e & Hx & ->)]; simpl in *.
    + apply elem_of_app in Hq as [Hq| ->%list_elem_of_singleton]; [left|by right].
      apply Hb, elem_of_bound. eauto.
    + left. apply Hb, elem_of_bound. eauto.
  - intros _. apply elem_of_bound. left. simpl. eexists. split; [apply elem_of_app; right; by apply list_elem_of_singleton|done].
Qed.

Lemma close_target_scid m p h payload n e :
  unpack_with_budget p (hc_budget (sv_config m)) = Ok (h, payload) →
  close_target m p = Ok (n, e) → sv_established m !! n = Some e ∧ es_scid e = scid h.
Proof.
  intros Hu Ht. unfold close_target, protected_message in Ht. rewrite Hu in Ht. simpl in Ht.
  apply bind_Ok in Ht as ([h1 pl] & Hp & Ht). apply bind_Ok in Hp as (? & _ & Hp).
  apply Ok_inj in Hp. apply bind_Ok in Ht as ([n' e'] & Hf & Ht). inv_ok. simplify_eq.
  by apply find_established_Some in Hf.
Qed.

(** A close that succeeds leaves no session with its session id. *)
Lemma close_bound p now m w h payload c m' w' :
  server_inv (m, w) → unpack_with_budget p (hc_budget (sv_config m)) = Ok (h, payload) →
  server_receive_close p now (m, w) = (Ok c, (m', w')) → ∀ b, (scid h, b) ∉ bound m'.
Proof.
  intros Hi Hu. unfold server_receive_close. apply (expire_inv now) in Hi.
  pose proof (shrinks_expire now m w) as [Hc _]. destruct (expire now (m, w)) as [m1 w1]. cbn [fst] in Hc.
  destruct (close_target m1 p) as [[n e]| |] eqn:Ht; [|done..].
  rewrite <- Hc in Hu. apply (close_target_scid _ _ _ _ _ _ Hu) in Ht as [Hn Hs].
  destruct (decrypt p (es_session e)) as [[[|hi [|lo []]]| |] s']; try done. intros [= _ <- _] b Hb.
  destruct Hi as [[Hnd _ _ _] _ _]. simpl in Hnd. rewrite (entries_established m1 n e Hn) in Hnd.
  simpl in Hnd. apply NoDup_cons in Hnd as [Hnot _]. apply Hnot. rewrite <- bound_scids, Hs.
  by apply (list_elem_of_fmap_2 fst) in Hb.
Qed.

End Operations.

(** ** The invariant of the loop *)

(** Every session of the server has an entry in the table of peers, and its binding is that of the
    endpoint of the entry. *)
Definition serve_inv (o : Options) (f : Fixed) (s : Node) : Prop :=
  server_inv (server_view s) ∧ hc_budget (sv_config (server s)) = budget o ∧
  ∀ i b, (i, b) ∈ bound (server s) →
    ∃ endpoint u, peer_bindings s !! i = Some (endpoint, u) ∧ b = Udp u ∧
      endpoint_binding endpoint (fx_selector f) = Ok u.

(** A session of the server that may be new is in the table. *)
Lemma serve_inv_server o f s mw :
  serve_inv o f s → server_inv mw → shrinks (server s) (fst mw) → serve_inv o f (set_server mw s).
Proof.
  intros (Hi & Hb & Ht) Hi' [Hc Hs]. destruct mw as [m w]. simpl in *.
  split_and!; [done|simpl; by rewrite Hc|]. intros i b Hin. apply Ht, Hs, Hin.
Qed.

Section Maintains.
Context `{C : Crypto} {K : Type} `{NC : Net K}.

(** [m] keeps [I] of the part of the state beside the kernel, whatever it returns. *)
Definition maintains {S E A} (I : S → Prop) (m : st (K * S) E A) : Prop :=
  ∀ x, I (snd x) → I (snd (snd (m x))).

Section Rules.
Context {S : Type} (I : S → Prop).

Lemma maintains_ret {E A} (a : A) : maintains (E:=E) I (mret a).
Proof. by intros ??. Qed.
Lemma maintains_throw {E A} (e : E) : maintains (A:=A) I (throw e).
Proof. by intros ??. Qed.
Lemma maintains_lift {E A} (m : outcome E A) : maintains I (lift m).
Proof. by intros ??. Qed.
Lemma maintains_bind {E A B} (m : st (K * S) E A) (g : A → st (K * S) E B) :
  maintains I m → (∀ a, maintains I (g a)) → maintains I (m ≫= g).
Proof.
  intros Hm Hg x Hx. specialize (Hm x Hx). unfold mbind, st_bind.
  destruct (m x) as [[a| |] x1]; [by apply Hg|done..].
Qed.
Lemma maintains_sysm {E A} (m : st K E A) : maintains I (sysm m).
Proof. intros x Hx. unfold sysm, zoom. by destruct (m (fst x)). Qed.
Lemma maintains_attempt {E E' A} (m : st (K * S) E A) : maintains I m → maintains (E:=E') I (attempt m).
Proof. intros Hm x Hx. specialize (Hm x Hx). unfold attempt. by destruct (m x) as [[| |] ?]. Qed.
End Rules.

#[local] Hint Resolve maintains_ret maintains_throw maintains_lift maintains_sysm maintains_attempt : serve.

Lemma maintains_update (I : Node → Prop) (g : Node → Node) :
  (∀ s, I s → I (g s)) → maintains I (update (K:=K) g).
Proof. intros Hg x. apply Hg. Qed.
Lemma maintains_node (I : Node → Prop) : maintains I (node (K:=K)).
Proof. by intros ??. Qed.
Lemma maintains_from_peer (I : Node → Prop) i e b : maintains I (from_peer (K:=K) i e b).
Proof. by intros ??. Qed.
#[local] Hint Resolve maintains_node maintains_from_peer : serve.

Ltac maintain :=
  repeat match goal with
  | |- maintains _ (_ ≫= _) => apply maintains_bind; [|intros ?]
  | |- maintains _ (if ?b then _ else _) => destruct b
  | |- maintains _ (match ?x with _ => _ end) => destruct x
  | _ => progress auto with serve
  end.

Context (o : Options) (f : Fixed).

Lemma maintains_server {A} (m : st ServerWorld SessionError.t A) :
  (∀ mw, server_inv mw → server_inv (snd (m mw))) →
  (∀ m0 w, shrinks m0 (fst (snd (m (m0, w))))) →
  maintains (serve_inv o f) (on_server (K:=K) m).
Proof.
  intros Hi Hs [k s] Hinv. unfold on_server, machine, zoom. simpl.
  pose proof (Hs (server s) (world s)) as Hs'. pose proof (Hi (server s, world s) (proj1 Hinv)) as Hi'.
  unfold server_view. destruct (m (server s, world s)) as [[a| |] mw]; by apply serve_inv_server.
Qed.

(** The answer to OPEN_AUTH enters the table together with the session. *)
Lemma maintains_open_auth packet endpoint binding now bucket hm h payload :
  wf_bytes packet → endpoint_binding endpoint (fx_selector f) = Ok binding →
  unpack_with_budget packet (budget o) = Ok (h, payload) →
  maintains (serve_inv o f)
    (r ← on_server (K:=K) (receive_open_auth packet (Udp binding) now bucket hm);
     match r with
     | inr response =>
         update (λ s, set_peers (<[scid h := (endpoint, binding)]> (peer_bindings s)) s) ;;
         mret (Some (Some response))
     | inl _ => mret (Some (A:=option bytes) None)
     end).
Proof.
  intros Hw He Hu [k s] (Hi & Hb & Ht). unfold mbind, st_bind, on_server, machine, zoom. simpl.
  rewrite <- Hb in Hu.
  pose proof (open_auth_bound packet (Udp binding) now bucket hm (server s) (world s) h payload Hu) as Hob.
  pose proof (receive_open_auth_inv packet (Udp binding) now bucket hm (server s, world s) Hi) as Hi'.
  unfold server_view. destruct (receive_open_auth _ _ _ _ _ _) as [r [m' w']]. simpl in Hi'.
  destruct Hob as (Hc & Hnew & Hin). destruct r as [ack|e|]; simpl in *.
  - split_and!; [done|simpl; by rewrite Hc|]. simpl. intros i b Hib.
    destruct (decide (i = scid h)) as [->|Hne].
    + exists endpoint, binding. rewrite lookup_insert_eq. split_and!; [done| |done].
      destruct Hi' as [[Hnd _ _ _] _ _]. simpl in Hnd. rewrite <- bound_scids in Hnd.
      pose proof (NoDup_fmap_inj_on fst (bound m') _ _ Hnd Hib (Hin eq_refl) eq_refl) as Heq.
      by injection Heq.
    + rewrite lookup_insert_ne by done. destruct (Hnew _ Hib) as [Hold|[_ [= -> _]]]; [|done]. by apply Ht.
  - split_and!; [done|simpl; by rewrite Hc|]. intros i b Hib. destruct (Hnew _ Hib) as [Hold|[? _]]; [|done].
    by apply Ht.
  - split_and!; [done|simpl; by rewrite Hc|]. intros i b Hib. destruct (Hnew _ Hib) as [Hold|[? _]]; [|done].
    by apply Ht.
Qed.

(** The entry of a closed session is removed with it. *)
Lemma maintains_close packet now h payload :
  wf_bytes packet → unpack_with_budget packet (budget o) = Ok (h, payload) →
  maintains (serve_inv o f)
    (r ← on_server (K:=K) (server_receive_close packet now);
     match r with
     | inl _ => mret ()
     | inr _ => update (λ s, add_success (set_peers (delete (scid h) (peer_bindings s)) s))
     end).
Proof.
  intros Hw Hu [k s] (Hi & Hb & Ht). unfold mbind, st_bind, on_server, machine, zoom. simpl.
  rewrite <- Hb in Hu.
  pose proof (server_receive_close_inv packet now (server s, world s) Hw Hi) as Hi'.
  pose proof (receive_close_shrinks packet now (server s) (world s)) as [Hc Hs].
  pose proof (close_bound packet now (server s) (world s) h payload) as Hgone.
  unfold server_view. destruct (server_receive_close _ _ _) as [[c|e|] [m' w']]; simpl in *.
  - split_and!; [done|simpl; by rewrite Hc|]. simpl. intros i b Hib.
    destruct (decide (i = scid h)) as [->|Hne]; [by destruct (Hgone c m' w' Hi Hu eq_refl b)|].
    rewrite lookup_delete_ne by done. by apply Ht, Hs.
  - split_and!; [done|simpl; by rewrite Hc|]. intros i b Hib. by apply Ht, Hs.
  - split_and!; [done|simpl; by rewrite Hc|]. intros i b Hib. by apply Ht, Hs.
Qed.

Lemma maintains_respond packet endpoint binding now :
  wf_bytes packet → endpoint_binding endpoint (fx_selector f) = Ok binding →
  maintains (serve_inv o f) (respond (K:=K) o f packet endpoint binding now).
Proof.
  intros Hw He. unfold respond.
  destruct (unpack_with_budget packet (budget o)) as [[h payload]| |] eqn:Hu; [|auto with serve..].
  assert (maintains (serve_inv o f) (on_server (K:=K) (receive_accept packet now))) as Ha
    by (apply maintains_server; [intros; by apply receive_accept_inv|intros; apply receive_accept_shrinks]).
  assert (maintains (serve_inv o f) (on_server (K:=K) (server_receive_data packet now))) as Hd
    by (apply maintains_server; [intros; by apply server_receive_data_inv|intros; apply receive_data_shrinks]).
  assert (∀ pt, maintains (serve_inv o f) (on_server (K:=K) (server_send_data (scid h) pt))) as Hs.
  { intros pt. apply maintains_server; [intros [m0 w] ?; by apply server_send_inv|intros; apply send_shrinks]. }
  pose proof (maintains_close packet now h payload Hw Hu) as Hc.
  assert (maintains (serve_inv o f) (update (K:=K) set_ready_sent)) as Hr by by apply maintains_update.
  case_bool_decide.
  { intros [k s] Hinv. unfold mbind, st_bind, node. simpl.
    destruct (receive_open_limited _ _ _ _ _ _ _) as [r l]. by destruct r. }
  case_bool_decide.
  { apply maintains_bind; [apply maintains_sysm|intros secret].
    apply maintains_bind; [apply maintains_sysm|intros nonce]. by eapply maintains_open_auth. }
  case_bool_decide; [maintain|]. case_bool_decide; [maintain|]. case_bool_decide; [|maintain].
  apply maintains_bind; [auto with serve|intros mine]. destruct (negb mine); [auto with serve|].
  intros x Hx. specialize (Hc x Hx). revert Hc. unfold mbind, st_bind.
  destruct (on_server _ x) as [[[e|c]| |] x1]; done.
Qed.

Lemma maintains_cleanup now s : serve_inv o f s → serve_inv o f (cleanup now s).
Proof.
  intros Hinv. unfold cleanup.
  assert (serve_inv o f (set_server (expire now (server_view s)) s)) as (Hi & Hb & Ht).
  { apply serve_inv_server; [done|by apply expire_inv, Hinv|apply shrinks_expire]. }
  set (s1 := set_server _ _) in *. split_and!; [done..|]. intros i b Hib.
  destruct (Ht i b Hib) as (ep & u & Hl & Hr). exists ep, u. split; [|done].
  apply map_lookup_filter_Some. split; [done|]. simpl. unfold is_live.
  apply elem_of_bound in Hib as [(p & Hp & [= -> _])|(e & He & [= -> _])]; apply orb_true_iff; [left|right];
    apply existsb_exists; eexists; rewrite Z.eqb_refl; (split; [by apply list_elem_of_In|done]).
Qed.

Lemma maintains_on_packet packet endpoint :
  wf_bytes packet → maintains (serve_inv o f) (on_packet (K:=K) o f packet endpoint).
Proof.
  intros Hw. unfold on_packet. destruct (negb _); [auto with serve|].
  destruct (endpoint_binding endpoint (fx_selector f)) as [u| |] eqn:He; [|auto with serve..].
  pose proof (λ now, maintains_respond packet endpoint u now Hw He) as Hr.
  assert (∀ now, maintains (serve_inv o f) (update (K:=K) (cleanup now))) as Hc
    by (intros; apply maintains_update, maintains_cleanup).
  assert (∀ now, maintains (serve_inv o f) (maybe_rotate (K:=K) now)) as Hm.
  { intros now. unfold maybe_rotate. maintain. apply maintains_update. intros s (Hi & Hb & Ht).
    split_and!; [|done..]. destruct Hi. by split. }
  maintain.
Qed.

Lemma receive_wf `{NB : !NetBytes K} socket timeout bud k d ep k' :
  receive socket timeout bud k = (Ok (d, ep), k') → wf_bytes d ∧ len d ≤ bud.
Proof.
  unfold receive, set_read_timeout. rewrite st_bind_Ok. intros ([e|[]] & k1 & _ & Hr); [done|].
  apply st_bind_Ok in Hr as (size & k2 & _ & Hr). rewrite ask_bind in Hr.
  destruct (fst (net _ k2)) as [e|[d' ep']] eqn:Hn; [done|].
  destruct (Z.leb_spec (len d') bud); [|done]. injection Hr as -> -> _.
  split; [by eapply recv_bytes|done].
Qed.

Lemma maintains_pass `{NB : !NetBytes K} : maintains (serve_inv o f) (serve_pass (K:=K) o f).
Proof.
  intros [k s] Hinv. unfold serve_pass, mbind at 1, st_bind at 1, node. simpl.
  destruct (negb _); [done|]. unfold mbind at 1, st_bind at 1, attempt, sysm, zoom. simpl.
  destruct (receive _ _ _ k) as [[[d ep]|e|] k1] eqn:Hr; [|by destruct e as [[[]|]|]|done].
  apply receive_wf in Hr as [Hw _].
  pose proof (maintains_on_packet d ep Hw (k1, s) Hinv) as Hp. unfold mbind, st_bind.
  by destruct (on_packet o f d ep (k1, s)) as [[[]| |] x].
Qed.

End Maintains.

(** ** Reachable states *)

Section Reach.
Context `{C : Crypto} {K : Type} `{NC : Net K} `{NB : !NetBytes K}.

(** A pass after which the loop goes on. *)
Definition pass_step (o : Options) (f : Fixed) (x y : K * Node) : Prop :=
  serve_pass o f x = (Ok (inl ()), y).

Lemma server_setup_inv o k f s k' :
  server_setup o k = (Ok (f, s), k') → serve_inv o f s.
Proof.
  unfold server_setup. intros H. rewrite ask_bind in H. destruct (fst _) as [e|socket]; [done|].
  apply st_bind_Ok in H as (? & k1 & _ & H). destruct (negb _); [done|].
  apply st_bind_Ok in H as (local & k2 & _ & H). apply st_bind_Ok in H as (peer & k3 & _ & H).
  apply st_bind_Ok in H as (boot & k4 & _ & H). apply st_bind_Ok in H as (current & k5 & _ & H).
  apply st_bind_Ok in H as (previous & k6 & _ & H). apply st_bind_Ok in H as (m & k7 & Hm & H).
  apply st_bind_Ok in H as (selector & k8 & _ & H). apply st_bind_Ok in H as (key & k9 & _ & H).
  rewrite ask_bind in H. injection H as <- <- _.
  unfold lift_err, lift in Hm. destruct (server_new _ _ _) as [m'| |] eqn:Hn; try done.
  simpl in Hm. injection Hm as -> _. split_and!.
  - by apply (server_new_inv _ _ _ _ _ Hn).
  - unfold server_new in Hn. inv_ok. by subst m.
  - unfold server_new in Hn. inv_ok. subst m. intros i b Hib. unfold bound in Hib. simpl in Hib. set_solver.
Qed.

Lemma serving_inv o f k0 s0 k1 k s :
  server_setup o k0 = (Ok (f, s0), k1) → rtc (pass_step o f) (k1, s0) (k, s) → serve_inv o f s.
Proof.
  intros H0%server_setup_inv. change (serve_inv o f (snd (k1, s0))) in H0.
  intros Hr. change (serve_inv o f (snd (k, s))). induction Hr as [|x y z Hs _ IH]; [done|].
  apply IH. pose proof (maintains_pass o f x H0) as Hp. unfold pass_step in Hs. by rewrite Hs in Hp.
Qed.
End Reach.

(** ** What a packet leaves alone *)

(** The established sessions with the id [i] that have not lapsed at [now] are kept. *)
Definition spares (i now : Z) (m m' : ServerMachine) : Prop :=
  ∀ e, e ∈ sv_established m → es_scid e = i → established_live now e → e ∈ sv_established m'.

Lemma spares_refl i now m : spares i now m m.
Proof. by intros ?. Qed.
Lemma spares_trans i now m1 m2 m3 : spares i now m1 m2 → spares i now m2 m3 → spares i now m1 m3.
Proof. unfold spares. eauto. Qed.

Lemma spares_expire i now m w : spares i now m (fst (expire now (m, w))).
Proof. intros e He _ Hl. simpl. by apply list_elem_of_filter. Qed.

Lemma spares_insert i now m n e e' :
  sv_established m !! n = Some e → es_scid e ≠ i →
  spares i now m (set_established (<[n := e']> (sv_established m)) m).
Proof.
  intros Hn Hi x Hx Hs _. simpl. apply list_elem_of_lookup in Hx as [j Hj].
  assert (j ≠ n) by (intros ->; congruence). apply (list_elem_of_lookup_2 _ j).
  by rewrite list_lookup_insert_ne.
Qed.

Lemma spares_delete i now m n e :
  sv_established m !! n = Some e → es_scid e ≠ i →
  spares i now m (set_established (delete n (sv_established m)) m).
Proof.
  intros Hn Hi x Hx Hs _. simpl. rewrite (delete_Permutation _ _ _ Hn) in Hx.
  apply elem_of_cons in Hx as [->|?]; done.
Qed.

Section Spares.
Context `{C : Crypto}.

Lemma receive_accept_spares i p now m w : spares i now m (fst (snd (receive_accept p now (m, w)))).
Proof.
  unfold receive_accept. pose proof (spares_expire i now m w) as He.
  destruct (expire now (m, w)) as [m1 w1]. cbn [fst] in He.
  destruct (accept_header _ p) as [h| |]; [|done..].
  destruct (find_established _ _) as [[? ?]|]; [done|].
  destruct (find_pending _ _) as [[n q]|]; [|done].
  destruct (accept_preview _ _ _ _) as [pv| |]; [|done..].
  destruct (session_commit pv (ps_session q)) as [[?| |] s']; [|done..].
  eapply spares_trans; [exact He|]. intros e Hx _ _. simpl. apply elem_of_app. by left.
Qed.

Lemma open_auth_spares i p b now bucket hm m w :
  spares i now m (fst (snd (receive_open_auth p b now bucket hm (m, w)))).
Proof.
  unfold receive_open_auth. destruct (binding_validate b) as [[]| |]; [|apply spares_refl..].
  pose proof (spares_expire i now m w) as He. destruct (expire now (m, w)) as [m1 w1]. cbn [fst] in He.
  destruct (handshake_message _ p OPEN_AUTH) as [[h body]| |]; [|done..].
  destruct (find_pending _ _) as [[n q]|]; [by destruct (_ && _)|].
  destruct (find_established _ _) as [[n q]|]; [by destruct (_ && _)|].
  destruct (open_auth_keys _ _ _ _ _ _ _) as [[[[[ack hash] sched] sk] rk]| |]; [|done..].
  by destruct (session_new sk rk hash _ w1) as [[s| |] w2].
Qed.

Lemma server_send_spares i i' typ pt a b close now m w :
  i' ≠ i → spares i now m (fst (snd (server_send i' typ pt a b close (m, w)))).
Proof.
  intros Hi. unfold server_send. destruct (find_established _ _) as [[n e]|] eqn:Hf; [|apply spares_refl].
  apply find_established_Some in Hf as [Hn Hs]. destruct (encrypt _ _ _ _ _) as [r s'].
  assert (es_scid e ≠ i) as He by by rewrite Hs.
  pose proof (spares_insert i now m n e (set_es_session s' e) Hn He).
  pose proof (spares_delete i now m n e Hn He). destruct r as [?|[]|], close; done.
Qed.

(** A data message is for the session of its header. *)
Lemma commit_data_spares i p now m w :
  dp_scid p ≠ i → spares i now m (fst (snd (server_commit_data p now (m, w)))).
Proof.
  intros Hi. unfold server_commit_data. case_match; [apply spares_refl|].
  pose proof (spares_expire i now m w) as He. destruct (expire now (m, w)) as [m1 w1]. cbn [fst] in He.
  destruct (find_established _ _) as [[n e]|] eqn:Hf; [|done].
  apply find_established_Some in Hf as [Hn Hs].
  destruct (session_commit _ _) as [r s']. eapply spares_trans; [exact He|].
  apply (spares_insert i now m1 n e); [done|by rewrite Hs].
Qed.

Lemma data_scid p a b now m w h payload pv m' w' :
  unpack_with_budget p (hc_budget (sv_config m)) = Ok (h, payload) →
  server_preview_data_with_locs p a b now (m, w) = (Ok pv, (m', w')) → dp_scid pv = scid h.
Proof.
  intros Hu. unfold server_preview_data_with_locs. pose proof (shrinks_expire now m w) as [Hc _].
  destruct (expire now (m, w)) as [m1 w1]. cbn [fst] in Hc. rewrite Hc, Hu. simpl.
  destruct (find_established _ _) as [[n e]|]; [|done]. simpl. intros [= Hp _ _].
  unfold preview_on_session in Hp. by inv_ok; simplify_eq; subst.
Qed.

Lemma receive_data_spares i p now m w h payload :
  unpack_with_budget p (hc_budget (sv_config m)) = Ok (h, payload) → scid h ≠ i →
  spares i now m (fst (snd (server_receive_data p now (m, w)))).
Proof.
  intros Hu Hi. unfold server_receive_data. pose proof (spares_expire i now m w) as He.
  pose proof (shrinks_expire now m w) as [Hc _]. destruct (expire now (m, w)) as [m1 w1]. cbn [fst] in He, Hc.
  rewrite <- Hc in Hu. destruct (server_preview_data_with_locs _ _ _ _ _) as [r [m2 w2]] eqn:Hp.
  assert (spares i now m1 m2) as H2.
  { unfold server_preview_data_with_locs in Hp. pose proof (spares_expire i now m1 w1) as H2.
    destruct (expire now (m1, w1)). by injection Hp as _ <- _. }
  pose proof (spares_trans _ _ _ _ _ He H2) as H3. destruct r as [pv| |]; [|done..].
  eapply spares_trans; [exact H3|]. apply commit_data_spares.
  by rewrite (data_scid _ _ _ _ _ _ _ _ _ _ _ Hu Hp).
Qed.

Lemma receive_close_spares i p now m w h payload :
  unpack_with_budget p (hc_budget (sv_config m)) = Ok (h, payload) → scid h ≠ i →
  spares i now m (fst (snd (server_receive_close p now (m, w)))).
Proof.
  intros Hu Hi. unfold server_receive_close. pose proof (spares_expire i now m w) as He.
  pose proof (shrinks_expire now m w) as [Hc _]. destruct (expire now (m, w)) as [m1 w1]. cbn [fst] in He, Hc.
  rewrite <- Hc in Hu. destruct (close_target m1 p) as [[n e]| |] eqn:Ht; [|done..].
  apply (close_target_scid _ _ _ _ _ _ Hu) in Ht as [Hn Hs].
  destruct (decrypt p (es_session e)) as [r s'].
  assert (es_scid e ≠ i) as Hne by by rewrite Hs.
  pose proof (spares_trans _ _ _ _ _ He (spares_insert i now m1 n e (set_es_session s' e) Hn Hne)).
  pose proof (spares_trans _ _ _ _ _ He (spares_delete i now m1 n e Hn Hne)).
  destruct r as [[|? [|? []]]| |]; done.
Qed.
End Spares.

(** ** The owner of a session *)

Definition holds (o : Options) (e : EstablishedSession) (s : Node) : Prop :=
  hc_budget (sv_config (server s)) = budget o ∧ e ∈ sv_established (server s).

Section Owner.
Context `{C : Crypto} {K : Type} `{NC : Net K}.
Context (o : Options) (f : Fixed) (e : EstablishedSession) (now : Z).
Context (Hlive : established_live now e).
Abbreviation kept := (maintains (K:=K) (holds o e)).

Lemma kept_server {A} (m : st ServerWorld SessionError.t A) :
  (∀ m0 w, shrinks m0 (fst (snd (m (m0, w))))) →
  (∀ m0 w, hc_budget (sv_config m0) = budget o → spares (es_scid e) now m0 (fst (snd (m (m0, w))))) →
  kept (on_server (K:=K) m).
Proof.
  intros Hs Hk [k s] [Hb He]. unfold on_server, machine, zoom, server_view. simpl in *.
  specialize (Hs (server s) (world s)) as [Hc _]. specialize (Hk (server s) (world s) Hb e He eq_refl Hlive).
  destruct (m (server s, world s)) as [[a|er|] [m' w']]; (split; [simpl in *; congruence|exact Hk]).
Qed.

Lemma kept_update (g : Node → Node) :
  (∀ s, server (g s) = server s) → kept (update (K:=K) g).
Proof. intros Hg. apply maintains_update. intros s [Hb He]. split; by rewrite Hg. Qed.

Lemma kept_open_auth packet b bucket hm : kept (on_server (K:=K) (receive_open_auth packet b now bucket hm)).
Proof.
  intros [k s] [Hb He]. unfold on_server, machine, zoom, server_view. simpl in *.
  pose proof (open_auth_spares (es_scid e) packet b now bucket hm (server s) (world s) e He eq_refl Hlive) as Hk.
  assert (sv_config (fst (snd (receive_open_auth packet b now bucket hm (server s, world s)))) = sv_config (server s))
    as Hc.
  { unfold receive_open_auth. destruct (binding_validate b) as [[]| |]; [|done..]. simpl.
    repeat (case_match; simplify_eq/=); done. }
  destruct (receive_open_auth packet b now bucket hm (server s, world s)) as [[a|er|] [m' w']];
    (split; [simpl in *; congruence|exact Hk]).
Qed.

#[local] Hint Resolve maintains_ret maintains_throw maintains_lift maintains_sysm maintains_attempt
  maintains_node maintains_from_peer : serve.

(** Whatever another endpoint sends, the answer to it does not touch the session. *)
Lemma kept_respond packet endpoint binding owner u k s :
  endpoint ≠ owner → peer_bindings s !! es_scid e = Some (owner, u) → holds o e s →
  holds o e (snd (snd (respond (K:=K) o f packet endpoint binding now (k, s)))).
Proof.
  intros Hne Hp Hs. unfold respond.
  destruct (unpack_with_budget packet (budget o)) as [[h payload]| |] eqn:Hu; [|done..].
  case_bool_decide.
  { unfold mbind, st_bind, node. simpl. destruct (receive_open_limited _ _ _ _ _ _ _) as [r l]. by destruct r. }
  case_bool_decide.
  { match goal with |- holds _ _ (snd (snd (?m _))) => assert (kept m) as Hk; [|by apply Hk] end.
    apply maintains_bind; [apply maintains_sysm|intros secret].
    apply maintains_bind; [apply maintains_sysm|intros nonce].
    apply maintains_bind; [apply kept_open_auth|intros [?|?]]; [auto with serve|].
    apply maintains_bind; [by apply kept_update|auto with serve]. }
  destruct (decide (scid h = es_scid e)) as [Hsc|Hsc].
  { assert (∀ B (g : bool → st (K * Node) (stop CliError) B),
      (from_peer (scid h) endpoint binding ≫= g) (k, s) = g false (k, s)) as Hfalse.
    { intros B g. unfold mbind, st_bind, from_peer, node, peer_matches. simpl. rewrite Hsc, Hp.
      by rewrite bool_decide_eq_false_2 by congruence. }
    case_bool_decide; [by rewrite Hfalse|]. case_bool_decide; [by rewrite Hfalse|].
    case_bool_decide; [by rewrite Hfalse|done]. }
  match goal with |- holds _ _ (snd (snd (?m _))) => assert (kept m) as Hk; [|by apply Hk] end.
  assert (kept (on_server (K:=K) (receive_accept packet now))) as Ha
    by (apply kept_server; intros; [apply receive_accept_shrinks|apply receive_accept_spares]).
  assert (kept (on_server (K:=K) (server_receive_data packet now))) as Hd.
  { apply kept_server; intros; [apply receive_data_shrinks|].
    eapply receive_data_spares; [|done]. subst. replace (hc_budget _) with (budget o). done. }
  assert (kept (on_server (K:=K) (server_receive_close packet now))) as Hc.
  { apply kept_server; intros; [apply receive_close_shrinks|].
    eapply receive_close_spares; [|done]. replace (hc_budget _) with (budget o). done. }
  assert (∀ pt, kept (on_server (K:=K) (server_send_data (scid h) pt))) as Hd'
    by (intros; apply kept_server; intros; [apply send_shrinks|by apply server_send_spares]).
  assert (kept (update (K:=K) set_ready_sent)) as Hr by by apply kept_update.
  assert (kept (update (K:=K) (λ s, add_success (set_peers (delete (scid h) (peer_bindings s)) s)))) as Hx
    by by apply kept_update.
  repeat case_bool_decide; repeat match goal with
  | |- maintains _ (_ ≫= _) => apply maintains_bind; [|intros ?]
  | |- maintains _ (if ?b then _ else _) => destruct b
  | |- maintains _ (match ?x with _ => _ end) => destruct x
  | _ => progress auto with serve
  end.
Qed.

Lemma kept_cleanup s : holds o e s → holds o e (cleanup now s).
Proof.
  intros [Hb He]. unfold cleanup, server_view.
  pose proof (spares_expire (es_scid e) now (server s) (world s) e He eq_refl Hlive) as Hk.
  pose proof (shrinks_expire now (server s) (world s)) as [Hc _].
  destruct (expire now (server s, world s)) as [m w]. simpl in *. split; [simpl; congruence|exact Hk].
Qed.

Lemma kept_on_packet packet endpoint owner u k s :
  endpoint ≠ owner → peer_bindings s !! es_scid e = Some (owner, u) → holds o e s →
  fst (elapsed_ms (E:=stop CliError) (fx_started f) k) = Ok now →
  holds o e (snd (snd (on_packet (K:=K) o f packet endpoint (k, s)))).
Proof.
  intros Hne Hp Hs Hnow. unfold on_packet. destruct (negb _); [done|].
  destruct (endpoint_binding endpoint (fx_selector f)) as [b| |]; [|done..].
  unfold mbind at 1, st_bind at 1, sysm at 1, zoom. cbn [fst snd].
  destruct (elapsed_ms (fx_started f) k) as [r k1]. cbn [fst] in Hnow. subst r.
  assert (∀ k, let x := snd (maybe_rotate (K:=K) now (k, s)) in
    holds o e (snd x) ∧ peer_bindings (snd x) = peer_bindings s) as Hrot.
  { intros k2. unfold maybe_rotate, mbind, st_bind, node. simpl. destruct (600000 <=? _); [|done].
    unfold sysm, zoom. simpl. by destruct (random 32 k2) as [[key| |] k3]. }
  specialize (Hrot k1). unfold mbind at 1, st_bind at 1.
  destruct (maybe_rotate now (k1, s)) as [[[]| |] [k2 s2]]; cbn [fst snd] in Hrot; destruct Hrot as [Hs2 Hp2];
    [|done..].
  pose proof (kept_respond packet endpoint b owner u k2 s2 Hne) as Hr. rewrite Hp2 in Hr.
  specialize (Hr Hp Hs2). unfold mbind at 1, st_bind at 1.
  destruct (respond o f packet endpoint b now (k2, s2)) as [[[a|]| |] x]; [|done..].
  match goal with |- holds _ _ (snd (snd (?m _))) => assert (kept m) as Hk; [|by apply Hk] end.
  apply maintains_bind; [destruct a; auto with serve|intros _].
  apply maintains_update, kept_cleanup.
Qed.
End Owner.

(** C2: A session of the server program belongs to the endpoint that opened it.  In every state the
    serving loop reaches, an established session has an entry in the table of peers with the
    endpoint it is bound to; and whatever datagram any other endpoint sends, in whatever order,
    the session is afterwards in the server exactly as it was, keys, counters, replay window and
    all, unless its idle time is over. *)
Theorem session_owner `{C : Crypto} {K : Type} `{NC : Net K} `{NB : !NetBytes K} o f k0 s0 k1 k s e :
  server_setup o k0 = (Ok (f, s0), k1) →
  rtc (pass_step o f) (k1, s0) (k, s) →
  e ∈ sv_established (server s) →
  ∃ owner u, peer_bindings s !! es_scid e = Some (owner, u) ∧ es_binding e = Udp u ∧
    endpoint_binding owner (fx_selector f) = Ok u ∧
    ∀ packet other now, other ≠ owner →
      fst (elapsed_ms (E:=stop CliError) (fx_started f) k) = Ok now → established_live now e →
      e ∈ sv_established (server (snd (snd (on_packet o f packet other (k, s))))).
Proof.
  intros H0 Hr He. destruct (serving_inv _ _ _ _ _ _ _ H0 Hr) as (_ & Hb & Ht).
  destruct (Ht (es_scid e) (es_binding e)) as (owner & u & Hp & Hu & Ho); [apply elem_of_bound; eauto|].
  exists owner, u. split_and!; [done..|]. intros packet other now Hne Hnow Hl.
  by eapply (kept_on_packet o f e now Hl packet other owner u k s).
Qed.

(** A datagram longer than the budget ends the program with the error of the budget, whoever
    sent it. *)
Lemma oversized_datagram_stops `{C : Crypto} {K : Type} `{NC : Net K} n o f k s k1 d peer :
  successes s < max_sessions o → budget o < u64_max → timeout o ≠ 0 →
  net (SetReadTimeout (fx_socket f) (timeout o)) k = (inr (), k1) →
  fst (net (RecvFrom (fx_socket f) (budget o + 1)) k1) = inr (d, peer) → budget o < len d →
  0 ≤ budget o →
  fst (serve_loop (K:=K) (S n) o f (k, s)) = Err (Failed (Session SessionError.Budget)).
Proof.
  intros Hmax%Z.ltb_lt Hb Ht%Z.eqb_neq Hset Hrecv Hd%Z.leb_gt Hb0.
  assert (fst (receive (fx_socket f) (timeout o) (budget o) k) = Err (Failed (Session SessionError.Budget))) as Hr.
  { unfold receive, set_read_timeout. rewrite Ht, ask_bind, Hset. simpl. unfold RECV_EXTRA.
    rewrite checked_add_Some by lia. unfold lift_err, lift, mbind, st_bind, ask. simpl.
    destruct (net (RecvFrom _ _) k1) as [r k2]. simpl in *. subst r. by rewrite Hd. }
  simpl. unfold serve_pass, mbind, st_bind, node, attempt, sysm, zoom. simpl. rewrite Hmax. simpl.
  by destruct (receive _ _ _ k) as [r k2]; simpl in Hr; subst r.
Qed.
