(* ===== verification/SessionScenario.v ===== *)
(** * A session between the two modes of the program

    The client and the server of [SessionProgram.v] on one network: the client's
    datagrams are passes of the server's loop, and what the server sends waits for
    the client.  The run is the instance at which the theorems of
    [SessionServe.v] apply. *)

From S2P Require Import Prelude Wire Checksum Codec Crypto SessionMsg Replay SessionCrypto Directional Client Limiter Server ServerInv Text Loc Udp Responder SessionCli SessionProgram SessionServe.
From stdpp Require Import gmap strings.
#[local] Open Scope Z_scope.
Import R8session R8sessionMain.

Definition ss_client : Options :=
  mkOptions Connect demo_client_key (ed25519_public demo_server_key) 7 12 demo_src demo_dst
    (V4 [127; 0; 0; 1] 4000) (Some (V4 [127; 0; 0; 1] 5000)) 1252 (millis 5000) 1
    (Some [104; 105]) (Some 99) None false.
Definition ss_server : Options :=
  mkOptions Serve demo_server_key (ed25519_public demo_client_key) 7 12 demo_dst demo_src
    (V4 [127; 0; 0; 1] 5000) None 1252 (millis 5000) 1 None None None false.

(** The kernel of the server delivers a list of datagrams. *)
Abbreviation Inbox := R8d.Script.
Definition bytes_net {A : Set} (c : call A) : Inbox → A * Inbox :=
  match c in call A return Inbox → A * Inbox with
  | RecvFrom _ size => λ k,
      match k with
      | (d, peer) :: k => (inr (take (Z.to_nat size) ((λ b, b mod 256) <$> d), peer), k)
      | [] => (inl (mkIoError WouldBlock (Some 11)), [])
      end
  | c => λ k, (fst (R8d.script_net c []), k)
  end.
Definition inbox_net : Net Inbox := {| net A c := bytes_net c |}.

Lemma inbox_bytes : NetBytes Inbox (NC:=inbox_net).
Proof.
  split. intros s n [|[d p] k] d' p'; [done|]. simpl. intros [= <- _]. apply Forall_take, Forall_fmap.
  apply Forall_forall. intros b _. simpl. pose proof (Z.mod_pos_bound b 256). solve_width.
Qed.

(** The client's kernel: the server's state, and the datagrams on their way back. *)
Record Link : Set := mkLink { link_node : option (Fixed * Node); link_back : list bytes }.

(** A pass of the server on a datagram of the client, and what it sends. *)
Definition link_pass (f : Fixed) (s : Node) (packet : bytes) : Node * list bytes :=
  let '(_, ((_, t), s)) :=
    serve_pass (NC:=logged (NC:=inbox_net)) ss_server f (([(packet, bind ss_client)], []), s) in
  (s, fst <$> sent t).

Definition link_net {A : Set} (c : call A) : Link → A * Link :=
  match c in call A return Link → A * Link with
  | SendTo _ p _ => λ k,
      match link_node k with
      | Some (f, s) =>
          let '(s, back) := link_pass f s p in
          (inr (len p), mkLink (Some (f, s)) (link_back k ++ back))
      | None => (inr (len p), k)
      end
  | RecvFrom _ size => λ k,
      match link_back k with
      | d :: l => (inr (take (Z.to_nat size) d, bind ss_server), mkLink (link_node k) l)
      | [] => (inl (mkIoError WouldBlock (Some 11)), k)
      end
  | c => λ k, (fst (R8d.script_net c []), k)
  end.
Definition link : Net Link := {| net A c := link_net c |}.

Definition ss_start : outcome (stop CliError) (Fixed * Node) * Inbox := server_setup (NC:=inbox_net) ss_server [].
Definition ss_link : Link :=
  mkLink (match fst ss_start with Ok fs => Some fs | _ => None end) [].

(** The run of the client: how it ends, the server at its end, and what the client sent. *)
Definition ss_run : outcome (stop CliError) unit * (Link * list event) :=
  connect (NC:=logged (NC:=link)) 1 ss_client (ss_link, []).

(** Handshake, message, echo and close: the client ends well and the server counts a session that
    it has closed; nothing of it is left. *)
Example session_run :
  fst ss_run = Ok () ∧
  (λ fs : Fixed * Node, (successes (snd fs), sv_established (server (snd fs)), peer_bindings (snd fs))) <$>
    link_node (fst (snd ss_run)) = Some (1, [], ∅) ∧
  length (sent (snd (snd ss_run))) = 5%nat.
Proof. by vm_compute. Qed.

(** The server in the middle of the session: after OPEN, OPEN_AUTH and ACCEPT. *)
Definition ss_packets : Inbox := Eval vm_compute in (λ s, (s.1, bind ss_client)) <$> take 3 (sent (snd (snd ss_run))).
Definition ss_fixed : Fixed := mkFixed 3 (replicate 16 1) (replicate 32 1) 0.
Definition ss_node : Node :=
  mkNode
    (mkServer (machine_config demo_server_id demo_client_id demo_src demo_dst ss_server) demo_server_key
       (mkServerMaterial (replicate 16 1) (replicate 32 1) (replicate 32 1) 0) [] [] demo_dst demo_src)
    world_init ∅ limiter_new 0 0 false.
Definition ss_pass (x : Inbox * Node) : Inbox * Node := snd (serve_pass (NC:=inbox_net) ss_server ss_fixed x).
Definition ss_first : Inbox * Node := Eval vm_compute in ss_pass (ss_packets, ss_node).
Definition ss_second : Inbox * Node := Eval vm_compute in ss_pass ss_first.
Definition ss_open : Inbox * Node := Eval vm_compute in ss_pass ss_second.

(** Another host repeats the accept message; the session stays. *)
Definition ss_intruder : SocketAddr := V4 [127; 0; 0; 2] 4000.

Lemma session_owner_witness :
  ∃ e p, sv_established (server (snd ss_open)) = [e] ∧ last ss_packets = Some (p, bind ss_client) ∧
    e ∈ sv_established (server (snd (snd
      (on_packet (NC:=inbox_net) ss_server ss_fixed p ss_intruder (fst ss_open, snd ss_open))))).
Proof.
  assert ((λ e, (es_scid e, es_last_active_ms e)) <$> sv_established (server (snd ss_open)) = [(99, 0)]) as Hse
    by (vm_compute; reflexivity).
  assert (snd <$> last ss_packets = Some (bind ss_client)) as Hlp by (vm_compute; reflexivity).
  destruct (last ss_packets) as [[p ep]|]; [|discriminate Hlp]. injection Hlp as ->.
  destruct (sv_established (server (snd ss_open))) as [|e [|]] eqn:He; [discriminate Hse| |discriminate Hse].
  injection Hse as Hscid Hlast. exists e, p. split; [reflexivity|]. split; [reflexivity|].
  assert (fst <$> peer_bindings (snd ss_open) !! 99 = Some (bind ss_client)) as Hfst
    by (vm_compute; reflexivity).
  destruct (session_owner (NC:=inbox_net) (NB:=inbox_bytes) ss_server ss_fixed ss_packets ss_node ss_packets
    (fst ss_open) (snd ss_open) e) as (owner & u & Hpeer & _ & _ & Hkeep).
  - vm_compute. reflexivity.
  - eapply (rtc_l _ _ ss_first); [vm_compute; reflexivity|]. eapply (rtc_l _ _ ss_second); [vm_compute; reflexivity|].
    eapply (rtc_l _ _ ss_open); [vm_compute; reflexivity|apply rtc_refl].
  - rewrite He. by apply list_elem_of_singleton.
  - rewrite Hscid in Hpeer. rewrite Hpeer in Hfst. injection Hfst as ->.
    apply (Hkeep p ss_intruder 0); [discriminate|reflexivity|]. unfold established_live. rewrite Hlast. done.
Defined.
