(* ===== verification/Linux.v ===== *)
(** * The Linux primitives of the native launcher (src/rust/crates/r8d/src/linux.rs)

    Topology verification, the filtered packet descriptors, the irreversible
    privilege drop and the sealed manifest.  The kernel is a parameter: a state
    and an answer to each system call, with the calls as a type indexed by what
    they return.  A dropped descriptor is closed; the calls are made in the
    order of the source, with its short-circuits.  The properties are in
    [LinuxInv.v]. *)

From S2P Require Import Prelude Bpf Text.
From stdpp Require Import gmap strings.
#[local] Open Scope Z_scope.

Module LinuxError.

Inductive t : Set :=
| Namespace | Network | DefaultRouteV4 | Interface | Address | Socket | Privilege | Manifest.

#[export] Instance eq_dec : EqDecision t.
Proof. solve_decision. Defined.

End LinuxError.

(** ** Constants of the source and of the libc crate *)

Definition SOL_PACKET : Z := 263.
Definition PACKET_IGNORE_OUTGOING : Z := 23.
Definition SO_ATTACH_FILTER : Z := 26.
Definition SO_DETACH_FILTER : Z := 27.
Definition SO_LOCK_FILTER : Z := 44.
Definition PR_SET_NO_NEW_PRIVS : Z := 38.
Definition PR_GET_NO_NEW_PRIVS : Z := 39.
Definition PR_CAP_AMBIENT : Z := 47.
Definition PR_CAP_AMBIENT_CLEAR_ALL : Z := 4.
Definition PR_SET_DUMPABLE : Z := 4.
Definition PR_GET_DUMPABLE : Z := 3.
Definition CAPSET_VERSION_3 : Z := 0x20080522.

Definition PR_CAPBSET_DROP : Z := 24.
Definition IFNAMSIZ : Z := 16.
Definition IFF_UP : Z := 1.
Definition IFF_LOOPBACK : Z := 8.
Definition AF_INET : Z := 2.
Definition AF_NETLINK : Z := 16.
Definition AF_PACKET : Z := 17.
Definition SOCK_DGRAM : Z := 2.
Definition SOCK_RAW : Z := 3.
Definition SOCK_NONBLOCK : Z := 2048.
Definition SOCK_CLOEXEC : Z := 524288.
Definition SOL_SOCKET : Z := 1.
Definition EPERM : Z := 1.
Definition MFD_CLOEXEC : Z := 1.
Definition MFD_ALLOW_SEALING : Z := 2.
Definition F_SEAL_SEAL : Z := 1.
Definition F_SEAL_SHRINK : Z := 2.
Definition F_SEAL_GROW : Z := 4.
Definition F_SEAL_WRITE : Z := 8.
Definition REQUIRED_SEALS : Z :=
  Z.lor (Z.lor (Z.lor F_SEAL_SEAL F_SEAL_SHRINK) F_SEAL_GROW) F_SEAL_WRITE.

(** [u16::to_be] on a little-endian machine. *)
Definition to_be_u16 (v : Z) : Z := (v mod 256) * 256 + v / 256.

(** ** System calls *)

(** An entry of the list of [getifaddrs].  Its name is a C string or null. *)
Inductive c_name : Set := NullName | NotUtf8 | Name (name : string).
Inductive sock_addr : Set := Inet | Inet6 (address : bytes) | OtherFamily.

Record ifaddr : Set := mkIfaddr {
  ifa_name : c_name;
  ifa_flags : Z;
  ifa_addr : option sock_addr;
}.

(** The addresses the program binds to and the values of socket options it sets. *)
Inductive bind_addr : Set :=
| LinkLayer (protocol ifindex : Z)
| NetlinkGroups (groups : Z).
Inductive sockopt : Set := OptInt (v : Z) | OptProgram (program : list sock_filter).

(** A call by the type of its answer.  [None] is a failed read; an integer is the call's return
    value; a call that fills a buffer also returns what it wrote. *)
Inductive call : Set → Type :=
| ReadToString (path : string) : call (option text)
| ReadFile (path : string) : call (option bytes)
| Metadata (path : string) : call (option (Z * Z))
| PathExists (path : string) : call bool
| Getifaddrs : call (option (list ifaddr))
| Freeifaddrs : call unit
| Socket (domain type protocol : Z) : call Z
| Close (fd : Z) : call unit
| Bind (fd : Z) (address : bind_addr) : call Z
| Setsockopt (fd level option : Z) (value : sockopt) : call Z
| LastOsError : call Z
| Siocgifindex (fd : Z) (name : bytes) : call (Z * Z)
| Siocgifmtu (fd : Z) (name : bytes) : call (Z * Z)
| Siocgifhwaddr (fd : Z) (name : bytes) : call (Z * bytes)
| Setgroups (groups : list Z) : call Z
| Setresgid (real effective saved : Z) : call Z
| Setresuid (real effective saved : Z) : call Z
| Capset (version pid : Z) (data : list (Z * Z * Z)) : call Z
| Prctl (option value : Z) : call Z
| Getgroups (size : Z) : call (Z * list Z)
| Getresuid : call (Z * (Z * Z * Z))
| Getresgid : call (Z * (Z * Z * Z))
| Setfsuid (uid : Z) : call Z
| Setfsgid (gid : Z) : call Z
| MemfdCreate (name : string) (flags : Z) : call Z
| Write (fd : Z) (data : bytes) : call Z
| AddSeals (fd seals : Z) : call Z
| GetSeals (fd : Z) : call Z
| Fstat (fd : Z) : call (Z * Z)
| Pread (fd count offset : Z) : call (Z * bytes)
| Recv (fd count : Z) (truncate : bool) : call (Z * bytes)
| SendTo (fd : Z) (data : bytes) : call Z
| Poll (fds : list Z) (timeout : Z) : call (Z * list Z)
| WouldBlock : call bool
| ClockGettime : call Z.

Class Kernel (K : Type) := { sys : ∀ {A : Set}, call A → K → A * K }.

(** ** Operations *)

Section Operations.
Context {K : Type} `{KC : Kernel K}.

Definition ask {E} {A : Set} (c : call A) : st K E A := λ k, let '(a, k') := sys c k in (Ok a, k').

(** Short-circuit disjunction of conditions with effects. *)
Definition or_else {E} (a b : st K E bool) : st K E bool := x ← a; if x : bool then mret true else b.

(** [Result::is_err] of an operation, and [Result::map_err]. *)
Definition is_err {E E' A} (m : st K E A) : st K E' bool := λ k,
  match m k with
  | (Ok _, k') => (Ok false, k')
  | (Err _, k') => (Ok true, k')
  | (Panic, k') => (Panic, k')
  end.
Definition with_err {E E' A} (f : E → E') (m : st K E A) : st K E' A := λ k,
  let '(r, k') := m k in (map_err f r, k').

(** The call does not return 0. *)
Definition fails {E} (c : call Z) : st K E bool := r ← ask c; mret (negb (r =? 0)).

(** Run [m] with the owner of [fd]: the descriptor is closed when [m] fails or unwinds, and
    otherwise kept by the result. *)
Definition owned {E A} (fd : Z) (m : st K E A) : st K E A := λ k,
  match m k with
  | (Ok a, k') => (Ok a, k')
  | (e, k') => (e, snd (sys (Close fd) k'))
  end.

(** Run [m] with a descriptor that is dropped at its end. *)
Definition with_fd {E A} (fd : Z) (m : st K E A) : st K E A := λ k,
  let '(r, k') := m k in (r, snd (sys (Close fd) k')).

#[local] Abbreviation M := (st K LinuxError.t).

(** ** Names, routes and addresses *)

Definition valid_interface_name (name : string) : bool :=
  negb (bool_decide (name = "")) && negb (bool_decide (name = "lo"))
  && (len (ascii_bytes name) <? IFNAMSIZ)
  && forallb (λ b, is_ascii_alphanumeric b || (b =? 95) || (b =? 46) || (b =? 45))
       (ascii_bytes name).

Definition namespace_matches_pid_one : M bool :=
  current ← ask (Metadata "/proc/self/ns/net");
  match current with None => throw LinuxError.Namespace | Some current =>
  init ← ask (Metadata "/proc/1/ns/net");
  match init with None => throw LinuxError.Namespace | Some init =>
  mret ((snd current =? snd init) && (fst current =? fst init))
  end end.

Definition ipv6_path (scope : string) : string :=
  "/proc/sys/net/ipv6/conf/" ++ scope ++ "/disable_ipv6".

Fixpoint ipv6_disabled_loop (scopes : list string) : M unit :=
  match scopes with
  | [] => mret ()
  | scope :: scopes =>
      value ← ask (ReadToString (ipv6_path scope));
      match value with None => throw LinuxError.Network | Some value =>
      if negb (bool_decide (trim value = [49])) then throw LinuxError.Network else
      ipv6_disabled_loop scopes
      end
  end.

Definition verify_ipv6_disabled (names : list string) : M unit :=
  ipv6_disabled_loop (["all"; "default"; "lo"]%string ++ names).

Definition is_hex_field (value : text) (length : Z) : bool :=
  (len (utf8 value) =? length) && forallb is_ascii_hexdigit (utf8 value).

Definition route_is_reject (flags : text) : bool :=
  match from_str_radix 16 u32_max (utf8 flags) with
  | Some value => negb (Z.land value 0x0200 =? 0)
  | None => false
  end.

Definition zero_field : text := replicate 8 48.

(** The body of the loop of [has_ipv4_default_route]: [None] goes on with the next line. *)
Definition route_line (line : text) : option bool :=
  let fields := split_whitespace line in
  if bool_decide (head fields = Some (ascii_bytes "Iface")) then None else
  match fields with
  | [f0; f1; f2; f3; f4; f5; f6; f7; f8; f9; f10] =>
      if bool_decide (f0 = []) || negb (is_hex_field f1 8) || negb (is_hex_field f2 8)
         || bool_decide (f3 = []) || (8 <? len (utf8 f3))
         || negb (forallb is_ascii_hexdigit (utf8 f3))
         || negb (forallb (λ f, forallb is_ascii_digit (utf8 f)) [f4; f5; f6; f8; f9; f10])
         || negb (is_hex_field f7 8)
      then Some true else
      if bool_decide (f1 = zero_field) && bool_decide (f7 = zero_field) && negb (route_is_reject f3)
      then Some true else None
  | _ => Some true
  end.

Fixpoint route_lines (ls : list text) : bool :=
  match ls with
  | [] => false
  | line :: ls => match route_line line with Some r => r | None => route_lines ls end
  end.

Definition has_ipv4_default_route (route_table : text) : bool :=
  route_lines (filter (λ line, trim line ≠ []) (lines route_table)).

Definition verify_no_default_route : M unit :=
  ipv4 ← ask (ReadToString "/proc/net/route");
  match ipv4 with None => throw LinuxError.Network | Some ipv4 =>
  if has_ipv4_default_route ipv4 then throw LinuxError.DefaultRouteV4 else mret ()
  end.

Record InterfaceAddress : Set := mkAddress {
  name : string;
  loopback : bool;
  up : bool;
  ipv4 : bool;
  global_ipv6 : bool;
}.

Definition is_non_global_ipv6 (address : bytes) : bool :=
  bool_decide (address = replicate 16 0) || bool_decide (address = replicate 15 0 ++ [1])
  || match address with
     | a0 :: a1 :: _ => (a0 =? 0xfe) && (Z.land a1 0xc0 =? 0x80)
     | _ => false
     end.

(** What an item of the list sets in the entry of its name. *)
Definition update_address (item : ifaddr) (e : InterfaceAddress) : InterfaceAddress :=
  mkAddress (name e)
    (loopback e || negb (Z.land (ifa_flags item) IFF_LOOPBACK =? 0))
    (up e || negb (Z.land (ifa_flags item) IFF_UP =? 0))
    (match ifa_addr item with Some Inet => true | _ => ipv4 e end)
    (match ifa_addr item with
     | Some (Inet6 address) => if negb (is_non_global_ipv6 address) then true else global_ipv6 e
     | _ => global_ipv6 e
     end).

(** The first entry of that name, or a new one at the end. *)
Fixpoint update_entry (n : string) (f : InterfaceAddress → InterfaceAddress)
    (l : list InterfaceAddress) : list InterfaceAddress :=
  match l with
  | [] => [f (mkAddress n false false false false)]
  | e :: l => if bool_decide (name e = n) then f e :: l else e :: update_entry n f l
  end.

Fixpoint addresses_loop (result : list InterfaceAddress) (items : list ifaddr) :
  outcome LinuxError.t (list InterfaceAddress) :=
  match items with
  | [] => Ok result
  | item :: items =>
      match ifa_name item with
      | NullName => addresses_loop result items
      | NotUtf8 => Err LinuxError.Interface
      | Name n => addresses_loop (update_entry n (update_address item) result) items
      end
  end.

(** The list is freed unless the loop fails. *)
Definition interface_addresses : M (list InterfaceAddress) :=
  raw ← ask Getifaddrs;
  match raw with None => throw LinuxError.Interface | Some raw =>
  result ← lift (addresses_loop [] raw);
  ask Freeifaddrs ;;
  mret result
  end.

Definition has_master_or_virtual_attachment (n : string) : M bool :=
  let base := ("/sys/class/net/" ++ n)%string in
  or_else (or_else (ask (PathExists (base ++ "/master"))) (ask (PathExists (base ++ "/bridge"))))
    (ask (PathExists (base ++ "/bonding"))).

(** ** Topology *)

Fixpoint entries_loop (addresses : list InterfaceAddress) (names : list string) : M unit :=
  match names with
  | [] => mret ()
  | n :: names =>
      match find (λ e, bool_decide (name e = n)) addresses with
      | None => throw LinuxError.Address
      | Some entry =>
          bad ← or_else (mret (loopback entry || negb (up entry) || ipv4 entry || global_ipv6 entry))
                  (has_master_or_virtual_attachment n);
          if bad : bool then throw LinuxError.Address else entries_loop addresses names
      end
  end.

Definition verify_isolated_topology (requested : list string) (compare_pid_one : bool) : M unit :=
  let names := btree_set requested in
  if bool_decide (names = []) || negb (len names =? len requested)
     || existsb (λ n, negb (valid_interface_name n)) names
  then throw LinuxError.Interface else
  same ← (if compare_pid_one then namespace_matches_pid_one else mret false);
  if same : bool then throw LinuxError.Namespace else
  verify_ipv6_disabled names ;;
  verify_no_default_route ;;
  addresses ← interface_addresses;
  if negb (bool_decide ((list_to_set (name <$> addresses) : gset string)
                        = list_to_set ("lo"%string :: names)))
  then throw LinuxError.Interface else
  match find (λ e, bool_decide (name e = "lo"%string)) addresses with
  | None => throw LinuxError.Address
  | Some entry =>
      if negb (loopback entry) || up entry then throw LinuxError.Address else
      entries_loop addresses names
  end.

Definition verify_isolated_namespace (names : list string) : M unit :=
  verify_isolated_topology names true.
Definition verify_isolated_namespace_after_drop (names : list string) : M unit :=
  verify_isolated_topology names false.

(** ** Packet descriptors *)

(** The owned descriptor and what the kernel reported of its interface. *)
Record FilteredDescriptor : Set := mkDescriptor {
  fd : Z;
  ifindex : Z;
  mtu : Z;
  local_mac : bytes;
}.

(** Bytes written over a buffer from [offset] on. *)
Definition overwrite {A} (buffer : list A) (offset : nat) (data : list A) : list A :=
  take offset buffer ++ data ++ drop (offset + length data) buffer.

(** [zip] of the slots of a buffer with the bytes of a source. *)
Definition zip_copy {A} (buffer source : list A) : list A :=
  overwrite buffer 0 (take (length buffer) source).

Definition interface_details (n : string) : M (Z * Z * bytes) :=
  control ← ask (Socket AF_INET (Z.lor SOCK_DGRAM SOCK_CLOEXEC) 0);
  if control <? 0 then throw LinuxError.Socket else
  with_fd control (
    let request := zip_copy (replicate (Z.to_nat IFNAMSIZ) 0) (ascii_bytes n) in
    '(r, ifindex) ← ask (Siocgifindex control request);
    if negb (r =? 0) then throw LinuxError.Interface else
    '(r, mtu) ← ask (Siocgifmtu control request);
    if negb (r =? 0) then throw LinuxError.Interface else
    '(r, hardware) ← ask (Siocgifhwaddr control request);
    if negb (r =? 0) then throw LinuxError.Interface else
    mret (ifindex, mtu, zip_copy (replicate 6 0) hardware)).

Definition set_socket_option (fd level option : Z) (value : sockopt) : M unit :=
  bad ← fails (Setsockopt fd level option value);
  if bad : bool then throw LinuxError.Socket else mret ().

Definition open_filtered_descriptor (n : string) : M FilteredDescriptor :=
  if negb (valid_interface_name n) then throw LinuxError.Interface else
  '(ifindex, mtu, local_mac) ← interface_details n;
  if (ifindex <=? 0) || (mtu <=? 0) then throw LinuxError.Interface else
  let protocol := to_be_u16 ETH_P_R8 in
  raw_fd ← ask (Socket AF_PACKET (Z.lor (Z.lor SOCK_RAW SOCK_NONBLOCK) SOCK_CLOEXEC) protocol);
  if raw_fd <? 0 then throw LinuxError.Socket else
  owned raw_fd (
    bad ← fails (Bind raw_fd (LinkLayer protocol ifindex));
    if bad : bool then throw LinuxError.Socket else
    set_socket_option raw_fd SOL_SOCKET SO_ATTACH_FILTER (OptProgram r8_bpf_program) ;;
    set_socket_option raw_fd SOL_PACKET PACKET_IGNORE_OUTGOING (OptInt 1) ;;
    set_socket_option raw_fd SOL_SOCKET SO_LOCK_FILTER (OptInt 1) ;;
    detach ← ask (Setsockopt raw_fd SOL_SOCKET SO_DETACH_FILTER (OptInt 1));
    bad ← or_else (mret (detach =? 0)) (e ← ask LastOsError; mret (negb (e =? EPERM)));
    if bad : bool then throw LinuxError.Socket else
    mret (mkDescriptor raw_fd ifindex mtu local_mac)).

(** ** Privileges *)

Record PrivilegeSnapshot : Set := mkSnapshot {
  uid : Z;
  gid : Z;
  groups : list Z;
  cap_eff : Z;
  no_new_privs : bool;
}.

Definition validate_privilege_snapshot (snapshot : PrivilegeSnapshot) (u g : Z) :
  outcome LinuxError.t unit :=
  if (u =? 0) || (g =? 0) || negb (uid snapshot =? u) || negb (gid snapshot =? g)
     || negb (bool_decide (groups snapshot = [])) || negb (cap_eff snapshot =? 0)
     || negb (no_new_privs snapshot)
  then Err LinuxError.Privilege else Ok ().

(** Real, effective, saved and file-system ids; effective, permitted, inheritable, ambient and
    bounding capabilities. *)
Record FullPrivilegeSnapshot : Set := mkFull {
  full_uid : list Z;
  full_gid : list Z;
  full_groups : list Z;
  capabilities : list Z;
  full_no_new_privs : bool;
}.

Definition validate_full_privilege_snapshot (snapshot : FullPrivilegeSnapshot) (u g : Z) :
  outcome LinuxError.t unit :=
  if (u =? 0) || (g =? 0) || negb (bool_decide (full_uid snapshot = replicate 4 u))
     || negb (bool_decide (full_gid snapshot = replicate 4 g))
     || negb (bool_decide (full_groups snapshot = []))
     || negb (bool_decide (capabilities snapshot = replicate 5 0))
     || negb (full_no_new_privs snapshot)
  then Err LinuxError.Privilege else Ok ().

Definition capability_names : list string := ["CapEff:"; "CapPrm:"; "CapInh:"; "CapAmb:"; "CapBnd:"].

(** The value of the first line of that name: [find_map], then the parse. *)
Definition status_field (status : text) (prefix : text) : option text :=
  head (omap (str_strip_prefix prefix) (lines status)).

Definition capability (status : text) (n : string) : outcome LinuxError.t Z :=
  ok_or (value ← status_field status (ascii_bytes n ++ [9]);
         from_str_radix 16 u64_max (utf8 (trim value))) LinuxError.Privilege.

Fixpoint capability_loop (status : text) (names : list string) : outcome LinuxError.t (list Z) :=
  match names with
  | [] => Ok []
  | n :: names => v ← capability status n; vs ← capability_loop status names; Ok (v :: vs)
  end.

Definition current_full_privilege_snapshot : M FullPrivilegeSnapshot :=
  '(group_count, _) ← ask (Getgroups 0);
  if group_count <? 0 then throw LinuxError.Privilege else
  let buffer := replicate (Z.to_nat group_count) 0 in
  groups ← (if group_count =? 0 then mret buffer else
            '(r, data) ← ask (Getgroups group_count);
            if negb (r =? group_count) then throw LinuxError.Privilege else
            mret (zip_copy buffer data));
  '(r, (ru, eu, su)) ← ask Getresuid;
  if negb (r =? 0) then throw LinuxError.Privilege else
  '(r, (rg, eg, sg)) ← ask Getresgid;
  if negb (r =? 0) then throw LinuxError.Privilege else
  fu ← ask (Setfsuid u32_max);
  fg ← ask (Setfsgid u32_max);
  status ← ask (ReadToString "/proc/self/status");
  match status with None => throw LinuxError.Privilege | Some status =>
  capabilities ← lift (capability_loop status capability_names);
  no_new_privs ← ask (Prctl PR_GET_NO_NEW_PRIVS 0);
  if no_new_privs <? 0 then throw LinuxError.Privilege else
  mret (mkFull [ru; eu; su; fu] [rg; eg; sg; fg] groups capabilities (no_new_privs =? 1))
  end.

Fixpoint bounding_loop (capabilities : list Z) : M Z :=
  match capabilities with
  | [] => mret 0
  | capability :: capabilities =>
      bad ← fails (Prctl PR_CAPBSET_DROP capability);
      if bad : bool then mret (-1) else bounding_loop capabilities
  end.

Definition drop_bounding_capabilities : M Z :=
  value ← ask (ReadToString "/proc/sys/kernel/cap_last_cap");
  match value ≫= λ v, from_str_radix 10 u64_max (utf8 (trim v)) with
  | None => mret (-1)
  | Some last => bounding_loop (seqZ 0 (last + 1))
  end.

Definition set_nondumpable : M unit :=
  bad ← or_else (fails (Prctl PR_SET_DUMPABLE 0)) (fails (Prctl PR_GET_DUMPABLE 0));
  if bad : bool then throw LinuxError.Privilege else mret ().

Definition drop_privileges (u g : Z) : M unit :=
  if (u =? 0) || (g =? 0) then throw LinuxError.Privilege else
  bad ← or_else (or_else (or_else (r ← drop_bounding_capabilities; mret (negb (r =? 0)))
          (fails (Setgroups []))) (fails (Setresgid g g g))) (fails (Setresuid u u u));
  if bad : bool then throw LinuxError.Privilege else
  bad ← or_else (or_else (fails (Capset CAPSET_VERSION_3 0 (replicate 2 (0, 0, 0))))
          (fails (Prctl PR_CAP_AMBIENT PR_CAP_AMBIENT_CLEAR_ALL)))
          (fails (Prctl PR_SET_NO_NEW_PRIVS 1));
  if bad : bool then throw LinuxError.Privilege else
  set_nondumpable ;;
  snapshot ← current_full_privilege_snapshot;
  lift (validate_full_privilege_snapshot snapshot u g).

(** ** The sealed manifest *)

(** Every pass writes at least one byte, so [length data + 1] passes are enough. *)
Fixpoint write_loop (fuel : nat) (fd : Z) (data : bytes) (offset : nat) : M unit :=
  match fuel with
  | O => lift Panic
  | S fuel =>
      if (length data <=? offset)%nat then mret () else
      written ← ask (Write fd (drop offset data));
      if written <=? 0 then throw LinuxError.Manifest else
      write_loop fuel fd data (offset + Z.to_nat written)
  end.

Definition verify_immutable_manifest (fd : Z) : M unit :=
  seals ← ask (GetSeals fd);
  if (seals <? 0) || negb (Z.land seals REQUIRED_SEALS =? REQUIRED_SEALS)
  then throw LinuxError.Manifest else mret ().

Definition create_immutable_manifest (data : bytes) : M Z :=
  raw_fd ← ask (MemfdCreate "r8-manifest" (Z.lor MFD_CLOEXEC MFD_ALLOW_SEALING));
  if raw_fd <? 0 then throw LinuxError.Manifest else
  owned raw_fd (
    write_loop (S (length data)) raw_fd data 0 ;;
    bad ← or_else (fails (AddSeals raw_fd REQUIRED_SEALS)) (is_err (verify_immutable_manifest raw_fd));
    if bad : bool then throw LinuxError.Manifest else mret raw_fd).

Fixpoint read_loop (fuel : nat) (fd : Z) (buffer : bytes) (offset : nat) : M bytes :=
  match fuel with
  | O => lift Panic
  | S fuel =>
      if (length buffer <=? offset)%nat then mret buffer else
      '(read, data) ← ask (Pread fd (len buffer - Z.of_nat offset) (Z.of_nat offset));
      if read <=? 0 then throw LinuxError.Manifest else
      read_loop fuel fd (overwrite buffer offset data) (offset + Z.to_nat read)
  end.

Definition read_immutable_manifest (fd : Z) : M bytes :=
  verify_immutable_manifest fd ;;
  '(r, length) ← ask (Fstat fd);
  if negb (r =? 0) then throw LinuxError.Manifest else
  if length <? 0 then throw LinuxError.Manifest else
  read_loop (S (Z.to_nat length)) fd (replicate (Z.to_nat length) 0) 0.

End Operations.
