(* ===== verification/Topology.v ===== *)
(** * The isolation of the network namespace

    [verify_isolated_topology] accepts exactly the namespaces that obey the
    declarative isolation rules, stated on what the kernel reports: the file
    contents and the raw list of addresses. *)

From S2P Require Import Prelude Bpf Text Linux.
From stdpp Require Import gmap strings.
#[local] Open Scope Z_scope.

(** ** Routes *)

Definition hex_text (length : Z) (f : text) : Prop :=
  len (utf8 f) = length ∧ Forall (λ b, is_ascii_hexdigit b = true) (utf8 f).
Definition decimal_text (f : text) : Prop := Forall (λ b, is_ascii_digit b = true) (utf8 f).

(** A line that is safe: the header, or a well-formed record that is no default route, unless it
    is flagged as a reject route (bit 9). *)
Definition route_rule (line : text) : Prop :=
  head (split_whitespace line) = Some (ascii_bytes "Iface") ∨
  ∃ iface dest gateway flags refs use metric mask mtu window irtt,
    split_whitespace line = [iface; dest; gateway; flags; refs; use; metric; mask; mtu; window; irtt] ∧
    iface ≠ [] ∧ hex_text 8 dest ∧ hex_text 8 gateway ∧ hex_text 8 mask ∧
    flags ≠ [] ∧ len (utf8 flags) ≤ 8 ∧ Forall (λ b, is_ascii_hexdigit b = true) (utf8 flags) ∧
    Forall decimal_text [refs; use; metric; mtu; window; irtt] ∧
    (dest = zero_field → mask = zero_field →
     ∃ v, from_str_radix 16 u32_max (utf8 flags) = Some v ∧ Z.testbit v 9 = true).

Lemma forallb_Forall {A} (p : A → bool) l : forallb p l = true ↔ Forall (λ x, p x = true) l.
Proof.
  induction l as [|x l IH]; simpl; [by split|]. rewrite andb_true_iff, IH, Forall_cons. done.
Qed.

Lemma is_hex_field_iff f n : is_hex_field f n = true ↔ hex_text n f.
Proof. unfold is_hex_field, hex_text. by rewrite andb_true_iff, Z.eqb_eq, forallb_Forall. Qed.

Lemma route_is_reject_iff f :
  route_is_reject f = true ↔ ∃ v, from_str_radix 16 u32_max (utf8 f) = Some v ∧ Z.testbit v 9 = true.
Proof.
  assert (∀ v, negb (Z.land v 0x0200 =? 0) = true ↔ Z.testbit v 9 = true) as Hbit.
  { intros v. rewrite negb_true_iff, Z.eqb_neq. change 0x0200 with (2 ^ 9).
    rewrite <- (Z.shiftl_1_l 9). split.
    - intros Hne. destruct (Z.testbit v 9) eqn:Ht; [done|]. destruct Hne.
      apply Z.bits_inj'. intros i Hi. rewrite Z.land_spec, Z.bits_0, Z.shiftl_1_l.
      rewrite Z.pow2_bits_eqb by lia. destruct (Z.eqb_spec 9 i) as [<-|]; [by rewrite Ht|].
      apply andb_false_r.
    - intros Ht H0. apply (f_equal (λ x, Z.testbit x 9)) in H0.
      rewrite Z.land_spec, Z.shiftl_1_l, Z.pow2_bits_eqb, Ht in H0 by lia. done. }
  unfold route_is_reject. destruct (from_str_radix _ _ _) as [v|]; [|naive_solver].
  rewrite Hbit. naive_solver.
Qed.

Lemma route_line_safe line : route_line line = None ↔ route_rule line.
Proof.
  unfold route_line, route_rule.
  destruct (bool_decide_reflect (head (split_whitespace line) = Some (ascii_bytes "Iface"))); [naive_solver|].
  destruct (split_whitespace line) as [|f0 [|f1 [|f2 [|f3 [|f4 [|f5 [|f6 [|f7 [|f8 [|f9 [|f10 [|]]]]]]]]]]]];
    try (split; [done|intros [|(?&?&?&?&?&?&?&?&?&?&?&?&_)]; done]).
  set (bad := _ || negb (is_hex_field f7 8)).
  assert (bad = false ↔ f0 ≠ [] ∧ hex_text 8 f1 ∧ hex_text 8 f2 ∧ hex_text 8 f7 ∧
    f3 ≠ [] ∧ len (utf8 f3) ≤ 8 ∧ Forall (λ b, is_ascii_hexdigit b = true) (utf8 f3) ∧
    Forall decimal_text [f4; f5; f6; f8; f9; f10]) as Hbad.
  { unfold bad. rewrite !orb_false_iff, !negb_false_iff, !bool_decide_eq_false, !is_hex_field_iff,
      !forallb_Forall, Z.ltb_ge.
    assert (Forall (λ f, forallb is_ascii_digit (utf8 f) = true) [f4; f5; f6; f8; f9; f10]
            ↔ Forall decimal_text [f4; f5; f6; f8; f9; f10]) as ->
      by (apply Forall_iff; intros; apply forallb_Forall).
    tauto. }
  clearbody bad. split.
  - destruct bad; [done|]. destruct Hbad as [Hok _]. specialize (Hok eq_refl).
    intros Hn. right. exists f0, f1, f2, f3, f4, f5, f6, f7, f8, f9, f10.
    destruct_and! Hok. split_and!; try done. intros -> ->.
    rewrite <- route_is_reject_iff. destruct (route_is_reject f3); [done|].
    by rewrite !bool_decide_true in Hn.
  - intros [|(i & d & g & fl & r & u & me & ma & mt & w & ir & Heq & Hr)]; [done|].
    simplify_eq. destruct_and! Hr. rewrite (proj2 Hbad) by tauto.
    destruct (bool_decide_reflect (d = zero_field)), (bool_decide_reflect (ma = zero_field));
      try done. simpl. by rewrite (proj2 (route_is_reject_iff fl)) by auto.
Qed.

Lemma default_route_safe table :
  has_ipv4_default_route table = false ↔
  Forall (λ line, trim line ≠ [] → route_rule line) (lines table).
Proof.
  unfold has_ipv4_default_route. induction (lines table) as [|line ls IH]; [by split|].
  rewrite Forall_cons, <- IH, filter_cons. clear IH. case_decide as Ht; [|naive_solver].
  simpl. rewrite <- route_line_safe.
  assert (route_line line = None ∨ route_line line = Some true) as [->| ->]; [|naive_solver..].
  unfold route_line. repeat case_match; auto.
Qed.

(** ** Addresses *)

Definition named (n : string) (i : ifaddr) : Prop := ifa_name i = Name n.
#[global] Instance named_dec n i : Decision (named n i).
Proof.
  refine (match ifa_name i as c return ifa_name i = c → Decision (named n i) with
  | Name m => λ H, cast_if (decide (m = n)) | _ => λ H, right _ end eq_refl);
    unfold named; rewrite H; congruence.
Defined.

Definition items (n : string) (raw : list ifaddr) : list ifaddr := filter (named n) raw.
Definition flagged (flag : Z) (i : ifaddr) : bool := negb (Z.land (ifa_flags i) flag =? 0).
Definition entry (n : string) (l : list InterfaceAddress) : option InterfaceAddress :=
  find (λ e, bool_decide (name e = n)) l.
Definition has_inet (i : ifaddr) : bool := match ifa_addr i with Some Inet => true | _ => false end.
Definition has_global_inet6 (i : ifaddr) : bool :=
  match ifa_addr i with Some (Inet6 a) => negb (is_non_global_ipv6 a) | _ => false end.

(** The entry of a name is the union of its items. *)
Definition summary (n : string) (its : list ifaddr) : InterfaceAddress :=
  mkAddress n (existsb (flagged IFF_LOOPBACK) its) (existsb (flagged IFF_UP) its)
    (existsb has_inet its) (existsb has_global_inet6 its).

Lemma entry_update n m f l :
  (∀ e, name (f e) = name e) →
  entry n (update_entry m f l) =
  if bool_decide (n = m) then Some (f (default (mkAddress m false false false false) (entry m l)))
  else entry n l.
Proof.
  intros Hf. unfold entry. induction l as [|e l IH]; simpl.
  - rewrite Hf. simpl. repeat case_bool_decide; congruence.
  - destruct (bool_decide_reflect (name e = m)) as [Hm|Hm]; simpl.
    + rewrite Hf. repeat case_bool_decide; congruence.
    + destruct (bool_decide_reflect (name e = n)) as [Hn|Hn]; [|done].
      by rewrite bool_decide_false by congruence.
Qed.

Lemma update_summary i n its :
  update_address i (summary n its) = summary n (its ++ [i]).
Proof.
  unfold update_address, summary. rewrite !existsb_app. simpl. rewrite !orb_false_r.
  f_equal; unfold has_inet, has_global_inet6; destruct (ifa_addr i) as [[| |]|]; simpl;
    rewrite ?orb_true_r, ?orb_false_r; try done.
  destruct (is_non_global_ipv6 _); simpl; by rewrite ?orb_true_r, ?orb_false_r.
Qed.

Definition summary_of (n : string) (raw : list ifaddr) : option InterfaceAddress :=
  if bool_decide (items n raw = []) then None else Some (summary n (items n raw)).

Lemma addresses_loop_spec raw seen acc :
  (∀ n, entry n acc = summary_of n seen) →
  match addresses_loop acc raw with
  | Ok result => NotUtf8 ∉ ifa_name <$> raw ∧ ∀ n, entry n result = summary_of n (seen ++ raw)
  | Err e => e = LinuxError.Interface ∧ NotUtf8 ∈ ifa_name <$> raw
  | Panic => False
  end.
Proof.
  revert seen acc. induction raw as [|i raw IH]; intros seen acc Hacc; simpl.
  { rewrite app_nil_r. split; [set_solver|done]. }
  assert (∀ acc', (∀ n, entry n acc' = summary_of n (seen ++ [i])) → ifa_name i ≠ NotUtf8 →
    match addresses_loop acc' raw with
    | Ok result => NotUtf8 ∉ ifa_name i :: (ifa_name <$> raw) ∧
                   ∀ n, entry n result = summary_of n (seen ++ i :: raw)
    | Err e => e = LinuxError.Interface ∧ NotUtf8 ∈ ifa_name i :: (ifa_name <$> raw)
    | Panic => False
    end) as Hstep.
  { intros acc' Hacc' Hi. specialize (IH (seen ++ [i]) acc' Hacc').
    rewrite <- (assoc_L (++)) in IH. simpl in IH. destruct (addresses_loop acc' raw); set_solver. }
  assert (∀ n, ¬ named n i → summary_of n (seen ++ [i]) = summary_of n seen) as Hother.
  { intros n Hn. unfold summary_of, items. by rewrite filter_app, filter_cons_False, filter_nil, app_nil_r. }
  destruct (ifa_name i) as [| |m] eqn:Hi; [|split; [done|set_solver]|].
  - apply Hstep; [|done]. intros n. rewrite Hacc, Hother; [done|]. unfold named. congruence.
  - apply Hstep; [|done]. intros n. rewrite entry_update, !Hacc by done.
    destruct (bool_decide_reflect (n = m)) as [->|Hn].
    2: { rewrite Hother; [done|]. unfold named. congruence. }
    unfold summary_of, items. rewrite filter_app, filter_cons_True, filter_nil by done.
    rewrite (bool_decide_false (_ ++ [i] = [])) by (by intros [_ ?]%app_nil).
    rewrite <- update_summary. case_bool_decide as He; [by rewrite He|done].
Qed.

Lemma interface_entries raw :
  match addresses_loop [] raw with
  | Ok result => NotUtf8 ∉ ifa_name <$> raw ∧ ∀ n, entry n result = summary_of n raw
  | Err e => e = LinuxError.Interface ∧ NotUtf8 ∈ ifa_name <$> raw
  | Panic => False
  end.
Proof. by apply (addresses_loop_spec raw [] []). Qed.

Lemma elem_of_entry n l : n ∈ name <$> l ↔ is_Some (entry n l).
Proof.
  unfold entry. induction l as [|e l IH]; simpl; [split; [set_solver|by intros []]|].
  rewrite elem_of_cons. destruct (bool_decide_reflect (name e = n)); [naive_solver|].
  rewrite IH. naive_solver.
Qed.

Lemma summary_of_is_Some n raw : is_Some (summary_of n raw) ↔ items n raw ≠ [].
Proof. unfold summary_of. case_bool_decide; [|naive_solver]. split; [by intros []|done]. Qed.

Lemma existsb_false_Forall {A} (p : A → bool) l : existsb p l = false ↔ Forall (λ x, p x = false) l.
Proof.
  induction l as [|x l IH]; simpl; [by split|]. rewrite orb_false_iff, IH, Forall_cons. done.
Qed.

Lemma existsb_true_Exists {A} (p : A → bool) l : existsb p l = true ↔ Exists (λ x, p x = true) l.
Proof.
  induction l as [|x l IH]; simpl; [split; [done|by intros ?%Exists_nil]|].
  rewrite orb_true_iff, IH, Exists_cons. done.
Qed.

(** ** The rules *)

Section Isolation.
Context {K : Type} `{KC : Kernel K}.
Implicit Types (k : K).

(** What the kernel answers to a call in state [k]. *)
Definition answer {A : Set} (c : call A) k : A := fst (sys c k).

Definition observes {A : Set} (c : call A) : bool :=
  match c with
  | ReadToString _ | Metadata _ | PathExists _ | Getifaddrs | Freeifaddrs => true
  | _ => false
  end.

(** Nothing changes while the checks read. *)
Definition still k : Prop := ∀ (A : Set) (c : call A), observes c = true → snd (sys c k) = k.

Definition attached_to_master (n : string) k : Prop :=
  ∃ kind, kind ∈ ["/master"; "/bridge"; "/bonding"]%string ∧
          answer (PathExists (("/sys/class/net/" ++ n) ++ kind)) k = true.

(** One interface of the allowlist: it is up, not a loopback, has no IPv4 and no global IPv6
    address, and belongs to no bridge or bond. *)
Definition inert (n : string) (its : list ifaddr) k : Prop :=
  Forall (λ i, flagged IFF_LOOPBACK i = false ∧ has_inet i = false ∧ has_global_inet6 i = false) its ∧
  Exists (λ i, flagged IFF_UP i = true) its ∧ ¬ attached_to_master n k.

Definition interfaces_rule (names : list string) k : Prop :=
  ∃ raw, answer Getifaddrs k = Some raw ∧
    NotUtf8 ∉ ifa_name <$> raw ∧
    (∀ n, items n raw ≠ [] ↔ n = "lo"%string ∨ n ∈ names) ∧
    Exists (λ i, flagged IFF_LOOPBACK i = true) (items "lo" raw) ∧
    Forall (λ i, flagged IFF_UP i = false) (items "lo" raw) ∧
    ∀ n, n ∈ names → inert n (items n raw) k.

Definition names_rule (names : list string) : Prop :=
  names ≠ [] ∧ NoDup names ∧ Forall (λ n, valid_interface_name n = true) names.

Definition foreign_namespace k : Prop :=
  ∃ self init, answer (Metadata "/proc/self/ns/net") k = Some self ∧
               answer (Metadata "/proc/1/ns/net") k = Some init ∧ self ≠ init.

Definition ipv6_rule (names : list string) k : Prop :=
  ∀ scope, scope ∈ ["all"; "default"; "lo"]%string ++ names →
    ∃ value, answer (ReadToString (ipv6_path scope)) k = Some value ∧ trim value = ascii_bytes "1".

Definition route_table_rule k : Prop :=
  ∃ table, answer (ReadToString "/proc/net/route") k = Some table ∧
    Forall (λ line, trim line ≠ [] → route_rule line) (lines table).

Definition topology_rules (names : list string) (compare_pid_one : bool) k : Prop :=
  names_rule names ∧ (compare_pid_one = true → foreign_namespace k) ∧
  ipv6_rule names k ∧ route_table_rule k ∧ interfaces_rule names k.

(** *** The checks at a still state *)

Section Still.
Context (k : K) (Hk : still k).

Lemma ask_still {E} {A : Set} (c : call A) : observes c = true → ask (E:=E) c k = (Ok (answer c k), k).
Proof.
  intros Hc. unfold ask, answer. pose proof (Hk A c Hc). destruct (sys c k). simpl in *. by subst.
Qed.

(** A computation that asks first. *)
Lemma bind_ask {E B} {A : Set} (c : call A) (f : A → st K E B) :
  observes c = true → (ask c ≫= f) k = f (answer c k) k.
Proof. intros Hc. unfold mbind, st_bind. by rewrite ask_still. Qed.

(** The checks leave the state as it is, so a sequence of them succeeds when each does. *)
Lemma bind_check {E A B} (m : st K E A) (f : A → st K E B) b :
  snd (m k) = k →
  (m ≫= f) k = (Ok b, k) ↔ ∃ a, m k = (Ok a, k) ∧ f a k = (Ok b, k).
Proof.
  intros Hm. rewrite st_bind_Ok. split; [|naive_solver].
  intros (a & k1 & Ha & Hf). rewrite Ha in Hm. simpl in Hm. subst. eauto.
Qed.

Lemma snd_bind {E A B} (m : st K E A) (f : A → st K E B) :
  snd (m k) = k → (∀ a, snd (f a k) = k) → snd ((m ≫= f) k) = k.
Proof.
  unfold mbind, st_bind. destruct (m k) as [[a| |] k1]; simpl; [|done..]. by intros ->.
Qed.

Lemma snd_ask {E} {A : Set} (c : call A) : observes c = true → snd (ask (E:=E) c k) = k.
Proof. intros. by rewrite ask_still. Qed.

Lemma snd_namespace (b : bool) : snd ((if b then namespace_matches_pid_one else mret false) k) = k.
Proof.
  destruct b; [|done]. apply snd_bind; [by apply snd_ask|intros []; [|done]].
  apply snd_bind; [by apply snd_ask|]. by intros [].
Qed.

Lemma snd_ipv6 scopes : snd (ipv6_disabled_loop scopes k) = k.
Proof.
  induction scopes as [|s scopes IH]; [done|].
  apply snd_bind; [by apply snd_ask|]. intros [v|]; [|done]. by case_match.
Qed.

Lemma snd_route : snd (verify_no_default_route k) = k.
Proof. apply snd_bind; [by apply snd_ask|]. intros [v|]; [|done]. by case_match. Qed.

Lemma namespace_check (b : bool) :
  (if b then namespace_matches_pid_one else mret false) k = (Ok false, k) ↔
  (b = true → foreign_namespace k).
Proof.
  destruct b; [|by split]. unfold namespace_matches_pid_one, foreign_namespace.
  rewrite bind_ask by done. destruct (answer (Metadata "/proc/self/ns/net") k) as [[d i]|];
    [|split; [done|naive_solver]].
  rewrite bind_ask by done. destruct (answer (Metadata "/proc/1/ns/net") k) as [[d' i']|];
    [|split; [done|naive_solver]].
  unfold mret, st_ret. simpl. split.
  - intros Heq _. exists (d, i), (d', i'). split_and!; [done..|]. intros [= -> ->].
    by rewrite !Z.eqb_refl in Heq.
  - intros H. destruct (H eq_refl) as (? & ? & [= <-] & [= <-] & Hne).
    destruct (Z.eqb_spec i i'), (Z.eqb_spec d d'); simpl; congruence.
Qed.

Lemma ipv6_check names : verify_ipv6_disabled names k = (Ok (), k) ↔ ipv6_rule names k.
Proof.
  unfold verify_ipv6_disabled, ipv6_rule. generalize (["all"; "default"; "lo"]%string ++ names) as scopes.
  intros scopes. rewrite <- Forall_forall. induction scopes as [|s scopes IH]; [by split|].
  rewrite Forall_cons, <- IH. simpl ipv6_disabled_loop. rewrite bind_ask by done.
  destruct (answer (ReadToString (ipv6_path s)) k) as [v|]; [|split; [done|naive_solver]].
  change (ascii_bytes "1") with [49]. case_bool_decide; simpl; naive_solver.
Qed.

Lemma route_check : verify_no_default_route k = (Ok (), k) ↔ route_table_rule k.
Proof.
  unfold verify_no_default_route, route_table_rule. rewrite bind_ask by done.
  destruct (answer (ReadToString "/proc/net/route") k) as [t|]; [|split; [done|naive_solver]].
  pose proof (default_route_safe t) as Hs. destruct (has_ipv4_default_route t); naive_solver.
Qed.

Lemma attachment_check n :
  ∃ b, has_master_or_virtual_attachment n k = (Ok b, k) ∧ (b = true ↔ attached_to_master n k).
Proof.
  unfold has_master_or_virtual_attachment, attached_to_master, or_else.
  set (p := ("/sys/class/net/" ++ n)%string).
  exists (answer (PathExists (p ++ "/master")) k || answer (PathExists (p ++ "/bridge")) k
          || answer (PathExists (p ++ "/bonding")) k). split.
  - unfold mbind, st_bind. rewrite !ask_still by done.
    destruct (answer (PathExists (p ++ "/master")) k); [done|]. simpl.
    rewrite !ask_still by done. destruct (answer (PathExists (p ++ "/bridge")) k); [done|]. simpl.
    by rewrite ask_still.
  - rewrite !orb_true_iff. set_solver.
Qed.

Lemma addresses_check :
  interface_addresses k =
  match answer Getifaddrs k with
  | None => (Err LinuxError.Interface, k)
  | Some raw => (addresses_loop [] raw, k)
  end.
Proof.
  unfold interface_addresses. rewrite bind_ask by done.
  destruct (answer Getifaddrs k) as [raw|]; [|done].
  unfold mbind, st_bind, lift. destruct (addresses_loop [] raw); [|done..].
  by rewrite ask_still.
Qed.

Lemma snd_addresses : snd (interface_addresses k) = k.
Proof. rewrite addresses_check. by destruct (answer Getifaddrs k). Qed.

(** The condition on the entry of one interface. *)
Lemma summary_inert n its :
  (loopback (summary n its) || negb (up (summary n its)) || ipv4 (summary n its)
   || global_ipv6 (summary n its) = false ∧ ¬ attached_to_master n k) ↔ inert n its k.
Proof.
  unfold inert. simpl. rewrite !orb_false_iff, negb_false_iff, existsb_true_Exists,
    !existsb_false_Forall, !Forall_and. tauto.
Qed.

Lemma entries_check raw addresses names :
  (∀ n, entry n addresses = summary_of n raw) →
  entries_loop addresses names k = (Ok (), k) ↔
  ∀ n, n ∈ names → items n raw ≠ [] ∧ inert n (items n raw) k.
Proof.
  intros Hent. rewrite <- Forall_forall. induction names as [|n names IH]; [by split|].
  rewrite Forall_cons, <- IH. clear IH. cbn [entries_loop]. fold (entry n addresses).
  rewrite Hent. unfold summary_of. case_bool_decide as Hi; [naive_solver|].
  rewrite <- summary_inert. destruct (attachment_check n) as (b & Hb & Hm).
  rewrite <- Hm. unfold or_else, mbind, st_bind, mret, st_ret.
  destruct (_ || global_ipv6 _); [naive_solver|]. rewrite Hb. destruct b; naive_solver.
Qed.

Lemma names_check requested :
  (bool_decide (btree_set requested = []) || negb (len (btree_set requested) =? len requested)
   || existsb (λ n, negb (valid_interface_name n)) (btree_set requested)) = false ↔
  names_rule requested.
Proof.
  rewrite !orb_false_iff, bool_decide_eq_false, negb_false_iff, Z.eqb_eq, existsb_false_Forall.
  unfold names_rule, len. rewrite Nat2Z.inj_iff, length_btree_set, !Forall_forall.
  setoid_rewrite elem_of_btree_set. setoid_rewrite negb_false_iff.
  assert (btree_set requested = [] ↔ requested = []) as ->; [|tauto].
  pose proof (λ n, elem_of_btree_set n requested) as Hin.
  split; intros Hr; apply elem_of_nil_inv; intros n; [rewrite <- Hin|rewrite Hin]; rewrite Hr;
    apply not_elem_of_nil.
Qed.

(** The interfaces: the set of names, the loopback and each entry. *)
Lemma interfaces_check requested :
  (addresses ← interface_addresses;
   if negb (bool_decide ((list_to_set (name <$> addresses) : gset string)
                         = list_to_set ("lo"%string :: btree_set requested)))
   then throw LinuxError.Interface else
   match find (λ e, bool_decide (name e = "lo"%string)) addresses with
   | None => throw LinuxError.Address
   | Some entry =>
       if negb (loopback entry) || up entry then throw LinuxError.Address else
       entries_loop addresses (btree_set requested)
   end) k = (Ok (), k) ↔ interfaces_rule requested k.
Proof.
  rewrite bind_check by apply snd_addresses.
  rewrite addresses_check. unfold interfaces_rule.
  destruct (answer Getifaddrs k) as [raw|]; [|naive_solver].
  pose proof (interface_entries raw) as Hent.
  destruct (addresses_loop [] raw) as [addresses|e|]; [|naive_solver..].
  destruct Hent as [Hutf Hent].
  assert (((list_to_set (name <$> addresses) : gset string)
           = list_to_set ("lo"%string :: btree_set requested)) ↔
          ∀ n, items n raw ≠ [] ↔ n = "lo"%string ∨ n ∈ requested) as Hset.
  { rewrite set_eq. apply forall_proper. intros n. rewrite !elem_of_list_to_set, elem_of_entry, Hent,
      summary_of_is_Some, elem_of_cons, elem_of_btree_set. done. }
  split.
  - intros (a & [= <-] & Hrun).
    destruct (bool_decide_reflect ((list_to_set (name <$> addresses) : gset string)
                = list_to_set ("lo"%string :: btree_set requested))) as [Heq|]; [|done].
    simpl in Hrun. fold (entry "lo" addresses) in Hrun. rewrite Hent in Hrun.
    unfold summary_of in Hrun. case_bool_decide; [done|].
    destruct (negb (loopback _) || up _) eqn:Hlo; [done|].
    apply orb_false_iff in Hlo as [Hl%negb_false_iff%existsb_true_Exists Hu%existsb_false_Forall].
    rewrite (entries_check raw addresses _ Hent) in Hrun. exists raw. split_and!; try done; [by apply Hset|].
    intros n Hn. apply Hrun. by apply elem_of_btree_set.
  - intros (raw' & [= <-] & _ & Hn & Hl & Hu & Hin). exists addresses. split; [done|].
    rewrite bool_decide_true by by apply Hset. simpl. fold (entry "lo" addresses).
    rewrite Hent. unfold summary_of.
    rewrite bool_decide_false by (apply Hn; by left). simpl.
    apply existsb_true_Exists in Hl. apply existsb_false_Forall in Hu. rewrite Hl, Hu. simpl.
    rewrite (entries_check raw addresses _ Hent). intros n Hn'. rewrite elem_of_btree_set in Hn'.
    split; [|by apply Hin]. apply Hn. by right.
Qed.

End Still.

(** C31: while nothing changes underneath, the topology check accepts exactly the isolated
    namespaces.  The requested names are distinct valid names; the network namespace is not that
    of process 1 (before the privilege drop); IPv6 is disabled everywhere; every line of the route
    table is well formed and none is a default route that is not a reject route; and the
    interfaces are the loopback, which is down, and the requested ones, each up, with no IPv4 and
    no global IPv6 address and no bridge or bond above it. *)
Theorem isolated_topology_iff names compare_pid_one k :
  still k →
  verify_isolated_topology names compare_pid_one k = (Ok (), k) ↔
  topology_rules names compare_pid_one k.
Proof.
  intros Hk. unfold verify_isolated_topology, topology_rules.
  pose proof (names_check names) as Hn. destruct (_ || existsb _ _); [naive_solver|].
  assert (names_rule names) as Hnames by tauto. clear Hn.
  rewrite bind_check by apply snd_namespace, Hk.
  assert (ipv6_rule names k ↔ ipv6_rule (btree_set names) k) as ->.
  { unfold ipv6_rule. setoid_rewrite elem_of_app. by setoid_rewrite elem_of_btree_set. }
  rewrite <- (namespace_check k Hk), <- (ipv6_check k Hk), <- (route_check k Hk),
    <- (interfaces_check k Hk names).
  split.
  - intros (same & Hns & Hrest). destruct same; [done|].
    apply bind_check in Hrest as ([] & ? & Hrest); [|apply snd_ipv6, Hk].
    apply bind_check in Hrest as ([] & ? & Hrest); [|apply snd_route, Hk]. done.
  - intros (_ & Hns & Hv6 & Hr & Hi). exists false. split; [done|].
    apply bind_check; [apply snd_ipv6, Hk|]. exists (). split; [done|].
    apply bind_check; [apply snd_route, Hk|]. by exists ().
Qed.

End Isolation.
