(* ===== verification/LinuxInv.v ===== *)
(** * Descriptors, privileges and the sealed manifest

    What the kernel guarantees, as laws on the part of its state the launcher
    relies on, and what the operations of [Linux.v] establish from them: a
    filtered descriptor keeps the R8 filter, a completed privilege drop leaves
    no privilege of any kind, and the manifest read back from the sealed file is
    the one that was written. *)

From S2P Require Import Prelude Bpf Text Linux.
From stdpp Require Import gmap strings.
#[local] Open Scope Z_scope.

(** ** The observed state *)

(** A memory file: its bytes, the position of the next write and its seals. *)
Record Memfd : Set := mkMemfd { content : bytes; position : nat; seals : Z }.

Record Security : Set := mkSecurity { credentials : FullPrivilegeSnapshot; dumpable : Z }.

Class KernelState (K : Type) := {
  security : K → Security;
  attached : K → Z → option (list sock_filter);
  memfd : K → Z → option Memfd;
}.

(** The calls that change each part. A file-system id of [-1] is refused. *)
Definition changes_security {A : Set} (c : call A) : bool :=
  match c with
  | Setgroups _ | Setresgid _ _ _ | Setresuid _ _ _ | Capset _ _ _ => true
  | Prctl o _ => negb ((o =? PR_GET_NO_NEW_PRIVS) || (o =? PR_GET_DUMPABLE))
  | Setfsuid v | Setfsgid v => negb (v =? u32_max)
  | _ => false
  end.

Definition changes_filter (fd : Z) {A : Set} (c : call A) : bool :=
  match c with
  | Close fd' => fd =? fd'
  | Setsockopt fd' _ o _ => (fd =? fd') && ((o =? SO_ATTACH_FILTER) || (o =? SO_DETACH_FILTER))
  | _ => false
  end.

Definition changes_memfd (fd : Z) {A : Set} (c : call A) : bool :=
  match c with
  | Close fd' | Write fd' _ | AddSeals fd' _ => fd =? fd'
  | _ => false
  end.

(** ** The laws: the documented behaviour of the calls *)

Class KernelLaws (K : Type) `{KC : Kernel K} `{KS : KernelState K} : Prop := {
  (* credentials *)
  security_frame {A : Set} (c : call A) k :
    changes_security c = false → security (snd (sys c k)) = security k;
  getgroups_law n k r l :
    fst (sys (Getgroups n) k) = (r, l) → 0 ≤ r →
    r = len (full_groups (credentials (security k))) ∧
    (n ≠ 0 → l = full_groups (credentials (security k)));
  getresuid_law k u e s :
    fst (sys Getresuid k) = (0, (u, e, s)) →
    ∀ k', security k' = security k →
    full_uid (credentials (security k)) = [u; e; s; fst (sys (Setfsuid u32_max) k')];
  getresgid_law k u e s :
    fst (sys Getresgid k) = (0, (u, e, s)) →
    ∀ k', security k' = security k →
    full_gid (credentials (security k)) = [u; e; s; fst (sys (Setfsgid u32_max) k')];
  status_law k t :
    fst (sys (ReadToString "/proc/self/status") k) = Some t →
    Forall2 (λ n v, 0 ≤ v ≤ u64_max ∧ status_field t (ascii_bytes n ++ [9]) = Some (hex_field 16 v))
      capability_names (capabilities (credentials (security k)));
  no_new_privs_law k :
    0 ≤ fst (sys (Prctl PR_GET_NO_NEW_PRIVS 0) k) →
    (fst (sys (Prctl PR_GET_NO_NEW_PRIVS 0) k) =? 1) = full_no_new_privs (credentials (security k));
  set_dumpable_law v k :
    credentials (security (snd (sys (Prctl PR_SET_DUMPABLE v) k))) = credentials (security k);
  dumpable_law k : fst (sys (Prctl PR_GET_DUMPABLE 0) k) = dumpable (security k);
  (* filters *)
  filter_frame {A : Set} (c : call A) k fd p :
    changes_filter fd c = false → attached k fd = Some p → attached (snd (sys c k)) fd = Some p;
  attach_law fd p k :
    fst (sys (Setsockopt fd SOL_SOCKET SO_ATTACH_FILTER (OptProgram p)) k) = 0 →
    attached (snd (sys (Setsockopt fd SOL_SOCKET SO_ATTACH_FILTER (OptProgram p)) k)) fd = Some p;
  detach_law fd v k p :
    fst (sys (Setsockopt fd SOL_SOCKET SO_DETACH_FILTER v) k) ≠ 0 → attached k fd = Some p →
    attached (snd (sys (Setsockopt fd SOL_SOCKET SO_DETACH_FILTER v) k)) fd = Some p;
  socket_fresh d t p k :
    0 ≤ fst (sys (Socket d t p) k) → attached k (fst (sys (Socket d t p) k)) = None;
  (* memory files *)
  memfd_frame {A : Set} (c : call A) k fd f :
    changes_memfd fd c = false → memfd k fd = Some f → memfd (snd (sys c k)) fd = Some f;
  memfd_create_law n fl k :
    0 ≤ fst (sys (MemfdCreate n fl) k) →
    memfd (snd (sys (MemfdCreate n fl) k)) (fst (sys (MemfdCreate n fl) k)) = Some (mkMemfd [] 0 0);
  write_law fd data k f :
    memfd k fd = Some f → let r := fst (sys (Write fd data) k) in 0 < r →
    (Z.to_nat r ≤ length data)%nat ∧
    memfd (snd (sys (Write fd data) k)) fd =
      Some (mkMemfd (overwrite (content f) (position f) (take (Z.to_nat r) data))
              (position f + Z.to_nat r) (seals f));
  add_seals_law fd s k f :
    memfd k fd = Some f → fst (sys (AddSeals fd s) k) = 0 →
    memfd (snd (sys (AddSeals fd s) k)) fd =
      Some (mkMemfd (content f) (position f) (Z.lor (seals f) s));
  get_seals_law fd k f :
    memfd k fd = Some f → 0 ≤ fst (sys (GetSeals fd) k) → fst (sys (GetSeals fd) k) = seals f;
  fstat_law fd k f n :
    memfd k fd = Some f → fst (sys (Fstat fd) k) = (0, n) → n = len (content f);
  pread_law fd count offset k f r d :
    memfd k fd = Some f → fst (sys (Pread fd count offset) k) = (r, d) → 0 ≤ offset → 0 < r →
    r ≤ count ∧ len d = r ∧ d = take (Z.to_nat r) (drop (Z.to_nat offset) (content f));
}.

(** ** Reasoning about sequences of calls *)

Section Calls.
Context {K : Type} `{KC : Kernel K}.

(** [P] holds after [m] when it holds before, whatever [m] returns. *)
Definition preserves {E A} (P : K → Prop) (m : st K E A) : Prop := ∀ k, P k → P (snd (m k)).

(** [Q] holds of the result and the state when [m] succeeds. *)
Definition ok_post {E A} (m : st K E A) (k : K) (Q : A → K → Prop) : Prop :=
  match m k with (Ok a, k') => Q a k' | _ => True end.

Lemma preserves_ret {E A} P (a : A) : preserves (E:=E) P (mret a).
Proof. by intros ??. Qed.
Lemma preserves_throw {E A} P (e : E) : preserves (A:=A) P (throw e).
Proof. by intros ??. Qed.
Lemma preserves_lift {E A} P (m : outcome E A) : preserves P (lift m).
Proof. by intros ??. Qed.

Lemma preserves_bind {E A B} P (m : st K E A) (f : A → st K E B) :
  preserves P m → (∀ a, preserves P (f a)) → preserves P (m ≫= f).
Proof.
  intros Hm Hf k Hk. specialize (Hm k Hk). unfold mbind, st_bind.
  destruct (m k) as [[a| |] k1]; [by apply Hf|done..].
Qed.

Lemma preserves_ask {E} {A : Set} P (c : call A) :
  (∀ k, P k → P (snd (sys c k))) → preserves (E:=E) P (ask c).
Proof. intros Hc k Hk. specialize (Hc k Hk). unfold ask. by destruct (sys c k). Qed.

Lemma ok_ret {E A} (a : A) k Q : Q a k → ok_post (E:=E) (mret a) k Q.
Proof. done. Qed.
Lemma ok_lift {E A} (m : outcome E A) a k Q : m = Ok a → Q a k → ok_post (lift m) k Q.
Proof. by intros ->. Qed.
Lemma ok_throw {E A} (e : E) k (Q : A → K → Prop) : ok_post (throw e) k Q.
Proof. done. Qed.

Lemma ok_bind {E A B} (m : st K E A) (f : A → st K E B) k Q :
  ok_post m k (λ a k', ok_post (f a) k' Q) → ok_post (m ≫= f) k Q.
Proof. unfold ok_post, mbind, st_bind. by destruct (m k) as [[a| |] k1]. Qed.

Lemma ok_ask {E} {A : Set} (c : call A) k (Q : A → K → Prop) :
  Q (fst (sys c k)) (snd (sys c k)) → ok_post (E:=E) (ask c) k Q.
Proof. unfold ok_post, ask. by destruct (sys c k). Qed.

Lemma ok_mono {E A} (m : st K E A) k (Q Q' : A → K → Prop) :
  ok_post m k Q → (∀ a k', Q a k' → Q' a k') → ok_post m k Q'.
Proof. unfold ok_post. destruct (m k) as [[a| |] k1]; naive_solver. Qed.

Lemma ok_conj {E A} (m : st K E A) k (Q Q' : A → K → Prop) :
  ok_post m k Q → ok_post m k Q' → ok_post m k (λ a k', Q a k' ∧ Q' a k').
Proof. unfold ok_post. by destruct (m k) as [[a| |] k1]. Qed.

Lemma ok_forall {E A X} (m : st K E A) k (Q : X → A → K → Prop) :
  (∀ x, ok_post m k (Q x)) → ok_post m k (λ a k', ∀ x, Q x a k').
Proof. unfold ok_post. by destruct (m k) as [[a| |] k1]. Qed.

(** What is preserved still holds when a later part succeeds. *)
Lemma ok_preserves {E A} P (m : st K E A) k : preserves P m → P k → ok_post m k (λ _ k', P k').
Proof.
  intros Hm Hk. specialize (Hm k Hk). unfold ok_post. by destruct (m k) as [[a| |] k1].
Qed.

Lemma ok_run {E A} (m : st K E A) k Q a k' : ok_post m k Q → m k = (Ok a, k') → Q a k'.
Proof. unfold ok_post. intros HQ Hm. by rewrite Hm in HQ. Qed.

(** A disjunction of failures that comes out false: no call failed. *)
Lemma ok_or_else {E} (a b : st K E bool) k Q :
  ok_post a k (λ x k', if x : bool then Q true k' else ok_post b k' Q) →
  ok_post (or_else a b) k Q.
Proof.
  intros Ha. apply ok_bind. eapply ok_mono; [exact Ha|]. by intros [] k' Hq.
Qed.

Lemma ok_fails {E} (c : call Z) k (Q : bool → K → Prop) :
  Q (negb (fst (sys c k) =? 0)) (snd (sys c k)) → ok_post (E:=E) (fails c) k Q.
Proof. intros. apply ok_bind, ok_ask. done. Qed.
Lemma ok_with_fd {E A} fd (m : st K E A) k Q :
  ok_post m k (λ a k', Q a (snd (sys (Close fd) k'))) → ok_post (with_fd fd m) k Q.
Proof. unfold ok_post, with_fd. by destruct (m k) as [[a| |] k1]. Qed.

Lemma ok_with_err {E E' A} (f : E → E') (m : st K E A) k Q : ok_post m k Q → ok_post (with_err f m) k Q.
Proof. unfold ok_post, with_err. by destruct (m k) as [[a| |] k1]. Qed.

Lemma ok_is_err {E E' A} (m : st K E A) k Q :
  ok_post m k Q → ok_post (E:=E') (is_err m) k (λ b k', b = false → ∃ a, m k = (Ok a, k') ∧ Q a k').
Proof. unfold ok_post, is_err. destruct (m k) as [[a| |] k1]; naive_solver. Qed.

Lemma preserves_with_err {E E' A} P (f : E → E') (m : st K E A) :
  preserves P m → preserves P (with_err f m).
Proof. intros Hm k Hk. specialize (Hm k Hk). unfold with_err. by destruct (m k). Qed.

Lemma preserves_is_err {E E' A} P (m : st K E A) : preserves P m → preserves (E:=E') P (is_err m).
Proof. intros Hm k Hk. specialize (Hm k Hk). unfold is_err. by destruct (m k) as [[a| |] k1]. Qed.

Lemma ok_owned {E A} fd (m : st K E A) k Q : ok_post m k Q → ok_post (owned fd m) k Q.
Proof. unfold ok_post, owned. by destruct (m k) as [[a| |] k1]. Qed.

End Calls.

#[export] Hint Resolve preserves_ret preserves_throw preserves_lift preserves_with_err
  preserves_is_err : kernel.

(** [preserves] of the code, down to its calls. *)
Ltac keeps :=
  repeat match goal with
  | |- preserves _ (_ ≫= _) => apply preserves_bind; [|intros ?]
  | |- preserves _ (or_else _ _) => apply preserves_bind; [|intros []]
  | |- preserves _ (fails _) => apply preserves_bind; [|intros ?]
  | |- preserves _ (if ?b then _ else _) => destruct b
  | |- preserves _ (match ?x with _ => _ end) => destruct x
  | _ => progress auto with kernel
  end.

(** ** The checks only read *)

Definition quiet {A : Set} (c : call A) : bool :=
  match c with
  | ReadToString _ | Metadata _ | PathExists _ | Getifaddrs | Freeifaddrs
  | Recv _ _ false | WouldBlock | LastOsError => true
  | _ => false
  end.

Section Quiet.
Context {K : Type} `{KC : Kernel K} (P : K → Prop).
Hypothesis quiet_keeps : ∀ (A : Set) (c : call A) k, quiet c = true → P k → P (snd (sys c k)).

Lemma preserves_quiet {E} {A : Set} (c : call A) : quiet c = true → preserves (E:=E) P (ask c).
Proof. intros Hc. apply preserves_ask. intros k. by apply quiet_keeps. Qed.

#[local] Hint Extern 1 (preserves _ (ask _)) => by apply preserves_quiet : kernel.

Lemma keeps_ipv6 scopes : preserves P (ipv6_disabled_loop scopes).
Proof. induction scopes; simpl; keeps. Qed.

Lemma keeps_entries addresses names : preserves P (entries_loop addresses names).
Proof.
  induction names as [|n names IH]; simpl; [keeps|]. unfold has_master_or_virtual_attachment. keeps.
Qed.

Lemma keeps_topology names b : preserves P (verify_isolated_topology names b).
Proof.
  unfold verify_isolated_topology, namespace_matches_pid_one, verify_no_default_route,
    interface_addresses.
  pose proof keeps_ipv6. pose proof keeps_entries. unfold verify_ipv6_disabled. keeps.
Qed.
End Quiet.

#[export] Hint Extern 1 (preserves _ (ask _)) =>
  solve [apply preserves_quiet; [assumption|done]] : kernel.

(** ** Calls that use no descriptor *)

Definition no_descriptor {A : Set} (c : call A) : bool :=
  match c with
  | Socket _ _ _ | Close _ | Bind _ _ | Setsockopt _ _ _ _ | MemfdCreate _ _ | Write _ _
  | AddSeals _ _ | Recv _ _ true | SendTo _ _ | Poll _ _ => false
  | _ => true
  end.

Section NoDescriptor.
Context {K : Type} `{KC : Kernel K} (P : K → Prop).
Hypothesis no_descriptor_keeps :
  ∀ (A : Set) (c : call A) k, no_descriptor c = true → P k → P (snd (sys c k)).

Lemma quiet_no_descriptor (A : Set) (c : call A) k : quiet c = true → P k → P (snd (sys c k)).
Proof. intros Hc. apply no_descriptor_keeps. by destruct c. Qed.

Lemma preserves_no_descriptor {E} {A : Set} (c : call A) :
  no_descriptor c = true → preserves (E:=E) P (ask c).
Proof. intros Hc. apply preserves_ask. intros k. by apply no_descriptor_keeps. Qed.

#[local] Hint Extern 1 (preserves _ (ask _)) => by apply preserves_no_descriptor : kernel.

Lemma keeps_bounding capabilities : preserves P (bounding_loop capabilities).
Proof. induction capabilities; simpl; keeps. Qed.

Lemma keeps_nondumpable : preserves P set_nondumpable.
Proof. unfold set_nondumpable. keeps. Qed.

Lemma keeps_drop u g : preserves P (drop_privileges u g).
Proof.
  pose proof keeps_bounding. pose proof keeps_nondumpable.
  unfold drop_privileges, drop_bounding_capabilities, current_full_privilege_snapshot. keeps.
Qed.
End NoDescriptor.

Section Laws.
Context {K : Type} `{KL : KernelLaws K}.

(** ** Privileges *)

Definition has_security (σ : Security) (k : K) : Prop := security k = σ.

Lemma keeps_security {E} {A : Set} (c : call A) σ :
  changes_security c = false → preserves (E:=E) (has_security σ) (ask c).
Proof. intros Hc. apply preserves_ask. unfold has_security. intros k <-. by apply security_frame. Qed.

(** The value of every capability set is read back from its line. *)
Lemma capability_loop_ok t (names : list string) (values : list Z) :
  Forall2 (λ n v, 0 ≤ v ≤ u64_max ∧ status_field t (ascii_bytes n ++ [9]) = Some (hex_field 16 v))
    names values →
  capability_loop t names = Ok values.
Proof.
  induction 1 as [|n v names values [Hv Hf] _ IH]; [done|]. simpl. unfold capability. rewrite Hf.
  cbn [mbind option_bind]. rewrite (parse_hex_field u64_max 14 v) by (unfold_widths; lia).
  cbn [ok_or mbind outcome_bind]. by rewrite IH.
Qed.

(** A call that leaves the credentials alone, then the rest. *)
Lemma ok_read {E B} {A : Set} (c : call A) (f : A → st K E B) k σ Q :
  changes_security c = false → security k = σ →
  (∀ k', security k' = σ → ok_post (f (fst (sys c k))) k' Q) → ok_post (ask c ≫= f) k Q.
Proof.
  intros Hc Hk Hf. apply ok_bind, ok_ask, Hf. rewrite <- Hk. by apply security_frame.
Qed.

Lemma zip_copy_full (buffer source : list Z) :
  length source = length buffer → zip_copy buffer source = source.
Proof.
  intros Hl. unfold zip_copy, overwrite. rewrite take_0, <- Hl, firstn_all. simpl.
  rewrite drop_ge by lia. apply app_nil_r.
Qed.

Lemma groups_read {E} k σ count l (e : E) :
  security k = σ → fst (sys (Getgroups 0) k) = (count, l) → 0 ≤ count →
  ∀ k1, security k1 = σ →
  ok_post (if count =? 0 then mret (replicate (Z.to_nat count) 0) else
           '(r, data) ← ask (Getgroups count);
           if negb (r =? count) then throw e else
           mret (zip_copy (replicate (Z.to_nat count) 0) data)) k1
    (λ g k', g = full_groups (credentials σ) ∧ security k' = σ).
Proof.
  intros <- Hcount Hpos k1 Hk1. destruct (getgroups_law _ _ _ _ Hcount Hpos) as [Hlen _].
  destruct (Z.eqb_spec count 0) as [Hz|Hz].
  - apply ok_ret. split; [|done]. rewrite Hz in *. unfold len in Hlen.
    by destruct (full_groups (credentials (security k))).
  - apply (ok_read _ _ _ (security k)); [done..|]. intros k2 Hk2.
    destruct (fst (sys (Getgroups count) k1)) as [r data] eqn:Hr.
    destruct (Z.eqb_spec r count) as [->|]; [|done]. apply ok_ret. split; [|done].
    destruct (getgroups_law _ _ _ _ Hr Hpos) as [_ Hdata]. rewrite Hk1 in Hdata. rewrite (Hdata Hz).
    apply zip_copy_full. rewrite length_replicate, Hlen. unfold len. by rewrite Nat2Z.id.
Qed.

(** The snapshot is the credentials of the process, which reading leaves alone. *)
Lemma snapshot_reads k :
  ok_post current_full_privilege_snapshot k
    (λ s k', s = credentials (security k) ∧ security k' = security k).
Proof.
  remember (security k) as σ eqn:Hσ. symmetry in Hσ.
  apply (ok_read _ _ _ σ); [done..|]. intros k1 Hk1.
  destruct (fst (sys (Getgroups 0) k)) as [count l] eqn:Hcount.
  destruct (Z.ltb_spec count 0) as [|Hpos]; [done|].
  apply ok_bind. eapply ok_mono; [apply (groups_read k σ count l); done|]. intros groups k2 [-> Hk2]. simpl.
  apply (ok_read _ _ _ σ); [done..|]. intros k3 Hk3.
  destruct (fst (sys Getresuid k2)) as [r [[ru eu] su]] eqn:Hu.
  destruct (Z.eqb_spec r 0) as [->|]; [|done].
  apply (ok_read _ _ _ σ); [done..|]. intros k4 Hk4.
  destruct (fst (sys Getresgid k3)) as [r [[rg eg] sg]] eqn:Hg.
  destruct (Z.eqb_spec r 0) as [->|]; [|done].
  apply (ok_read _ _ _ σ); [done..|]. intros k5 Hk5.
  apply (ok_read _ _ _ σ); [done..|]. intros k6 Hk6.
  apply (ok_read _ _ _ σ); [done..|]. intros k7 Hk7.
  destruct (fst (sys (ReadToString _) k6)) as [t|] eqn:Ht; [|done].
  apply status_law in Ht. rewrite Hk6 in Ht. apply ok_bind, (ok_lift _ _ _ _ (capability_loop_ok _ _ _ Ht)).
  apply (ok_read _ _ _ σ); [done..|]. intros k8 Hk8.
  pose proof (no_new_privs_law k7) as Hn. rewrite Hk7 in Hn.
  destruct (Z.ltb_spec (fst (sys (Prctl PR_GET_NO_NEW_PRIVS 0) k7)) 0); [done|].
  apply ok_ret. rewrite Hn by done. split; [|done].
  rewrite <- (getresuid_law k2 _ _ _ Hu k4), <- (getresgid_law k3 _ _ _ Hg k5) by congruence.
  rewrite Hk2, Hk3. by destruct (credentials σ).
Qed.

Definition clean (u g : Z) : FullPrivilegeSnapshot :=
  mkFull (replicate 4 u) (replicate 4 g) [] (replicate 5 0) true.

Lemma validate_full_iff s u g :
  validate_full_privilege_snapshot s u g = Ok () ↔ u ≠ 0 ∧ g ≠ 0 ∧ s = clean u g.
Proof.
  unfold validate_full_privilege_snapshot, clean.
  destruct (Z.eqb_spec u 0) as [|Hu]; [naive_solver|].
  destruct (Z.eqb_spec g 0) as [|Hg]; [naive_solver|]. destruct s as [su sg gr caps []]; simpl.
  - repeat case_bool_decide; simpl; naive_solver.
  - rewrite orb_true_r. naive_solver.
Qed.

Lemma nondumpable_ok k :
  ok_post set_nondumpable k (λ _ k', security k' = mkSecurity (credentials (security k)) 0).
Proof.
  apply ok_bind, ok_or_else, ok_fails. destruct (fst _ =? 0); [|done]. simpl. set (k1 := snd _).
  apply ok_fails. pose proof (dumpable_law k1) as Hd.
  destruct (Z.eqb_spec (fst (sys (Prctl PR_GET_DUMPABLE 0) k1)) 0) as [H0|]; [|done]. simpl.
  apply ok_ret. rewrite security_frame by done. unfold k1 in *.
  pose proof (set_dumpable_law 0 k). destruct (security (snd (sys _ k))). simpl in *. congruence.
Qed.

Lemma drop_privileges_ok u g k :
  ok_post (drop_privileges u g) k
    (λ _ k', u ≠ 0 ∧ g ≠ 0 ∧ security k' = mkSecurity (clean u g) 0).
Proof.
  unfold drop_privileges. destruct ((u =? 0) || (g =? 0)); [done|].
  apply ok_bind. unfold ok_post at 1. destruct (or_else _ _ k) as [[[]| |] k1]; try done.
  apply ok_bind. unfold ok_post at 1. destruct (or_else _ _ k1) as [[[]| |] k2]; try done.
  apply ok_bind. eapply ok_mono; [apply nondumpable_ok|]. intros [] k3 Hd. simpl in Hd.
  apply ok_bind. eapply ok_mono; [apply snapshot_reads|]. intros s k4 [-> Hs].
  unfold ok_post, lift. destruct (validate_full_privilege_snapshot _ u g) as [[]| |] eqn:Hv; try done.
  apply validate_full_iff in Hv as (? & ? & Hv). split_and!; [done..|].
  rewrite Hs, Hd in *. simpl in Hv. congruence.
Qed.

(** C32: when [drop_privileges] succeeds, the process has no privilege of any kind left: its real,
    effective, saved and file-system ids are the requested ones, which are not root's, it is in
    no supplementary group, all five capability sets are empty, it cannot gain privileges by
    executing a program, and its memory cannot be dumped.  A request for root's id is refused
    before any call. *)
Theorem privileges_dropped u g k :
  (u = 0 ∨ g = 0 → drop_privileges u g k = (Err LinuxError.Privilege, k)) ∧
  ∀ k', drop_privileges u g k = (Ok (), k') →
    u ≠ 0 ∧ g ≠ 0 ∧ security k' = mkSecurity (clean u g) 0.
Proof.
  split.
  - unfold drop_privileges. intros [->| ->]; [done|]. by rewrite orb_true_r.
  - intros k'. apply (ok_run _ _ _ () k' (drop_privileges_ok u g k)).
Qed.

(** ** Filtered descriptors *)

Definition has_filter (fd : Z) (p : list sock_filter) (k : K) : Prop := attached k fd = Some p.

(** The filters of the descriptors in use, other than [fd], are kept. *)
Definition kept_but (fd : Z) (k k' : K) : Prop :=
  ∀ fd0 p, fd0 ≠ fd → has_filter fd0 p k → has_filter fd0 p k'.

Lemma kept_refl fd k : kept_but fd k k.
Proof. by intros ???. Qed.

Lemma kept_trans fd k1 k2 k3 : kept_but fd k1 k2 → kept_but fd k2 k3 → kept_but fd k1 k3.
Proof. intros H12 H23 fd0 p Hne H1. by apply H23, H12. Qed.

Lemma kept_call {A : Set} (c : call A) fd k :
  (∀ fd0, fd0 ≠ fd → changes_filter fd0 c = false) → kept_but fd k (snd (sys c k)).
Proof. intros Hc fd0 p Hne Hk. apply filter_frame; [by apply Hc|done]. Qed.

(** A descriptor the kernel hands out is not one that is in use. *)
Lemma socket_new d t pr k fd0 p :
  0 ≤ fst (sys (Socket d t pr) k) → has_filter fd0 p k → fd0 ≠ fst (sys (Socket d t pr) k).
Proof. intros Hpos Hk ->. apply socket_fresh in Hpos. unfold has_filter in Hk. congruence. Qed.

Lemma details_kept n k :
  ok_post (interface_details n) k (λ _ k', ∀ fd0 p, has_filter fd0 p k → has_filter fd0 p k').
Proof.
  apply ok_bind, ok_ask. set (control := fst _). set (k1 := snd _).
  destruct (Z.ltb_spec control 0) as [|Hpos]; [done|]. apply ok_with_fd.
  assert (∀ k', kept_but control k1 k' → ∀ fd0 p, has_filter fd0 p k →
            has_filter fd0 p (snd (sys (Close control) k'))) as Hclose.
  { intros k' Hk' fd0 p Hp. assert (fd0 ≠ control) as Hne by by eapply socket_new.
    apply filter_frame; [by apply Z.eqb_neq|]. apply Hk'; [done|]. by apply filter_frame. }
  apply ok_bind, ok_ask. destruct (fst (sys (Siocgifindex _ _) _)) as [r i].
  destruct (negb (r =? 0)); [done|].
  apply ok_bind, ok_ask. destruct (fst (sys (Siocgifmtu _ _) _)) as [r' m].
  destruct (negb (r' =? 0)); [done|].
  apply ok_bind, ok_ask. destruct (fst (sys (Siocgifhwaddr _ _) _)) as [r'' h].
  destruct (negb (r'' =? 0)); [done|]. apply ok_ret, Hclose.
  do 2 (eapply kept_trans; [|by apply kept_call]). by apply kept_call.
Qed.

Lemma option_kept fd level o v k :
  ok_post (set_socket_option fd level o v) k (λ _ k', kept_but fd k k').
Proof.
  apply ok_bind, ok_fails. destruct (fst _ =? 0); [|done]. apply ok_ret, kept_call.
  intros fd0 Hne%Z.eqb_neq. simpl. by rewrite Hne.
Qed.

(** Setting an option that is not the filter. *)
Lemma option_filter fd level o v k p :
  has_filter fd p k → (o =? SO_ATTACH_FILTER) || (o =? SO_DETACH_FILTER) = false →
  ok_post (set_socket_option fd level o v) k (λ _ k', has_filter fd p k').
Proof.
  intros Hk Ho. apply ok_bind, ok_fails. destruct (fst _ =? 0); [|done]. apply ok_ret.
  apply filter_frame; [|done]. simpl. by rewrite Ho, andb_false_r.
Qed.

Lemma option_attach fd k :
  ok_post (set_socket_option fd SOL_SOCKET SO_ATTACH_FILTER (OptProgram r8_bpf_program)) k
    (λ _ k', has_filter fd r8_bpf_program k').
Proof.
  apply ok_bind, ok_fails. destruct (Z.eqb_spec (fst (sys (Setsockopt fd SOL_SOCKET SO_ATTACH_FILTER
    (OptProgram r8_bpf_program)) k)) 0); [|done]. apply ok_ret. by apply attach_law.
Qed.

(** The last steps, with the attempt to detach that must be refused. *)
Lemma detach_refused fd k (e : LinuxError.t) (d : FilteredDescriptor) :
  has_filter fd r8_bpf_program k →
  ok_post (detach ← ask (Setsockopt fd SOL_SOCKET SO_DETACH_FILTER (OptInt 1));
           bad ← or_else (mret (detach =? 0)) (x ← ask LastOsError; mret (negb (x =? EPERM)));
           if bad : bool then throw e else mret d) k
    (λ d' k', d' = d ∧ has_filter fd r8_bpf_program k' ∧ kept_but fd k k').
Proof.
  intros Hk. apply ok_bind, ok_ask. apply ok_bind, ok_or_else, ok_ret.
  destruct (Z.eqb_spec (fst (sys (Setsockopt fd SOL_SOCKET SO_DETACH_FILTER (OptInt 1)) k)) 0)
    as [|Hne]; [done|].
  apply ok_bind, ok_ask, ok_ret. destruct (negb _); [done|]. apply ok_ret. split_and!; [done|..].
  - apply filter_frame; [done|]. by apply detach_law.
  - eapply kept_trans; [|by apply kept_call]. apply kept_call. intros fd0 Hfd%Z.eqb_neq. simpl. by rewrite Hfd.
Qed.

(** A descriptor that opens: what the kernel reported of its interface is positive, its socket
    has the filter, it is a new one and the others keep their filters. *)
Lemma descriptor_opened n k :
  ok_post (open_filtered_descriptor n) k
    (λ d k', valid_interface_name n = true ∧ 0 < ifindex d ∧ 0 < mtu d ∧
             has_filter (fd d) r8_bpf_program k' ∧
             ∀ fd0 p, has_filter fd0 p k → fd0 ≠ fd d ∧ has_filter fd0 p k').
Proof.
  unfold open_filtered_descriptor. destruct (valid_interface_name n); [|done].
  apply ok_bind. eapply ok_mono; [apply details_kept|].
  intros [[i m] mac] k1 Hk1. simpl in Hk1.
  destruct (Z.leb_spec i 0); [done|]. destruct (Z.leb_spec m 0); [done|]. simpl.
  apply ok_bind, ok_ask. set (raw := fst _). set (k2 := snd _).
  destruct (Z.ltb_spec raw 0) as [|Hpos]; [done|]. apply ok_owned.
  assert (∀ fd0 p, has_filter fd0 p k → fd0 ≠ raw ∧ has_filter fd0 p k2) as Hk2.
  { intros fd0 p Hp. apply Hk1 in Hp. split; [by eapply socket_new|by apply filter_frame]. }
  apply ok_bind, ok_fails. destruct (fst _ =? 0); [|done]. simpl. set (k3 := snd _).
  assert (kept_but raw k2 k3) as Hk3 by by apply kept_call.
  apply ok_bind. eapply ok_mono; [apply ok_conj; [apply option_attach|apply option_kept]|].
  intros [] k4 [Hf4 Hk4]. apply ok_bind.
  eapply ok_mono; [apply ok_conj; [by apply option_filter|apply option_kept]|].
  intros [] k5 [Hf5 Hk5]. apply ok_bind.
  eapply ok_mono; [apply ok_conj; [by apply option_filter|apply option_kept]|].
  intros [] k6 [Hf6 Hk6]. eapply ok_mono; [by apply detach_refused|].
  intros d k7 (-> & Hf7 & Hk7). split_and!; [done..|]. intros fd0 p Hp.
  destruct (Hk2 fd0 p Hp) as [Hne ?]. split; [done|].
  by apply Hk7, Hk6, Hk5, Hk4, Hk3.
Qed.

(** ** The sealed manifest *)

Definition holds (fd : Z) (f : Memfd) (k : K) : Prop := memfd k fd = Some f.

Lemma overwrite_end {A} (buffer data : list A) : overwrite buffer (length buffer) data = buffer ++ data.
Proof.
  unfold overwrite. rewrite firstn_all, drop_ge by lia. by rewrite app_nil_r.
Qed.

(** [offset] bytes are written: the loop ends with all of them, within its fuel. *)
Lemma write_loop_writes fd data sl fuel offset k :
  (length data - offset < fuel)%nat → (offset ≤ length data)%nat →
  holds fd (mkMemfd (take offset data) offset sl) k →
  safe (fst (write_loop fuel fd data offset k)) ∧
  ok_post (write_loop fuel fd data offset) k
    (λ _ k', holds fd (mkMemfd data (length data) sl) k').
Proof.
  revert offset k. induction fuel as [|fuel IH]; intros offset k Hf Ho Hk; [lia|]. simpl.
  destruct (Nat.leb_spec (length data) offset) as [Hl|Hl].
  { split; [done|]. apply ok_ret. rewrite take_ge in Hk by lia. by replace (length data) with offset by lia. }
  unfold ok_post, mbind, st_bind, ask.
  pose proof (write_law fd (drop offset data) k _ Hk) as Hw. simpl in Hw.
  destruct (sys (Write fd (drop offset data)) k) as [r k1]. simpl in Hw.
  destruct (Z.leb_spec r 0) as [|Hr]; [done|]. destruct (Hw Hr) as [Hn Hk1].
  rewrite length_drop in Hn. apply IH; [lia..|]. unfold holds. rewrite Hk1. do 2 f_equal.
  assert (length (take offset data) = offset) as Hlen by (rewrite length_take; lia).
  rewrite <- Hlen at 2. rewrite overwrite_end, take_take_drop. done.
Qed.

Lemma verify_seals fd f k :
  holds fd f k →
  safe (fst (verify_immutable_manifest fd k)) ∧
  ok_post (verify_immutable_manifest fd) k
    (λ _ k', Z.land (seals f) REQUIRED_SEALS = REQUIRED_SEALS ∧ holds fd f k').
Proof.
  intros Hk. unfold verify_immutable_manifest, ok_post, mbind, st_bind, ask.
  pose proof (get_seals_law fd k f Hk) as Hs. pose proof (memfd_frame (GetSeals fd) k fd f eq_refl Hk) as Hk'.
  destruct (sys (GetSeals fd) k) as [s k1]. simpl in *.
  destruct (Z.ltb_spec s 0); [done|]. rewrite <- Hs by done.
  by destruct (Z.eqb_spec (Z.land s REQUIRED_SEALS) REQUIRED_SEALS).
Qed.

(** [offset] bytes are read: the loop ends with the content, within its fuel. *)
Lemma read_loop_reads fd f fuel offset buffer k :
  (length buffer - offset < fuel)%nat → (offset ≤ length buffer)%nat →
  length buffer = length (content f) → take offset buffer = take offset (content f) →
  holds fd f k →
  safe (fst (read_loop fuel fd buffer offset k)) ∧
  ok_post (read_loop fuel fd buffer offset) k (λ d k', d = content f ∧ holds fd f k').
Proof.
  revert offset buffer k. induction fuel as [|fuel IH]; intros offset buffer k Hf Ho Hlen Hpre Hk; [lia|].
  simpl. destruct (Nat.leb_spec (length buffer) offset) as [Hl|Hl].
  { split; [done|]. apply ok_ret. split; [|done]. by rewrite !take_ge in Hpre by lia. }
  unfold ok_post, mbind, st_bind, ask.
  pose proof (λ r d, pread_law fd (len buffer - Z.of_nat offset) (Z.of_nat offset) k f r d Hk) as Hr.
  pose proof (memfd_frame (Pread fd (len buffer - Z.of_nat offset) (Z.of_nat offset)) k fd f eq_refl Hk) as Hk'.
  destruct (sys (Pread fd _ _) k) as [[r d] k1]. simpl in *. specialize (Hr r d eq_refl).
  destruct (Z.leb_spec r 0) as [|Hpos]; [done|]. destruct Hr as (Hcount & Hd & Heq); [lia..|].
  rewrite Nat2Z.id in Heq. unfold len in Hcount, Hd.
  assert (length (overwrite buffer offset d) = length buffer) as Hlen'.
  { unfold overwrite. rewrite !length_app, length_take, length_drop. lia. }
  apply IH; [lia..|congruence| |done].
  unfold overwrite. rewrite app_assoc, take_app_le by (rewrite length_app, length_take; lia).
  rewrite take_ge by (rewrite length_app, length_take; lia).
  rewrite Hpre, Heq. apply take_take_drop.
Qed.

(** Safety and post-condition together, through a sequence. *)
Definition runs {E A} (m : st K E A) (k : K) (Q : A → K → Prop) : Prop :=
  safe (fst (m k)) ∧ ok_post m k Q.

Lemma runs_bind {E A B} (m : st K E A) (f : A → st K E B) k Q :
  runs m k (λ a k', runs (f a) k' Q) → runs (m ≫= f) k Q.
Proof.
  unfold runs, ok_post, safe, mbind, st_bind. destruct (m k) as [[a| |] k1]; naive_solver.
Qed.

Lemma runs_ask {E} {A : Set} (c : call A) k (Q : A → K → Prop) :
  Q (fst (sys c k)) (snd (sys c k)) → runs (E:=E) (ask c) k Q.
Proof. intros HQ. split; [|by apply ok_ask]. unfold ask. by destruct (sys c k). Qed.

Lemma runs_mono {E A} (m : st K E A) k (Q Q' : A → K → Prop) :
  runs m k Q → (∀ a k', Q a k' → Q' a k') → runs m k Q'.
Proof. intros [??] ?. split; [done|]. by eapply ok_mono. Qed.

Lemma runs_is_err {E E' A} (m : st K E A) k Q :
  runs m k Q → runs (E:=E') (is_err m) k (λ b k', if b then True else ∃ a, Q a k').
Proof. unfold runs, ok_post, safe, is_err. destruct (m k) as [[a| |] k1]; naive_solver. Qed.

Lemma runs_owned {E A} fd (m : st K E A) k Q : runs m k Q → runs (owned fd m) k Q.
Proof. unfold runs, ok_post, safe, owned. destruct (m k) as [[a| |] k1]; naive_solver. Qed.

Definition sealed (f : Memfd) : Prop := Z.land (seals f) REQUIRED_SEALS = REQUIRED_SEALS.

Lemma create_runs data k :
  runs (create_immutable_manifest data) k (λ fd k', ∃ f, holds fd f k' ∧ content f = data ∧ sealed f).
Proof.
  apply runs_bind, runs_ask. set (fd := fst _). set (k1 := snd _).
  destruct (Z.ltb_spec fd 0) as [|Hfd]; [done|]. apply runs_owned, runs_bind.
  eapply runs_mono; [apply (write_loop_writes fd data 0); [lia..|by apply memfd_create_law]|].
  intros [] k2 Hk2. apply runs_bind, runs_bind, runs_bind, runs_ask.
  set (r := fst _). set (k3 := snd _).
  destruct (Z.eqb_spec r 0) as [Hr|]; [|done]. split; [done|]. apply ok_ret. simpl.
  pose proof (add_seals_law fd REQUIRED_SEALS k2 _ Hk2 Hr) as Hk3.
  eapply runs_mono; [apply runs_is_err, (verify_seals fd _ k3 Hk3)|].
  intros [] k4 Hk4; [done|]. destruct Hk4 as (_ & Hs & Hk4). split; [done|].
  apply ok_ret. by eexists.
Qed.

Lemma read_runs fd f k :
  holds fd f k → runs (read_immutable_manifest fd) k (λ d k', d = content f ∧ holds fd f k').
Proof.
  intros Hk. apply runs_bind. eapply runs_mono; [apply (verify_seals fd f k Hk)|].
  intros [] k1 [_ Hk1]. apply runs_bind, runs_ask.
  pose proof (fstat_law fd k1 f) as Hn. destruct (fst (sys (Fstat fd) k1)) as [r n].
  destruct (Z.eqb_spec r 0) as [->|]; [|done]. rewrite (Hn n Hk1 eq_refl). cbn [negb].
  assert (len (content f) <? 0 = false) as -> by (pose proof (len_nonneg (content f)); lia).
  unfold len. rewrite Nat2Z.id.
  apply read_loop_reads; rewrite ?length_replicate; try lia; [by rewrite !take_0|].
  by apply memfd_frame.
Qed.

(** C35: the manifest that is read back from the sealed file is the one that was written.  Both
    loops end, whatever lengths the kernel's writes and reads have; when the file is created it
    holds exactly the bytes given and has every required seal; and reading it returns these
    bytes, whatever its position, and leaves it unchanged. *)
Theorem manifest_sealed data k :
  safe (fst (create_immutable_manifest data k)) ∧
  ∀ fd k1, create_immutable_manifest data k = (Ok fd, k1) →
    ∃ f, holds fd f k1 ∧ content f = data ∧
         sealed f ∧
         ∀ f' k2, holds fd f' k2 → content f' = content f →
           safe (fst (read_immutable_manifest fd k2)) ∧
           ∀ d k3, read_immutable_manifest fd k2 = (Ok d, k3) → d = data ∧ holds fd f' k3.
Proof.
  destruct (create_runs data k) as [Hsafe Hok]. split; [done|].
  intros fd k1 Hrun. destruct (ok_run _ _ _ _ _ Hok Hrun) as (f & Hf & Hc & Hs).
  exists f. split_and!; [done..|]. intros f' k2 Hk2 Hc'.
  destruct (read_runs fd f' k2 Hk2) as [Hsafe' Hok']. split; [done|].
  intros d k3 Hrun'. destruct (ok_run _ _ _ _ _ Hok' Hrun') as [-> ?]. split; [congruence|done].
Qed.

End Laws.
