(* ===== verification/Launcher.v ===== *)
(** * The native launcher (src/rust/crates/r8d/src/bin/r8-native.rs)

    The argument parser, the startup sequence up to readiness, and the traits'
    implementations over the kernel's descriptors.  The theorem: a launcher
    that reports readiness runs a runtime for the validated manifest, holds one
    filtered descriptor per interface, and has verified the isolation of its
    namespace after it lost every privilege.  What it prints is not modelled. *)

From S2P Require Import Prelude Wire Checksum Codec Crypto SessionMsg Replay SessionCrypto Directional Manifest Forward Native Bpf Text Linux Topology LinuxInv.
From stdpp Require Import gmap strings.
#[local] Open Scope Z_scope.

(** ** Arguments *)

Record Args : Set := mkArgs {
  arg_manifest : string;
  arg_interfaces : list string;
  arg_uid : Z;
  arg_gid : Z;
}.

(** [str::parse::<u32>], refusing 0. *)
Definition nonzero_id (what value : string) : outcome string Z :=
  id ← ok_or (from_str_radix 10 u32_max (ascii_bytes value)) what;
  if id =? 0 then Err what else Ok id.

Fixpoint arguments_loop (manifest : option string) (interfaces : list string) (uid gid : option Z)
    (args : list string) : outcome string Args :=
  match args with
  | [] =>
      manifest ← ok_or manifest "manifest"%string;
      if bool_decide (interfaces = []) then Err "interface"%string else
      uid ← ok_or uid "uid"%string;
      gid ← ok_or gid "gid"%string;
      Ok (mkArgs manifest interfaces uid gid)
  | flag :: args =>
      if bool_decide (flag = "--manifest"%string) && bool_decide (manifest = None) then
        match args with
        | [] => Err "manifest"%string
        | value :: args => arguments_loop (Some value) interfaces uid gid args
        end
      else if bool_decide (flag = "--interface"%string) then
        match args with
        | [] => Err "interface"%string
        | value :: args =>
            if bool_decide (value = ""%string) || bool_decide (value ∈ interfaces)
            then Err "interface"%string
            else arguments_loop manifest (interfaces ++ [value]) uid gid args
        end
      else if bool_decide (flag = "--uid"%string) && bool_decide (uid = None) then
        match args with
        | [] => Err "uid"%string
        | value :: args =>
            id ← nonzero_id "uid" value; arguments_loop manifest interfaces (Some id) gid args
        end
      else if bool_decide (flag = "--gid"%string) && bool_decide (gid = None) then
        match args with
        | [] => Err "gid"%string
        | value :: args =>
            id ← nonzero_id "gid" value; arguments_loop manifest interfaces uid (Some id) args
        end
      else Err "arguments"%string
  end.

Definition arguments (args : list string) : outcome string Args :=
  arguments_loop None [] None None args.

(** The errors [main] returns. *)
Inductive LauncherError : Set :=
| Message (text : string)
| FromManifest (error : ManifestError.t)
| FromLinux (error : LinuxError.t)
| FromBudget (error : DescriptorBudgetError.t)
| FromNative (error : NativeError.t).

Section Launcher.
Context {K : Type} `{KC : Kernel K} {J : Type} `{JD : JsonDecoder J}.

(** ** The traits over descriptors *)

Definition LinuxIo : Set := list (Z * Z).

Definition descriptor_of {E} (e : E) (fds : LinuxIo) (id : Z) : outcome E Z :=
  ok_or (snd <$> find (λ entry, fst entry =? id) fds) e.

Definition linux_receive (fds : LinuxIo) (id : Z) (buffer : bytes) :
  st K NativeError.t (option Z * bytes) :=
  fd ← lift (descriptor_of NativeError.Invariant fds id);
  '(n, data) ← ask (Recv fd (len buffer) true);
  if 0 <=? n then mret (Some n, zip_copy buffer data) else
  blocked ← ask WouldBlock;
  if blocked : bool then mret (None, buffer) else throw NativeError.Receive.

Definition linux_send (fds : LinuxIo) (id : Z) (frame : bytes) : st K NativeError.t Z :=
  fd ← lift (descriptor_of NativeError.Invariant fds id);
  n ← ask (SendTo fd frame);
  if n <? 0 then throw NativeError.Send else mret n.

Definition monotonic_now : st K NativeError.t unit :=
  r ← ask ClockGettime;
  if r =? 0 then mret () else throw NativeError.Invariant.

Record Watch : Set := mkWatch { watch_fd : Z; watch_names : list string }.

Definition watch_event (w : Watch) : st K NativeError.t bool :=
  '(n, _) ← ask (Recv (watch_fd w) 1 false);
  if 0 <=? n then
    with_err (λ _, NativeError.Revoked) (verify_isolated_namespace (watch_names w)) ;;
    mret true
  else
    blocked ← ask WouldBlock;
    if blocked : bool then mret false else throw NativeError.Revoked.

Definition reject_pending (w : Watch) : st K NativeError.t unit :=
  pending ← watch_event w;
  if pending : bool then throw NativeError.Revoked else mret ().

Definition NETLINK_ROUTE : Z := 0.
Definition WATCHED_GROUPS : Z := Z.lor (Z.lor (Z.lor (Z.lor 1 0x10) 0x100) 0x40) 0x400.

Definition route_watch (names : list string) : st K NativeError.t Watch :=
  raw ← ask (Socket AF_NETLINK (Z.lor (Z.lor SOCK_RAW SOCK_NONBLOCK) SOCK_CLOEXEC) NETLINK_ROUTE);
  if raw <? 0 then throw NativeError.Invariant else
  owned raw (
    bad ← fails (Bind raw (NetlinkGroups WATCHED_GROUPS));
    if bad : bool then throw NativeError.Invariant else mret (mkWatch raw names)).

(** ** Startup *)

(** Run [m] with the owners of several descriptors, which are dropped in order when it fails. *)
Fixpoint close_all (fds : list Z) (k : K) : K :=
  match fds with [] => k | fd :: fds => close_all fds (snd (sys (Close fd) k)) end.
Definition owned_all {E A} (fds : list Z) (m : st K E A) : st K E A := λ k,
  match m k with
  | (Ok a, k') => (Ok a, k')
  | (e, k') => (e, close_all fds k')
  end.

(** One descriptor per interface; the open ones are dropped when one fails. *)
Fixpoint open_loop (records : list (Z * bytes)) (budgets : list (Z * Z)) (fds : LinuxIo)
    (interfaces : list Interface) : st K LauncherError (list (Z * bytes) * list (Z * Z) * LinuxIo) :=
  match interfaces with
  | [] => mret (records, budgets, fds)
  | interface :: interfaces =>
      descriptor ← owned_all (snd <$> fds)
        (with_err FromLinux (open_filtered_descriptor (interface_name interface)));
      open_loop (records ++ [(descriptor_id interface, local_mac descriptor)])
        (budgets ++ [(descriptor_id interface, Z.min 1280 (mtu descriptor))])
        (fds ++ [(descriptor_id interface, fd descriptor)])
        interfaces
  end.

(** The manifest, through the sealed file. *)
Definition sealed_manifest (raw : bytes) (interfaces : list string) :
  st K LauncherError NativeManifest :=
  sealed ← with_err FromLinux (create_immutable_manifest raw);
  with_fd sealed (
    data ← with_err FromLinux (read_immutable_manifest sealed);
    lift (map_err FromManifest (validate_manifest_json data interfaces))).

Record Ready : Set := mkReady { runtime : NativeRuntime; ready_io : LinuxIo; ready_watch : Watch }.

(** From the second isolation check to readiness, with the descriptors open. *)
Definition ready_phase (a : Args) (m : NativeManifest) (w : Watch) (records : list (Z * bytes))
    (budgets : list (Z * Z)) (fds : LinuxIo) : st K LauncherError Ready :=
  budgets ← lift (map_err FromBudget (budgets_new m budgets));
  revoked ← or_else (is_err (reject_pending w)) (is_err (verify_isolated_namespace (arg_interfaces a)));
  if revoked : bool then throw (Message "startup isolation revoked") else
  with_err FromLinux (drop_privileges (arg_uid a) (arg_gid a)) ;;
  with_err FromLinux set_nondumpable ;;
  rt ← lift (map_err FromNative (runtime_new m budgets records));
  revoked ← is_err (reject_pending w);
  if revoked : bool then throw (Message "readiness isolation revoked") else
  revoked ← is_err (verify_isolated_namespace_after_drop (arg_interfaces a));
  if revoked : bool then throw (Message "readiness isolation revoked") else
  mret (mkReady rt fds w).

(** [main] up to the loop. *)
Definition launch (args : list string) : st K LauncherError Ready :=
  a ← lift (map_err (λ _, Message "r8-native arguments rejected") (arguments args));
  raw ← ask (ReadFile (arg_manifest a));
  match raw with None => throw (Message "manifest rejected") | Some raw =>
  m ← sealed_manifest raw (arg_interfaces a);
  if negb (bool_decide (local_locs m = [])) || existsb local_delivery (interfaces m)
  then throw (Message "manifest local delivery rejected") else
  if negb (bool_decide ((list_to_set (interface_name <$> interfaces m) : gset string)
                        = list_to_set (arg_interfaces a)))
  then throw (Message "manifest allowlist rejected") else
  w ← with_err FromNative (route_watch (arg_interfaces a));
  owned (watch_fd w) (
    with_err FromLinux (verify_isolated_namespace (arg_interfaces a)) ;;
    '(records, budgets, fds) ← open_loop [] [] [] (interfaces m);
    owned_all (snd <$> fds) (ready_phase a m w records budgets fds))
  end.

End Launcher.

(** ** Readiness *)

Section Readiness.
Context {K : Type} `{KL : KernelLaws K} {J : Type} `{JD : JsonDecoder J}.

(** The descriptors are distinct and have the R8 filter. *)
Definition filtered (fds : LinuxIo) (k : K) : Prop :=
  NoDup (snd <$> fds) ∧ Forall (λ entry, has_filter (snd entry) r8_bpf_program k) fds.

Lemma filtered_frame (A : Set) (c : call A) fds k :
  no_descriptor c = true → filtered fds k → filtered fds (snd (sys c k)).
Proof.
  intros Hc [Hn Hf]. split; [done|]. eapply Forall_impl; [exact Hf|]. intros e He.
  apply filter_frame; [|done]. by destruct c.
Qed.

Lemma ok_owned_all {E A} fds (m : st K E A) k Q : ok_post m k Q → ok_post (owned_all fds m) k Q.
Proof. unfold ok_post, owned_all. by destruct (m k) as [[a| |] k1]. Qed.

Lemma open_loop_ok records budgets fds ifs k :
  filtered fds k → fst <$> records = fst <$> fds →
  ok_post (open_loop records budgets fds ifs) k (λ '(records', budgets', fds') k',
    filtered fds' k' ∧ fst <$> records' = fst <$> fds' ∧
    fst <$> fds' = (fst <$> fds) ++ (descriptor_id <$> ifs)).
Proof.
  revert records budgets fds k. induction ifs as [|i ifs IH]; intros records budgets fds k [Hn Hf] Hr.
  { apply ok_ret. rewrite app_nil_r. done. }
  apply ok_bind, ok_owned_all, ok_with_err. eapply ok_mono; [apply descriptor_opened|].
  intros d k1 (_ & _ & _ & Hd & Hk1). eapply ok_mono; [apply IH|].
  - split.
    + rewrite fmap_app. apply NoDup_app. split_and!; [done| |apply NoDup_singleton].
      intros x Hx Hd'%list_elem_of_singleton. subst x.
      apply list_elem_of_fmap in Hx as (e & Heq & He). rewrite Forall_forall in Hf.
      by destruct (Hk1 _ _ (Hf e He)).
    + apply Forall_app. split; [|by constructor]. eapply Forall_impl; [exact Hf|].
      intros e He. by apply Hk1.
  - by rewrite !fmap_app, Hr.
  - intros [[r b] f] k2 (Hf2 & Hr2 & Hids). split_and!; [done..|].
    rewrite Hids, fmap_app. simpl. by rewrite <- (assoc_L (++)).
Qed.

Lemma keeps_watch (P : K → Prop) w :
  (∀ (A : Set) (c : call A) k, quiet c = true → P k → P (snd (sys c k))) →
  preserves P (reject_pending w).
Proof.
  intros HP. unfold reject_pending, watch_event.
  pose proof (keeps_topology P HP) as Ht. unfold verify_isolated_namespace. keeps.
Qed.

(** From the second check to readiness. *)
Lemma ready_phase_ok a m w records budgets fds k :
  filtered fds k →
  ok_post (ready_phase a m w records budgets fds) k (λ r k',
    (∃ b, runtime_new m b records = Ok (runtime r)) ∧ ready_io r = fds ∧
    filtered fds k' ∧ arg_uid a ≠ 0 ∧ arg_gid a ≠ 0 ∧
    security k' = mkSecurity (clean (arg_uid a) (arg_gid a)) 0 ∧
    ∃ k1, verify_isolated_namespace_after_drop (arg_interfaces a) k1 = (Ok (), k') ∧
          security k1 = security k').
Proof.
  intros Hfds. unfold ready_phase.
  assert (∀ (A : Set) (c : call A) k, quiet c = true → filtered fds k → filtered fds (snd (sys c k)))
    as Hquiet by (intros A c ? Hc; apply filtered_frame; by destruct c).
  pose proof (keeps_watch _ w Hquiet) as Hwatch. pose proof (keeps_topology _ Hquiet) as Htop.
  apply ok_bind. destruct (budgets_new m budgets) as [b| |]; [|done..]. apply ok_ret.
  apply ok_bind. eapply ok_mono.
  { apply ok_preserves; [|exact Hfds]. unfold verify_isolated_namespace. keeps. }
  intros [] k1 Hk1; [done|]. simpl in Hk1. apply ok_bind, ok_with_err.
  eapply ok_mono; [apply ok_conj; [apply drop_privileges_ok|apply ok_preserves; [|exact Hk1]]|].
  { apply keeps_drop. intros ????. by apply filtered_frame. }
  intros [] k2 [(Hu & Hg & Hs2) Hk2]. simpl in *. apply ok_bind, ok_with_err.
  eapply ok_mono; [apply ok_conj; [apply nondumpable_ok|apply ok_preserves; [|exact Hk2]]|].
  { apply keeps_nondumpable. intros ????. by apply filtered_frame. }
  intros [] k3 [Hs3 Hk3]. simpl in *. rewrite Hs2 in Hs3. simpl in Hs3. apply ok_bind.
  destruct (runtime_new m b records) as [rt| |] eqn:Hrt; [|done..]. apply ok_ret.
  set (σ := mkSecurity _ 0) in *.
  set (P := λ k, filtered fds k ∧ security k = σ).
  assert (∀ (A : Set) (c : call A) k, quiet c = true → P k → P (snd (sys c k))) as HP.
  { intros A c k' Hc [Hf Hk']. split; [by apply Hquiet|].
    rewrite security_frame; [done|]. by destruct c. }
  apply ok_bind. eapply ok_mono.
  { apply (ok_preserves P); [|by split]. by apply preserves_is_err, keeps_watch. }
  intros [] k4 Hk4; [done|]. apply ok_bind. eapply ok_mono.
  { apply ok_is_err, (ok_preserves P); [|exact Hk4]. apply (keeps_topology P HP). }
  intros [] k5 Hk5; [done|]. destruct (Hk5 eq_refl) as ([] & Hv & Hf5 & Hs5).
  apply ok_ret. split_and!; [by eexists|done..|]. exists k4. split; [done|].
  destruct Hk4 as [_ ->]. done.
Qed.

(** The manifest that comes out of the sealed file is that of the file on disk. *)
Lemma sealed_manifest_ok raw names k :
  ok_post (sealed_manifest raw names) k
    (λ m _, validate_manifest_json raw names = Ok m).
Proof.
  apply ok_bind, ok_with_err. eapply ok_mono; [apply (create_runs raw k)|].
  intros fd k1 (f & Hf & <- & _). simpl. apply ok_with_fd, ok_bind, ok_with_err.
  eapply ok_mono; [apply (read_runs fd f k1 Hf)|]. intros d k2 [-> _]. simpl.
  unfold ok_post, lift. by destruct (validate_manifest_json (content f) names).
Qed.

Lemma launch_ok args k :
  ok_post (launch args) k (λ r k',
  ∃ a raw m records budgets,
    arguments args = Ok a ∧ fst (sys (ReadFile (arg_manifest a)) k) = Some raw ∧
    validate_manifest_json raw (arg_interfaces a) = Ok m ∧
    local_locs m = [] ∧ existsb local_delivery (interfaces m) = false ∧
    (∀ n, n ∈ interface_name <$> interfaces m ↔ n ∈ arg_interfaces a) ∧
    runtime_new m budgets records = Ok (runtime r) ∧ fst <$> records = fst <$> ready_io r ∧
    fst <$> ready_io r = descriptor_id <$> interfaces m ∧ filtered (ready_io r) k' ∧
    arg_uid a ≠ 0 ∧ arg_gid a ≠ 0 ∧
    security k' = mkSecurity (clean (arg_uid a) (arg_gid a)) 0 ∧
    ∃ k1, security k1 = security k' ∧
      verify_isolated_namespace_after_drop (arg_interfaces a) k1 = (Ok (), k')).
Proof.
  unfold launch.
  destruct (arguments args) as [a| |] eqn:Hargs; [|done..]. apply ok_bind, ok_ret.
  apply ok_bind, ok_ask. destruct (fst (sys (ReadFile (arg_manifest a)) k)) as [raw|] eqn:Hraw; [|done].
  set (k1 := snd _). apply ok_bind. eapply ok_mono; [apply sealed_manifest_ok|].
  intros m k2 Hm. simpl in Hm.
  destruct (bool_decide_reflect (local_locs m = [])) as [Hl|]; [|done]. simpl.
  destruct (existsb local_delivery (interfaces m)) eqn:Hd; [done|].
  destruct (bool_decide_reflect ((list_to_set (interface_name <$> interfaces m) : gset string)
    = list_to_set (arg_interfaces a))) as [Hset|]; [|done]. simpl.
  apply ok_bind. unfold ok_post at 1. destruct (with_err FromNative _ k2) as [[w| |] k3]; [|done..].
  apply ok_owned, ok_bind. unfold ok_post at 1.
  destruct (with_err FromLinux _ k3) as [[[]| |] k4]; [|done..].
  apply ok_bind. eapply ok_mono; [apply open_loop_ok; [split; constructor|done]|].
  intros [[records budgets] fds] k5 (Hf & Hr & Hids). apply ok_owned_all.
  eapply ok_mono; [by apply ready_phase_ok|].
  intros r' k6 Hready. cbv beta in Hready |- *.
  destruct Hready as ((b & Hrt) & -> & Hf6 & Hu & Hg & Hs & kv & Hv & Hks).
  exists a, raw, m, records, b. split_and!; try done; [|by exists kv].
  intros n. rewrite set_eq in Hset. specialize (Hset n). by rewrite !elem_of_list_to_set in Hset.
Qed.

(** C29: a launcher that reports readiness is secure and runs what the operator gave it.  The
    arguments parse; the manifest of its runtime is the one validation makes of the bytes of the
    manifest file, with no local delivery, for exactly the interfaces of the command line; it
    holds one distinct descriptor per interface of the manifest, each with the R8 filter attached;
    it has the requested unprivileged ids and no privilege of any kind, and its memory cannot be
    dumped; and its last step was the isolation check of its namespace, made with no privilege. *)
Theorem launcher_ready args k r k' :
  launch args k = (Ok r, k') →
  ∃ a raw m records budgets,
    arguments args = Ok a ∧ fst (sys (ReadFile (arg_manifest a)) k) = Some raw ∧
    validate_manifest_json raw (arg_interfaces a) = Ok m ∧
    local_locs m = [] ∧ existsb local_delivery (interfaces m) = false ∧
    (∀ n, n ∈ interface_name <$> interfaces m ↔ n ∈ arg_interfaces a) ∧
    runtime_new m budgets records = Ok (runtime r) ∧ fst <$> records = fst <$> ready_io r ∧
    fst <$> ready_io r = descriptor_id <$> interfaces m ∧ filtered (ready_io r) k' ∧
    arg_uid a ≠ 0 ∧ arg_gid a ≠ 0 ∧
    security k' = mkSecurity (clean (arg_uid a) (arg_gid a)) 0 ∧
    ∃ k1, security k1 = security k' ∧
      verify_isolated_namespace_after_drop (arg_interfaces a) k1 = (Ok (), k').
Proof. apply (ok_run _ _ _ r k' (launch_ok args k)). Qed.
End Readiness.
