(* ===== verification/LinuxScenario.v ===== *)
(** * A concrete kernel

    A small executable kernel that obeys the laws of [LinuxInv.v]: short writes
    and reads, one descriptor counter, two capability bits.  It runs the
    launcher from its arguments to readiness, which instantiates the theorems,
    and repeats the repository's tests of the route parser and of the privilege
    snapshot. *)

From S2P Require Import Prelude Wire Checksum Codec Crypto SessionMsg Replay SessionCrypto Directional Manifest Forward Native Bpf Text Linux Topology LinuxInv Launcher.
From stdpp Require Import gmap strings.
#[local] Open Scope Z_scope.

(** ** State *)

Record Demo : Set := mkDemo {
  d_uid : Z * Z * Z * Z;
  d_gid : Z * Z * Z * Z;
  d_groups : list Z;
  d_caps : bool;
  d_bounding : bool;
  d_nnp : bool;
  d_dumpable : Z;
  d_filters : gmap Z (list sock_filter);
  d_files : gmap Z Memfd;
  d_next : Z;
}.

Definition with_ids (u g : Z * Z * Z * Z) (groups : list Z) (k : Demo) : Demo :=
  mkDemo u g groups (d_caps k) (d_bounding k) (d_nnp k) (d_dumpable k) (d_filters k) (d_files k)
    (d_next k).
Definition with_flags (caps bounding nnp : bool) (dumpable : Z) (k : Demo) : Demo :=
  mkDemo (d_uid k) (d_gid k) (d_groups k) caps bounding nnp dumpable (d_filters k) (d_files k)
    (d_next k).
Definition with_fds (filters : gmap Z (list sock_filter)) (files : gmap Z Memfd) (next : Z)
    (k : Demo) : Demo :=
  mkDemo (d_uid k) (d_gid k) (d_groups k) (d_caps k) (d_bounding k) (d_nnp k) (d_dumpable k)
    filters files next.

Definition all_caps : Z := 0x1ffffffffff.
Definition cap_values (k : Demo) : list Z :=
  replicate 4 (if d_caps k then all_caps else 0) ++ [if d_bounding k then all_caps else 0].

Definition quad (q : Z * Z * Z * Z) : list Z := let '(a, b, c, d) := q in [a; b; c; d].

#[export] Instance demo_kernel_state : KernelState Demo := {|
  security k := mkSecurity (mkFull (quad (d_uid k)) (quad (d_gid k)) (d_groups k) (cap_values k)
                              (d_nnp k)) (d_dumpable k);
  attached k fd := if fd <? d_next k then d_filters k !! fd else None;
  memfd k fd := if fd <? d_next k then d_files k !! fd else None;
|}.

(** ** Files and interfaces *)

Definition newline : text := [10].
Definition status_text (caps bounding : bool) : text :=
  ascii_bytes "Name:" ++ [9] ++ ascii_bytes "r8" ++ newline ++
  foldr (λ '(n, v) t, ascii_bytes n ++ [9] ++ hex_field 16 v ++ newline ++ t) []
    (zip ["CapInh:"; "CapPrm:"; "CapEff:"; "CapBnd:"; "CapAmb:"]%string
       (replicate 3 (if caps then all_caps else 0) ++
        [if bounding then all_caps else 0; if caps then all_caps else 0])).

Definition route_header : text :=
  ascii_bytes "Iface Destination Gateway Flags RefCnt Use Metric Mask MTU Window IRTT" ++ newline.

Definition demo_file (k : Demo) (path : string) : option text :=
  if bool_decide (path = "/proc/self/status"%string) then Some (status_text (d_caps k) (d_bounding k))
  else if bool_decide (path = "/proc/sys/kernel/cap_last_cap"%string) then
    Some (ascii_bytes "2" ++ newline)
  else if bool_decide (path = "/proc/net/route"%string) then
    Some (route_header ++
          ascii_bytes "lo 00000000 00000000 0200 0 0 0 00000000 0 0 0" ++ newline)
  else if bool_decide (path ∈ ipv6_path <$> ["all"; "default"; "lo"; "eth0"; "eth1"]%string) then
    Some (ascii_bytes "1" ++ newline)
  else None.

Definition link_local : bytes := [0xfe; 0x80] ++ replicate 13 0 ++ [1].
Definition demo_ifaddrs : list ifaddr :=
  [mkIfaddr (Name "lo") (IFF_LOOPBACK) (Some OtherFamily);
   mkIfaddr (Name "eth0") IFF_UP (Some OtherFamily);
   mkIfaddr (Name "eth1") IFF_UP None;
   mkIfaddr (Name "eth0") IFF_UP (Some (Inet6 link_local))].

Definition demo_hardware (name : bytes) : bytes :=
  demo_mac (if bool_decide (take 4 name = ascii_bytes "eth0") then 21 else 23) ++ replicate 8 0.

(** ** The calls *)

Definition demo_write (fd : Z) (data : bytes) (k : Demo) : Z * Demo :=
  match d_files k !! fd with
  | Some f =>
      let chunk := take 4 data in
      (len chunk,
       with_fds (d_filters k)
         (<[fd := mkMemfd (overwrite (content f) (position f) chunk)
                    (position f + length chunk) (seals f)]> (d_files k)) (d_next k) k)
  | None => (-1, k)
  end.

(** How many bytes a read returns at most. *)
Definition short_read (count : nat) : nat := Nat.min 3 count.

Definition demo_pread (fd count offset : Z) (k : Demo) : Z * bytes :=
  match d_files k !! fd with
  | Some f =>
      let chunk := take (short_read (Z.to_nat count)) (drop (Z.to_nat offset) (content f)) in
      (len chunk, chunk)
  | None => (-1, [])
  end.

Definition demo_setsockopt (fd option : Z) (value : sockopt) (k : Demo) : Z * Demo :=
  if option =? SO_DETACH_FILTER then (-1, k) else
  if option =? SO_ATTACH_FILTER then
    match value with
    | OptProgram p =>
        if fd <? d_next k then (0, with_fds (<[fd := p]> (d_filters k)) (d_files k) (d_next k) k)
        else (-1, k)
    | OptInt _ => (-1, k)
    end
  else (0, k).

Definition demo_prctl (option value : Z) (k : Demo) : Z * Demo :=
  if option =? PR_GET_NO_NEW_PRIVS then (if d_nnp k then 1 else 0, k) else
  if option =? PR_GET_DUMPABLE then (d_dumpable k, k) else
  if option =? PR_SET_DUMPABLE then
    (0, with_flags (d_caps k) (d_bounding k) (d_nnp k) value k) else
  if option =? PR_SET_NO_NEW_PRIVS then
    (0, with_flags (d_caps k) (d_bounding k) true (d_dumpable k) k) else
  if option =? PR_CAPBSET_DROP then
    (0, with_flags (d_caps k) (d_bounding k && negb (value =? 2)) (d_nnp k) (d_dumpable k) k) else
  (0, k).

Definition demo_sys {A : Set} (c : call A) (k : Demo) : A * Demo :=
  match c in call A return A * Demo with
  | ReadToString path => (demo_file k path, k)
  | ReadFile path => (Some [123; 125], k)
  | Metadata path =>
      (if bool_decide (path = "/proc/self/ns/net"%string) then Some (4, 100) else
       if d_caps k then Some (4, 1) else None, k)
  | PathExists _ => (false, k)
  | Getifaddrs => (Some demo_ifaddrs, k)
  | Freeifaddrs => (tt, k)
  | Socket _ _ _ => (d_next k, with_fds (d_filters k) (d_files k) (d_next k + 1) k)
  | Close fd => (tt, with_fds (delete fd (d_filters k)) (delete fd (d_files k)) (d_next k) k)
  | Bind _ _ => (0, k)
  | Setsockopt fd _ option value => demo_setsockopt fd option value k
  | LastOsError => (EPERM, k)
  | Siocgifindex _ _ => (0, 2, k)
  | Siocgifmtu _ _ => (0, 1500, k)
  | Siocgifhwaddr _ name => (0, demo_hardware name, k)
  | Setgroups groups => (0, with_ids (d_uid k) (d_gid k) groups k)
  | Setresgid r e s => (0, with_ids (d_uid k) (r, e, s, e) (d_groups k) k)
  | Setresuid r e s => (0, with_ids (r, e, s, e) (d_gid k) (d_groups k) k)
  | Capset _ _ _ => (0, with_flags false (d_bounding k) (d_nnp k) (d_dumpable k) k)
  | Prctl option value => demo_prctl option value k
  | Getgroups size => (len (d_groups k), if size =? 0 then [] else d_groups k, k)
  | Getresuid => let '(r, e, s, _) := d_uid k in (0, (r, e, s), k)
  | Getresgid => let '(r, e, s, _) := d_gid k in (0, (r, e, s), k)
  | Setfsuid v =>
      let '(r, e, s, f) := d_uid k in
      (f, if v =? u32_max then k else with_ids (r, e, s, v) (d_gid k) (d_groups k) k)
  | Setfsgid v =>
      let '(r, e, s, f) := d_gid k in
      (f, if v =? u32_max then k else with_ids (d_uid k) (r, e, s, v) (d_groups k) k)
  | MemfdCreate _ _ =>
      (d_next k, with_fds (d_filters k) (<[d_next k := mkMemfd [] 0 0]> (d_files k)) (d_next k + 1) k)
  | Write fd data => demo_write fd data k
  | AddSeals fd s =>
      match d_files k !! fd with
      | Some f => (0, with_fds (d_filters k)
                        (<[fd := mkMemfd (content f) (position f) (Z.lor (seals f) s)]> (d_files k))
                        (d_next k) k)
      | None => (-1, k)
      end
  | GetSeals fd => (match d_files k !! fd with Some f => seals f | None => -1 end, k)
  | Fstat fd => (match d_files k !! fd with Some f => (0, len (content f)) | None => (-1, 0) end, k)
  | Pread fd count offset => (demo_pread fd count offset k, k)
  | Recv _ _ _ => (-1, [], k)
  | SendTo _ data => (len data, k)
  | Poll fds _ => ((len fds, replicate (length fds) 1), k)
  | WouldBlock => (true, k)
  | ClockGettime => (0, k)
  end.

#[export] Instance demo_kernel : Kernel Demo := {| sys := @demo_sys |}.

(** ** The laws *)

Lemma demo_status caps bounding :
  Forall2 (λ n v, 0 ≤ v ≤ u64_max ∧
             status_field (status_text caps bounding) (ascii_bytes n ++ [9]) = Some (hex_field 16 v))
    capability_names
    (replicate 4 (if caps then all_caps else 0) ++ [if bounding then all_caps else 0]).
Proof. destruct caps, bounding; repeat constructor; by vm_compute. Qed.

Lemma demo_frame_security (A : Set) (c : call A) k :
  changes_security c = false → security (snd (demo_sys c k)) = security k.
Proof.
  intros Hc. destruct k as [[[[??]?]?] [[[??]?]?] ????????]. destruct c; try done; simpl in *.
  - unfold demo_setsockopt. by repeat case_match.
  - by apply negb_false_iff, orb_true_iff in Hc as [->%Z.eqb_eq| ->%Z.eqb_eq].
  - apply negb_false_iff in Hc. by rewrite Hc.
  - apply negb_false_iff in Hc. by rewrite Hc.
  - unfold demo_write. simpl. by case_match.
  - by case_match.
Qed.

Lemma demo_prctl_fds option value k :
  d_filters (snd (demo_prctl option value k)) = d_filters k ∧
  d_files (snd (demo_prctl option value k)) = d_files k ∧
  d_next (snd (demo_prctl option value k)) = d_next k.
Proof. unfold demo_prctl. by repeat case_match. Qed.

Lemma demo_frame_filter (A : Set) (c : call A) k fd p :
  changes_filter fd c = false → attached k fd = Some p → attached (snd (demo_sys c k)) fd = Some p.
Proof.
  intros Hc Hk. destruct k as [[[[??]?]?] [[[??]?]?] ????? filters files next].
  destruct c; try done; simpl in *.
  - destruct (Z.ltb_spec fd next); [|done]. by rewrite (proj2 (Z.ltb_lt _ _)) by lia.
  - apply Z.eqb_neq in Hc. by rewrite lookup_delete_ne by done.
  - unfold demo_setsockopt. destruct (option =? SO_DETACH_FILTER); [done|].
    destruct (option =? SO_ATTACH_FILTER); [|done]. destruct value; [done|]. simpl.
    destruct (fd0 <? next); [|done]. simpl. apply andb_false_iff in Hc as [Hc%Z.eqb_neq|Hc]; [|done].
    by rewrite lookup_insert_ne by done.
  - by edestruct demo_prctl_fds as (-> & _ & ->).
  - by destruct (uid =? u32_max).
  - by destruct (gid =? u32_max).
  - destruct (Z.ltb_spec fd next); [|done]. by rewrite (proj2 (Z.ltb_lt _ _)) by lia.
  - unfold demo_write. simpl. by destruct (files !! fd0).
  - by destruct (files !! fd0).
Qed.

Lemma demo_frame_memfd (A : Set) (c : call A) k fd f :
  changes_memfd fd c = false → memfd k fd = Some f → memfd (snd (demo_sys c k)) fd = Some f.
Proof.
  intros Hc Hk. destruct k as [[[[??]?]?] [[[??]?]?] ????? filters files next].
  destruct c; try done; simpl in *.
  - destruct (Z.ltb_spec fd next); [|done]. by rewrite (proj2 (Z.ltb_lt _ _)) by lia.
  - apply Z.eqb_neq in Hc. by rewrite lookup_delete_ne by done.
  - unfold demo_setsockopt. destruct (option =? SO_DETACH_FILTER); [done|].
    destruct (option =? SO_ATTACH_FILTER); [|done]. destruct value; [done|].
    simpl. by destruct (fd0 <? next).
  - by edestruct demo_prctl_fds as (_ & -> & ->).
  - by destruct (uid =? u32_max).
  - by destruct (gid =? u32_max).
  - destruct (Z.ltb_spec fd next); [|done]. rewrite (proj2 (Z.ltb_lt _ _)) by lia.
    by rewrite lookup_insert_ne by lia.
  - unfold demo_write. simpl. apply Z.eqb_neq in Hc. destruct (files !! fd0); [|done]. simpl.
    by rewrite lookup_insert_ne by done.
  - apply Z.eqb_neq in Hc. destruct (files !! fd0); [|done]. simpl.
    by rewrite lookup_insert_ne by done.
Qed.

Lemma demo_memfd k fd f :
  memfd k fd = Some f → fd <? d_next k = true ∧ d_files k !! fd = Some f.
Proof. simpl. by destruct (fd <? d_next k). Qed.

Lemma take_min_length {A} n (l : list A) : take (Nat.min n (length l)) l = take n l.
Proof.
  destruct (Nat.le_ge_cases n (length l)); [by rewrite Nat.min_l|].
  by rewrite Nat.min_r, !take_ge by lia.
Qed.

#[export] Instance demo_laws : KernelLaws Demo.
Proof.
  split.
  - apply demo_frame_security.
  - intros n k r l. simpl. intros [= <- <-] _. split; [done|]. intros Hn%Z.eqb_neq. by rewrite Hn.
  - intros k u e s. simpl. destruct (d_uid k) as [[[??]?]?]. simpl. intros [= <- <- <-] k' [= Hu _].
    simpl in *. destruct (d_uid k') as [[[??]?]?]. simpl in *. by simplify_eq.
  - intros k u e s. simpl. destruct (d_gid k) as [[[??]?]?]. simpl. intros [= <- <- <-] k' Hk'.
    simpl in *. destruct (d_gid k') as [[[??]?]?]. simpl in *. by simplify_eq.
  - intros k t. simpl. intros [= <-]. apply demo_status.
  - intros k. simpl. by destruct (d_nnp k).
  - done.
  - done.
  - apply demo_frame_filter.
  - intros fd p k. simpl. unfold demo_setsockopt. simpl. destruct (fd <? d_next k) eqn:Hfd; [|done].
    intros _. simpl. by rewrite Hfd, lookup_insert_eq.
  - done.
  - intros d t p k _. simpl. by rewrite Z.ltb_irrefl.
  - apply demo_frame_memfd.
  - intros n fl k _. simpl. rewrite lookup_insert_eq. by rewrite (proj2 (Z.ltb_lt _ _)) by lia.
  - intros fd data k f [Hn Hf]%demo_memfd. simpl. unfold demo_write. rewrite Hf. simpl. intros _.
    unfold len. rewrite Nat2Z.id, length_take. split; [lia|]. rewrite Hn, lookup_insert_eq. do 3 f_equal.
    by rewrite take_min_length.
  - intros fd sl k f [Hn Hf]%demo_memfd. simpl. rewrite Hf. simpl. by rewrite Hn, lookup_insert_eq.
  - intros fd k f [Hn Hf]%demo_memfd. simpl. by rewrite Hf.
  - intros fd k f n [Hn Hf]%demo_memfd. simpl. rewrite Hf. by intros [= <-].
  - intros fd count offset k f r d [Hn Hf]%demo_memfd. cbn [fst sys demo_kernel demo_sys].
    unfold demo_pread. rewrite Hf. intros [= <- <-] Ho Hr. unfold len in *. rewrite Nat2Z.id.
    set (l := drop _ _) in *. assert (short_read (Z.to_nat count) ≤ Z.to_nat count)%nat by (unfold short_read; lia).
    set (m := short_read _) in *. rewrite length_take in *.
    split_and!; [lia|done|by rewrite take_min_length].
Qed.

(** ** The repository's tests *)

Definition table (lines : list string) : text := concat ((λ l, ascii_bytes l ++ newline) <$> lines).
Definition header_line : string :=
  "Iface Destination Gateway Flags RefCnt Use Metric Mask MTU Window IRTT".

Example route_parser_tests :
  has_ipv4_default_route (table [header_line; "eth0 00000000 0100007F 0003 0 0 0 00000000 0 0 0"]%string) = true ∧
  has_ipv4_default_route (table [header_line; "eth0 0100007F 00000000 0001 0 0 0 FFFFFFFF 0 0 0"]%string) = false ∧
  has_ipv4_default_route (table [header_line; "lo 00000000 00000000 0200 0 0 0 00000000 0 0 0"]%string) = false ∧
  has_ipv4_default_route (table ["Iface Destination Gateway"; "eth0 malformed"]%string) = true ∧
  has_ipv4_default_route (table [header_line; "eth0 0100007F 00000000 0001 0 nope 0 FFFFFFFF 0 0 0"]%string) = true.
Proof. by vm_compute. Qed.

Example privilege_snapshot_tests :
  let clean_snapshot := mkSnapshot 1000 1000 [] 0 true in
  validate_privilege_snapshot clean_snapshot 1000 1000 = Ok () ∧
  Forall (λ s, validate_privilege_snapshot s 1000 1000 = Err LinuxError.Privilege)
    [mkSnapshot 0 1000 [] 0 true; mkSnapshot 1000 0 [] 0 true; mkSnapshot 1000 1000 [1000] 0 true;
     mkSnapshot 1000 1000 [] 1 true; mkSnapshot 1000 1000 [] 0 false; mkSnapshot 1001 1000 [] 0 true].
Proof. split; [done|]. by repeat constructor. Qed.

(** ** From the arguments to readiness *)

Definition demo_start : Demo :=
  mkDemo (0, 0, 0, 0) (0, 0, 0, 0) [0; 4] true true false 1 ∅ ∅ 3.

#[local] Instance launcher_decoder : JsonDecoder bool := {|
  from_slice := λ data, if beq data [123; 125] then inr demo_raw else inl true;
  is_syntax := λ e, e;
  is_eof := λ e, negb e;
|}.

Definition demo_args : list string :=
  ["--manifest"; "m.json"; "--interface"; "eth0"; "--interface"; "eth1";
   "--uid"; "1000"; "--gid"; "1000"].

Definition is_ready {E A S} (r : outcome E A * S) : bool := is_ok (fst r).

Definition demo_run := launch (K:=Demo) demo_args demo_start.
Definition demo_ready : Ready :=
  match fst demo_run with
  | Ok r => r
  | _ => mkReady demo_runtime [] (mkWatch 0 [])
  end.
Definition demo_end : Demo := snd demo_run.

Lemma demo_launch : launch (K:=Demo) demo_args demo_start = (Ok demo_ready, demo_end).
Proof. by vm_compute. Qed.

Lemma launcher_ready_witness :
  (descriptor_id <$> interfaces (Native.manifest (runtime demo_ready))) = [7; 9] ∧
  filtered (ready_io demo_ready) demo_end ∧
  security demo_end = mkSecurity (clean 1000 1000) 0.
Proof.
  destruct (launcher_ready demo_args demo_start demo_ready demo_end demo_launch)
    as (a & raw & m & records & b & Ha & _ & _ & _ & _ & _ & _ & _ & _ & Hf & _ & _ & Hs & _).
  split_and!; [by vm_compute|exact Hf|]. rewrite Hs.
  vm_compute in Ha. by injection Ha as <-.
Defined.

Lemma demo_still k : still (K:=Demo) k.
Proof. by intros A []. Qed.

(** The demonstration host is isolated for its two interfaces, and not for one of them. *)
Lemma isolated_topology_iff_witness :
  topology_rules ["eth0"; "eth1"]%string true demo_start ∧
  ¬ topology_rules ["eth0"]%string true demo_start ∧
  ¬ topology_rules ["eth0"; "eth1"; "eth0"]%string true demo_start.
Proof.
  split_and!; rewrite <- (isolated_topology_iff _ _ _ (demo_still demo_start)).
  - by vm_compute.
  - intros Hr. by vm_compute in Hr.
  - intros Hr. by vm_compute in Hr.
Defined.

Definition demo_dropped : Demo := snd (drop_privileges 1000 1001 demo_start).

Lemma privileges_dropped_witness :
  security demo_start ≠ security demo_dropped ∧
  security demo_dropped = mkSecurity (clean 1000 1001) 0 ∧
  drop_privileges 0 1001 demo_start = (Err LinuxError.Privilege, demo_start).
Proof.
  destruct (privileges_dropped 1000 1001 demo_start) as [_ Hd].
  destruct (Hd demo_dropped ltac:(by vm_compute)) as (_ & _ & Hs).
  split_and!; [by vm_compute|exact Hs|]. apply privileges_dropped. by left.
Defined.

Definition sealed_fd : Z := 3.
Definition demo_sealed : Demo := snd (create_immutable_manifest (seqZ 0 10) demo_start).
Definition demo_read := read_immutable_manifest sealed_fd demo_sealed.

Lemma manifest_sealed_witness : fst demo_read = Ok (seqZ 0 10).
Proof.
  destruct (manifest_sealed (seqZ 0 10) demo_start) as [_ Hc].
  destruct (Hc sealed_fd demo_sealed ltac:(by vm_compute)) as (f & Hf & _ & _ & Hr).
  destruct (Hr f demo_sealed Hf eq_refl) as [_ Hd].
  destruct (fst demo_read) as [d| |] eqn:Hrun; [|by vm_compute in Hrun..].
  destruct (Hd d (snd demo_read)) as [-> _]; [|done].
  unfold demo_read in *. rewrite <- Hrun. by destruct (read_immutable_manifest sealed_fd demo_sealed).
Defined.
