(* ===== verification/Control.v ===== *)
(** * R8M1 mobility controls (src/rust/crates/r8-mobility/src/lib.rs, first part)

    The five control messages with their encoder and parser, the signed input of
    a location update and the authenticated input of a binding token.  The
    theorems: the parser accepts exactly the encodings of well-formed controls,
    and the signed and authenticated inputs determine every field they cover. *)

From S2P Require Import Prelude Wire Checksum Codec Crypto SessionMsg SessionCrypto.
#[local] Open Scope Z_scope.

Definition SESSION_VERSION : Z := 1.
Definition LOC_UPDATE : Z := 1.
Definition BIND_PROBE : Z := 2.
Definition BIND_CHALLENGE : Z := 3.
Definition BIND_RESPONSE : Z := 4.
Definition CANDIDATE_RESULT : Z := 5.
Definition LIVE_CANDIDATES_MAX : Z := 2.
Definition PROPOSAL_SLOTS : Z := 2.
Definition RESULT_CACHE_SLOTS : Z := 2.
Definition CHALLENGE_EXPIRY_MS : Z := 3000.
Definition OLD_BINDING_GRACE_MS : Z := 10000.

Module MobilityError.

Inductive t : Set := Candidate | Capacity | Timeout | Replay.

#[export] Instance eq_dec : EqDecision t.
Proof. solve_decision. Defined.

Definition as_str (e : t) : string :=
  match e with
  | Candidate => "E-CANDIDATE"
  | Capacity => "E-CAPACITY"
  | Timeout => "E-TIMEOUT"
  | Replay => "E-REPLAY"
  end.

End MobilityError.

Inductive Control : Set :=
| LocUpdate (candidate_id old_loc new_loc : bytes) (epoch not_before_ms valid_for_ms path_slot : Z)
    (signature : bytes)
| BindProbe (candidate_id loc : bytes) (epoch path_slot : Z) (probe_nonce : bytes)
| BindChallenge (candidate_id loc : bytes) (epoch path_slot expiry_ms : Z) (token : bytes)
| BindResponse (candidate_id loc : bytes) (epoch path_slot expiry_ms : Z) (token : bytes)
| CandidateResult (candidate_id : bytes) (epoch path_slot result : Z).

#[export] Instance Control_eq_dec : EqDecision Control.
Proof. solve_decision. Defined.

Definition control_typ (c : Control) : Z :=
  match c with
  | LocUpdate _ _ _ _ _ _ _ _ => LOC_UPDATE
  | BindProbe _ _ _ _ _ => BIND_PROBE
  | BindChallenge _ _ _ _ _ _ => BIND_CHALLENGE
  | BindResponse _ _ _ _ _ _ => BIND_RESPONSE
  | CandidateResult _ _ _ _ => CANDIDATE_RESULT
  end.

Definition MAGIC : bytes := ascii_bytes "R8M1".

(** [encode] cannot fail; its result type is that of the source. *)
Definition control_encode (c : Control) : outcome MobilityError.t bytes :=
  let out := MAGIC ++ [control_typ c; 1; 0; 0] in
  Ok (out ++
    match c with
    | LocUpdate id old_loc new_loc epoch not_before valid_for slot signature =>
        id ++ old_loc ++ new_loc ++ be_bytes 8 epoch ++ be_bytes 8 not_before ++
        be_bytes 8 valid_for ++ [slot] ++ signature
    | BindProbe id loc epoch slot nonce => id ++ loc ++ be_bytes 8 epoch ++ [slot] ++ nonce
    | BindChallenge id loc epoch slot expiry token
    | BindResponse id loc epoch slot expiry token =>
        id ++ loc ++ be_bytes 8 epoch ++ [slot] ++ be_bytes 8 expiry ++ token
    | CandidateResult id epoch slot result => id ++ be_bytes 8 epoch ++ [slot; result]
    end).

(** [bytes.get(offset..offset + n)] *)
Definition get_slice (l : bytes) (offset n : nat) : outcome MobilityError.t bytes :=
  if decide (offset + n ≤ length l)%nat then Ok (take n (drop offset l))
  else Err MobilityError.Candidate.

Definition a16 (l : bytes) (offset : nat) : outcome MobilityError.t bytes := get_slice l offset 16.
Definition u64at (l : bytes) (offset : nat) : outcome MobilityError.t Z :=
  be_value <$> get_slice l offset 8.

(** The fields the last check of the parser reads. *)
Definition control_id (c : Control) : bytes :=
  match c with
  | LocUpdate id _ _ _ _ _ _ _ | BindProbe id _ _ _ _ | BindChallenge id _ _ _ _ _
  | BindResponse id _ _ _ _ _ | CandidateResult id _ _ _ => id
  end.
Definition control_slot (c : Control) : Z :=
  match c with
  | LocUpdate _ _ _ _ _ _ slot _ | BindProbe _ _ _ slot _ | BindChallenge _ _ _ slot _ _
  | BindResponse _ _ _ slot _ _ | CandidateResult _ _ slot _ => slot
  end.
Definition control_result (c : Control) : option Z :=
  match c with CandidateResult _ _ _ result => Some result | _ => None end.

Definition control_parse_body (l : bytes) : outcome MobilityError.t Control :=
  typ ← idx l 4;
  if (typ =? LOC_UPDATE) && (len l =? 145) then
    id ← a16 l 8; old_loc ← a16 l 24; new_loc ← a16 l 40;
    epoch ← u64at l 56; not_before ← u64at l 64; valid_for ← u64at l 72;
    slot ← idx l 80; signature ← slice l 81 145;
    Ok (LocUpdate id old_loc new_loc epoch not_before valid_for slot signature)
  else if (typ =? BIND_PROBE) && (len l =? 65) then
    id ← a16 l 8; loc ← a16 l 24; epoch ← u64at l 40; slot ← idx l 48; nonce ← a16 l 49;
    Ok (BindProbe id loc epoch slot nonce)
  else if ((typ =? BIND_CHALLENGE) || (typ =? BIND_RESPONSE)) && (len l =? 89) then
    id ← a16 l 8; loc ← a16 l 24; epoch ← u64at l 40; slot ← idx l 48; expiry ← u64at l 49;
    token ← slice l 57 89;
    if typ =? BIND_CHALLENGE then Ok (BindChallenge id loc epoch slot expiry token)
    else Ok (BindResponse id loc epoch slot expiry token)
  else if (typ =? CANDIDATE_RESULT) && (len l =? 34) then
    id ← a16 l 8; epoch ← u64at l 24; slot ← idx l 32; result ← idx l 33;
    Ok (CandidateResult id epoch slot result)
  else Err MobilityError.Candidate.

Definition control_parse (l : bytes) : outcome MobilityError.t Control :=
  bad ← Ok (len l <? 8) ||? slice_ne l 0 4 MAGIC ||? byte_ne l 5 1 ||? slice_ne l 6 8 [0; 0];
  if bad : bool then Err MobilityError.Candidate else
  control ← control_parse_body l;
  if beq (control_id control) (replicate 16 0) || (1 <? control_slot control)
     || match control_result control with
        | Some value => negb ((1 <=? value) && (value <=? 3))
        | None => false
        end
  then Err MobilityError.Candidate else Ok control.

(** ** Signed and authenticated inputs *)

Record MobilityContext : Set := mkMobilityContext {
  mc_profile : Z;
  mc_scid : Z;
  mc_sender : Identity;
  mc_receiver : Identity;
  mc_policy_id : Z;
}.

Record LocUpdateFields : Set := mkLocUpdateFields {
  lu_candidate_id : bytes;
  lu_old_loc : bytes;
  lu_new_loc : bytes;
  lu_epoch : Z;
  lu_path_slot : Z;
}.

Record TokenFields : Set := mkTokenFields {
  tf_candidate_id : bytes;
  tf_loc : bytes;
  tf_binding : ObservedBinding;
  tf_epoch : Z;
  tf_path_slot : Z;
  tf_expiry_ms : Z;
}.

Definition profile_allows_slot (profile path_slot : Z) : bool :=
  ((0 <=? profile) && (profile <=? 2) && (path_slot =? 0)) || ((profile =? 3) && (path_slot =? 1)).

(** [(1..=2).contains(&role)] *)
Definition role_known (role : Z) : bool := (1 <=? role) && (role <=? 2).

Definition loc_update_signature_input (c : MobilityContext) (f : LocUpdateFields) :
    outcome MobilityError.t bytes :=
  if (3 <? mc_profile c)
     || (id_role (mc_sender c) =? id_role (mc_receiver c))
     || negb (role_known (id_role (mc_sender c)))
     || negb (role_known (id_role (mc_receiver c)))
     || negb (profile_allows_slot (mc_profile c) (lu_path_slot f))
  then Err MobilityError.Candidate else
  Ok (ascii_bytes "R8 LOC_UPDATE v1" ++ [SESSION_VERSION; mc_profile c] ++
      be_bytes 8 (mc_scid c) ++ id_eid (mc_sender c) ++ id_eid (mc_receiver c) ++
      lu_old_loc f ++ lu_new_loc f ++ be_bytes 8 (lu_epoch f) ++ be_bytes 8 0 ++
      be_bytes 8 5000 ++ lu_candidate_id f ++ [lu_path_slot f]).

Definition token_input (c : MobilityContext) (f : TokenFields) : outcome MobilityError.t bytes :=
  bad ← (match binding_validate (tf_binding f) with
         | Ok _ => Ok false | Err _ => Ok true | Panic => Panic end)
    ||? Ok ((3 <? mc_profile c)
            || negb (profile_allows_slot (mc_profile c) (tf_path_slot f))
            || (id_role (mc_sender c) =? id_role (mc_receiver c))
            || negb (role_known (id_role (mc_sender c)))
            || negb (role_known (id_role (mc_receiver c))));
  if bad : bool then Err MobilityError.Candidate else
  let direction := if id_role (mc_sender c) =? 1 then 1 else 2 in
  Ok (ascii_bytes "R8 bind v1" ++ [SESSION_VERSION; mc_profile c] ++
      be_bytes 8 (mc_scid c) ++ id_eid (mc_sender c) ++ id_eid (mc_receiver c) ++
      tf_candidate_id f ++ tf_loc f ++ binding_encode (tf_binding f) ++ [direction] ++
      be_bytes 8 (tf_epoch f) ++ [tf_path_slot f] ++ be_bytes 4 (mc_policy_id c) ++
      be_bytes 8 (tf_expiry_ms f)).

Section Authority.
Context `{C : Crypto}.

Definition sign_loc_update (signing : bytes) (c : MobilityContext) (f : LocUpdateFields) :
    outcome MobilityError.t Control :=
  input ← loc_update_signature_input c f;
  Ok (LocUpdate (lu_candidate_id f) (lu_old_loc f) (lu_new_loc f) (lu_epoch f) 0 5000
        (lu_path_slot f) (ed25519_sign signing input)).

Definition verify_loc_update (control : Control) (c : MobilityContext) :
    outcome MobilityError.t unit :=
  match control with
  | LocUpdate id old_loc new_loc epoch not_before valid_for slot signature =>
      if negb (not_before =? 0) || negb (valid_for =? 5000) then Err MobilityError.Candidate else
      input ← loc_update_signature_input c (mkLocUpdateFields id old_loc new_loc epoch slot);
      if negb (ed25519_key_ok (id_public_key (mc_sender c))) then Err MobilityError.Candidate else
      if ed25519_verify (id_public_key (mc_sender c)) input signature then Ok ()
      else Err MobilityError.Candidate
  | _ => Err MobilityError.Candidate
  end.

Definition token (secret : bytes) (c : MobilityContext) (f : TokenFields) :
    outcome MobilityError.t bytes :=
  input ← token_input c f;
  let tag := hmac_sha256 secret input in
  expect (if (length tag =? 32)%nat then Some tag else None).
End Authority.

(** ** Fields of a concatenation *)

Section Fields.
Context {E : Type}.
Implicit Types (fs : list bytes) (f : bytes).

Lemma concat_split fs k f :
  fs !! k = Some f → concat fs = concat (take k fs) ++ f ++ concat (drop (S k) fs).
Proof. intros Hk. rewrite <-(take_drop_middle fs k f Hk) at 1. by rewrite concat_app. Qed.

Lemma get_slice_field fs k f off n :
  fs !! k = Some f → off = length (concat (take k fs)) → n = length f →
  get_slice (concat fs) off n = Ok f.
Proof.
  intros Hk -> ->. rewrite (concat_split fs k f Hk). unfold get_slice.
  rewrite decide_True by (rewrite !length_app; lia).
  by rewrite drop_app_length, take_app_length.
Qed.

Lemma slice_field fs k f a b :
  fs !! k = Some f → a = length (concat (take k fs)) → b = (a + length f)%nat →
  slice (E:=E) (concat fs) a b = Ok f.
Proof.
  intros Hk Ha Hb. rewrite (concat_split fs k f Hk). subst.
  rewrite slice_app_r, Nat.sub_diag, slice_app_l by lia. apply slice_all. lia.
Qed.

Lemma idx_field fs k x a :
  fs !! k = Some [x] → a = length (concat (take k fs)) → idx (E:=E) (concat fs) a = Ok x.
Proof.
  intros Hk ->. rewrite (concat_split fs k [x] Hk). apply idx_Ok.
  by rewrite lookup_app_r, Nat.sub_diag by lia.
Qed.
End Fields.

(** Cut a list of known length. *)
Lemma chop {A} n (l : list A) :
  (n ≤ length l)%nat → ∃ a b, l = a ++ b ∧ length a = n ∧ length b = (length l - n)%nat.
Proof.
  intros. exists (take n l), (drop n l).
  rewrite take_drop, length_take, length_drop. split_and!; lia || done.
Qed.

Lemma wf_array_be n a : length a = n → wf_bytes a → be_bytes n (be_value a) = a.
Proof. intros. by apply be_bytes_be_value. Qed.

(** ** The codec *)

(** The machine types of the fields. *)
Definition typed_control (c : Control) : Prop :=
  wf_array 16 (control_id c) ∧ is_u8 (control_slot c) ∧
  match c with
  | LocUpdate _ old_loc new_loc epoch not_before valid_for _ signature =>
      wf_array 16 old_loc ∧ wf_array 16 new_loc ∧ is_u64 epoch ∧ is_u64 not_before ∧
      is_u64 valid_for ∧ wf_array 64 signature
  | BindProbe _ loc epoch _ nonce => wf_array 16 loc ∧ is_u64 epoch ∧ wf_array 16 nonce
  | BindChallenge _ loc epoch _ expiry token | BindResponse _ loc epoch _ expiry token =>
      wf_array 16 loc ∧ is_u64 epoch ∧ is_u64 expiry ∧ wf_array 32 token
  | CandidateResult _ epoch _ result => is_u64 epoch ∧ is_u8 result
  end.

(** The values the protocol allows. *)
Definition control_rules (c : Control) : Prop :=
  control_id c ≠ replicate 16 0 ∧ control_slot c ≤ 1 ∧
  match c with CandidateResult _ _ _ result => 1 ≤ result ≤ 3 | _ => True end.

#[export] Instance typed_control_dec c : Decision (typed_control c).
Proof. destruct c; apply _. Defined.
#[export] Instance control_rules_dec c : Decision (control_rules c).
Proof. destruct c; apply _. Defined.

Definition control_fields (c : Control) : list bytes :=
  match c with
  | LocUpdate id old_loc new_loc epoch not_before valid_for slot signature =>
      [id; old_loc; new_loc; be_bytes 8 epoch; be_bytes 8 not_before; be_bytes 8 valid_for;
       [slot]; signature]
  | BindProbe id loc epoch slot nonce => [id; loc; be_bytes 8 epoch; [slot]; nonce]
  | BindChallenge id loc epoch slot expiry token | BindResponse id loc epoch slot expiry token =>
      [id; loc; be_bytes 8 epoch; [slot]; be_bytes 8 expiry; token]
  | CandidateResult id epoch slot result => [id; be_bytes 8 epoch; [slot]; [result]]
  end.

Definition control_layout (c : Control) : list bytes :=
  [MAGIC; [control_typ c]; [1]; [0; 0]] ++ control_fields c.

Lemma control_encode_layout c : control_encode c = Ok (concat (control_layout c)).
Proof.
  unfold control_encode, control_layout. rewrite concat_app, <-app_assoc. f_equal.
  destruct c; simpl; by rewrite ?app_nil_r.
Qed.

Lemma u64at_field fs k z off :
  fs !! k = Some (be_bytes 8 z) → off = length (concat (take k fs)) → is_u64 z →
  u64at (concat fs) off = Ok z.
Proof.
  intros Hk Ho Hz. unfold u64at. rewrite (get_slice_field fs k (be_bytes 8 z)) by done.
  cbn [fmap outcome_fmap]. by rewrite be_value_be_bytes by solve_width.
Qed.

(** Lengths of concatenated fields. *)
Lemma length_MAGIC : length MAGIC = 4%nat.
Proof. done. Qed.

Ltac field_length :=
  cbn [concat app control_fields control_layout take];
  repeat progress (rewrite ?length_app, ?length_MAGIC, ?length_be_bytes; cbn [length]); lia.

(** Read field [k] of a layout, at offset [off]. *)
Ltac read_field k off :=
  first
    [ erewrite (get_slice_field _ k _ off) by (reflexivity || field_length)
    | erewrite (u64at_field _ k _ off) by (reflexivity || field_length || assumption)
    | erewrite (slice_field _ k _ off) by (reflexivity || field_length)
    | erewrite (idx_field _ k _ off) by (reflexivity || field_length) ];
  cbn [mbind outcome_bind].

Definition control_size (c : Control) : Z :=
  match c with
  | LocUpdate _ _ _ _ _ _ _ _ => 145
  | BindProbe _ _ _ _ _ => 65
  | BindChallenge _ _ _ _ _ _ | BindResponse _ _ _ _ _ _ => 89
  | CandidateResult _ _ _ _ => 34
  end.

Ltac split_typed H :=
  let Hid := fresh "Hid" in
  destruct H as ([Hid ?] & ? & H); cbn [control_id] in Hid;
  repeat match goal with
  | H : _ ∧ _ |- _ => destruct H
  | H : wf_array _ _ |- _ => destruct H
  end.

Lemma len_layout c : typed_control c → len (concat (control_layout c)) = control_size c.
Proof.
  intros H. destruct c; split_typed H; unfold len, control_size, control_layout; field_length.
Qed.

Lemma parse_body_layout c :
  typed_control c → control_parse_body (concat (control_layout c)) = Ok c.
Proof.
  intros H. pose proof (len_layout c H) as Hlen. unfold control_parse_body. rewrite Hlen. unfold a16.
  rewrite (idx_field _ 1 (control_typ c) 4) by done. cbn [mbind outcome_bind].
  destruct c; split_typed H; unfold control_layout;
    cbn [control_size control_typ LOC_UPDATE BIND_PROBE BIND_CHALLENGE BIND_RESPONSE
         CANDIDATE_RESULT Z.eqb Pos.eqb andb orb].
  - read_field 4%nat 8%nat. read_field 5%nat 24%nat. read_field 6%nat 40%nat.
    read_field 7%nat 56%nat. read_field 8%nat 64%nat. read_field 9%nat 72%nat.
    read_field 10%nat 80%nat. by read_field 11%nat 81%nat.
  - read_field 4%nat 8%nat. read_field 5%nat 24%nat. read_field 6%nat 40%nat.
    read_field 7%nat 48%nat. by read_field 8%nat 49%nat.
  - read_field 4%nat 8%nat. read_field 5%nat 24%nat. read_field 6%nat 40%nat.
    read_field 7%nat 48%nat. read_field 8%nat 49%nat. by read_field 9%nat 57%nat.
  - read_field 4%nat 8%nat. read_field 5%nat 24%nat. read_field 6%nat 40%nat.
    read_field 7%nat 48%nat. read_field 8%nat 49%nat. by read_field 9%nat 57%nat.
  - read_field 4%nat 8%nat. read_field 5%nat 24%nat.
    read_field 6%nat 32%nat. by read_field 7%nat 33%nat.
Qed.

Lemma control_parse_layout c :
  typed_control c →
  control_parse (concat (control_layout c)) =
  if beq (control_id c) (replicate 16 0) || (1 <? control_slot c)
     || match control_result c with
        | Some value => negb ((1 <=? value) && (value <=? 3)) | None => false end
  then Err MobilityError.Candidate else Ok c.
Proof.
  intros H. unfold control_parse. rewrite len_layout, parse_body_layout by done.
  assert (control_size c <? 8 = false) as -> by by destruct c. unfold slice_ne, byte_ne.
  rewrite (slice_field _ 0 MAGIC 0), (idx_field _ 2 1 5), (slice_field _ 3 [0; 0] 6) by done.
  done.
Qed.

Lemma control_rules_checks c :
  typed_control c →
  beq (control_id c) (replicate 16 0) || (1 <? control_slot c)
    || match control_result c with
       | Some value => negb ((1 <=? value) && (value <=? 3)) | None => false end = false ↔
  control_rules c.
Proof.
  intros _. rewrite !orb_false_iff, beq_false, Z.ltb_ge. unfold control_rules.
  destruct c; cbn [control_result]; try naive_solver.
  rewrite negb_false_iff, andb_true_iff, !Z.leb_le. naive_solver.
Qed.

(** Cut a byte string into fields of given sizes. *)
Lemma cut_fields ns l :
  wf_bytes l → length l = sum_list ns →
  ∃ fs, l = concat fs ∧ Forall2 (λ n f, wf_array n f) ns fs.
Proof.
  revert l. induction ns as [|n ns IH]; intros l Hw Hl; simpl in Hl.
  - exists []. by destruct l.
  - destruct (chop n l) as (a & b & -> & Ha & Hb); [lia|].
    apply wf_bytes_app_1 in Hw as [Wa Wb]. destruct (IH b) as (fs & -> & Hf); [done|lia|].
    exists (a :: fs). split; [done|]. by constructor.
Qed.

Lemma wf_array_1 f : wf_array 1 f → ∃ x, f = [x] ∧ is_u8 x.
Proof. intros [Hl Hw]. destruct f as [|x [|]]; try done. apply wf_bytes_cons_1 in Hw as [? _]. eauto. Qed.

Lemma wf_array_u64 f : wf_array 8 f → ∃ z, f = be_bytes 8 z ∧ is_u64 z.
Proof.
  intros [Hl Hw]. exists (be_value f). split; [by rewrite be_bytes_be_value|].
  pose proof (be_value_range f Hw) as H. unfold len in H. rewrite Hl in H.
  change (256 ^ Z.of_nat 8) with 18446744073709551616 in H. solve_width.
Qed.

(** Close a surjectivity case with the control of the fields. *)
Ltac give_control c :=
  eexists c; split; [|reflexivity]; unfold typed_control; cbn; split_and!; done.

(** The fields of [Forall2] over a concrete list of sizes. *)
Ltac open_fields :=
  repeat match goal with
  | H : Forall2 _ (_ :: _) _ |- _ => apply Forall2_cons_inv_l in H as (? & ? & ? & H & ->)
  | H : Forall2 _ [] _ |- _ => apply Forall2_nil_inv_l in H as ->
  | H : wf_array 8 _ |- _ => apply wf_array_u64 in H as (? & -> & ?)
  | H : wf_array 1 _ |- _ => apply wf_array_1 in H as (? & -> & ?)
  end.

Lemma cut_header l :
  8 ≤ len l → slice (E:=MobilityError.t) l 0 4 = Ok MAGIC → l !! 5%nat = Some 1 →
  slice (E:=MobilityError.t) l 6 8 = Ok [0; 0] →
  ∃ t rest, l = concat [MAGIC; [t]; [1]; [0; 0]] ++ rest.
Proof.
  intros Hl H0 H5 H6. assert (8 ≤ length l)%nat by (unfold len in Hl; lia).
  do 8 (destruct l as [|? l]; [simpl in *; lia|]).
  rewrite slice_Ok in H0, H6 by (simpl; lia). apply Ok_inj in H0, H6.
  injection H0 as -> -> -> ->. injection H5 as ->. injection H6 as -> ->. by eexists _, l.
Qed.

Lemma parse_body_surjective l c :
  wf_bytes l → 8 ≤ len l → slice (E:=MobilityError.t) l 0 4 = Ok MAGIC → l !! 5%nat = Some 1 →
  slice (E:=MobilityError.t) l 6 8 = Ok [0; 0] → control_parse_body l = Ok c →
  ∃ c', typed_control c' ∧ l = concat (control_layout c').
Proof.
  intros Hw Hl H0 H5 H6 Hp. destruct (cut_header l) as (t & rest & ->); [done..|].
  assert (length (concat [MAGIC; [t]; [1]; [0; 0]]) = 8%nat) as Hh by done.
  apply wf_bytes_app_1 in Hw as [_ Hr].
  unfold control_parse_body in Hp. change (idx _ 4) with (Ok (E:=MobilityError.t) t) in Hp.
  cbn [mbind outcome_bind] in Hp. unfold len in Hp. rewrite length_app, Hh in Hp.
  destruct ((t =? LOC_UPDATE) && _) eqn:C1; [|destruct ((t =? BIND_PROBE) && _) eqn:C2;
    [|destruct (((t =? BIND_CHALLENGE) || _) && _) eqn:C3;
      [|destruct ((t =? CANDIDATE_RESULT) && _) eqn:C4; [|done]]]];
    clear Hp; repeat match goal with
    | H : _ && _ = true |- _ => apply andb_true_iff in H as [? ?]
    | H : (_ =? _) = true |- _ => apply Z.eqb_eq in H end.
  - subst t. destruct (cut_fields [16; 16; 16; 8; 8; 8; 1; 64]%nat rest) as (fs & -> & Hf);
      [done|simpl; lia|]. open_fields. rewrite <-concat_app.
    give_control uconstr:(LocUpdate _ _ _ _ _ _ _ _).
  - subst t. destruct (cut_fields [16; 16; 8; 1; 16]%nat rest) as (fs & -> & Hf);
      [done|simpl; lia|]. open_fields. rewrite <-concat_app. give_control uconstr:(BindProbe _ _ _ _ _).
  - destruct (cut_fields [16; 16; 8; 1; 8; 32]%nat rest) as (fs & -> & Hf);
      [done|simpl; lia|]. open_fields. rewrite <-concat_app.
    match goal with H : _ || _ = true |- _ => apply orb_true_iff in H as [->%Z.eqb_eq | ->%Z.eqb_eq] end;
      [give_control uconstr:(BindChallenge _ _ _ _ _ _)|give_control uconstr:(BindResponse _ _ _ _ _ _)].
  - subst t. destruct (cut_fields [16; 8; 1; 1]%nat rest) as (fs & -> & Hf);
      [done|simpl; lia|]. open_fields. rewrite <-concat_app. give_control uconstr:(CandidateResult _ _ _ _).
Qed.

(** What is encoded is parsed back. *)
Lemma control_parse_encoded c l :
  typed_control c → control_rules c → control_encode c = Ok l → control_parse l = Ok c.
Proof.
  intros Ht Hr. rewrite control_encode_layout. intros <-%Ok_inj. rewrite control_parse_layout by done.
  by rewrite (proj2 (control_rules_checks c Ht) Hr).
Qed.

(** The control parser accepts exactly the encodings of well-formed controls: a byte string
    parses to a control exactly when the control has the machine types of its fields, a non-zero
    candidate, a slot of 0 or 1 and a result of 1 to 3, and encodes to that byte string.  In
    particular every control has one encoding and parsing never panics on it. *)
Theorem control_parse_iff_encode l c :
  wf_bytes l →
  (control_parse l = Ok c ↔ typed_control c ∧ control_rules c ∧ control_encode c = Ok l).
Proof.
  intros Hw. rewrite control_encode_layout. split.
  - intros Hp. assert (∃ c', typed_control c' ∧ l = concat (control_layout c')) as (c' & Hc' & ->).
    { unfold control_parse in Hp. apply bind_Ok in Hp as ([] & Hbad & Hp); [done|].
      apply orM_Ok_false in Hbad as [Hbad H6%slice_ne_false].
      apply orM_Ok_false in Hbad as [Hbad H5%byte_ne_false].
      apply orM_Ok_false in Hbad as [Hbad H0%slice_ne_false]. apply Ok_inj, Z.ltb_ge in Hbad.
      apply bind_Ok in Hp as (c' & Hp & _). by eapply parse_body_surjective. }
    rewrite control_parse_layout in Hp by done.
    destruct (_ || _) eqn:Hr in Hp; [done|]. apply Ok_inj in Hp as <-.
    by apply control_rules_checks in Hr.
  - intros (Ht & Hr & He). apply control_parse_encoded; [done..|]. by rewrite control_encode_layout.
Qed.

Lemma control_parse_iff_encode_witness :
  let l := MAGIC ++ [5; 1; 0; 0] ++ replicate 16 1 ++ be_bytes 8 7 ++ [0; 2] in
  control_parse l = Ok (CandidateResult (replicate 16 1) 7 0 2) ∧
  ∀ c, control_parse l = Ok c → control_encode c = Ok l.
Proof.
  assert (wf_bytes (MAGIC ++ [5; 1; 0; 0] ++ replicate 16 1 ++ be_bytes 8 7 ++ [0; 2])) as Hw
    by compute_decide.
  split; [vm_compute; reflexivity|].
  intros c Hc. apply (control_parse_iff_encode _ c Hw) in Hc as (_ & _ & He). exact He.
Defined.

Lemma safe_control_parse l : safe (control_parse l).
Proof.
  unfold control_parse. apply safe_bind.
  - destruct (len l <? 8) eqn:Hl; [done|]. apply (len_lt_length _ 8) in Hl. solve_safe; lia.
  - intros [] Hbad; [done|]. do 3 apply orM_Ok_false in Hbad as [Hbad _].
    apply Ok_inj, (len_lt_length _ 8) in Hbad.
    apply safe_bind; [|intros; by case_match].
    unfold control_parse_body. apply safe_bind; [apply safe_idx; lia|]. intros t _.
    assert (∀ o n, safe (get_slice l o n)) as Hg by (intros; unfold get_slice; by case_decide).
    assert (∀ o, safe (u64at l o)) as Hu
      by (intros o; unfold u64at; specialize (Hg o 8%nat); by destruct (get_slice l o 8)).
    unfold a16. repeat case_match; try done;
      repeat match goal with H : _ && _ = true |- _ => apply andb_true_iff in H as [_ ?%Z.eqb_eq] end;
      unfold len in *; solve_safe; try apply Hg; try apply Hu; try lia.
Qed.

(** ** What a token and a signature cover *)

Definition wf_mobility_context (c : MobilityContext) : Prop :=
  is_u8 (mc_profile c) ∧ is_u64 (mc_scid c) ∧ wf_identity (mc_sender c) ∧
  wf_identity (mc_receiver c) ∧ is_u32 (mc_policy_id c).
Definition wf_token_fields (f : TokenFields) : Prop :=
  wf_array 16 (tf_candidate_id f) ∧ wf_array 16 (tf_loc f) ∧ wf_binding (tf_binding f) ∧
  is_u64 (tf_epoch f) ∧ is_u8 (tf_path_slot f) ∧ is_u64 (tf_expiry_ms f).
Definition wf_loc_update_fields (f : LocUpdateFields) : Prop :=
  wf_array 16 (lu_candidate_id f) ∧ wf_array 16 (lu_old_loc f) ∧ wf_array 16 (lu_new_loc f) ∧
  is_u64 (lu_epoch f) ∧ is_u8 (lu_path_slot f).

#[export] Instance wf_mobility_context_dec c : Decision (wf_mobility_context c).
Proof. apply _. Defined.
#[export] Instance wf_token_fields_dec f : Decision (wf_token_fields f).
Proof. apply _. Defined.
#[export] Instance wf_loc_update_fields_dec f : Decision (wf_loc_update_fields f).
Proof. apply _. Defined.

Lemma token_input_inv c f input :
  token_input c f = Ok input →
  binding_validate (tf_binding f) = Ok () ∧
  role_known (id_role (mc_sender c)) = true ∧
  profile_allows_slot (mc_profile c) (tf_path_slot f) = true ∧
  input = ascii_bytes "R8 bind v1" ++ [SESSION_VERSION; mc_profile c] ++
      be_bytes 8 (mc_scid c) ++ id_eid (mc_sender c) ++ id_eid (mc_receiver c) ++
      tf_candidate_id f ++ tf_loc f ++ binding_encode (tf_binding f) ++
      [if id_role (mc_sender c) =? 1 then 1 else 2] ++
      be_bytes 8 (tf_epoch f) ++ [tf_path_slot f] ++ be_bytes 4 (mc_policy_id c) ++
      be_bytes 8 (tf_expiry_ms f).
Proof.
  unfold token_input. intros H. apply bind_Ok in H as ([] & Hbad & H); [done|].
  apply Ok_inj in H as <-. apply orM_Ok_false in Hbad as [Hb Hbad%Ok_inj].
  destruct (binding_validate _) as [[]| |]; [|done..].
  repeat apply orb_false_iff in Hbad as [Hbad ?]. by rewrite !negb_false_iff in *.
Qed.

(** A binding token covers everything it authorizes: two token inputs that are equal come from
    the same candidate, locator, carrier binding, epoch, slot and expiry, under the same profile,
    session, policy, endpoint identifiers and direction. *)
Theorem token_input_unambiguous c1 f1 c2 f2 input :
  wf_mobility_context c1 → wf_token_fields f1 → wf_mobility_context c2 → wf_token_fields f2 →
  token_input c1 f1 = Ok input → token_input c2 f2 = Ok input →
  f1 = f2 ∧ mc_profile c1 = mc_profile c2 ∧ mc_scid c1 = mc_scid c2 ∧
  mc_policy_id c1 = mc_policy_id c2 ∧ id_eid (mc_sender c1) = id_eid (mc_sender c2) ∧
  id_eid (mc_receiver c1) = id_eid (mc_receiver c2) ∧
  id_role (mc_sender c1) = id_role (mc_sender c2).
Proof.
  intros (?&?&(?&?&[]&_)&(?&?&[]&_)&?) ([]&[]&?&?&?&?) (?&?&(?&?&[]&_)&(?&?&[]&_)&?) ([]&[]&?&?&?&?).
  intros (Hv1 & Hr1 & _ & ->)%token_input_inv (Hv2 & Hr2 & _ & Heq)%token_input_inv.
  apply app_inj_len in Heq as [_ Heq]; [|done]. peel Heq.
  apply binding_encode_prefix in Heq as [? Heq]; [|done..]. peel Heq. inj_be.
  unfold role_known in *. destruct f1, f2; simpl in *. simplify_eq.
  split_and!; try done. repeat case_match; lia.
Qed.

Lemma token_input_unambiguous_witness :
  let c := mkMobilityContext 0 5 (mkIdentity 1 9 (replicate 16 1) (replicate 32 2))
             (mkIdentity 2 9 (replicate 16 3) (replicate 32 4)) 7 in
  let f := mkTokenFields (replicate 16 1) (replicate 16 2) (Native 3 [2; 0; 0; 0; 0; 1]) 4 0 99 in
  ∀ f', wf_token_fields f' → token_input c f' = token_input c f → f' = f.
Proof.
  intros c f f' Hf' Heq.
  assert (token_input c f =
    Ok (match token_input c f with Ok l => l | _ => [] end)) as Hok by (vm_compute; reflexivity).
  assert (wf_mobility_context c) as Hc by compute_decide.
  assert (wf_token_fields f) as Hf by compute_decide.
  rewrite Hok in Heq. exact (proj1 (token_input_unambiguous c f' c f _ Hc Hf' Hc Hf Heq Hok)).
Defined.

(** The signed input of a location update determines the update and its session. *)
Lemma loc_update_input_injective c1 f1 c2 f2 input :
  wf_mobility_context c1 → wf_loc_update_fields f1 → wf_mobility_context c2 → wf_loc_update_fields f2 →
  loc_update_signature_input c1 f1 = Ok input → loc_update_signature_input c2 f2 = Ok input →
  f1 = f2 ∧ mc_profile c1 = mc_profile c2 ∧ mc_scid c1 = mc_scid c2 ∧
  id_eid (mc_sender c1) = id_eid (mc_sender c2) ∧ id_eid (mc_receiver c1) = id_eid (mc_receiver c2).
Proof.
  intros (?&?&(?&?&[]&_)&(?&?&[]&_)&?) ([]&[]&[]&?&?) (?&?&(?&?&[]&_)&(?&?&[]&_)&?) ([]&[]&[]&?&?).
  unfold loc_update_signature_input. intros HI1 HI2. inv_ok. subst input.
  match goal with H : _ ++ _ = _ ++ _ |- _ => rename H into Heq end.
  peel Heq. inj_be. destruct f1, f2; simpl in *. simplify_eq. done.
Qed.
