(* ===== verification/Mobility.v ===== *)
(** * The mobility candidate manager (src/rust/crates/r8-mobility/src/lib.rs, second part)

    [CandidateManager]: a peer proposes a new locator with a signed update, is
    probed and challenged on the new carrier, answers with the token, and the
    cohort of proposals of one epoch is settled on its smallest proven
    candidate.  A control is previewed into a transition, and the transition is
    committed together with the replay proof of the packet that carried it.
    The mutex of the source is not poisoned unless an operation panics while it
    holds it, so locking is not modelled; a panic ends the run of the manager. *)

From stdpp Require Import gmap sets sorting.
From S2P Require Import Prelude Wire Checksum Codec Crypto SessionMsg Replay SessionCrypto Directional Client Server Control.
#[local] Open Scope Z_scope.

(** ** Data *)

Record Proposal : Set := mkProposal {
  pr_bytes : bytes;
  pr_candidate_id : bytes;
  pr_loc : bytes;
  pr_epoch : Z;
  pr_slot : Z;
  pr_expiry_ms : Z;
}.

Inductive CandidateState : Set := Challenged | Proven | Failed | Promoted.

Record BindResponseIdentity : Set := mkResponseIdentity {
  bri_loc : bytes;
  bri_binding : ObservedBinding;
  bri_expiry_ms : Z;
  bri_token : bytes;
}.

Record Candidate : Set := mkCandidate {
  ca_candidate_id : bytes;
  ca_loc : bytes;
  ca_epoch : Z;
  ca_slot : Z;
  ca_binding : ObservedBinding;
  ca_expiry_ms : Z;
  ca_response : option BindResponseIdentity;
  ca_state : CandidateState;
}.

Inductive ResultOrigin : Set := Emitted | Received.

Record ResultEntry : Set := mkResult {
  re_candidate_id : bytes;
  re_epoch : Z;
  re_slot : Z;
  re_bytes : bytes;
  re_expiry_ms : Z;
  re_response : option BindResponseIdentity;
  re_origin : ResultOrigin;
  re_received_binding : option ObservedBinding;
}.

Record OutboundCandidate : Set := mkOutbound {
  oc_candidate_id : bytes;
  oc_loc : bytes;
  oc_epoch : Z;
  oc_slot : Z;
  oc_binding : option ObservedBinding;
  oc_expiry_ms : Z;
}.

#[export] Instance Proposal_eq_dec : EqDecision Proposal.
Proof. solve_decision. Defined.
#[export] Instance CandidateState_eq_dec : EqDecision CandidateState.
Proof. solve_decision. Defined.
#[export] Instance BindResponseIdentity_eq_dec : EqDecision BindResponseIdentity.
Proof. solve_decision. Defined.
#[export] Instance Candidate_eq_dec : EqDecision Candidate.
Proof. solve_decision. Defined.
#[export] Instance ResultOrigin_eq_dec : EqDecision ResultOrigin.
Proof. solve_decision. Defined.
#[export] Instance ResultEntry_eq_dec : EqDecision ResultEntry.
Proof. solve_decision. Defined.
#[export] Instance OutboundCandidate_eq_dec : EqDecision OutboundCandidate.
Proof. solve_decision. Defined.

(** *** Admission authority

    [Arc::new(AdmissionCapability)] is a fresh name.  The owner is the only strong reference, so
    the weak reference of the issuer is live exactly while the owner exists; [Capabilities] holds
    the names whose owner has not been dropped. *)

Record Capabilities : Set := mkCaps { next_capability : Z; live_capabilities : gset Z }.

Record Profile3AdmissionOwner : Set := mkAdmissionOwner {
  ao_scid : Z;
  ao_policy_id : Z;
  ao_replay_binding : Profile3ReplayBinding;
  ao_capability : Z;
}.

Record Profile3AdmissionIssuer : Set := mkIssuer { ai_capability : Z }.

Record Profile3Admission : Set := mkAdmission {
  ad_owner : Profile3AdmissionOwner;
  ad_scid : Z;
  ad_policy_id : Z;
  ad_binding : ObservedBinding;
  ad_local_loc : bytes;
  ad_peer_loc : bytes;
  ad_epoch : Z;
}.

Definition owner_is_live (caps : Capabilities) (i : Profile3AdmissionIssuer) : bool :=
  bool_decide (ai_capability i ∈ live_capabilities caps).
Definition admits (caps : Capabilities) (i : Profile3AdmissionIssuer) (a : Profile3Admission) :
    bool :=
  owner_is_live caps i && (ai_capability i =? ao_capability (ad_owner a)).

(** [Profile3AdmissionOwner::issue] *)
Definition owner_issue (scid policy_id : Z) (replay_binding : Profile3ReplayBinding) :
    st Capabilities MobilityError.t (Profile3AdmissionOwner * Profile3AdmissionIssuer) := λ caps,
  if scid =? 0 then (Err MobilityError.Candidate, caps) else
  let c := next_capability caps in
  (Ok (mkAdmissionOwner scid policy_id replay_binding c, mkIssuer c),
   mkCaps (c + 1) ({[c]} ∪ live_capabilities caps)).

(** Dropping an owner. *)
Definition owner_drop (o : Profile3AdmissionOwner) (caps : Capabilities) : Capabilities :=
  mkCaps (next_capability caps) (live_capabilities caps ∖ {[ao_capability o]}).

Definition matches_replay_binding (a : Profile3Admission) (b : Profile3ReplayBinding) : bool :=
  p3_matches_binding (ao_replay_binding (ad_owner a)) b.

(** ** State *)

Record State : Set := mkState {
  st_generation : Z;
  st_closed : bool;
  st_local_epoch : Z;
  st_peer_epoch : Z;
  st_local_loc : bytes;
  st_peer_loc : bytes;
  st_current_binding : ObservedBinding;
  st_old_binding : option (ObservedBinding * Z);
  st_proposals : list Proposal;
  st_candidates : list Candidate;
  st_results : list ResultEntry;
  st_proposal_tokens : Z;
  st_proposal_refill_ms : Z;
  st_candidate_secret : option bytes;
  st_frozen_cohort : option (Z * list Proposal);
  st_outbound : list OutboundCandidate;
  st_emitted_results : list bytes;
  st_profile3_slot1_admitted : bool;
  st_profile3_admission : option Profile3Admission;
  st_profile3_owner : option Profile3AdmissionOwner;
  st_tombstones : list (bytes * Z);
}.

(** Assignment to one field. *)
Definition set_generation (v : Z) (s : State) : State :=
  mkState v (st_closed s) (st_local_epoch s) (st_peer_epoch s) (st_local_loc s) (st_peer_loc s)
    (st_current_binding s) (st_old_binding s) (st_proposals s) (st_candidates s) (st_results s)
    (st_proposal_tokens s) (st_proposal_refill_ms s) (st_candidate_secret s) (st_frozen_cohort s)
    (st_outbound s) (st_emitted_results s) (st_profile3_slot1_admitted s)
    (st_profile3_admission s) (st_profile3_owner s) (st_tombstones s).
Definition set_closed (v : bool) (s : State) : State :=
  mkState (st_generation s) v (st_local_epoch s) (st_peer_epoch s) (st_local_loc s)
    (st_peer_loc s) (st_current_binding s) (st_old_binding s) (st_proposals s) (st_candidates s)
    (st_results s) (st_proposal_tokens s) (st_proposal_refill_ms s) (st_candidate_secret s)
    (st_frozen_cohort s) (st_outbound s) (st_emitted_results s) (st_profile3_slot1_admitted s)
    (st_profile3_admission s) (st_profile3_owner s) (st_tombstones s).
Definition set_local_epoch (v : Z) (s : State) : State :=
  mkState (st_generation s) (st_closed s) v (st_peer_epoch s) (st_local_loc s) (st_peer_loc s)
    (st_current_binding s) (st_old_binding s) (st_proposals s) (st_candidates s) (st_results s)
    (st_proposal_tokens s) (st_proposal_refill_ms s) (st_candidate_secret s) (st_frozen_cohort s)
    (st_outbound s) (st_emitted_results s) (st_profile3_slot1_admitted s)
    (st_profile3_admission s) (st_profile3_owner s) (st_tombstones s).
Definition set_peer_epoch (v : Z) (s : State) : State :=
  mkState (st_generation s) (st_closed s) (st_local_epoch s) v (st_local_loc s) (st_peer_loc s)
    (st_current_binding s) (st_old_binding s) (st_proposals s) (st_candidates s) (st_results s)
    (st_proposal_tokens s) (st_proposal_refill_ms s) (st_candidate_secret s) (st_frozen_cohort s)
    (st_outbound s) (st_emitted_results s) (st_profile3_slot1_admitted s)
    (st_profile3_admission s) (st_profile3_owner s) (st_tombstones s).
Definition set_local_loc (v : bytes) (s : State) : State :=
  mkState (st_generation s) (st_closed s) (st_local_epoch s) (st_peer_epoch s) v (st_peer_loc s)
    (st_current_binding s) (st_old_binding s) (st_proposals s) (st_candidates s) (st_results s)
    (st_proposal_tokens s) (st_proposal_refill_ms s) (st_candidate_secret s) (st_frozen_cohort s)
    (st_outbound s) (st_emitted_results s) (st_profile3_slot1_admitted s)
    (st_profile3_admission s) (st_profile3_owner s) (st_tombstones s).
Definition set_peer_loc (v : bytes) (s : State) : State :=
  mkState (st_generation s) (st_closed s) (st_local_epoch s) (st_peer_epoch s) (st_local_loc s) v
    (st_current_binding s) (st_old_binding s) (st_proposals s) (st_candidates s) (st_results s)
    (st_proposal_tokens s) (st_proposal_refill_ms s) (st_candidate_secret s) (st_frozen_cohort s)
    (st_outbound s) (st_emitted_results s) (st_profile3_slot1_admitted s)
    (st_profile3_admission s) (st_profile3_owner s) (st_tombstones s).
Definition set_current_binding (v : ObservedBinding) (s : State) : State :=
  mkState (st_generation s) (st_closed s) (st_local_epoch s) (st_peer_epoch s) (st_local_loc s)
    (st_peer_loc s) v (st_old_binding s) (st_proposals s) (st_candidates s) (st_results s)
    (st_proposal_tokens s) (st_proposal_refill_ms s) (st_candidate_secret s) (st_frozen_cohort s)
    (st_outbound s) (st_emitted_results s) (st_profile3_slot1_admitted s)
    (st_profile3_admission s) (st_profile3_owner s) (st_tombstones s).
Definition set_old_binding (v : option (ObservedBinding * Z)) (s : State) : State :=
  mkState (st_generation s) (st_closed s) (st_local_epoch s) (st_peer_epoch s) (st_local_loc s)
    (st_peer_loc s) (st_current_binding s) v (st_proposals s) (st_candidates s) (st_results s)
    (st_proposal_tokens s) (st_proposal_refill_ms s) (st_candidate_secret s) (st_frozen_cohort s)
    (st_outbound s) (st_emitted_results s) (st_profile3_slot1_admitted s)
    (st_profile3_admission s) (st_profile3_owner s) (st_tombstones s).
Definition set_proposals (v : list Proposal) (s : State) : State :=
  mkState (st_generation s) (st_closed s) (st_local_epoch s) (st_peer_epoch s) (st_local_loc s)
    (st_peer_loc s) (st_current_binding s) (st_old_binding s) v (st_candidates s) (st_results s)
    (st_proposal_tokens s) (st_proposal_refill_ms s) (st_candidate_secret s) (st_frozen_cohort s)
    (st_outbound s) (st_emitted_results s) (st_profile3_slot1_admitted s)
    (st_profile3_admission s) (st_profile3_owner s) (st_tombstones s).
Definition set_candidates (v : list Candidate) (s : State) : State :=
  mkState (st_generation s) (st_closed s) (st_local_epoch s) (st_peer_epoch s) (st_local_loc s)
    (st_peer_loc s) (st_current_binding s) (st_old_binding s) (st_proposals s) v (st_results s)
    (st_proposal_tokens s) (st_proposal_refill_ms s) (st_candidate_secret s) (st_frozen_cohort s)
    (st_outbound s) (st_emitted_results s) (st_profile3_slot1_admitted s)
    (st_profile3_admission s) (st_profile3_owner s) (st_tombstones s).
Definition set_results (v : list ResultEntry) (s : State) : State :=
  mkState (st_generation s) (st_closed s) (st_local_epoch s) (st_peer_epoch s) (st_local_loc s)
    (st_peer_loc s) (st_current_binding s) (st_old_binding s) (st_proposals s) (st_candidates s) v
    (st_proposal_tokens s) (st_proposal_refill_ms s) (st_candidate_secret s) (st_frozen_cohort s)
    (st_outbound s) (st_emitted_results s) (st_profile3_slot1_admitted s)
    (st_profile3_admission s) (st_profile3_owner s) (st_tombstones s).
Definition set_proposal_tokens (v : Z) (s : State) : State :=
  mkState (st_generation s) (st_closed s) (st_local_epoch s) (st_peer_epoch s) (st_local_loc s)
    (st_peer_loc s) (st_current_binding s) (st_old_binding s) (st_proposals s) (st_candidates s)
    (st_results s) v (st_proposal_refill_ms s) (st_candidate_secret s) (st_frozen_cohort s)
    (st_outbound s) (st_emitted_results s) (st_profile3_slot1_admitted s)
    (st_profile3_admission s) (st_profile3_owner s) (st_tombstones s).
Definition set_proposal_refill_ms (v : Z) (s : State) : State :=
  mkState (st_generation s) (st_closed s) (st_local_epoch s) (st_peer_epoch s) (st_local_loc s)
    (st_peer_loc s) (st_current_binding s) (st_old_binding s) (st_proposals s) (st_candidates s)
    (st_results s) (st_proposal_tokens s) v (st_candidate_secret s) (st_frozen_cohort s)
    (st_outbound s) (st_emitted_results s) (st_profile3_slot1_admitted s)
    (st_profile3_admission s) (st_profile3_owner s) (st_tombstones s).
Definition set_candidate_secret (v : option bytes) (s : State) : State :=
  mkState (st_generation s) (st_closed s) (st_local_epoch s) (st_peer_epoch s) (st_local_loc s)
    (st_peer_loc s) (st_current_binding s) (st_old_binding s) (st_proposals s) (st_candidates s)
    (st_results s) (st_proposal_tokens s) (st_proposal_refill_ms s) v (st_frozen_cohort s)
    (st_outbound s) (st_emitted_results s) (st_profile3_slot1_admitted s)
    (st_profile3_admission s) (st_profile3_owner s) (st_tombstones s).
Definition set_frozen_cohort (v : option (Z * list Proposal)) (s : State) : State :=
  mkState (st_generation s) (st_closed s) (st_local_epoch s) (st_peer_epoch s) (st_local_loc s)
    (st_peer_loc s) (st_current_binding s) (st_old_binding s) (st_proposals s) (st_candidates s)
    (st_results s) (st_proposal_tokens s) (st_proposal_refill_ms s) (st_candidate_secret s) v
    (st_outbound s) (st_emitted_results s) (st_profile3_slot1_admitted s)
    (st_profile3_admission s) (st_profile3_owner s) (st_tombstones s).
Definition set_outbound (v : list OutboundCandidate) (s : State) : State :=
  mkState (st_generation s) (st_closed s) (st_local_epoch s) (st_peer_epoch s) (st_local_loc s)
    (st_peer_loc s) (st_current_binding s) (st_old_binding s) (st_proposals s) (st_candidates s)
    (st_results s) (st_proposal_tokens s) (st_proposal_refill_ms s) (st_candidate_secret s)
    (st_frozen_cohort s) v (st_emitted_results s) (st_profile3_slot1_admitted s)
    (st_profile3_admission s) (st_profile3_owner s) (st_tombstones s).
Definition set_emitted_results (v : list bytes) (s : State) : State :=
  mkState (st_generation s) (st_closed s) (st_local_epoch s) (st_peer_epoch s) (st_local_loc s)
    (st_peer_loc s) (st_current_binding s) (st_old_binding s) (st_proposals s) (st_candidates s)
    (st_results s) (st_proposal_tokens s) (st_proposal_refill_ms s) (st_candidate_secret s)
    (st_frozen_cohort s) (st_outbound s) v (st_profile3_slot1_admitted s)
    (st_profile3_admission s) (st_profile3_owner s) (st_tombstones s).
Definition set_profile3_slot1_admitted (v : bool) (s : State) : State :=
  mkState (st_generation s) (st_closed s) (st_local_epoch s) (st_peer_epoch s) (st_local_loc s)
    (st_peer_loc s) (st_current_binding s) (st_old_binding s) (st_proposals s) (st_candidates s)
    (st_results s) (st_proposal_tokens s) (st_proposal_refill_ms s) (st_candidate_secret s)
    (st_frozen_cohort s) (st_outbound s) (st_emitted_results s) v (st_profile3_admission s)
    (st_profile3_owner s) (st_tombstones s).
Definition set_profile3_admission (v : option Profile3Admission) (s : State) : State :=
  mkState (st_generation s) (st_closed s) (st_local_epoch s) (st_peer_epoch s) (st_local_loc s)
    (st_peer_loc s) (st_current_binding s) (st_old_binding s) (st_proposals s) (st_candidates s)
    (st_results s) (st_proposal_tokens s) (st_proposal_refill_ms s) (st_candidate_secret s)
    (st_frozen_cohort s) (st_outbound s) (st_emitted_results s) (st_profile3_slot1_admitted s) v
    (st_profile3_owner s) (st_tombstones s).
Definition set_profile3_owner (v : option Profile3AdmissionOwner) (s : State) : State :=
  mkState (st_generation s) (st_closed s) (st_local_epoch s) (st_peer_epoch s) (st_local_loc s)
    (st_peer_loc s) (st_current_binding s) (st_old_binding s) (st_proposals s) (st_candidates s)
    (st_results s) (st_proposal_tokens s) (st_proposal_refill_ms s) (st_candidate_secret s)
    (st_frozen_cohort s) (st_outbound s) (st_emitted_results s) (st_profile3_slot1_admitted s)
    (st_profile3_admission s) v (st_tombstones s).
Definition set_tombstones (v : list (bytes * Z)) (s : State) : State :=
  mkState (st_generation s) (st_closed s) (st_local_epoch s) (st_peer_epoch s) (st_local_loc s)
    (st_peer_loc s) (st_current_binding s) (st_old_binding s) (st_proposals s) (st_candidates s)
    (st_results s) (st_proposal_tokens s) (st_proposal_refill_ms s) (st_candidate_secret s)
    (st_frozen_cohort s) (st_outbound s) (st_emitted_results s) (st_profile3_slot1_admitted s)
    (st_profile3_admission s) (st_profile3_owner s) v.

Inductive Action : Set :=
| CacheProposal (proposal : Proposal) (tokens refill_ms : Z)
| Challenge (candidate : Candidate)
| ExistingChallenge (candidate : Candidate)
| Respond (control : bytes)
| CommitLocal (epoch : Z) (loc : bytes) (binding : ObservedBinding) (promote : bool)
    (result : ResultEntry)
| Prove (candidate_id : bytes) (epoch slot grace_until_ms : Z) (response : BindResponseIdentity)
| NoAction.

Record Transition : Set := mkTransition {
  tr_generation : Z;
  tr_owner_id : Z;
  tr_action : Action;
  tr_protected_proof : option ProtectedReplayProof;
  tr_profile3_proof : option Profile3ReplayProof;
}.

(** The immutable part of the manager. *)
Record CandidateManager : Set := mkManager {
  cm_signing : bytes;
  cm_local : Identity;
  cm_peer : Identity;
  cm_profile : Z;
  cm_scid : Z;
  cm_policy_id : Z;
  cm_owner_id : Z;
  cm_protected_replay_binding : option ProtectedReplayBinding;
}.

Definition peer_context (m : CandidateManager) : MobilityContext :=
  mkMobilityContext (cm_profile m) (cm_scid m) (cm_peer m) (cm_local m) (cm_policy_id m).
Definition local_context (m : CandidateManager) : MobilityContext :=
  mkMobilityContext (cm_profile m) (cm_scid m) (cm_local m) (cm_peer m) (cm_policy_id m).

(** ** Helpers *)

Definition frozen_slots (s : State) : Z :=
  match st_frozen_cohort s with Some (_, members) => len members | None => 0 end.

(** [Vec::push] *)
Definition push {A} (x : A) (l : list A) : list A := l ++ [x].

Definition record_tombstone (candidate_id : bytes) (now_ms : Z) (s : State) : State :=
  if existsb (λ t, beq t.1 candidate_id) (st_tombstones s) then s else
  let t := if len (st_tombstones s) =? RESULT_CACHE_SLOTS then tail (st_tombstones s)
           else st_tombstones s in
  set_tombstones (push (candidate_id, sat_add now_ms 10000) t) s.

(** The encoding cannot fail: [control_encode] is [Ok]. *)
Definition result_entry (p : Proposal) (result now_ms : Z) (response : option BindResponseIdentity) :
    outcome MobilityError.t ResultEntry :=
  match control_encode (CandidateResult (pr_candidate_id p) (pr_epoch p) (pr_slot p) result) with
  | Ok b => Ok (mkResult (pr_candidate_id p) (pr_epoch p) (pr_slot p) b (sat_add now_ms 10000)
                  response Emitted None)
  | _ => Panic
  end.

Definition settled (c : CandidateState) : bool :=
  match c with Proven | Failed => true | _ => false end.
Definition is_proven (c : CandidateState) : bool := match c with Proven => true | _ => false end.
Definition is_failed (c : CandidateState) : bool := match c with Failed => true | _ => false end.
Definition is_challenged (c : CandidateState) : bool :=
  match c with Challenged => true | _ => false end.

Definition set_ca_state (v : CandidateState) (c : Candidate) : Candidate :=
  mkCandidate (ca_candidate_id c) (ca_loc c) (ca_epoch c) (ca_slot c) (ca_binding c)
    (ca_expiry_ms c) (ca_response c) v.
Definition set_ca_response (v : option BindResponseIdentity) (c : Candidate) : Candidate :=
  mkCandidate (ca_candidate_id c) (ca_loc c) (ca_epoch c) (ca_slot c) (ca_binding c)
    (ca_expiry_ms c) v (ca_state c).
Definition set_oc_binding (v : option ObservedBinding) (c : OutboundCandidate) : OutboundCandidate :=
  mkOutbound (oc_candidate_id c) (oc_loc c) (oc_epoch c) (oc_slot c) v (oc_expiry_ms c).

(** A candidate with this identifier. *)
Definition has_id (id : bytes) (c : Candidate) : bool := beq (ca_candidate_id c) id.

(** The order of [sort_unstable] on 16-byte arrays; equal keys are equal arrays. *)
Definition id_le (a b : bytes) : Prop := be_value a ≤ be_value b.
#[export] Instance id_le_dec a b : Decision (id_le a b).
Proof. unfold id_le. apply _. Defined.

(** [iter().max()] *)
Definition max_epoch (l : list Z) : option Z :=
  match l with [] => None | x :: l => Some (foldl Z.max x l) end.

(** ** Settling a cohort *)

Section Settle.
Context (s : State) (members : list Proposal).

(** Some member is still proposed and its candidate neither proven nor failed. *)
Definition cohort_blocked : bool :=
  existsb (λ p,
    existsb (λ q, beq (pr_candidate_id q) (pr_candidate_id p)) (st_proposals s) &&
    existsb (λ c, has_id (pr_candidate_id p) c && negb (settled (ca_state c))) (st_candidates s))
  members.

Definition cohort_proven : list bytes :=
  merge_sort id_le
    (pr_candidate_id <$> filter (λ p,
      existsb (λ c, has_id (pr_candidate_id p) c && is_proven (ca_state c)) (st_candidates s) = true)
      members).

Definition cohort_result (winner : option bytes) (p : Proposal) : Z :=
  match winner with
  | Some w =>
      if beq w (pr_candidate_id p) then 1
      else if existsb (has_id (pr_candidate_id p)) (st_candidates s) then 2 else 3
  | None => 3
  end.

Definition cohort_outcome (winner : option bytes) (now_ms : Z) (p : Proposal) :
    outcome MobilityError.t ResultEntry :=
  let response := find (has_id (pr_candidate_id p)) (st_candidates s) ≫= ca_response in
  result_entry p (cohort_result winner p) now_ms response.
End Settle.

Fixpoint mapO {E A B} (f : A → outcome E B) (l : list A) : outcome E (list B) :=
  match l with
  | [] => Ok []
  | x :: l => y ← f x; ys ← mapO f l; Ok (y :: ys)
  end.

(** Taking the owner into an admission; overwriting an admission would drop its owner, which the
    flag [profile3_slot1_admitted] excludes. *)
Definition admit_slot1 (scid : Z) (binding : ObservedBinding) (local_loc peer_loc : bytes)
    (epoch : Z) (s : State) : State :=
  if st_profile3_slot1_admitted s then s else
  match st_profile3_owner s with
  | None => s
  | Some owner =>
      set_profile3_slot1_admitted true
        (set_profile3_admission
           (Some (mkAdmission owner scid (ao_policy_id owner) binding local_loc peer_loc epoch))
           (set_profile3_owner None s))
  end.

(** Profile 3, admitted: the manager's work is done. *)
Definition clear_after_admission (s : State) : State :=
  set_candidate_secret None (set_frozen_cohort None (set_outbound [] (set_candidates []
    (set_proposals [] (set_results [] s))))).

(** Profiles 0 to 2: the peer moves to the winner's locator and binding. *)
Definition promote_peer (epoch : Z) (winner : Candidate) (now_ms : Z) (s : State) : State :=
  set_current_binding (ca_binding winner)
    (set_old_binding (Some (st_current_binding s, sat_add now_ms OLD_BINDING_GRACE_MS))
       (set_peer_loc (ca_loc winner) (set_peer_epoch epoch s))).

Definition mark_cohort (epoch : Z) (winner : bytes) (s : State) : State :=
  set_candidates
    ((λ c, if ca_epoch c =? epoch
           then set_ca_state (if beq (ca_candidate_id c) winner then Promoted else Failed) c
           else c) <$> st_candidates s) s.

(** Publish the results and forget the cohort and everything older. *)
Definition publish_cohort (epoch : Z) (outcomes : list ResultEntry) (s : State) : State :=
  set_frozen_cohort None
    (set_candidates (filter (λ c, epoch <? ca_epoch c = true) (st_candidates s))
       (set_proposals (filter (λ p, epoch <? pr_epoch p = true) (st_proposals s))
          (set_results (st_results s ++ outcomes)
             (set_emitted_results (st_emitted_results s ++ (re_bytes <$> outcomes)) s)))).

(** [debug_assert!] unwinds in a build with debug assertions; a release build goes on. *)
Definition settle_frozen_cohort `{DA : Build} (profile scid now_ms : Z) : st State MobilityError.t bool := λ s,
  match st_frozen_cohort s with
  | None => (Ok false, s)
  | Some (epoch, members) =>
      if cohort_blocked s members then (Ok false, s) else
      if RESULT_CACHE_SLOTS <? len (st_emitted_results s) + len members then (Ok false, s) else
      let winner := head (cohort_proven s members) in
      match mapO (cohort_outcome s winner now_ms) members with
      | Err e => (Err e, s)
      | Panic => (Panic, s)
      | Ok outcomes =>
          if debug_assertions && (RESULT_CACHE_SLOTS <? len (st_results s) + len outcomes)
          then (Panic, s) else
          match winner with
          | None => (Ok true, publish_cohort epoch outcomes s)
          | Some w =>
              match find (has_id w) (st_candidates s) with
              | None => (Panic, s)
              | Some candidate =>
                  if profile =? 3 then
                    let s := admit_slot1 scid (ca_binding candidate) (st_local_loc s)
                               (ca_loc candidate) epoch s in
                    if st_profile3_slot1_admitted s then
                      (Ok true,
                       clear_after_admission (set_emitted_results (re_bytes <$> outcomes) s))
                    else (Ok true, publish_cohort epoch outcomes (mark_cohort epoch w s))
                  else
                    (Ok true, publish_cohort epoch outcomes
                                (mark_cohort epoch w (promote_peer epoch candidate now_ms s)))
              end
          end
      end
  end.

(** ** Construction *)

Record CandidateManagerConfig : Set := mkManagerConfig {
  cf_signing : bytes;
  cf_local : Identity;
  cf_peer : Identity;
  cf_profile : Z;
  cf_scid : Z;
  cf_policy_id : Z;
  cf_local_loc : bytes;
  cf_peer_loc : bytes;
  cf_initial_peer_binding : ObservedBinding;
  cf_candidate_secret : bytes;
}.

Definition initial_state (c : CandidateManagerConfig) (owner : option Profile3AdmissionOwner) : State :=
  mkState 0 false 0 0 (cf_local_loc c) (cf_peer_loc c) (cf_initial_peer_binding c) None [] [] [] 2 0
    (Some (cf_candidate_secret c)) None [] [] false None owner [].

Definition is_err {E A} (m : outcome E A) : outcome MobilityError.t bool :=
  match m with Ok _ => Ok false | Err _ => Ok true | Panic => Panic end.

Section Manager.
Context `{C : Crypto} `{DA : Build}.

(** The counter is [NEXT_CANDIDATE_MANAGER_OWNER_ID]. *)
Definition new_inner (c : CandidateManagerConfig) (owner : option Profile3AdmissionOwner)
    (replay_binding : option ProtectedReplayBinding) :
    st Z MobilityError.t (CandidateManager * State) :=
  bad ← lift (Ok ((3 <? cf_profile c) || (cf_scid c =? 0))
    ||? is_err (identity_validate (cf_local c))
    ||? is_err (identity_validate (cf_peer c))
    ||? is_err (binding_validate (cf_initial_peer_binding c))
    ||? Ok (id_role (cf_local c) =? id_role (cf_peer c))
    ||? Ok (negb (beq (ed25519_public (cf_signing c)) (id_public_key (cf_local c))))
    ||? Ok ((cf_profile c =? 3) &&
            match owner with
            | None => true
            | Some o => negb (ao_scid o =? cf_scid c) || negb (ao_policy_id o =? cf_policy_id c)
            end)
    ||? Ok (negb (cf_profile c =? 3) && bool_decide (is_Some owner))
    ||? Ok (negb (cf_profile c =? 3) && bool_decide (replay_binding = None))
    ||? Ok ((cf_profile c =? 3) && bool_decide (is_Some replay_binding)));
  if bad : bool then throw MobilityError.Candidate else
  λ next_id,
  match checked_add next_id 1 with
  | None => (Err MobilityError.Replay, next_id)
  | Some next =>
      (Ok (mkManager (cf_signing c) (cf_local c) (cf_peer c) (cf_profile c) (cf_scid c)
             (cf_policy_id c) next_id replay_binding,
           initial_state c owner), next)
  end.

Definition new_with_protected_replay_binding (c : CandidateManagerConfig)
    (b : ProtectedReplayBinding) := new_inner c None (Some b).
Definition new_with_profile3_admission_owner (c : CandidateManagerConfig)
    (o : Profile3AdmissionOwner) := new_inner c (Some o) None.

(** ** Proposing and probing *)

Definition tombstoned (s : State) (candidate_id : bytes) (now_ms : Z) : bool :=
  existsb (λ t, beq t.1 candidate_id && (now_ms <? t.2)) (st_tombstones s).

Definition propose_local (m : CandidateManager) (candidate_id new_loc : bytes)
    (epoch path_slot now_ms : Z) : st State MobilityError.t Control :=
  s ← get;
  if st_closed s || beq candidate_id (replicate 16 0) || (epoch <=? st_local_epoch s)
     || negb (profile_allows_slot (cm_profile m) path_slot)
     || ((cm_profile m =? 3) && st_profile3_slot1_admitted s)
     || tombstoned s candidate_id now_ms
  then throw MobilityError.Candidate else
  let update := sign_loc_update (cm_signing m) (local_context m)
                  (mkLocUpdateFields candidate_id (st_local_loc s) new_loc epoch path_slot) in
  match find (λ c, beq (oc_candidate_id c) candidate_id) (st_outbound s) with
  | Some existing =>
      if beq (oc_loc existing) new_loc && (oc_epoch existing =? epoch) &&
         (oc_slot existing =? path_slot)
      then lift update else throw MobilityError.Candidate
  | None =>
      if len (st_outbound s) =? PROPOSAL_SLOTS then throw MobilityError.Capacity else
      update ← lift update;
      put (set_outbound (push (mkOutbound candidate_id new_loc epoch path_slot None
                                 (sat_add now_ms 5000)) (st_outbound s)) s) ;;
      s ← get;
      generation ← lift (ok_or (checked_add (st_generation s) 1) MobilityError.Replay);
      put (set_generation generation s) ;;
      mret update
  end.

Definition make_probe (m : CandidateManager) (candidate_id : bytes) (carrier : ObservedBinding)
    (probe_nonce : bytes) (now_ms : Z) : st State MobilityError.t Control :=
  lift (map_err (λ _, MobilityError.Candidate) (binding_validate carrier)) ;;
  s ← get;
  if st_closed s || ((cm_profile m =? 3) && st_profile3_slot1_admitted s)
  then throw MobilityError.Candidate else
  match list_find (λ c, oc_candidate_id c = candidate_id) (st_outbound s) with
  | None => throw MobilityError.Candidate
  | Some (i, candidate) =>
      if oc_expiry_ms candidate <=? now_ms then throw MobilityError.Candidate else
      let probe := BindProbe (oc_candidate_id candidate) (oc_loc candidate) (oc_epoch candidate)
                     (oc_slot candidate) probe_nonce in
      match oc_binding candidate with
      | Some binding =>
          if bool_decide (binding = carrier) then mret probe else throw MobilityError.Candidate
      | None =>
          put (set_outbound (<[i := set_oc_binding (Some carrier) candidate]> (st_outbound s)) s) ;;
          mret probe
      end
  end.

(** ** Previewing a control *)

(** One action per control, on a state that is only read. *)
Section Preview.
Context (m : CandidateManager) (s : State) (binding : ObservedBinding) (now_ms : Z).

Definition preview_loc_update (control : Control) (candidate_id old_loc new_loc : bytes)
    (epoch path_slot : Z) : outcome MobilityError.t Action :=
  verify_loc_update control (peer_context m) ;;
  if negb (beq old_loc (st_peer_loc s)) || (epoch <=? st_peer_epoch s)
     || ((cm_profile m =? 3) && st_profile3_slot1_admitted s)
  then Err MobilityError.Candidate else
  encoded ← control_encode control;
  match find (λ p, beq (pr_candidate_id p) candidate_id) (st_proposals s) with
  | Some proposal =>
      if beq (pr_bytes proposal) encoded then Ok NoAction else Err MobilityError.Candidate
  | None =>
      if match st_frozen_cohort s with Some (e, _) => epoch <=? e | None => false end
         || existsb (has_id candidate_id) (st_candidates s)
         || existsb (λ c, beq (oc_candidate_id c) candidate_id) (st_outbound s)
         || existsb (λ r, beq (re_candidate_id r) candidate_id) (st_results s)
         || tombstoned s candidate_id now_ms
      then Err MobilityError.Candidate else
      if negb (bool_decide (st_emitted_results s = [])) then Err MobilityError.Capacity else
      if (len (st_proposals s) =? PROPOSAL_SLOTS)
         || (RESULT_CACHE_SLOTS <=? len (st_results s) + len (st_proposals s))
      then Err MobilityError.Capacity else
      let elapsed := sat_sub now_ms (st_proposal_refill_ms s) / 1000 in
      let tokens := Z.min (st_proposal_tokens s + elapsed) 2 in
      if tokens =? 0 then Err MobilityError.Candidate else
      Ok (CacheProposal
            (mkProposal encoded candidate_id new_loc epoch path_slot (sat_add now_ms 5000))
            (tokens - 1) (sat_add (st_proposal_refill_ms s) (elapsed * 1000)))
  end.

Definition preview_probe (candidate_id loc : bytes) (epoch path_slot : Z) :
    outcome MobilityError.t Action :=
  proposal ← ok_or (find (λ p, beq (pr_candidate_id p) candidate_id && beq (pr_loc p) loc &&
                               (pr_epoch p =? epoch) && (pr_slot p =? path_slot) &&
                               (now_ms <? pr_expiry_ms p)) (st_proposals s))
               MobilityError.Candidate;
  match find (λ c, has_id candidate_id c && beq (ca_loc c) loc && (ca_epoch c =? epoch) &&
                   (ca_slot c =? path_slot) && bool_decide (ca_binding c = binding))
          (st_candidates s) with
  | Some candidate =>
      if is_challenged (ca_state candidate) then Ok (ExistingChallenge candidate)
      else Err MobilityError.Candidate
  | None =>
      let bindings := if st_old_binding s then 2 else 1 in
      if (len (st_candidates s) =? LIVE_CANDIDATES_MAX) || (bindings =? LIVE_CANDIDATES_MAX)
      then Err MobilityError.Capacity else
      Ok (Challenge (mkCandidate (pr_candidate_id proposal) (pr_loc proposal) (pr_epoch proposal)
                       (pr_slot proposal) binding (sat_add now_ms CHALLENGE_EXPIRY_MS) None
                       Challenged))
  end.

(** The result that is cached for a candidate and not expired. *)
Definition cached_result (candidate_id : bytes) (epoch path_slot : Z) : option ResultEntry :=
  find (λ r, beq (re_candidate_id r) candidate_id && (re_epoch r =? epoch) &&
             (re_slot r =? path_slot) && (now_ms <? re_expiry_ms r)) (st_results s).

(** The cohort a proof of [epoch] would freeze, and whether its results would fit. *)
Definition cohort_overflows (epoch : Z) : outcome MobilityError.t bool :=
  greatest ← ok_or (max_epoch (pr_epoch <$> st_proposals s)) MobilityError.Candidate;
  let fresh := filter (λ p, pr_epoch p = greatest) (st_proposals s) in
  let members :=
    match st_frozen_cohort s with
    | Some (e, members) => if e =? greatest then members else fresh
    | None => fresh
    end in
  Ok (bool_decide (st_frozen_cohort s = None) && (epoch =? greatest) &&
      (RESULT_CACHE_SLOTS <? len (st_results s) + len members)).

Definition preview_response (candidate_id loc : bytes) (epoch path_slot expiry_ms : Z)
    (supplied : bytes) : outcome MobilityError.t Action :=
  let response := mkResponseIdentity loc binding expiry_ms supplied in
  match cached_result candidate_id epoch path_slot with
  | Some result =>
      if bool_decide (re_response result = Some response) then Ok (Respond (re_bytes result))
      else Err MobilityError.Candidate
  | None =>
      candidate ← ok_or (find (λ c, has_id candidate_id c && beq (ca_loc c) loc &&
                                    (ca_epoch c =? epoch) && (ca_slot c =? path_slot) &&
                                    bool_decide (ca_binding c = binding)) (st_candidates s))
                    MobilityError.Candidate;
      if negb (is_challenged (ca_state candidate)) then Err MobilityError.Candidate else
      if (ca_expiry_ms candidate <=? now_ms) || negb (expiry_ms =? ca_expiry_ms candidate)
      then Err MobilityError.Timeout else
      secret ← ok_or (st_candidate_secret s) MobilityError.Candidate;
      expected ← token secret (peer_context m)
                   (mkTokenFields candidate_id loc binding epoch path_slot expiry_ms);
      if negb (beq expected supplied) then Err MobilityError.Candidate else
      overflow ← cohort_overflows epoch;
      if overflow : bool then Err MobilityError.Capacity else
      Ok (Prove candidate_id epoch path_slot now_ms response)
  end.

Definition preview_challenge (candidate_id loc : bytes) (epoch path_slot expiry_ms : Z)
    (tok : bytes) : outcome MobilityError.t Action :=
  candidate ← ok_or (find (λ c, beq (oc_candidate_id c) candidate_id && beq (oc_loc c) loc &&
                                (oc_epoch c =? epoch) && (oc_slot c =? path_slot) &&
                                bool_decide (oc_binding c = Some binding) &&
                                (now_ms <? oc_expiry_ms c)) (st_outbound s))
                MobilityError.Candidate;
  response ← control_encode (BindResponse (oc_candidate_id candidate) (oc_loc candidate)
                               (oc_epoch candidate) (oc_slot candidate) expiry_ms tok);
  Ok (Respond response).

Definition preview_result (control : Control) (candidate_id : bytes) (epoch path_slot result : Z) :
    outcome MobilityError.t Action :=
  encoded ← control_encode control;
  match cached_result candidate_id epoch path_slot with
  | Some entry =>
      if bool_decide (re_origin entry = Received) && beq (re_bytes entry) encoded &&
         bool_decide (re_received_binding entry = Some binding)
      then Ok NoAction else Err MobilityError.Candidate
  | None =>
      candidate ← ok_or (find (λ c, beq (oc_candidate_id c) candidate_id &&
                                    (oc_epoch c =? epoch) && (oc_slot c =? path_slot) &&
                                    bool_decide (oc_binding c = Some binding) &&
                                    (now_ms <? oc_expiry_ms c)) (st_outbound s))
                    MobilityError.Candidate;
      if RESULT_CACHE_SLOTS <=? len (st_results s) + frozen_slots s
      then Err MobilityError.Capacity else
      b ← expect (oc_binding candidate);
      Ok (CommitLocal (oc_epoch candidate) (oc_loc candidate) b (result =? 1)
            (mkResult candidate_id epoch path_slot encoded (sat_add now_ms 10000) None Received
               (Some binding)))
  end.

Definition preview_action (control : Control) : outcome MobilityError.t Action :=
  match control with
  | LocUpdate id old_loc new_loc epoch _ _ slot _ =>
      preview_loc_update control id old_loc new_loc epoch slot
  | BindProbe id loc epoch slot _ => preview_probe id loc epoch slot
  | BindResponse id loc epoch slot expiry tok => preview_response id loc epoch slot expiry tok
  | BindChallenge id loc epoch slot expiry tok => preview_challenge id loc epoch slot expiry tok
  | CandidateResult id epoch slot result => preview_result control id epoch slot result
  end.

Definition preview_inner (plaintext : bytes) (proof : option ProtectedReplayProof)
    (proof3 : option Profile3ReplayProof) : outcome MobilityError.t Transition :=
  map_err (λ _, MobilityError.Candidate) (binding_validate binding) ;;
  control ← control_parse plaintext;
  if negb (profile_allows_slot (cm_profile m) (control_slot control))
  then Err MobilityError.Candidate else
  if st_closed s || (st_generation s =? u64_max)
     || ((cm_profile m =? 3) && st_profile3_slot1_admitted s)
  then Err MobilityError.Candidate else
  action ← preview_action control;
  Ok (mkTransition (st_generation s) (cm_owner_id m) action proof proof3).

(** [w] holds the leases the proof's plaintext depends on. *)
Definition preview_protected (w : World) (plaintext : bytes) (proof : ProtectedReplayProof) :
    outcome MobilityError.t Transition :=
  if (cm_profile m =? 3) || negb (matches_plaintext w proof plaintext)
     || negb (match cm_protected_replay_binding m with
              | Some b => matches_proof b proof | None => false end)
  then Err MobilityError.Replay else
  preview_inner plaintext (Some proof) None.

Definition preview_profile3 (plaintext : bytes) (proof : Profile3ReplayProof) :
    outcome MobilityError.t Transition :=
  if negb (cm_profile m =? 3) || negb (p3_matches_plaintext proof plaintext)
  then Err MobilityError.Candidate else
  if negb (match st_profile3_owner s with
           | Some o => p3_matches_proof (ao_replay_binding o) proof | None => false end)
  then Err MobilityError.Replay else
  preview_inner plaintext None (Some proof).
End Preview.

(** ** Responding *)

Definition response_for (m : CandidateManager) (t : Transition) (s : State) :
    outcome MobilityError.t (option Control) :=
  if st_closed s || negb (tr_owner_id t =? cm_owner_id m)
     || negb (st_generation s =? tr_generation t)
  then Err MobilityError.Replay else
  match tr_action t with
  | Challenge candidate | ExistingChallenge candidate =>
      secret ← ok_or (st_candidate_secret s) MobilityError.Candidate;
      tok ← token secret (peer_context m)
              (mkTokenFields (ca_candidate_id candidate) (ca_loc candidate) (ca_binding candidate)
                 (ca_epoch candidate) (ca_slot candidate) (ca_expiry_ms candidate));
      Ok (Some (BindChallenge (ca_candidate_id candidate) (ca_loc candidate) (ca_epoch candidate)
                  (ca_slot candidate) (ca_expiry_ms candidate) tok))
  | Respond control => Some <$> control_parse control
  | _ => Ok None
  end.

(** ** Committing a transition *)

Definition mutates (a : Action) : bool :=
  match a with ExistingChallenge _ | Respond _ | NoAction => false | _ => true end.

Definition commit_local (m : CandidateManager) (epoch : Z) (loc : bytes) (binding : ObservedBinding)
    (promote : bool) (result : ResultEntry) (s : State) : State :=
  let s := set_results (push result (st_results s)) s in
  if promote then
    let s :=
      if cm_profile m =? 3 then
        let s := admit_slot1 (cm_scid m) binding loc (st_peer_loc s) epoch s in
        if st_profile3_slot1_admitted s then clear_after_admission s else s
      else
        set_current_binding binding
          (set_old_binding (Some (st_current_binding s, re_expiry_ms result))
             (set_local_loc loc (set_local_epoch epoch s))) in
    set_outbound (filter (λ c, epoch <? oc_epoch c = true) (st_outbound s)) s
  else
    set_outbound (filter (λ c, oc_candidate_id c ≠ re_candidate_id result) (st_outbound s)) s.

Definition prove_candidate (candidate_id : bytes) (epoch slot : Z) (response : BindResponseIdentity)
    (s : State) : outcome MobilityError.t State :=
  match list_find (λ c, ca_candidate_id c = candidate_id ∧ ca_epoch c = epoch ∧ ca_slot c = slot)
          (st_candidates s) with
  | None => Panic
  | Some (i, candidate) =>
      Ok (set_candidates
            (<[i := set_ca_response (Some response) (set_ca_state Proven candidate)]>
               (st_candidates s)) s)
  end.

Definition freeze_cohort (epoch : Z) (s : State) : State :=
  set_frozen_cohort (Some (epoch, filter (λ p, pr_epoch p = epoch) (st_proposals s))) s.

Definition freeze_proven (epoch : Z) (s : State) : State :=
  if bool_decide (st_frozen_cohort s = None) &&
     bool_decide (max_epoch (pr_epoch <$> st_proposals s) = Some epoch)
  then freeze_cohort epoch s else s.

Definition apply_action (m : CandidateManager) (a : Action) : st State MobilityError.t unit :=
  match a with
  | CacheProposal proposal tokens refill_ms => λ s,
      (Ok (), set_proposals (push proposal (st_proposals s))
                (set_proposal_refill_ms refill_ms (set_proposal_tokens tokens s)))
  | Challenge candidate => λ s,
      (Ok (), set_candidates (push candidate (st_candidates s)) s)
  | CommitLocal epoch loc binding promote result => λ s,
      (Ok (), commit_local m epoch loc binding promote result s)
  | Prove candidate_id epoch slot grace_until_ms response => λ s,
      match prove_candidate candidate_id epoch slot response s with
      | Ok s =>
          let '(r, s) := settle_frozen_cohort (cm_profile m) (cm_scid m) grace_until_ms
                           (freeze_proven epoch s) in
          match r with Ok _ => (Ok (), s) | Err e => (Err e, s) | Panic => (Panic, s) end
      | Err e => (Err e, s)
      | Panic => (Panic, s)
      end
  | ExistingChallenge _ | Respond _ | NoAction => mret ()
  end.

Definition apply_after_replay (m : CandidateManager) (t : Transition) :
    st State MobilityError.t unit :=
  s ← get;
  next_generation ← lift (if mutates (tr_action t)
                          then ok_or (checked_add (st_generation s) 1) MobilityError.Replay
                          else Ok (st_generation s));
  apply_action m (tr_action t) ;;
  s ← get;
  if mutates (tr_action t) then put (set_generation next_generation s) else mret ().

Definition stale (m : CandidateManager) (s : State) (t : Transition) : bool :=
  st_closed s || negb (st_generation s =? tr_generation t).

(** [commit_protected_replay] over the object that owns the replay window: [commit] is the call
    of the closure, whose errors become [Replay]. *)
Definition commit_protected_replay {R} (m : CandidateManager)
    (commit : ProtectedReplayProof → R → outcome SessionError.t unit * ProtectedReplayProof * R)
    (t : Transition) : st (State * R) MobilityError.t unit := λ '(s, r),
  if (cm_profile m =? 3) || negb (tr_owner_id t =? cm_owner_id m)
  then (Err MobilityError.Replay, (s, r)) else
  match tr_protected_proof t with
  | None => (Err MobilityError.Replay, (s, r))
  | Some proof =>
      if stale m s t then (Err MobilityError.Replay, (s, r)) else
      let '(res, proof, r) := commit proof r in
      match res with
      | Panic => (Panic, (s, r))
      | Err _ => (Err MobilityError.Replay, (s, r))
      | Ok _ =>
          if negb (is_committed proof) then (Err MobilityError.Replay, (s, r)) else
          let '(res, s) := apply_after_replay m t s in (res, (s, r))
      end
  end.

Definition commit_protected (m : CandidateManager) :=
  commit_protected_replay m session_commit_protected_replay.
Definition commit_protected_client (m : CandidateManager) :=
  commit_protected_replay m client_commit_protected_replay.
Definition commit_protected_server (m : CandidateManager) (scid now_ms : Z) :=
  commit_protected_replay m (λ p mw, server_commit_protected_replay scid p now_ms mw).

Definition commit_profile3 (m : CandidateManager) (t : Transition) :
    st (State * DirectionalSession) MobilityError.t unit := λ '(s, session),
  if negb (cm_profile m =? 3) || negb (tr_owner_id t =? cm_owner_id m)
  then (Err MobilityError.Replay, (s, session)) else
  match tr_profile3_proof t with
  | None => (Err MobilityError.Replay, (s, session))
  | Some proof =>
      if stale m s t then (Err MobilityError.Replay, (s, session)) else
      let '(res, proof, session) := commit_profile3_replay proof session in
      match res with
      | Panic => (Panic, (s, session))
      | Err _ => (Err MobilityError.Replay, (s, session))
      | Ok _ =>
          if negb (p3_is_committed proof) then (Err MobilityError.Replay, (s, session)) else
          let '(res, s) := apply_after_replay m t s in (res, (s, session))
      end
  end.

(** ** Expiry

    [expire] is a sequence of steps that each report whether they changed the state. *)

Fixpoint any_step {S E A} (f : A → st S E bool) (l : list A) : st S E bool :=
  match l with
  | [] => mret false
  | x :: l => a ← f x; b ← any_step f l; mret (a || b)
  end.

(** [retain]: it changes the state when it removes an element. *)
Definition retain {A} (keep : A → bool) (l : list A) : list A := filter (λ x, keep x = true) l.
Definition retains {A} (keep : A → bool) (l : list A) : bool :=
  negb (len (retain keep l) =? len l).

Definition fail_candidate (c : Candidate) : Candidate :=
  set_ca_response None (set_ca_state Failed c).

Definition challenge_expired (now_ms : Z) (c : Candidate) : bool :=
  (ca_expiry_ms c <=? now_ms) && is_challenged (ca_state c).

Definition fail_challenged (now_ms : Z) : st State MobilityError.t bool := λ s,
  (Ok (existsb (challenge_expired now_ms) (st_candidates s)),
   set_candidates ((λ c, if challenge_expired now_ms c then fail_candidate c else c)
                     <$> st_candidates s) s).

(** The first candidate of an expired member fails unless it is settled. *)
Definition expire_member (now_ms : Z) (p : Proposal) : st State MobilityError.t bool := λ s,
  let expired := pr_expiry_ms p <=? now_ms in
  if negb expired then (Ok false, s) else
  let '(changed, s) :=
    match list_find (λ c, ca_candidate_id c = pr_candidate_id p) (st_candidates s) with
    | Some (i, c) =>
        if settled (ca_state c) then (false, s)
        else (true, set_candidates (<[i := fail_candidate c]> (st_candidates s)) s)
    | None => (true, s)
    end in
  (Ok changed, record_tombstone (pr_candidate_id p) now_ms s).

Definition retain_results (now_ms : Z) : st State MobilityError.t bool := λ s,
  let keep r := now_ms <? re_expiry_ms r in
  (Ok (retains keep (st_results s)), set_results (retain keep (st_results s)) s).

(** The candidate is a member of the cohort that was frozen when [expire] was called. *)
Definition is_member (frozen_members : list Proposal) (candidate_id : bytes) : bool :=
  existsb (λ p, beq (pr_candidate_id p) candidate_id) frozen_members.

Definition timeout_failures (frozen_members : list Proposal) (s : State) : list Proposal :=
  omap (λ c, find (λ p, beq (pr_candidate_id p) (ca_candidate_id c)) (st_proposals s))
    (filter (λ c, is_failed (ca_state c) && negb (is_member frozen_members (ca_candidate_id c)) = true)
       (st_candidates s)).

Definition cache_timeout (now_ms : Z) (p : Proposal) : st State MobilityError.t bool := λ s,
  if (RESULT_CACHE_SLOTS <=? len (st_results s)) || (RESULT_CACHE_SLOTS <=? len (st_emitted_results s))
     || existsb (λ r, beq (re_candidate_id r) (pr_candidate_id p)) (st_results s)
  then (Ok false, s) else
  match result_entry p 3 now_ms None with
  | Ok result =>
      (Ok true, set_results (push result (st_results s))
                  (set_emitted_results (push (re_bytes result) (st_emitted_results s)) s))
  | Err e => (Err e, s)
  | Panic => (Panic, s)
  end.

Definition expired_ids (now_ms : Z) (s : State) : list bytes :=
  (pr_candidate_id <$> filter (λ p, pr_expiry_ms p <=? now_ms = true) (st_proposals s)) ++
  (oc_candidate_id <$> filter (λ c, oc_expiry_ms c <=? now_ms = true) (st_outbound s)).

Definition tombstone_expired (now_ms : Z) (s : State) : State :=
  let s := foldl (λ s id, record_tombstone id now_ms s) s (expired_ids now_ms s) in
  set_tombstones (retain (λ t, now_ms <? t.2) (st_tombstones s)) s.

Definition retain_proposals (now_ms : Z) : st State MobilityError.t bool := λ s,
  let keep p := now_ms <? pr_expiry_ms p in
  (Ok (retains keep (st_proposals s)), set_proposals (retain keep (st_proposals s)) s).

(** A frozen cohort none of whose epoch is left is dropped. *)
Definition drop_empty_cohort : st State MobilityError.t bool := λ s,
  match st_frozen_cohort s with
  | Some (epoch, _) =>
      if existsb (λ p, pr_epoch p =? epoch) (st_proposals s) then (Ok false, s)
      else (Ok true, set_frozen_cohort None s)
  | None => (Ok false, s)
  end.

(** With no cohort frozen, that of the greatest epoch with a proven candidate is. *)
Definition freeze_proven_proposals : st State MobilityError.t bool := λ s,
  match st_frozen_cohort s with
  | Some _ => (Ok false, s)
  | None =>
      let proven p :=
        existsb (λ c, has_id (pr_candidate_id p) c && is_proven (ca_state c)) (st_candidates s) in
      match max_epoch (pr_epoch <$> retain proven (st_proposals s)) with
      | Some epoch => (Ok true, freeze_cohort epoch s)
      | None => (Ok false, s)
      end
  end.

Definition retain_candidates (frozen_members : list Proposal) : st State MobilityError.t bool := λ s,
  let keep c := negb (is_failed (ca_state c)) || is_member frozen_members (ca_candidate_id c) in
  (Ok (retains keep (st_candidates s)), set_candidates (retain keep (st_candidates s)) s).

Definition retain_outbound (now_ms : Z) : st State MobilityError.t bool := λ s,
  let keep c := now_ms <? oc_expiry_ms c in
  (Ok (retains keep (st_outbound s)), set_outbound (retain keep (st_outbound s)) s).

Definition expire_old_binding (now_ms : Z) : st State MobilityError.t bool := λ s,
  match st_old_binding s with
  | Some (_, expiry) =>
      if expiry <=? now_ms then (Ok true, set_old_binding None s) else (Ok false, s)
  | None => (Ok false, s)
  end.

(** The assignments [close] and an exhausted generation share. *)
Definition clear_all (s : State) : State :=
  set_tombstones [] (set_candidate_secret None (set_frozen_cohort None (set_old_binding None
    (set_profile3_owner None (set_profile3_admission None (set_emitted_results []
      (set_outbound [] (set_results [] (set_candidates [] (set_proposals []
        (set_closed true s))))))))))).

Definition bump_or_close (s : State) : State :=
  match checked_add (st_generation s) 1 with
  | Some g => set_generation g s
  | None => clear_all s
  end.

Definition expire (m : CandidateManager) (now_ms : Z) : st State MobilityError.t unit :=
  s ← get;
  if st_closed s then mret () else
  let frozen_members := match st_frozen_cohort s with Some (_, members) => members | None => [] end in
  c1 ← fail_challenged now_ms;
  c2 ← any_step (expire_member now_ms) frozen_members;
  c3 ← settle_frozen_cohort (cm_profile m) (cm_scid m) now_ms;
  c4 ← retain_results now_ms;
  s ← get;
  c5 ← any_step (cache_timeout now_ms) (timeout_failures frozen_members s);
  s ← get;
  put (tombstone_expired now_ms s) ;;
  c6 ← retain_proposals now_ms;
  c7 ← drop_empty_cohort;
  c8 ← freeze_proven_proposals;
  c9 ← retain_candidates frozen_members;
  c10 ← retain_outbound now_ms;
  c11 ← expire_old_binding now_ms;
  c12 ← settle_frozen_cohort (cm_profile m) (cm_scid m) now_ms;
  s ← get;
  if c1 || c2 || c3 || c4 || c5 || c6 || c7 || c8 || c9 || c10 || c11 || c12
  then put (bump_or_close s) else mret ().

(** ** Closing, queries and draining *)

Definition close (s : State) : State :=
  let s := clear_all s in set_generation (sat_add (st_generation s) 1) s.
Definition restart (s : State) : State := close s.

Definition policy_id (m : CandidateManager) : Z := cm_policy_id m.
Definition peer_loc (s : State) : bytes := st_peer_loc s.
Definition local_loc (s : State) : bytes := st_local_loc s.
Definition current_binding (s : State) : option ObservedBinding := Some (st_current_binding s).

Definition binding_allowed_inbound (s : State) (binding : ObservedBinding) (now_ms : Z) : bool :=
  is_ok (binding_validate binding) &&
  (bool_decide (binding = st_current_binding s)
   || match st_old_binding s with
      | Some (old, expiry) => bool_decide (binding = old) && (now_ms <? expiry)
      | None => false
      end).

Definition take_results (s : State) : list Control * State :=
  (omap (λ l, match control_parse l with Ok c => Some c | _ => None end) (st_emitted_results s),
   set_emitted_results [] s).

Definition take_profile3_admissions (s : State) : list Profile3Admission * State :=
  if negb (bool_decide (st_emitted_results s = [])) then ([], s) else
  (match st_profile3_admission s with Some a => [a] | None => [] end,
   set_profile3_admission None s).

(** Owners the state holds, and the liveness of their capabilities after a call that lets go of
    some (an admission that is taken out stays alive in the hands of the caller). *)
Definition held_capabilities (s : State) : gset Z :=
  match st_profile3_owner s with Some o => {[ao_capability o]} | None => ∅ end ∪
  match st_profile3_admission s with Some a => {[ao_capability (ad_owner a)]} | None => ∅ end.
Definition drop_released (before after : State) (caps : Capabilities) : Capabilities :=
  mkCaps (next_capability caps)
    (live_capabilities caps ∖ (held_capabilities before ∖ held_capabilities after)).
Definition close_owned (s : State) (caps : Capabilities) : State * Capabilities :=
  (close s, drop_released s (close s) caps).

End Manager.
