(* ===== verification/MobilityInv.v ===== *)
(** * What the candidate manager guarantees

    The runs of a manager are a step relation over its calls, together with the
    transitions that were previewed and not yet dropped and with the history of
    the run: the carriers this end probed and the controls it received, each with
    the carrier and the time it was previewed at.  The theorems: the state stays
    within its capacities and well formed, in either build; a transition is
    applied at most once, and only to the state it was previewed on; the peer
    moves only to a locator of an update that was received and verified, and
    after a response was received whose token is the one issued for that update,
    the carrier the response came from and its expiry; a profile-3 owner is
    turned into at most one admission. *)

From stdpp Require Import gmap sets sorting.
From S2P Require Import Prelude Wire Checksum Codec Crypto SessionMsg Replay SessionCrypto Directional Client Server Control Mobility.
#[local] Open Scope Z_scope.

(** ** Runs *)

(** A control that was received and accepted by a preview: the carrier it came from, the time and the
    bytes. *)
Record Receipt : Set := mkReceipt {
  rc_binding : ObservedBinding;
  rc_now : Z;
  rc_plaintext : bytes;
}.

(** What a run has exchanged: the carriers this end was told to probe from, and what it received. *)
Record History : Set := mkHistory {
  hi_probed : list ObservedBinding;
  hi_received : list Receipt;
}.
Definition no_history : History := mkHistory [] [].
Definition add_probed (b : ObservedBinding) (B : History) : History :=
  mkHistory (b :: hi_probed B) (hi_received B).
Definition add_received (x : Receipt) (B : History) : History :=
  mkHistory (hi_probed B) (x :: hi_received B).

#[export] Instance history_subseteq : SubsetEq History := λ B B',
  hi_probed B ⊆ hi_probed B' ∧ hi_received B ⊆ hi_received B'.
#[export] Instance history_preorder : PreOrder (⊆@{History}).
Proof.
  split; [by split|]. intros B1 B2 B3 [P12 R12] [P23 R23]. split; by etrans.
Qed.
Lemma probed_more b B : B ⊆ add_probed b B.
Proof. split; simpl; set_solver. Qed.
Lemma received_more x B : B ⊆ add_received x B.
Proof. split; simpl; set_solver. Qed.

(** A manager, the transitions it has issued, the history of the run and the admissions that were
    taken out of it. *)
Record Sys : Set := mkSys {
  sy_state : State;
  sy_issued : list Transition;
  sy_history : History;
  sy_admitted : list Profile3Admission;
}.

(** No probe of this transition opens a second candidate for an identifier. *)
Definition fresh_probe (s : State) (t : Transition) : bool :=
  match tr_action t with
  | Challenge c => negb (existsb (has_id (ca_candidate_id c)) (st_candidates s))
  | _ => true
  end.

Section Runs.
Context `{C : Crypto} `{DA : Build} (m : CandidateManager).

(** One call that does not unwind.  [single] restricts the runs to those in which the peer probes
    each candidate from one carrier only. *)
Inductive mstep (single : bool) : Sys → Sys → Prop :=
| step_propose id loc epoch slot now s T B a r s' :
    propose_local m id loc epoch slot now s = (r, s') → r ≠ Panic →
    mstep single (mkSys s T B a) (mkSys s' T B a)
| step_probe id carrier nonce now s T B a r s' :
    make_probe m id carrier nonce now s = (r, s') → r ≠ Panic →
    mstep single (mkSys s T B a) (mkSys s' T (add_probed carrier B) a)
| step_preview binding now plaintext proof proof3 s T B a t :
    preview_inner m s binding now plaintext proof proof3 = Ok t →
    mstep single (mkSys s T B a)
      (mkSys s (t :: T) (add_received (mkReceipt binding now plaintext) B) a)
| step_commit_protected {R} commit t s T B a (x : R) r s' x' :
    t ∈ T → (single = true → fresh_probe s t = true) →
    commit_protected_replay m commit t (s, x) = (r, (s', x')) → r ≠ Panic →
    mstep single (mkSys s T B a) (mkSys s' T B a)
| step_commit_profile3 t s T B a x r s' x' :
    t ∈ T → (single = true → fresh_probe s t = true) →
    commit_profile3 m t (s, x) = (r, (s', x')) → r ≠ Panic →
    mstep single (mkSys s T B a) (mkSys s' T B a)
| step_expire now s T B a r s' :
    expire m now s = (r, s') → r ≠ Panic →
    mstep single (mkSys s T B a) (mkSys s' T B a)
| step_close s T B a : mstep single (mkSys s T B a) (mkSys (close s) T B a)
| step_take_results s T B a l s' :
    take_results s = (l, s') → mstep single (mkSys s T B a) (mkSys s' T B a)
| step_take_admissions s T B a l s' :
    take_profile3_admissions s = (l, s') → mstep single (mkSys s T B a) (mkSys s' T B (l ++ a)).

Inductive reachable (single : bool) (s0 : State) : Sys → Prop :=
| reach_init : reachable single s0 (mkSys s0 [] no_history [])
| reach_step x y : reachable single s0 x → mstep single x y → reachable single s0 y.
End Runs.

(** Case analysis on the condition a call starts with. *)
Ltac cond_case H Hc :=
  match type of H with
  | (if ?c then _ else _) _ = _ => destruct c eqn:Hc
  | (if ?c then _ else _) = _ => destruct c eqn:Hc
  end.

(** ** Well-formed managers *)

(** What a signed update fixes: the candidate, its locator, epoch and slot. *)
Definition key : Type := bytes * (bytes * Z * Z).
Definition pkey (p : Proposal) : key :=
  (pr_candidate_id p, (pr_loc p, pr_epoch p, pr_slot p)).
Definition ckey (c : Candidate) : key :=
  (ca_candidate_id c, (ca_loc c, ca_epoch c, ca_slot c)).
Definition key_loc (k : key) : bytes := k.2.1.1.

Section Invariant.
Context `{C : Crypto} `{DA : Build} (m : CandidateManager).
(** The secret, locator and carrier the session starts with, the run's discipline. *)
Context (K : bytes) (L0 : bytes) (B0 : ObservedBinding) (single : bool).

(** An update to this key was received, and the signature it carries is the peer's. *)
Definition signed_update (B : History) (k : key) : Prop :=
  let '(id, (loc, epoch, slot)) := k in
  ∃ x old_loc signature, x ∈ hi_received B ∧
    let update := LocUpdate id old_loc loc epoch 0 5000 slot signature in
    control_parse (rc_plaintext x) = Ok update ∧ verify_loc_update update (peer_context m) = Ok ().

(** A response for this key was received from the carrier of [r] before it expired, and the token it
    carries is the one this end issues for the key, that carrier and that expiry. *)
Definition token_returned (B : History) (k : key) (r : BindResponseIdentity) : Prop :=
  let '(id, (loc, epoch, slot)) := k in
  ∃ x, x ∈ hi_received B ∧ rc_binding x = bri_binding r ∧ rc_now x < bri_expiry_ms r ∧
    control_parse (rc_plaintext x) = Ok (BindResponse id loc epoch slot (bri_expiry_ms r) (bri_token r)) ∧
    token K (peer_context m) (mkTokenFields id loc (rc_binding x) epoch slot (bri_expiry_ms r))
    = Ok (bri_token r).

(** This end probed a carrier, and a result was received from it that accepts the move to an epoch. *)
Definition move_accepted (B : History) (epoch : Z) (b : ObservedBinding) : Prop :=
  b ∈ hi_probed B ∧ ∃ x id slot, x ∈ hi_received B ∧ rc_binding x = b ∧
    control_parse (rc_plaintext x) = Ok (CandidateResult id epoch slot 1).

(** A proven candidate has its response; in a run with single probes its carrier is the candidate's
    own. *)
Definition proof_ok (B : History) (c : Candidate) : Prop :=
  ca_state c = Proven →
  ∃ r, ca_response c = Some r ∧ token_returned B (ckey c) r ∧
       (single = true → bri_binding r = ca_binding c).

Definition keys (ps : list Proposal) (cs : list Candidate) : list key :=
  (pkey <$> ps) ++ (ckey <$> cs).

Record wf_auth (B : History) (ps : list Proposal) (cs : list Candidate) : Prop := {
  wa_signed k : k ∈ keys ps cs → signed_update B k;
  wa_agree k1 k2 : k1 ∈ keys ps cs → k2 ∈ keys ps cs → k1.1 = k2.1 → k1 = k2;
  wa_proven c : c ∈ cs → proof_ok B c;
  wa_single : single = true → NoDup (ca_candidate_id <$> cs);
}.

Record wf_epochs (s : State) : Prop := {
  we_frozen e ms : st_frozen_cohort s = Some (e, ms) →
    len ms ≤ 2 ∧ st_peer_epoch s < e ∧ ∃ p, p ∈ st_proposals s ∧ pr_epoch p = e;
  we_proposals p : p ∈ st_proposals s → st_peer_epoch s < pr_epoch p;
  we_outbound c : c ∈ st_outbound s → st_local_epoch s < oc_epoch c;
}.

(** The capacities.  That of the result cache is kept by an assertion of the debug build; without
    it a settled cohort may overfill the cache, by no more than the proposals it used up. *)
Record wf_bounds (s : State) : Prop := {
  wb_proposals : len (st_proposals s) ≤ PROPOSAL_SLOTS;
  wb_candidates : len (st_candidates s) ≤ LIVE_CANDIDATES_MAX;
  wb_asserted : debug_assertions = true → len (st_results s) ≤ RESULT_CACHE_SLOTS;
  wb_results : len (st_results s) + 2 * len (st_proposals s) ≤ RESULT_CACHE_SLOTS + 2 * PROPOSAL_SLOTS;
  wb_outbound : len (st_outbound s) ≤ PROPOSAL_SLOTS;
  wb_emitted : len (st_emitted_results s) ≤ RESULT_CACHE_SLOTS;
  wb_tombstones : len (st_tombstones s) ≤ RESULT_CACHE_SLOTS;
  wb_tokens : 0 ≤ st_proposal_tokens s ≤ 2;
  wb_generation : is_u64 (st_generation s);
}.

(** The peer's locator is the one of the handshake or one the peer signed and answered for; the
    carrier in use is the one of the handshake, one this end probed and moved to, or one a token came
    back from. *)
Record wf_path (B : History) (s : State) : Prop := {
  wp_peer : st_peer_loc s = L0 ∨
    ∃ k r, key_loc k = st_peer_loc s ∧ signed_update B k ∧ token_returned B k r;
  wp_binding : single = true →
    st_current_binding s = B0 ∨ move_accepted B (st_local_epoch s) (st_current_binding s) ∨
    ∃ k r, bri_binding r = st_current_binding s ∧ key_loc k = st_peer_loc s ∧
           signed_update B k ∧ token_returned B k r;
  wp_outbound c b : c ∈ st_outbound s → oc_binding c = Some b → b ∈ hi_probed B;
}.

(** The owner becomes an admission, and both are gone once it is taken. *)
Definition wf_admission (s : State) : Prop :=
  (st_profile3_slot1_admitted s = true → st_profile3_owner s = None) ∧
  (st_profile3_slot1_admitted s = false → st_profile3_admission s = None).

Record wf_manager (B : History) (s : State) : Prop := {
  wm_auth : wf_auth B (st_proposals s) (st_candidates s);
  wm_epochs : wf_epochs s;
  wm_bounds : wf_bounds s;
  wm_path : wf_path B s;
  wm_admission : wf_admission s;
  wm_secret : st_candidate_secret s = Some K ∨ st_candidate_secret s = None;
}.

(** *** Authenticated lists *)

(** [cs'] is part of [cs], with candidates demoted at most. *)
Definition derived (cs' cs : list Candidate) : Prop :=
  (ca_candidate_id <$> cs') `sublist_of` (ca_candidate_id <$> cs) ∧
  ∀ c', c' ∈ cs' → ∃ c, c ∈ cs ∧ ckey c' = ckey c ∧ (ca_state c' = Proven → c' = c).

Lemma derived_refl cs : derived cs cs.
Proof. split; [done|]. eauto. Qed.

Lemma derived_trans cs1 cs2 cs3 : derived cs1 cs2 → derived cs2 cs3 → derived cs1 cs3.
Proof.
  intros [S1 H1] [S2 H2]. split; [by etrans|].
  intros c (c' & Hc' & Hk & Hp)%H1. apply H2 in Hc' as (c'' & ? & Hk' & Hp').
  exists c''. split_and!; [done|congruence|]. intros HP. specialize (Hp HP) as ->. by apply Hp'.
Qed.

Lemma derived_nil cs : derived [] cs.
Proof. split; [apply sublist_nil_l|]. intros ? []%elem_of_nil. Qed.

Lemma derived_filter P `{∀ c, Decision (P c)} cs : derived (filter P cs) cs.
Proof.
  split; [apply fmap_sublist, sublist_filter|]. intros c [_ ?]%list_elem_of_filter. eauto.
Qed.

Lemma derived_map (f : Candidate → Candidate) cs :
  (∀ c, ckey (f c) = ckey c) → (∀ c, ca_state (f c) = Proven → f c = c) → derived (f <$> cs) cs.
Proof.
  intros Hk Hp. split.
  - rewrite <-list_fmap_compose. erewrite list_fmap_ext; [done|].
    intros i c _. simpl. specialize (Hk c). by injection Hk.
  - intros c (c0 & -> & ?)%list_elem_of_fmap. eauto.
Qed.

Lemma derived_insert i c' c cs :
  cs !! i = Some c → ckey c' = ckey c → ca_state c' ≠ Proven → derived (<[i:=c']> cs) cs.
Proof.
  intros Hi Hk Hn. split.
  - rewrite list_fmap_insert, list_insert_id; [done|].
    rewrite list_lookup_fmap, Hi. simpl. by injection Hk as ->.
  - intros c0 [j Hj]%list_elem_of_lookup. apply list_lookup_insert_Some in Hj as [(_ & <- & _)|[_ Hj]].
    + exists c. split_and!; [by eapply list_elem_of_lookup_2|done|done].
    + exists c0. split_and!; [by eapply list_elem_of_lookup_2|done|done].
Qed.

Lemma wf_auth_derived B ps cs ps' cs' :
  wf_auth B ps cs → ps' ⊆ ps → derived cs' cs → wf_auth B ps' cs'.
Proof.
  intros [Hs Ha Hp Hn] Hps [Hsub Hd].
  assert (∀ k, k ∈ keys ps' cs' → k ∈ keys ps cs) as Hk.
  { intros k. unfold keys. rewrite !elem_of_app, !list_elem_of_fmap.
    intros [(p & -> & ?)|(c & -> & (c0 & ? & -> & _)%Hd)]; eauto. }
  split.
  - eauto.
  - eauto.
  - intros c (c0 & Hc0 & _ & Hp0)%Hd HP. specialize (Hp0 HP) as ->. by apply Hp.
  - intros Hsn. eapply sublist_NoDup; eauto.
Qed.

Lemma elem_of_keys_c ps cs c : c ∈ cs → ckey c ∈ keys ps cs.
Proof. intros. apply elem_of_app. right. by apply list_elem_of_fmap_2. Qed.
Lemma elem_of_keys_p ps cs p : p ∈ ps → pkey p ∈ keys ps cs.
Proof. intros. apply elem_of_app. left. by apply list_elem_of_fmap_2. Qed.

(** *** Steps inside a call

    What the steps of [expire] and the commits keep: the state stays well formed, epochs do not
    go back, and a locator changes only with its epoch. *)

Definition advances (s s' : State) : Prop :=
  (st_peer_epoch s < st_peer_epoch s' ∨
   st_peer_epoch s' = st_peer_epoch s ∧ st_peer_loc s' = st_peer_loc s) ∧
  (st_local_epoch s < st_local_epoch s' ∨
   st_local_epoch s' = st_local_epoch s ∧ st_local_loc s' = st_local_loc s).

#[export] Instance advances_preorder : PreOrder advances.
Proof.
  split; [by split; right|].
  intros s1 s2 s3 [P12 L12] [P23 L23]. split.
  - destruct P12 as [?|[? ?]], P23 as [?|[? ?]]; [left; lia..|right; split; congruence].
  - destruct L12 as [?|[? ?]], L23 as [?|[? ?]]; [left; lia..|right; split; congruence].
Qed.

(** The fields a previewed transition depends on. *)
Definition core (s : State) :=
  (st_generation s, st_closed s, st_proposals s, st_candidates s, st_results s,
   st_frozen_cohort s, st_peer_epoch s, st_local_epoch s).

(** How many admissions the state can still hand out. *)
Definition potential (s : State) : nat :=
  (if st_profile3_owner s then 1 else 0) + (if st_profile3_admission s then 1 else 0).

(** An inner step does not touch the generation and the closed flag, creates no owner or
    admission, and when it reports no change it made none that matters. *)
Record good (B : History) (s : State) (b : bool) (s' : State) : Prop := {
  gd_wf : wf_manager B s';
  gd_advances : advances s s';
  gd_frame : st_generation s' = st_generation s ∧ st_closed s' = st_closed s;
  gd_potential : (potential s' ≤ potential s)%nat;
  gd_same : b = false → core s' = core s;
}.

Definition good_step (B : History) (f : st State MobilityError.t bool) : Prop :=
  ∀ s r s', wf_manager B s → f s = (r, s') → r ≠ Panic → ∃ b, r = Ok b ∧ good B s b s'.

Lemma good_refl B s b : wf_manager B s → good B s b s.
Proof. split; [done|reflexivity|done|lia|done]. Qed.

Lemma good_trans B s1 b1 s2 b2 s3 :
  good B s1 b1 s2 → good B s2 b2 s3 → good B s1 (b1 || b2) s3.
Proof.
  intros [? ? [] ? Hs1] [? ? [] ? Hs2]. split; [done|by etrans|split; congruence|lia|].
  intros [? ?]%orb_false_iff. rewrite Hs2, Hs1; done.
Qed.

(** One more step of a call. *)
Lemma good_bind {A} B s0 b0 s f (k : bool → st State MobilityError.t A) r s' :
  good B s0 b0 s → good_step B f → (f ≫= k) s = (r, s') → r ≠ Panic →
  ∃ b1 s1, good B s0 (b0 || b1) s1 ∧ k b1 s1 = (r, s').
Proof.
  intros G Hf H Hr. unfold mbind, st_bind in H. destruct (f s) as [r1 s1] eqn:H1.
  destruct (Hf s r1 s1) as (b1 & -> & G1); [apply G|done|by destruct r1; simplify_eq|].
  exists b1, s1. split; [by eapply good_trans|done].
Qed.

Lemma good_any_step {A} B (f : A → st State MobilityError.t bool) l :
  (∀ x, good_step B (f x)) → good_step B (any_step f l).
Proof.
  intros Hf. induction l as [|x l IH]; intros s r s' Hw H Hr.
  - injection H as <- <-. exists false. split; [done|by apply good_refl].
  - cbn [any_step] in H. eapply (good_bind B s false s) in H as (b1 & s1 & G1 & H);
      [|by apply good_refl|by apply Hf|done].
    eapply good_bind in H as (b2 & s2 & G2 & H); [|done|done|done].
    injection H as <- <-. eauto.
Qed.

(** *** Settling *)

Lemma mapO_length {E A D} (f : A → outcome E D) l ys : mapO f l = Ok ys → len ys = len l.
Proof.
  unfold len. revert ys. induction l as [|x l IH]; intros ys H; cbn [mapO] in H.
  - by apply Ok_inj in H as <-.
  - apply bind_Ok in H as (y & _ & H). apply bind_Ok in H as (ys' & Hl & <-%Ok_inj).
    apply IH in Hl. simpl. lia.
Qed.

Lemma find_elem {A} (f : A → bool) l x : List.find f l = Some x → x ∈ l ∧ f x = true.
Proof. intros [? ?]%find_some. by rewrite list_elem_of_In. Qed.

Lemma existsb_elem {A} (f : A → bool) l : existsb f l = true ↔ ∃ x, x ∈ l ∧ f x = true.
Proof. rewrite existsb_exists. by setoid_rewrite list_elem_of_In. Qed.

(** The winner is the identifier of a proven candidate. *)
Lemma winner_proven s ms w :
  head (cohort_proven s ms) = Some w →
  ∃ c, c ∈ st_candidates s ∧ ca_candidate_id c = w ∧ ca_state c = Proven.
Proof.
  intros Hw. assert (w ∈ cohort_proven s ms) as Hin.
  { destruct (cohort_proven s ms); [done|]. injection Hw as ->. by left. }
  unfold cohort_proven in Hin. rewrite merge_sort_Permutation in Hin.
  apply list_elem_of_fmap in Hin as (p & -> & [Hp _]%list_elem_of_filter).
  apply existsb_elem in Hp as (c & Hc & [Hid Hst]%andb_true_iff).
  exists c. apply beq_true in Hid. by destruct (ca_state c).
Qed.

(** The candidate that is installed for a winner has an answered token. *)
Lemma winner_candidate B ps s ms w c :
  wf_auth B ps (st_candidates s) → head (cohort_proven s ms) = Some w →
  List.find (has_id w) (st_candidates s) = Some c →
  ∃ r, signed_update B (ckey c) ∧ token_returned B (ckey c) r ∧
       (single = true → bri_binding r = ca_binding c).
Proof.
  intros [Hs Ha Hp Hn] (c' & Hc' & Hid' & Hst)%winner_proven [Hc Hid%beq_true]%find_elem.
  assert (ckey c' = ckey c) as Hk by (apply Ha; [by apply elem_of_keys_c..|]; simpl; congruence).
  destruct (Hp c' Hc' Hst) as (r & _ & Ht & Hb). exists r. rewrite Hk in Ht.
  split_and!; [by apply Hs, elem_of_keys_c|done|]. intros Hsn. rewrite Hb by done.
  specialize (Hn Hsn). apply list_elem_of_lookup in Hc as [i Hi], Hc' as [j Hj].
  assert (i = j) as ->; [|congruence].
  eapply (NoDup_lookup _ i j w); [done|..]; rewrite list_lookup_fmap, ?Hi, ?Hj; simpl; congruence.
Qed.

Lemma len_push {A} (x : A) l : len (push x l) = len l + 1.
Proof. unfold push. rewrite len_app. done. Qed.

Lemma wf_auth_filters B ps cs P Q `{∀ p, Decision (P p)} `{∀ c, Decision (Q c)} :
  wf_auth B ps cs → wf_auth B (filter P ps) (filter Q cs).
Proof.
  intros. eapply wf_auth_derived; [done| |apply derived_filter].
  intros p [_ ?]%list_elem_of_filter. done.
Qed.

Lemma wf_admit_slot1 B scid b ll pl e s :
  wf_manager B s → wf_manager B (admit_slot1 scid b ll pl e s) ∧
  (potential (admit_slot1 scid b ll pl e s) ≤ potential s)%nat.
Proof.
  intros Hw. unfold admit_slot1. destruct (st_profile3_slot1_admitted s) eqn:Ha; [split; [done|lia]|].
  destruct (st_profile3_owner s) as [o|] eqn:Ho; [|split; [done|lia]].
  split; [|unfold potential; simpl; rewrite Ho; destruct (st_profile3_admission s); lia].
  destruct Hw as [? [] [] [] ? ?]. split; [done|by split..|done].
Qed.

Lemma good_admit_slot1 B scid b ll pl e s :
  wf_manager B s → good B s true (admit_slot1 scid b ll pl e s).
Proof.
  intros Hw. destruct (wf_admit_slot1 B scid b ll pl e s Hw).
  split; [done| |  |done|done]; unfold admit_slot1;
    destruct (st_profile3_slot1_admitted s); try done; try (by split; right);
    destruct (st_profile3_owner s); try done; by split; right.
Qed.

(** What settling the cohort of an epoch needs to know of its results: they fit what is emitted, in
    the debug build they fit the cache, and the cohort still has a proposal. *)
Record settles (e : Z) (outs : list ResultEntry) (s : State) : Prop := {
  se_emitted : len (st_emitted_results s) + len outs ≤ 2;
  se_asserted : debug_assertions = true → len (st_results s) + len outs ≤ 2;
  se_proposal : ∃ p, p ∈ st_proposals s ∧ pr_epoch p = e;
}.

(** Settling takes a proposal away for at most two results. *)
Lemma len_settled e ps :
  (∃ p, p ∈ ps ∧ pr_epoch p = e) → len (filter (λ p, (e <? pr_epoch p) = true) ps) + 1 ≤ len ps.
Proof.
  intros (p & Hp & He). unfold len.
  pose proof (length_filter_lt (λ p, (e <? pr_epoch p) = true) ps p Hp) as Hl.
  cbv beta in Hl. rewrite He, Z.ltb_irrefl in Hl. specialize (Hl ltac:(done)). lia.
Qed.

(** The cohort's epoch, and everything older, leaves the proposals and candidates. *)
Lemma wf_publish_cohort B e outs s :
  wf_auth B (st_proposals s) (st_candidates s) → wf_bounds s → wf_path B s → wf_admission s →
  (st_candidate_secret s = Some K ∨ st_candidate_secret s = None) →
  st_peer_epoch s ≤ e → (∀ c, c ∈ st_outbound s → st_local_epoch s < oc_epoch c) →
  settles e outs s → wf_manager B (publish_cohort e outs s).
Proof.
  intros Ha Hb Hp Had Hsec He Ho [Hem Hr Hpr]. split.
  - by apply wf_auth_filters.
  - split; [done| |done]. intros p [Hlt _]%list_elem_of_filter. simpl in *. lia.
  - destruct Hb. pose proof (len_settled e (st_proposals s) Hpr).
    pose proof (len_nonneg (st_emitted_results s)).
    pose proof (len_filter (λ c, (e <? ca_epoch c) = true) (st_candidates s)).
    split; try done; try (simpl; rewrite ?len_app; unfold RESULT_CACHE_SLOTS, PROPOSAL_SLOTS in *; by auto || lia).
    change (len (st_emitted_results s ++ (re_bytes <$> outs)) ≤ 2).
    rewrite len_app, len_fmap. lia.
  - destruct Hp. by split.
  - done.
  - done.
Qed.

Lemma derived_mark e w s : derived (st_candidates (mark_cohort e w s)) (st_candidates s).
Proof.
  apply derived_map; intros c; destruct (ca_epoch c =? e); [done..| |done].
  simpl. by destruct (beq _ _).
Qed.

Lemma good_publish B e ms outs s :
  wf_manager B s → st_frozen_cohort s = Some (e, ms) →
  settles e outs s → good B s true (publish_cohort e outs s).
Proof.
  intros [Ha [Hf Hps Ho] Hb Hp Had Hsec] Hfr Hse. destruct (Hf _ _ Hfr) as (? & ? & _).
  split; [|by split; right|done|done|done]. by apply wf_publish_cohort; auto; lia.
Qed.

Lemma good_mark_publish B e ms w outs s :
  wf_manager B s → st_frozen_cohort s = Some (e, ms) →
  settles e outs s → good B s true (publish_cohort e outs (mark_cohort e w s)).
Proof.
  intros [Ha [Hf Hps Ho] Hb Hp Had Hsec] Hfr [Hem Hr Hpr]. destruct (Hf _ _ Hfr) as (? & ? & _).
  split; [|by split; right|done|done|done]. apply wf_publish_cohort; auto.
  - by eapply wf_auth_derived, derived_mark.
  - destruct Hb. split; try done. simpl. unfold len. by rewrite length_fmap.
  - destruct Hp. by split.
  - simpl. lia.
  - by split.
Qed.

Lemma good_promote B e ms w c r now outs s :
  wf_manager B s → st_frozen_cohort s = Some (e, ms) →
  signed_update B (ckey c) → token_returned B (ckey c) r →
  (single = true → bri_binding r = ca_binding c) → settles e outs s →
  good B s true (publish_cohort e outs (mark_cohort e w (promote_peer e c now s))).
Proof.
  intros [Ha [Hf Hps Ho] Hb Hp Had Hsec] Hfr Hs Ht Hbi [Hem Hr Hpr]. destruct (Hf _ _ Hfr) as (? & ? & _).
  split; [|split; [left; done|by right]|done|done|done]. apply wf_publish_cohort; auto.
  - eapply wf_auth_derived; [done..|]. apply (derived_mark e w s).
  - destruct Hb. split; try done. simpl. unfold len. by rewrite length_fmap.
  - destruct Hp. split; [| |done].
    + right. by exists (ckey c), r.
    + intros Hsn. right. right. exists (ckey c), r. rewrite (Hbi Hsn). done.
  - simpl. lia.
  - by split.
Qed.

Lemma wf_cleared B s : wf_manager B s → wf_manager B (clear_after_admission s).
Proof.
  intros [Ha [] [] [] ? ?]. split; [|by split; try (intros; set_solver)| | |done|by right].
  - eapply wf_auth_derived; [done|set_solver|apply derived_nil].
  - split; simpl; try done; unfold len, PROPOSAL_SLOTS, LIVE_CANDIDATES_MAX, RESULT_CACHE_SLOTS in *;
      simpl; lia.
  - split; [done|done|]. set_solver.
Qed.

Lemma wf_set_emitted B em s : wf_manager B s → len em ≤ 2 → wf_manager B (set_emitted_results em s).
Proof. intros [Ha [] [] [] ? ?] Hem. split; try done; by split. Qed.

Lemma result_entry_Ok p res now response :
  ∃ l, result_entry p res now response =
       Ok (mkResult (pr_candidate_id p) (pr_epoch p) (pr_slot p) l (sat_add now 10000) response
             Emitted None) ∧
       control_encode (CandidateResult (pr_candidate_id p) (pr_epoch p) (pr_slot p) res) = Ok l.
Proof. eexists. split; reflexivity. Qed.

Lemma mapO_Ok {E A D} (f : A → outcome E D) l : (∀ x, ∃ y, f x = Ok y) → ∃ ys, mapO f l = Ok ys.
Proof.
  intros Hf. induction l as [|x l [ys IH]]; [by eexists|]. destruct (Hf x) as [y Hy].
  exists (y :: ys). cbn [mapO]. by rewrite Hy, IH.
Qed.

Lemma cohort_outcomes_Ok s w now ms : ∃ outs, mapO (cohort_outcome s w now) ms = Ok outs.
Proof.
  apply mapO_Ok. intros p. unfold cohort_outcome.
  edestruct (result_entry_Ok p) as (? & -> & _). by eexists.
Qed.

(** A step that ends without touching the state. *)
Ltac still :=
  match goal with
  | H : (_, ?s) = (_, _) |- _ =>
      injection H as <- <-; eexists; split; [reflexivity|by apply good_refl]
  end.

Lemma good_settle B profile scid now : good_step B (settle_frozen_cohort profile scid now).
Proof.
  intros s r s' Hw H Hrp. unfold settle_frozen_cohort in H.
  destruct (st_frozen_cohort s) as [[e ms]|] eqn:Hfr; [|still].
  destruct (cohort_blocked s ms); [still|].
  destruct (RESULT_CACHE_SLOTS <? len (st_emitted_results s) + len ms) eqn:Hem;
    [still|]. apply Z.ltb_ge in Hem.
  destruct (cohort_outcomes_Ok s (head (cohort_proven s ms)) now ms) as [outs Hout].
  rewrite Hout in H. apply mapO_length in Hout.
  destruct (debug_assertions && _) eqn:Hr; [by injection H as <- <-|].
  rewrite <-Hout in Hem. unfold RESULT_CACHE_SLOTS in *.
  assert (settles e outs s) as Hse.
  { destruct (we_frozen _ (wm_epochs _ _ Hw) _ _ Hfr) as (_ & _ & Hpr). split; [done| |done].
    intros Hd. rewrite Hd in Hr. by apply Z.ltb_ge in Hr. }
  destruct (head (cohort_proven s ms)) as [w|] eqn:Hwin;
    [|injection H as <- <-; eexists; split; [done|]; by eapply good_publish].
  destruct (List.find (has_id w) (st_candidates s)) as [c|] eqn:Hc; [|by injection H as <- <-].
  destruct (winner_candidate _ _ _ _ _ _ (wm_auth _ _ Hw) Hwin Hc) as (rr & ? & ? & ?).
  destruct (profile =? 3);
    [|injection H as <- <-; eexists; split; [done|]; by eapply good_promote].
  match type of H with context [admit_slot1 ?a ?b ?c ?d ?e s] =>
    destruct (wf_admit_slot1 B a b c d e s Hw) as [Hw' Hpot];
    set (s1 := admit_slot1 a b c d e s) in *;
    assert (∀ A (f : State → A), (∀ s o a g, f (set_profile3_slot1_admitted g
      (set_profile3_admission a (set_profile3_owner o s))) = f s) → f s1 = f s) as Hs1 end.
  { intros A f Hf. unfold s1, admit_slot1. by destruct (st_profile3_slot1_admitted s), (st_profile3_owner s). }
  destruct (st_profile3_slot1_admitted s1).
  - injection H as <- <-. eexists. split; [done|].
    split; [|split; right|split; apply Hs1; done|done|done].
    + apply wf_cleared, wf_set_emitted; [done|]. rewrite len_fmap. pose proof (len_nonneg (st_emitted_results s)). lia.
    + split; by apply Hs1.
    + split; by apply Hs1.
  - injection H as <- <-. eexists. split; [done|].
    assert (good B s1 true (publish_cohort e outs (mark_cohort e w s1))) as [? G ?? _].
    { eapply good_mark_publish; [done|by rewrite (Hs1 _ st_frozen_cohort)|]. destruct Hse.
      split; by rewrite ?(Hs1 _ st_emitted_results), ?(Hs1 _ st_results), ?(Hs1 _ st_proposals). }
    split; [done| |split; simpl; by apply Hs1|lia|done].
    destruct G as [P L]. split; simpl in *;
      rewrite ?(Hs1 _ st_peer_epoch), ?(Hs1 _ st_peer_loc), ?(Hs1 _ st_local_epoch),
        ?(Hs1 _ st_local_loc) in * by done; done.
Qed.

(** *** The steps of [expire] *)

Lemma filter_all {A} (P : A → Prop) `{∀ x, Decision (P x)} l : Forall P l → filter P l = l.
Proof. induction 1; [done|]. rewrite filter_cons_True by done. by f_equal. Qed.

Lemma retain_id {A} (keep : A → bool) l : retains keep l = false → retain keep l = l.
Proof.
  unfold retains, retain. rewrite negb_false_iff, Z.eqb_eq. intros Hl.
  apply filter_all. rewrite Forall_forall. intros x Hx.
  destruct (decide (keep x = true)); [done|].
  pose proof (length_filter_lt (λ x, keep x = true) l x Hx n). unfold len in Hl. lia.
Qed.

(** Demoting and dropping candidates. *)
Lemma good_candidates B b cs s :
  wf_manager B s → derived cs (st_candidates s) → (b = false → cs = st_candidates s) →
  good B s b (set_candidates cs s).
Proof.
  intros [Ha [] [] [] ? ?] Hd Hb. split; [|by split; right|done|done|].
  - split; [by eapply wf_auth_derived|done| |done..].
    split; try done. simpl. destruct Hd as [Hs%sublist_length _]. rewrite !length_fmap in Hs.
    unfold len in *. lia.
  - intros Hf. unfold core. simpl. by rewrite Hb.
Qed.

Lemma ckey_fail c : ckey (fail_candidate c) = ckey c.
Proof. done. Qed.

Lemma good_fail_challenged B now : good_step B (fail_challenged now).
Proof.
  intros s r s' Hw H _. injection H as <- <-. eexists. split; [done|].
  apply good_candidates; [done| |].
  - apply derived_map; intros c; by destruct (challenge_expired now c).
  - intros Hn. etrans; [|apply list_fmap_id]. apply list_fmap_ext. intros i c Hc%list_elem_of_lookup_2.
    destruct (challenge_expired now c) eqn:He; [|done].
    enough (existsb (challenge_expired now) (st_candidates s) = true) by congruence.
    apply existsb_elem. eauto.
Qed.

Lemma good_tombstone B id now s : wf_manager B s → good B s false (record_tombstone id now s).
Proof.
  intros Hw. unfold record_tombstone. destruct (existsb _ _); [by apply good_refl|].
  destruct Hw as [Ha He [] [] ? ?]. split; [|by split; right|done|done|done].
  split; [done|by destruct He| |done..]. split; try done. simpl. rewrite len_push.
  unfold RESULT_CACHE_SLOTS, len in *.
  destruct (Z.eqb_spec (Z.of_nat (length (st_tombstones s))) 2); [|lia].
  destruct (st_tombstones s); simpl in *; lia.
Qed.

Lemma good_expire_member B now p : good_step B (expire_member now p).
Proof.
  intros s r s' Hw H _. unfold expire_member in H. destruct (negb _); [still|].
  destruct (list_find _ _) as [[i c]|] eqn:Hc.
  - apply list_find_Some in Hc as (Hi & _ & _). destruct (settled (ca_state c)).
    + injection H as <- <-. eexists. split; [done|]. by apply good_tombstone.
    + injection H as <- <-. eexists. split; [done|].
      assert (good B s true (set_candidates (<[i:=fail_candidate c]> (st_candidates s)) s)) as G
        by (apply good_candidates; [done|by eapply derived_insert|done]).
      apply (good_trans B s true _ false _ G). apply good_tombstone, G.
  - injection H as <- <-. eexists. split; [done|].
    apply (good_trans B s true s false); [by apply good_refl|]. by apply good_tombstone.
Qed.

Lemma len_retain {A} (keep : A → bool) l : len (retain keep l) ≤ len l.
Proof. apply len_filter. Qed.

Lemma good_retain_results B now : good_step B (retain_results now).
Proof.
  intros s r s' Hw H _. injection H as <- <-. eexists. split; [done|].
  destruct Hw as [Ha [] [] [] ? ?]. split; [|by split; right|done|done|].
  - pose proof (len_retain (λ r, now <? re_expiry_ms r) (st_results s)).
    split; try done. split; try done; simpl; [intros Hd; specialize (wb_asserted0 Hd)|]; lia.
  - intros Hn. unfold core. simpl. by rewrite retain_id.
Qed.

Lemma good_cache_timeout B now p : good_step B (cache_timeout now p).
Proof.
  intros s r s' Hw H _. unfold cache_timeout in H. destruct (_ || _) eqn:Hc; [still|].
  apply orb_false_iff in Hc as [[Hr%Z.leb_gt He%Z.leb_gt]%orb_false_iff _].
  destruct (result_entry_Ok p 3 now None) as (l & Hl & _). rewrite Hl in H.
  injection H as <- <-. eexists. split; [done|].
  destruct Hw as [Ha [] [] [] ? ?]. split; [|by split; right|done|done|done].
  split; try done. split; try done; simpl; rewrite len_push; lia.
Qed.

Lemma good_tombstone_expired B now s : wf_manager B s → good B s false (tombstone_expired now s).
Proof.
  intros Hw. unfold tombstone_expired.
  assert (∀ ids s, wf_manager B s → good B s false
            (foldl (λ s id, record_tombstone id now s) s ids)) as Hfold.
  { induction ids as [|id ids IH]; intros s1 Hw1; [by apply good_refl|]. simpl.
    pose proof (good_tombstone B id now s1 Hw1) as G.
    apply (good_trans B s1 false _ false _ G). apply IH, G. }
  specialize (Hfold (expired_ids now s) s Hw). set (s1 := foldl _ _ _) in *. clearbody s1.
  apply (good_trans B s false s1 false _ Hfold). destruct Hfold as [[Ha [] [] [] ? ?] _ _ _ _].
  split; [|by split; right|done|done|done]. split; try done. split; try done. simpl.
  pose proof (len_retain (λ t, now <? t.2) (st_tombstones s1)). lia.
Qed.

(** A cohort may lose its last proposal, and is dropped by the next step. *)
Lemma good_retain_drop {A} B now s0 b0 s (k : bool → bool → st State MobilityError.t A) r s' :
  good B s0 b0 s →
  (c6 ← retain_proposals now; c7 ← drop_empty_cohort; k c6 c7) s = (r, s') →
  ∃ b6 b7 s1, good B s0 (b0 || b6 || b7) s1 ∧ k b6 b7 s1 = (r, s').
Proof.
  intros G H. pose proof G as [Hw _ _ _ _]. unfold mbind, st_bind, retain_proposals in H.
  set (keep := λ p, now <? pr_expiry_ms p) in H. set (s1 := set_proposals _ s) in H.
  set (b6 := retains keep (st_proposals s)) in H.
  assert (∀ c7 fr, (fr = st_frozen_cohort s ∧
      (∀ e ms, fr = Some (e, ms) → ∃ p, p ∈ retain keep (st_proposals s) ∧ pr_epoch p = e)) ∨
      (fr = None ∧ c7 = true) →
    good B s0 (b0 || b6 || c7) (set_frozen_cohort fr s1)) as Hgood.
  { intros c7 fr Hfr. rewrite <-orb_assoc. eapply good_trans; [exact G|]. destruct Hw as [Ha [Hf Hps Ho] [] [] ? ?].
    split; [|by split; right|done|done|].
    - split; try done.
      + eapply wf_auth_derived; [done| |apply derived_refl]. intros p [_ ?]%list_elem_of_filter. done.
      + split; [|by intros p [_ ?]%list_elem_of_filter; auto|done].
        intros e ms He. simpl in He. destruct Hfr as [[-> Hex]|[-> _]]; [|done].
        destruct (Hf _ _ He) as (? & ? & _). split_and!; [done|done|]. by eapply Hex.
      + split; try done; simpl; pose proof (len_retain keep (st_proposals s)); lia.
    - intros [Hn ->]%orb_false_iff. destruct Hfr as [[-> _]|[_ ?]]; [|done].
      unfold core. simpl. by rewrite (retain_id keep). }
  unfold drop_empty_cohort in H. change (st_frozen_cohort s1) with (st_frozen_cohort s) in H.
  assert (set_frozen_cohort (st_frozen_cohort s) s1 = s1) as Hs1 by done.
  destruct (st_frozen_cohort s) as [[e ms]|] eqn:Hfr; [destruct (existsb _ _) eqn:He|].
  - exists b6, false, s1. split; [|exact H]. rewrite <-Hs1. apply Hgood. left. split; [done|].
    intros e' ms' [= <- <-]. apply existsb_elem in He as (p & Hp & ?%Z.eqb_eq). eauto.
  - exists b6, true, (set_frozen_cohort None s1). split; [apply Hgood; by right|exact H].
  - exists b6, false, s1. split; [|exact H]. rewrite <-Hs1. apply Hgood. by left.
Qed.

Lemma max_epoch_elem l e : max_epoch l = Some e → e ∈ l.
Proof.
  destruct l as [|x l]; [done|]. intros [= <-]. revert x.
  induction l as [|y l IH]; intros x; simpl; [by left|].
  specialize (IH (Z.max x y)). apply elem_of_cons in IH as [-> |?]; [|by do 2 right].
  destruct (Z.max_spec x y) as [[_ ->]|[_ ->]]; [right; left|left].
Qed.

Lemma wf_freeze_cohort B e s :
  wf_manager B s → (∃ p, p ∈ st_proposals s ∧ pr_epoch p = e) → wf_manager B (freeze_cohort e s).
Proof.
  intros [Ha [] [] [] ? ?] (p & Hp & <-). split; try done. split; try done.
  intros e ms Hf. simpl in Hf. injection Hf as <- <-. split; [|by eauto].
  pose proof (len_filter (λ q, pr_epoch q = pr_epoch p) (st_proposals s)).
  unfold PROPOSAL_SLOTS in *. simpl. lia.
Qed.

Lemma good_freeze_proven_proposals B : good_step B freeze_proven_proposals.
Proof.
  intros s r s' Hw H _. unfold freeze_proven_proposals in H.
  destruct (st_frozen_cohort s); [still|]. destruct (max_epoch _) as [e|] eqn:He; [|still].
  injection H as <- <-. eexists. split; [done|].
  apply max_epoch_elem, list_elem_of_fmap in He as (p & -> & [_ Hp]%list_elem_of_filter).
  split; [apply wf_freeze_cohort; eauto|by split; right|done|done|done].
Qed.

Lemma good_retain_candidates B ms : good_step B (retain_candidates ms).
Proof.
  intros s r s' Hw H _. injection H as <- <-. eexists. split; [done|].
  apply good_candidates; [done|apply derived_filter|apply retain_id].
Qed.

Lemma good_retain_outbound B now : good_step B (retain_outbound now).
Proof.
  intros s r s' Hw H _. injection H as <- <-. eexists. split; [done|].
  destruct Hw as [Ha [] [] [] ? ?]. split; [|by split; right|done|done|done].
  split; try done.
  - split; [done..|]. intros c [_ ?]%list_elem_of_filter. auto.
  - split; try done. simpl. pose proof (len_retain (λ c, now <? oc_expiry_ms c) (st_outbound s)). lia.
  - split; [done..|]. intros c b [_ ?]%list_elem_of_filter. eauto.
Qed.

Lemma good_expire_old_binding B now : good_step B (expire_old_binding now).
Proof.
  intros s r s' Hw H _. unfold expire_old_binding in H.
  destruct (st_old_binding s) as [[b e]|]; [|still]. destruct (e <=? now); [|still].
  injection H as <- <-. eexists. split; [done|].
  destruct Hw as [Ha [] [] [] ? ?]. split; [|by split; right|done|done|done]. by split.
Qed.

(** *** Whole calls *)

Record evolves (B : History) (s s' : State) : Prop := {
  ev_wf : wf_manager B s';
  ev_advances : advances s s';
  ev_potential : (potential s' ≤ potential s)%nat;
  ev_generation : st_generation s ≤ st_generation s';
  ev_closed : st_closed s = true → st_closed s' = true;
  ev_core : core s' = core s ∨ st_generation s < st_generation s' ∨ st_closed s' = true;
}.

Lemma evolves_refl B s : wf_manager B s → evolves B s s.
Proof. split; [done|reflexivity|lia|lia|done|by left]. Qed.

Lemma evolves_same B s s' : good B s false s' → evolves B s s'.
Proof. intros [? ? [Hg Hc] ? ?]. split; [done..|lia|congruence|]. left. auto. Qed.

Lemma wf_set_generation B g s : wf_manager B s → is_u64 g → wf_manager B (set_generation g s).
Proof. intros [? [] [] [] ? ?] Hg. split; try done; by split. Qed.

Lemma wf_clear_all B s : wf_manager B s → wf_manager B (clear_all s).
Proof.
  intros [Ha [] [] [] ? ?]. split.
  - eapply wf_auth_derived; [done|set_solver|apply derived_nil].
  - split; set_solver.
  - split; try done; unfold len, PROPOSAL_SLOTS, LIVE_CANDIDATES_MAX, RESULT_CACHE_SLOTS in *; simpl; lia.
  - split; [done|done|]. set_solver.
  - done.
  - by right.
Qed.

Lemma evolves_bump B s b s' : good B s b s' → evolves B s (bump_or_close s').
Proof.
  intros [Hw Had [Hg Hc] Hp _]. unfold bump_or_close.
  destruct (checked_add (st_generation s') 1) as [g|] eqn:Hn.
  - apply checked_add_inv in Hn as [-> Hn]. destruct (wb_generation _ (wm_bounds _ _ Hw)) as [? _].
    split; [apply wf_set_generation; [done|solve_width]|done|done|simpl; lia|simpl; congruence|].
    right. left. simpl. lia.
  - split; [by apply wf_clear_all|done|unfold potential; simpl; lia|simpl; lia|done|by do 2 right].
Qed.

Lemma bind_get {S E A} (k : S → st S E A) s : (get ≫= k) s = k s s.
Proof. done. Qed.
Lemma bind_put {S E A} (k : unit → st S E A) s s' : (put s' ≫= k) s = k () s'.
Proof. done. Qed.

Lemma evolves_expire B now s r s' :
  wf_manager B s → expire m now s = (r, s') → r ≠ Panic → evolves B s s'.
Proof.
  intros Hw H Hr. unfold expire in H. rewrite bind_get in H.
  destruct (st_closed s); [injection H as <- <-; by apply evolves_refl|].
  pose proof (good_refl B s false Hw) as G.
  eapply good_bind in H as (b1 & s1 & G1 & H); [|exact G|apply good_fail_challenged|done]. clear G.
  rewrite orb_false_l in G1.
  eapply good_bind in H as (b2 & s2 & G2 & H);
    [|exact G1|apply good_any_step; intros; apply good_expire_member|done].
  eapply good_bind in H as (b3 & s3 & G3 & H); [|exact G2|apply good_settle|done].
  eapply good_bind in H as (b4 & s4 & G4 & H); [|exact G3|apply good_retain_results|done].
  rewrite bind_get in H.
  eapply good_bind in H as (b5 & s5 & G5 & H);
    [|exact G4|apply good_any_step; intros; apply good_cache_timeout|done].
  rewrite bind_get, bind_put in H.
  pose proof (good_trans _ _ _ _ _ _ G5 (good_tombstone_expired B now s5 (gd_wf _ _ _ _ G5))) as G5'.
  rewrite orb_false_r in G5'.
  eapply good_retain_drop in H as (b6 & b7 & s7 & G7 & H); [|exact G5'].
  eapply good_bind in H as (b8 & s8 & G8 & H); [|exact G7|apply good_freeze_proven_proposals|done].
  eapply good_bind in H as (b9 & s9 & G9 & H); [|exact G8|apply good_retain_candidates|done].
  eapply good_bind in H as (b10 & s10 & G10 & H); [|exact G9|apply good_retain_outbound|done].
  eapply good_bind in H as (b11 & s11 & G11 & H); [|exact G10|apply good_expire_old_binding|done].
  eapply good_bind in H as (b12 & s12 & G12 & H); [|exact G11|apply good_settle|done].
  rewrite bind_get in H.
  match type of H with (if ?c then _ else _) _ = _ => destruct c eqn:Hch end.
  - injection H as <- <-. by eapply evolves_bump.
  - injection H as <- <-. by apply evolves_same.
Qed.

Lemma evolves_close B s : wf_manager B s → evolves B s (close s).
Proof.
  intros Hw. destruct (wb_generation _ (wm_bounds _ _ Hw)) as [? ?].
  split; [|by split; right|unfold potential; simpl; lia| |done|by do 2 right].
  - apply wf_set_generation; [by apply wf_clear_all|].
    change (st_generation (clear_all s)) with (st_generation s). unfold sat_add. solve_width.
  - change (st_generation (close s)) with (sat_add (st_generation s) 1). unfold sat_add. solve_width.
Qed.

Lemma evolves_take_results B s l s' :
  wf_manager B s → take_results s = (l, s') → evolves B s s'.
Proof.
  intros [Ha [] [] [] ? ?] H. injection H as <- <-.
  split; [|by split; right|done|done|done|by left].
  split; try done.
Qed.

Lemma evolves_take_admissions B s l s' :
  wf_manager B s → take_profile3_admissions s = (l, s') →
  evolves B s s' ∧ (length l + potential s' ≤ potential s)%nat.
Proof.
  intros Hw H. unfold take_profile3_admissions in H. destruct (negb _).
  - injection H as <- <-. split; [by apply evolves_refl|simpl; lia].
  - injection H as <- <-. split; [|unfold potential; simpl; destruct (st_profile3_admission s); simpl; lia].
    destruct Hw as [Ha [] [] [] ? ?].
    split; [|by split; right|unfold potential; simpl; lia|done|done|by left].
    split; try done. by destruct wm_admission0.
Qed.

(** A new outbound candidate, or the carrier of one. *)
Lemma wf_set_outbound B l s :
  wf_manager B s → len l ≤ 2 → (∀ c, c ∈ l → st_local_epoch s < oc_epoch c) →
  (∀ c b, c ∈ l → oc_binding c = Some b → b ∈ hi_probed B) → wf_manager B (set_outbound l s).
Proof. intros [Ha [] [] [] ? ?] Hl He Hb. split; try done; by split. Qed.

(** What was received stays received. *)
Lemma signed_more B B' k : signed_update B k → B ⊆ B' → signed_update B' k.
Proof.
  destruct k as [id [[loc epoch] slot]]. intros (x & l & sig & ? & ?) [_ HB]. exists x, l, sig. auto.
Qed.
Lemma token_more B B' k r : token_returned B k r → B ⊆ B' → token_returned B' k r.
Proof.
  destruct k as [id [[loc epoch] slot]]. intros (x & ? & ?) [_ HB]. exists x. auto.
Qed.

Lemma accepted_more B B' e b : move_accepted B e b → B ⊆ B' → move_accepted B' e b.
Proof. intros (? & x & ? & ? & ? & ?) [? ?]. split; [auto|]. eexists x, _, _. eauto. Qed.

Lemma wf_more_history B B' s : wf_manager B s → B ⊆ B' → wf_manager B' s.
Proof.
  intros [[Hs Hag Hpr Hn] ? ? [Hp Hb Ho] ? ?] HB. pose proof HB as [HP _]. split; try done.
  - split; [by eauto using signed_more|done| |done].
    intros c Hc HP'. destruct (Hpr c Hc HP') as (r & ? & ? & ?). exists r. split_and!; eauto using token_more.
  - split; [| |by eauto].
    + destruct Hp as [?|(k & r & ? & ? & ?)]; [by left|right]. exists k, r. split_and!; eauto using signed_more, token_more.
    + intros Hsn. destruct (Hb Hsn) as [?|[?|(k & r & ? & ? & ? & ?)]]; [by left|eauto using accepted_more|].
      right. right. exists k, r. split_and!; eauto using signed_more, token_more.
Qed.

Lemma evolves_propose B id loc epoch slot now s r s' :
  wf_manager B s → propose_local m id loc epoch slot now s = (r, s') → evolves B s s'.
Proof.
  intros Hw H. unfold propose_local in H. rewrite bind_get in H.
  cond_case H Hc; [injection H as <- <-; by apply evolves_refl|].
  repeat apply orb_false_iff in Hc as [Hc ?].
  match goal with H : (epoch <=? _) = false |- _ => apply Z.leb_gt in H; rename H into He end.
  destruct (List.find _ _) as [e|] eqn:Hf.
  { cond_case H Hx; injection H as <- <-; by apply evolves_refl. }
  destruct (len (st_outbound s) =? PROPOSAL_SLOTS) eqn:Hl;
    [injection H as <- <-; by apply evolves_refl|]. apply Z.eqb_neq in Hl.
  rewrite st_bind_lift in H.
  destruct (sign_loc_update _ _ _) as [u| |]; [|injection H as <- <-; by apply evolves_refl..].
  rewrite bind_put, bind_get, st_bind_lift in H.
  set (s1 := set_outbound _ s) in H.
  assert (wf_manager B s1) as Hw1.
  { pose proof (wb_outbound _ (wm_bounds _ _ Hw)). unfold PROPOSAL_SLOTS in *.
    apply wf_set_outbound; [done|rewrite len_push; lia|..]; intros c;
      [intros Hin|intros b Hin]; unfold push in Hin; apply elem_of_app in Hin as [Hin|Hin].
    - by apply (wm_epochs _ _ Hw).
    - apply list_elem_of_singleton in Hin as ->. simpl. lia.
    - by apply (wm_path _ _ Hw).
    - by apply list_elem_of_singleton in Hin as ->. }
  destruct (wb_generation _ (wm_bounds _ _ Hw)) as [? ?].
  destruct (checked_add (st_generation s1) 1) as [g|] eqn:Hg.
  - injection H as <- <-. apply checked_add_inv in Hg as [-> Hg].
    split; [apply wf_set_generation; [done|unfold s1 in *; simpl in *; solve_width]
           |by split; right|done|simpl; lia|done|].
    right. left. simpl. lia.
  - injection H as <- <-. split; [done|by split; right|done|done|done|by left].
Qed.

Lemma evolves_probe B id carrier nonce now s r s' :
  wf_manager B s → make_probe m id carrier nonce now s = (r, s') → evolves (add_probed carrier B) s s'.
Proof.
  intros Hw0 H. assert (wf_manager (add_probed carrier B) s) as Hw
    by (eapply wf_more_history, probed_more; done).
  clear Hw0. unfold make_probe in H. rewrite st_bind_lift in H.
  destruct (map_err _ _) as [?| |]; [|injection H as <- <-; by apply evolves_refl..].
  rewrite bind_get in H. cond_case H Hc; [injection H as <- <-; by apply evolves_refl|].
  clear Hc. destruct (list_find _ _) as [[i c]|] eqn:Hc; [|injection H as <- <-; by apply evolves_refl].
  apply list_find_Some in Hc as (Hi & _ & _).
  destruct (oc_expiry_ms c <=? now); [injection H as <- <-; by apply evolves_refl|].
  destruct (oc_binding c) as [b|].
  { destruct (bool_decide _); injection H as <- <-; by apply evolves_refl. }
  rewrite bind_put in H. injection H as <- <-.
  split; [|by split; right|done|done|done|by left].
  assert (∀ c', c' ∈ <[i:=set_oc_binding (Some carrier) c]> (st_outbound s) →
            c' = set_oc_binding (Some carrier) c ∨ c' ∈ st_outbound s) as Hin.
  { intros c' [j Hj]%list_elem_of_lookup. apply list_lookup_insert_Some in Hj as [(_&<-&_)|[_ Hj]];
      [by left|right; by eapply list_elem_of_lookup_2]. }
  apply wf_set_outbound; [done| | |].
  - unfold len. rewrite length_insert. apply (wb_outbound _ (wm_bounds _ _ Hw)).
  - intros c' [->|?]%Hin; [|by apply (wm_epochs _ _ Hw)].
    apply (we_outbound _ (wm_epochs _ _ Hw) c). by eapply list_elem_of_lookup_2.
  - intros c' b [->|?]%Hin; [|by apply (wm_path _ _ Hw)]. simpl. intros [= <-]. by left.
Qed.

(** *** Issued transitions *)

(** What the preview has established for the state it read. *)
Definition action_ok (B : History) (s : State) (a : Action) : Prop :=
  match a with
  | CacheProposal p tokens _ =>
      len (st_results s) + len (st_proposals s) < 2 ∧ 0 ≤ tokens ≤ 2 ∧ signed_update B (pkey p) ∧
      st_peer_epoch s < pr_epoch p ∧
      ∀ k, k ∈ keys (st_proposals s) (st_candidates s) → k.1 ≠ pr_candidate_id p
  | Challenge c =>
      len (st_candidates s) < 2 ∧ ca_state c = Challenged ∧
      ckey c ∈ keys (st_proposals s) (st_candidates s)
  | CommitLocal epoch _ b promote _ =>
      len (st_results s) < 2 ∧ st_local_epoch s < epoch ∧ (promote = true → move_accepted B epoch b)
  | Prove id epoch slot _ r =>
      ∃ c, c ∈ st_candidates s ∧ ckey c = (id, (bri_loc r, epoch, slot)) ∧
           ca_binding c = bri_binding r ∧ token_returned B (ckey c) r
  | ExistingChallenge _ | Respond _ | NoAction => True
  end.

Record issued_ok (B : History) (s : State) (t : Transition) : Prop := {
  io_generation : tr_generation t ≤ st_generation s;
  io_exhausted : tr_generation t < u64_max;
  io_action : st_closed s = false → tr_generation t = st_generation s → action_ok B s (tr_action t);
}.

Lemma action_ok_more B B' s s' a :
  action_ok B s a → core s' = core s → B ⊆ B' → action_ok B' s' a.
Proof.
  unfold core. intros Ha Hc HB. injection Hc as ? ? Hp Hk Hr Hf Hpe Hle.
  destruct a; cbn [action_ok] in *; rewrite ?Hp, ?Hk, ?Hr, ?Hpe, ?Hle; try done.
  - destruct Ha as (? & [] & ? & ? & ?). split_and!; eauto using signed_more.
  - destruct Ha as (? & ? & ?). split_and!; eauto using accepted_more.
  - destruct Ha as (c & ? & ? & ? & ?). exists c. split_and!; eauto using token_more.
Qed.

(** Whatever the manager does next, an issued transition is still good or is refused. *)
Lemma issued_ok_evolves B B' s s' t :
  issued_ok B s t → evolves B' s s' → B ⊆ B' → issued_ok B' s' t.
Proof.
  intros [Hg Hx Ha] [? ? ? Hge Hcl Hcore] HB. split; [lia|done|]. intros Hc Heq.
  destruct Hcore as [Hcore|[?|?]]; [|lia|congruence].
  assert (st_generation s' = st_generation s) by (unfold core in Hcore; congruence).
  assert (st_closed s = false) by (unfold core in Hcore; congruence).
  eapply action_ok_more; [apply Ha; [done|congruence]|done|done].
Qed.

Lemma existsb_false {A} (f : A → bool) l x : existsb f l = false → x ∈ l → f x = false.
Proof.
  intros He Hx. destruct (f x) eqn:Hf; [|done].
  enough (existsb f l = true) by congruence. apply existsb_elem. eauto.
Qed.

Lemma find_none {A} (f : A → bool) l x : List.find f l = None → x ∈ l → f x = false.
Proof. intros Hn. rewrite list_elem_of_In. by apply find_none. Qed.

Lemma verify_signed B x id old_loc loc epoch nb vf slot sig :
  x ∈ hi_received B → control_parse (rc_plaintext x) = Ok (LocUpdate id old_loc loc epoch nb vf slot sig) →
  verify_loc_update (LocUpdate id old_loc loc epoch nb vf slot sig) (peer_context m) = Ok () →
  signed_update B (id, (loc, epoch, slot)).
Proof.
  intros Hx Hpa H. exists x, old_loc, sig. pose proof H as H'. cbn [verify_loc_update] in H'.
  destruct (negb _ || negb _) eqn:Hc; [done|].
  by apply orb_false_iff in Hc as [->%negb_false_iff%Z.eqb_eq ->%negb_false_iff%Z.eqb_eq].
Qed.

Lemma preview_loc_update_ok B x s now id old_loc loc epoch nb vf slot sig a :
  wf_manager B s → x ∈ hi_received B →
  control_parse (rc_plaintext x) = Ok (LocUpdate id old_loc loc epoch nb vf slot sig) →
  preview_loc_update m s now (LocUpdate id old_loc loc epoch nb vf slot sig) id old_loc loc epoch slot
    = Ok a → action_ok B s a.
Proof.
  intros Hw Hx Hparse H. unfold preview_loc_update in H. apply bind_Ok in H as ([] & Hv & H).
  apply (verify_signed B x) in Hv; [|done..]. cond_case H Hc; [done|].
  apply orb_false_iff in Hc as [[_ He%Z.leb_gt]%orb_false_iff _].
  apply bind_Ok in H as (l & _ & H).
  destruct (List.find _ (st_proposals s)) as [q|] eqn:Hq;
    [cond_case H Hsame; [by apply Ok_inj in H as <-|done]|].
  cond_case H Hb; [done|]. cond_case H Hem; [done|]. cond_case H Hcap; [done|].
  apply orb_false_iff in Hcap as [_ Hcap%Z.leb_gt].
  cbv zeta in H. cond_case H Htok; [done|]. apply Ok_inj in H as <-. apply Z.eqb_neq in Htok.
  repeat apply orb_false_iff in Hb as [Hb ?].
  destruct (wb_tokens _ (wm_bounds _ _ Hw)) as [? ?].
  unfold RESULT_CACHE_SLOTS in *.
  assert (0 ≤ sat_sub now (st_proposal_refill_ms s) / 1000)
    by (apply Z.div_pos; unfold sat_sub; lia).
  split_and!; [lia|lia|lia|done|simpl; lia|]. intros k Hk. unfold keys in Hk. simpl.
  apply elem_of_app in Hk as [(p & -> & Hin)%list_elem_of_fmap|(c & -> & Hin)%list_elem_of_fmap].
  - apply (find_none _ _ p) in Hq; [|done]. by apply beq_false in Hq.
  - intros Hid. enough (has_id id c = false) as Hn by by apply beq_false in Hn.
    eapply existsb_false; [|done]. done.
Qed.

Lemma preview_probe_ok B s b now id loc epoch slot a :
  wf_manager B s → preview_probe s b now id loc epoch slot = Ok a → action_ok B s a.
Proof.
  intros Hw H. unfold preview_probe in H. apply bind_Ok in H as (p & Hp%ok_or_Ok & H).
  destruct (List.find _ (st_candidates s)) as [c|].
  { cond_case H Hx; [by apply Ok_inj in H as <-|done]. }
  cbv zeta in H. cond_case H Hc; [done|]. apply Ok_inj in H as <-.
  apply orb_false_iff in Hc as [Hc%Z.eqb_neq _]. apply find_elem in Hp as [Hp _].
  pose proof (wb_candidates _ (wm_bounds _ _ Hw)). unfold LIVE_CANDIDATES_MAX in *.
  split_and!; [lia|done|]. by apply (elem_of_keys_p _ _ p).
Qed.

(** Split a lookup condition into the equations it tests. *)
Ltac split_tests H :=
  repeat match type of H with
  | _ && _ = true => let H1 := fresh "Ht" in apply andb_true_iff in H as [H H1]
  end;
  repeat match goal with
  | H : beq _ _ = true |- _ => apply beq_true in H
  | H : (_ =? _) = true |- _ => apply Z.eqb_eq in H
  | H : (_ <? _) = true |- _ => apply Z.ltb_lt in H
  | H : bool_decide _ = true |- _ => apply bool_decide_eq_true in H
  | H : has_id _ _ = true |- _ => apply beq_true in H
  end.

Lemma preview_response_ok B s b now l id loc epoch slot expiry tok a :
  wf_manager B s → mkReceipt b now l ∈ hi_received B →
  control_parse l = Ok (BindResponse id loc epoch slot expiry tok) →
  preview_response m s b now id loc epoch slot expiry tok = Ok a →
  action_ok B s a.
Proof.
  intros Hw Hl Hparse H. unfold preview_response in H. cbv zeta in H.
  destruct (cached_result s now id epoch slot) as [e|].
  { cond_case H Hx; [by apply Ok_inj in H as <-|done]. }
  apply bind_Ok in H as (c & Hc%ok_or_Ok & H). apply find_elem in Hc as [Hc Ht].
  cond_case H Hch; [done|]. cond_case H Hex; [done|]. apply negb_false_iff in Hch.
  apply orb_false_iff in Hex as [Hex%Z.leb_gt Hexp%negb_false_iff%Z.eqb_eq].
  apply bind_Ok in H as (secret & Hs%ok_or_Ok & H). apply bind_Ok in H as (tok' & Htok & H).
  cond_case H Hx; [done|]. apply negb_false_iff, beq_true in Hx. subst tok'.
  apply bind_Ok in H as (o & _ & H). cond_case H Ho; [done|]. apply Ok_inj in H as <-.
  split_tests Ht. subst. exists c. split_and!; [done|done|done|].
  destruct (wm_secret _ _ Hw) as [HK|HK]; [|congruence].
  rewrite HK in Hs. injection Hs as Hs. eexists (mkReceipt _ now l). simpl. rewrite Hs.
  split_and!; [done|done|lia|done|done].
Qed.

Lemma preview_result_ok B s b now l control id epoch slot res a :
  wf_manager B s → mkReceipt b now l ∈ hi_received B →
  control_parse l = Ok (CandidateResult id epoch slot res) →
  preview_result s b now control id epoch slot res = Ok a → action_ok B s a.
Proof.
  intros Hw Hin Hparse H. unfold preview_result in H. apply bind_Ok in H as (encoded & _ & H).
  destruct (cached_result s now id epoch slot) as [e|].
  { cond_case H Hx; [by apply Ok_inj in H as <-|done]. }
  apply bind_Ok in H as (c & Hc%ok_or_Ok & H). apply find_elem in Hc as [Hc Ht].
  cond_case H Hcap; [done|]. apply Z.leb_gt in Hcap.
  apply bind_Ok in H as (b' & Hb & H). apply Ok_inj in H as <-. split_tests Ht.
  unfold expect in Hb. destruct (oc_binding c) as [b1|] eqn:Hob; [|done].
  apply Ok_inj in Hb as ->.
  assert (0 ≤ frozen_slots s) by (unfold frozen_slots; destruct (st_frozen_cohort s) as [[]|]; [apply len_nonneg|done]).
  unfold RESULT_CACHE_SLOTS in *. split_and!; [lia| |].
  - by apply (wm_epochs _ _ Hw).
  - intros Hres%Z.eqb_eq. simplify_eq. split; [by eapply (wm_path _ _ Hw)|].
    by eexists (mkReceipt b now l), _, _.
Qed.

Lemma preview_inner_ok B s b now l proof proof3 t :
  wf_manager B s → preview_inner m s b now l proof proof3 = Ok t →
  issued_ok (add_received (mkReceipt b now l) B) s t.
Proof.
  intros Hw0 H. pose proof (wf_more_history _ _ _ Hw0 (received_more (mkReceipt b now l) B)) as Hw.
  assert (mkReceipt b now l ∈ hi_received (add_received (mkReceipt b now l) B)) as Hl by by left.
  unfold preview_inner in H. apply bind_Ok in H as (? & _ & H).
  apply bind_Ok in H as (c & Hparse & H). cond_case H Hs; [done|]. cond_case H Hg; [done|].
  apply orb_false_iff in Hg as [[_ Hg%Z.eqb_neq]%orb_false_iff _].
  apply bind_Ok in H as (a & Ha & H). apply Ok_inj in H as <-.
  pose proof (wb_generation _ (wm_bounds _ _ Hw)) as [? ?].
  split; simpl; [lia|lia|]. intros _ _. destruct c; cbn [preview_action] in Ha.
  - by eapply preview_loc_update_ok.
  - by eapply preview_probe_ok.
  - unfold preview_challenge in Ha. apply bind_Ok in Ha as (? & _ & Ha).
    apply bind_Ok in Ha as (? & _ & <-%Ok_inj). done.
  - by eapply preview_response_ok.
  - by eapply preview_result_ok.
Qed.

(** *** Applying an action *)

Lemma wf_cache_proposal B p tokens refill s :
  wf_manager B s → action_ok B s (CacheProposal p tokens refill) →
  wf_manager B (set_proposals (push p (st_proposals s))
                  (set_proposal_refill_ms refill (set_proposal_tokens tokens s))).
Proof.
  intros [[Hs Ha Hp Hn] [] [] [] ? ?] (Hl & Htok & Hsig & He & Hfresh).
  pose proof (len_nonneg (st_results s)). split; try done.
  - assert (∀ k, k ∈ keys (push p (st_proposals s)) (st_candidates s) →
                 k = pkey p ∨ k ∈ keys (st_proposals s) (st_candidates s)) as Hk.
    { intros k. unfold keys, push. rewrite fmap_app, !elem_of_app. simpl.
      rewrite list_elem_of_singleton. tauto. }
    split; [| |done|done].
    + intros k [-> |?]%Hk; auto.
    + intros k1 k2 [-> |H1]%Hk [-> |H2]%Hk Heq; auto.
      * by apply Hfresh in H2.
      * by apply Hfresh in H1.
  - split; [|intros q [?|Hq]%elem_of_app; [auto|]; by apply list_elem_of_singleton in Hq as ->|done].
    intros e ms (? & ? & q & ? & ?)%we_frozen0. split_and!; [done..|]. exists q. split; [|done].
    apply elem_of_app. by left.
  - split; try done; simpl; rewrite len_push; unfold PROPOSAL_SLOTS, RESULT_CACHE_SLOTS; lia.
Qed.

Lemma wf_challenge B c s :
  wf_manager B s → action_ok B s (Challenge c) →
  (single = true → existsb (has_id (ca_candidate_id c)) (st_candidates s) = false) →
  wf_manager B (set_candidates (push c (st_candidates s)) s).
Proof.
  intros [[Hs Ha Hp Hn] [] [] [] ? ?] (Hl & Hst & Hin) Hfr. split; try done.
  - assert (∀ k, k ∈ keys (st_proposals s) (push c (st_candidates s)) →
                 k ∈ keys (st_proposals s) (st_candidates s)) as Hk.
    { intros k. unfold keys, push in *. rewrite fmap_app.
      rewrite !elem_of_app. intros [?|[?|Hk]]; [auto..|].
      apply list_elem_of_singleton in Hk as ->. by apply elem_of_app in Hin. }
    split; simpl; [auto|auto| |].
    + intros c' [?|Hc]%elem_of_app; [auto|]. apply list_elem_of_singleton in Hc as ->.
      intros Hpr. congruence.
    + intros Hsn. unfold push. rewrite fmap_app. apply NoDup_app. split_and!; [auto| |apply NoDup_singleton].
      intros id (c' & -> & Hc')%list_elem_of_fmap Hid. apply list_elem_of_singleton in Hid.
      specialize (Hfr Hsn). apply (existsb_false _ _ c') in Hfr; [|done]. by apply beq_false in Hfr.
  - split; try done. simpl. rewrite len_push. unfold LIVE_CANDIDATES_MAX. lia.
Qed.

Lemma wf_prove B id epoch slot grace r s :
  wf_manager B s → action_ok B s (Prove id epoch slot grace r) →
  ∃ s', prove_candidate id epoch slot r s = Ok s' ∧ good B s true s'.
Proof.
  intros [Hauth [] [] [] ? ?] (c & Hc & Hk & Hb & Ht). unfold prove_candidate.
  destruct Hauth as [Hs Ha Hp Hn]. injection Hk as Hid Hloc He Hsl.
  destruct (list_find _ (st_candidates s)) as [[i c0]|] eqn:Hf.
  2:{ apply list_find_None in Hf. rewrite Forall_forall in Hf. by destruct (Hf c Hc). }
  apply list_find_Some in Hf as (Hi & (Hid0 & He0 & Hsl0) & _).
  eexists. split; [done|]. pose proof (list_elem_of_lookup_2 _ _ _ Hi) as Hc0.
  assert (ckey c0 = ckey c) as Hkey by (apply Ha; [by apply elem_of_keys_c..|simpl; congruence]).
  split; [|by split; right|done|done|done]. split; try done.
  - set (c1 := set_ca_response _ _).
    assert (ckey <$> <[i:=c1]> (st_candidates s) = ckey <$> st_candidates s) as Hks.
    { rewrite list_fmap_insert, list_insert_id; [done|]. by rewrite list_lookup_fmap, Hi. }
    split; simpl; unfold keys; rewrite ?Hks; [done|done| |].
    + intros c2 [j Hj]%list_elem_of_lookup. apply list_lookup_insert_Some in Hj as [(_&<-&_)|[_ Hj]];
        [|apply Hp; by eapply list_elem_of_lookup_2].
      intros _. exists r. split_and!; [done|change (ckey c1) with (ckey c0); by rewrite Hkey|].
      intros Hsn. change (ca_binding c1) with (ca_binding c0). rewrite <-Hb. f_equal.
      apply list_elem_of_lookup in Hc as [j' Hj]. specialize (Hn Hsn).
      assert (i = j') as ->; [|congruence].
      eapply (NoDup_lookup _ i j' id); [done|..]; rewrite list_lookup_fmap, ?Hi, ?Hj; simpl; congruence.
    + intros Hsn. rewrite list_fmap_insert, list_insert_id; [auto|].
      by rewrite list_lookup_fmap, Hi.
  - split; try done.
    match goal with |- context [<[i:=?c1]> _] => change (len (<[i:=c1]> (st_candidates s)) ≤ 2) end.
    unfold len. by rewrite length_insert.
Qed.

Lemma good_freeze_proven B e s : wf_manager B s → good B s true (freeze_proven e s).
Proof.
  intros Hw. unfold freeze_proven. destruct (_ && _) eqn:Hc; [|by apply good_refl].
  apply andb_true_iff in Hc as [_ Hc%bool_decide_eq_true].
  apply max_epoch_elem, list_elem_of_fmap in Hc as (p & -> & Hp).
  split; [apply wf_freeze_cohort; eauto|by split; right|done|done|done].
Qed.

Lemma wf_with_result B res s :
  wf_manager B s → len (st_results s) < 2 → wf_manager B (set_results (push res (st_results s)) s).
Proof.
  intros [? [] [] [] ? ?] Hl. split; try done. split; try done; simpl; rewrite len_push;
    unfold RESULT_CACHE_SLOTS, PROPOSAL_SLOTS in *; lia.
Qed.

Lemma good_filter_outbound B (P : OutboundCandidate → Prop) `{∀ c, Decision (P c)} s :
  wf_manager B s → good B s true (set_outbound (filter P (st_outbound s)) s).
Proof.
  intros Hw. split; [|by split; right|done|done|done].
  pose proof (len_filter P (st_outbound s)). pose proof (wb_outbound _ (wm_bounds _ _ Hw)).
  apply wf_set_outbound; [done|unfold PROPOSAL_SLOTS in *; lia|..];
    intros c; [intros [_ ?]%list_elem_of_filter|intros b [_ ?]%list_elem_of_filter].
  - by apply (wm_epochs _ _ Hw).
  - by apply (wm_path _ _ Hw).
Qed.

(** The local end moves to a new locator and carrier. *)
Definition move_local (epoch : Z) (loc : bytes) (b : ObservedBinding) (expiry : Z) (s : State) : State :=
  set_current_binding b (set_old_binding (Some (st_current_binding s, expiry))
    (set_local_loc loc (set_local_epoch epoch s))).

Lemma good_move_local B epoch loc b expiry s :
  wf_manager B s → st_local_epoch s < epoch → move_accepted B epoch b →
  good B s true (set_outbound (filter (λ c, epoch <? oc_epoch c = true) (st_outbound s))
                   (move_local epoch loc b expiry s)).
Proof.
  intros [? [] [] [] ? ?] He Hb. split; [|split; [by right|by left]|done|done|done].
  split; try done.
  - split; [done..|]. intros c [Hlt _]%list_elem_of_filter. simpl. lia.
  - split; try done. pose proof (len_filter (λ c, (epoch <? oc_epoch c) = true) (st_outbound s)).
    simpl. lia.
  - split; [done|by right; left|]. intros c b' [_ ?]%list_elem_of_filter. eauto.
Qed.

Lemma good_commit_local B epoch loc b promote res s :
  wf_manager B s → action_ok B s (CommitLocal epoch loc b promote res) →
  good B s true (commit_local m epoch loc b promote res s).
Proof.
  intros Hw (Hl & He & Hb). unfold commit_local.
  assert (good B s true (set_results (push res (st_results s)) s)) as G1
    by (split; [by apply wf_with_result|by split; right|done|done|done]).
  set (s1 := set_results _ s) in *.
  destruct promote; [|eapply (good_trans _ _ true _ true); [done|]; apply good_filter_outbound, G1].
  destruct (cm_profile m =? 3).
  2:{ pose proof (good_move_local B epoch loc b (re_expiry_ms res) s1 (gd_wf _ _ _ _ G1) He (Hb eq_refl)) as G2.
      exact (good_trans _ _ _ _ _ _ G1 G2). }
  match goal with |- context [admit_slot1 ?a ?b ?c ?d ?e s1] =>
    pose proof (good_admit_slot1 B a b c d e s1 (gd_wf _ _ _ _ G1)) as G2;
    set (s2 := admit_slot1 a b c d e s1) in * end.
  pose proof (good_trans _ _ _ _ _ _ G1 G2) as G. clearbody s2.
  destruct (st_profile3_slot1_admitted s2);
    (eapply (good_trans _ _ true _ true); [|apply good_filter_outbound]).
  - eapply (good_trans _ _ true _ true); [done|].
    split; [by apply wf_cleared, G|by split; right|done|done|done].
  - apply wf_cleared, G.
  - done.
  - apply G.
Qed.

Lemma good_apply B a s r s' :
  wf_manager B s → action_ok B s a →
  (∀ c, a = Challenge c → single = true → existsb (has_id (ca_candidate_id c)) (st_candidates s) = false) →
  apply_action m a s = (r, s') → r ≠ Panic → r = Ok () ∧ good B s (mutates a) s'.
Proof.
  intros Hw Ha Hfr H Hr. destruct a; cbn [apply_action] in H.
  - injection H as <- <-. split; [done|].
    split; [by apply wf_cache_proposal|by split; right|done|done|done].
  - injection H as <- <-. split; [done|].
    split; [by apply wf_challenge; [..|apply Hfr]|by split; right|done|done|done].
  - injection H as <- <-. split; [done|]. by apply good_refl.
  - injection H as <- <-. split; [done|]. by apply good_refl.
  - injection H as <- <-. split; [done|]. by apply good_commit_local.
  - destruct (wf_prove _ _ _ _ _ _ _ Hw Ha) as (s1 & Hp & G1). rewrite Hp in H.
    pose proof (good_trans _ _ _ _ _ _ G1 (good_freeze_proven B epoch s1 (gd_wf _ _ _ _ G1))) as G2.
    destruct (settle_frozen_cohort _ _ _ _) as [r2 s2] eqn:Hst.
    edestruct (good_settle B _ _ _ _ _ _ (gd_wf _ _ _ _ G2) Hst) as (b & -> & G3);
      [by destruct r2; simplify_eq|].
    injection H as <- <-. split; [done|]. exact (good_trans _ _ _ _ _ _ G2 G3).
  - injection H as <- <-. split; [done|]. by apply good_refl.
Qed.

(** Applying an issued transition: it succeeds, and a change makes every other one stale. *)
Lemma evolves_apply B t s r s' :
  wf_manager B s → action_ok B s (tr_action t) → st_generation s < u64_max →
  (single = true → fresh_probe s t = true) →
  apply_after_replay m t s = (r, s') → r ≠ Panic →
  r = Ok () ∧ evolves B s s' ∧ (mutates (tr_action t) = true → st_generation s < st_generation s').
Proof.
  intros Hw Ha Hg Hfr H Hr. unfold apply_after_replay in H.
  rewrite bind_get, st_bind_lift in H.
  assert ((if mutates (tr_action t)
           then ok_or (checked_add (st_generation s) 1) MobilityError.Replay
           else Ok (st_generation s)) =
          Ok (if mutates (tr_action t) then st_generation s + 1 else st_generation s)) as Hn.
  { destruct (mutates _); [|done]. by rewrite checked_add_Some by lia. }
  rewrite Hn in H. unfold mbind, st_bind at 1 in H.
  destruct (apply_action m (tr_action t) s) as [r1 s1] eqn:Happ.
  eapply good_apply in Happ as [-> [Hw1 Had [Hg1 Hc1] Hp Hsame]]; [|done|done| |by destruct r1; simplify_eq].
  2:{ intros c Hc Hsn. specialize (Hfr Hsn). unfold fresh_probe in Hfr. rewrite Hc in Hfr.
      by apply negb_true_iff in Hfr. }
  cbn [get] in H. pose proof (wb_generation _ (wm_bounds _ _ Hw)) as [? ?].
  destruct (mutates (tr_action t)); injection H as <- <-; (split; [done|]).
  - split; [|simpl; lia].
    split; [apply wf_set_generation; [done|solve_width]|done|done|simpl; lia|simpl; congruence|].
    right. left. simpl. lia.
  - split; [|done]. split; [done..|lia|congruence|]. left. auto.
Qed.

(** *** Committing *)

(** What both ways to commit share once the replay proof has been consumed. *)
Definition applied (B : History) (t : Transition) (s : State)
    (r : outcome MobilityError.t unit) (s' : State) : Prop :=
  evolves B s s' ∧ (r = Ok () → mutates (tr_action t) = true → tr_generation t < st_generation s').

Lemma applied_refused B t s : wf_manager B s → applied B t s (Err MobilityError.Replay) s.
Proof. split; [by apply evolves_refl|done]. Qed.

Lemma applied_apply B t s r s' :
  wf_manager B s → issued_ok B s t → stale m s t = false →
  (single = true → fresh_probe s t = true) →
  apply_after_replay m t s = (r, s') → r ≠ Panic → applied B t s r s'.
Proof.
  intros Hw [Hg Hx Ha] Hst Hfr H Hr. apply orb_false_iff in Hst as [Hc Heq%negb_false_iff%Z.eqb_eq].
  destruct (evolves_apply B t s r s') as (-> & He & Hm); try done; [auto|lia|].
  split; [done|]. intros _ Hmt. specialize (Hm Hmt). lia.
Qed.

Lemma applied_commit_protected {R} B (commit : ProtectedReplayProof → R →
    outcome SessionError.t unit * ProtectedReplayProof * R) t s x r s' x' :
  wf_manager B s → issued_ok B s t → (single = true → fresh_probe s t = true) →
  commit_protected_replay m commit t (s, x) = (r, (s', x')) → r ≠ Panic → applied B t s r s'.
Proof.
  intros Hw Hi Hfr H Hr. unfold commit_protected_replay in H.
  cond_case H Hp; [injection H as <- <- <-; by apply applied_refused|].
  destruct (tr_protected_proof t) as [proof|]; [|injection H as <- <- <-; by apply applied_refused].
  cond_case H Hst; [injection H as <- <- <-; by apply applied_refused|].
  destruct (commit proof x) as [[res proof'] x1].
  destruct res; [|injection H as <- <- <-; by apply applied_refused|by injection H as <- <- <-].
  cond_case H Hcm; [injection H as <- <- <-; by apply applied_refused|].
  destruct (apply_after_replay m t s) as [r1 s1] eqn:Happ. injection H as <- <- <-.
  by eapply applied_apply.
Qed.

Lemma applied_commit_profile3 B t s x r s' x' :
  wf_manager B s → issued_ok B s t → (single = true → fresh_probe s t = true) →
  commit_profile3 m t (s, x) = (r, (s', x')) → r ≠ Panic → applied B t s r s'.
Proof.
  intros Hw Hi Hfr H Hr. unfold commit_profile3 in H.
  cond_case H Hp; [injection H as <- <- <-; by apply applied_refused|].
  destruct (tr_profile3_proof t) as [proof|]; [|injection H as <- <- <-; by apply applied_refused].
  cond_case H Hst; [injection H as <- <- <-; by apply applied_refused|].
  destruct (commit_profile3_replay proof x) as [[res proof'] x1].
  destruct res; [|injection H as <- <- <-; by apply applied_refused|by injection H as <- <- <-].
  cond_case H Hcm; [injection H as <- <- <-; by apply applied_refused|].
  destruct (apply_after_replay m t s) as [r1 s1] eqn:Happ. injection H as <- <- <-.
  by eapply applied_apply.
Qed.

(** ** The invariant of a run *)

Record wf_sys (x : Sys) : Prop := {
  ws_state : wf_manager (sy_history x) (sy_state x);
  ws_issued t : t ∈ sy_issued x → issued_ok (sy_history x) (sy_state x) t;
  ws_admitted : (length (sy_admitted x) + potential (sy_state x) ≤ 1)%nat;
}.

Record sys_evolves (x y : Sys) : Prop := {
  sv_state : evolves (sy_history y) (sy_state x) (sy_state y);
  sv_history : sy_history x ⊆ sy_history y;
  sv_issued : sy_issued x ⊆ sy_issued y;
}.

Lemma wf_sys_move s T B a s' B' :
  wf_sys (mkSys s T B a) → evolves B' s s' → B ⊆ B' →
  wf_sys (mkSys s' T B' a) ∧ sys_evolves (mkSys s T B a) (mkSys s' T B' a).
Proof.
  intros [Hw Hi Ha] He HB. split; [|by split]. split; simpl in *; [apply He| |].
  - intros t Ht. eapply issued_ok_evolves; eauto.
  - pose proof (ev_potential _ _ _ He). lia.
Qed.

Lemma wf_sys_step x y : wf_sys x → mstep m single x y → wf_sys y ∧ sys_evolves x y.
Proof.
  intros Hx H. pose proof Hx as [Hw Hi Ha]. destruct H; simpl in *.
  - eapply wf_sys_move; [done|by eapply evolves_propose|done].
  - eapply wf_sys_move; [done|by eapply evolves_probe|apply probed_more].
  - set (B' := add_received (mkReceipt binding now plaintext) B).
    destruct (wf_sys_move s T B a s B' Hx) as [[Hw' Hi' _] [He HB _]]; [|apply received_more|].
    { by eapply evolves_refl, wf_more_history, received_more. }
    split; [|split; simpl in *; [done|done|set_solver]].
    split; simpl in *; [done| |done]. intros t' [-> |?]%elem_of_cons; [|auto].
    by eapply preview_inner_ok.
  - eapply wf_sys_move; [done| |done]. eapply applied_commit_protected; eauto.
  - eapply wf_sys_move; [done| |done]. eapply applied_commit_profile3; eauto.
  - eapply wf_sys_move; [done|by eapply evolves_expire|done].
  - eapply wf_sys_move; [done|by eapply evolves_close|done].
  - eapply wf_sys_move; [done|by eapply evolves_take_results|done].
  - destruct (evolves_take_admissions B s l s') as [He Hl]; [done..|].
    destruct (wf_sys_move _ _ _ _ s' B Hx He) as [[? ? _] [? ? ?]]; [done|].
    split; [|by split]. split; [done..|]. simpl in *. rewrite length_app. lia.
Qed.

Lemma wf_reachable s0 x : wf_sys (mkSys s0 [] no_history []) → reachable m single s0 x → wf_sys x.
Proof. intros H0. induction 1 as [|x y ? IH Hs]; [done|]. by apply wf_sys_step in Hs as [? _]. Qed.

Lemma wf_steps x y : wf_sys x → rtc (mstep m single) x y → wf_sys y ∧
  st_generation (sy_state x) ≤ st_generation (sy_state y).
Proof.
  intros Hx H. induction H as [|x y z Hs _ IH]; [done|].
  apply wf_sys_step in Hs as [Hy [He _ _]]; [|done]. destruct (IH Hy) as [? ?].
  split; [done|]. pose proof (ev_generation _ _ _ He). lia.
Qed.

Lemma stale_protected {R} (commit : ProtectedReplayProof → R →
    outcome SessionError.t unit * ProtectedReplayProof * R) t s x :
  stale m s t = true → commit_protected_replay m commit t (s, x) = (Err MobilityError.Replay, (s, x)).
Proof.
  intros Hs. unfold commit_protected_replay. destruct (_ || _); [done|].
  destruct (tr_protected_proof t); [|done]. by rewrite Hs.
Qed.

Lemma stale_profile3 t s x :
  stale m s t = true → commit_profile3 m t (s, x) = (Err MobilityError.Replay, (s, x)).
Proof.
  intros Hs. unfold commit_profile3. destruct (_ || _); [done|].
  destruct (tr_profile3_proof t); [|done]. by rewrite Hs.
Qed.
End Invariant.

(** *** The initial state *)

Section Theorems.
Context `{C : Crypto} `{DA : Build}.

Lemma new_inner_state c o b n m s n' :
  new_inner c o b n = (Ok (m, s), n') → s = initial_state c o.
Proof.
  unfold new_inner. rewrite st_bind_lift. intros H.
  repeat case_match; simplify_eq; done || discriminate.
Qed.

Lemma wf_initial m c o single :
  wf_sys m (cf_candidate_secret c) (cf_peer_loc c) (cf_initial_peer_binding c) single
    (mkSys (initial_state c o) [] no_history []).
Proof.
  split; simpl; [|set_solver|unfold potential; simpl; destruct o; lia].
  split; simpl; [split; simpl; try set_solver; intros; constructor|split; set_solver| | |done|by left].
  - split; simpl; unfold len, PROPOSAL_SLOTS, LIVE_CANDIDATES_MAX, RESULT_CACHE_SLOTS; simpl; try lia.
    solve_width.
  - split; [by left|by left|]. set_solver.
Qed.

Lemma manager_wf c o b n m s0 n' single x :
  new_inner c o b n = (Ok (m, s0), n') → reachable m single s0 x →
  wf_sys m (cf_candidate_secret c) (cf_peer_loc c) (cf_initial_peer_binding c) single x.
Proof.
  intros ->%new_inner_state Hr. eapply wf_reachable, Hr. apply wf_initial.
Qed.

(** C13: along any run the manager stays within its capacities (two proposals, candidates, outbound
    candidates, undelivered results and tombstones, two tokens; two cached results in a build with
    debug assertions, and in every build at most six, less two for each proposal it still holds),
    every proposal and candidate it keeps is of an update that was received and carries the peer's
    signature, every proven candidate has a response that was received in time with the token issued
    to its carrier, every cohort, proposal and outbound candidate is newer than the epoch it would
    replace, and every transition that is still current is applicable to the state. *)
Theorem manager_invariant c o b n m s0 n' single x :
  new_inner c o b n = (Ok (m, s0), n') → reachable m single s0 x →
  wf_bounds (sy_state x) ∧ wf_epochs (sy_state x) ∧
  wf_auth m (cf_candidate_secret c) single (sy_history x) (st_proposals (sy_state x))
    (st_candidates (sy_state x)) ∧
  ∀ t, t ∈ sy_issued x → stale m (sy_state x) t = false →
    action_ok m (cf_candidate_secret c) (sy_history x) (sy_state x) (tr_action t).
Proof.
  intros Hn [[] Hi _]%(manager_wf _ _ _ _ _ _ _ _ _ Hn). split_and!; try done.
  intros t Ht [Hc Hg%negb_false_iff%Z.eqb_eq]%orb_false_iff. by apply (Hi t Ht).
Qed.

(** C12: the peer is only ever believed to be where it said and where it answered.  Its locator is
    that of the handshake, or that of a location update which was received in the run with the
    peer's signature and for which a bind response was received before its expiry with the token this
    end issues for that update, that expiry and the carrier the response came from; and if the peer
    probes each candidate from one carrier only, the carrier in use is that of the handshake, one this
    end probed itself and from which the result came that accepts its own move, or exactly the one
    such a response for the peer's locator came from. *)
Theorem peer_location_authenticated c o b n m s0 n' single x :
  new_inner c o b n = (Ok (m, s0), n') → reachable m single s0 x →
  let authentic k r := signed_update m (sy_history x) k ∧
                       token_returned m (cf_candidate_secret c) (sy_history x) k r ∧
                       key_loc k = st_peer_loc (sy_state x) in
  (st_peer_loc (sy_state x) = cf_peer_loc c ∨ ∃ k r, authentic k r) ∧
  (single = true →
   st_current_binding (sy_state x) = cf_initial_peer_binding c ∨
   move_accepted (sy_history x) (st_local_epoch (sy_state x)) (st_current_binding (sy_state x)) ∨
   ∃ k r, authentic k r ∧ bri_binding r = st_current_binding (sy_state x)).
Proof.
  intros Hn [[_ _ _ [Hp Hb _] _ _] _ _]%(manager_wf _ _ _ _ _ _ _ _ _ Hn) authentic. split.
  - destruct Hp as [?|(k & r & ? & ? & ?)]; [by left|right; by exists k, r].
  - intros Hs. destruct (Hb Hs) as [?|[?|(k & r & ? & ? & ? & ?)]]; [by left|by right; left|].
    right. right. by exists k, r.
Qed.

(** No call rolls a location back: the epochs of both ends never decrease, and a locator changes
    only together with a greater epoch of its end. *)
Theorem epochs_never_roll_back c o b n m s0 n' single x y :
  new_inner c o b n = (Ok (m, s0), n') → reachable m single s0 x → mstep m single x y →
  st_peer_epoch (sy_state x) ≤ st_peer_epoch (sy_state y) ∧
  st_local_epoch (sy_state x) ≤ st_local_epoch (sy_state y) ∧
  (st_peer_loc (sy_state y) ≠ st_peer_loc (sy_state x) →
   st_peer_epoch (sy_state x) < st_peer_epoch (sy_state y)) ∧
  (st_local_loc (sy_state y) ≠ st_local_loc (sy_state x) →
   st_local_epoch (sy_state x) < st_local_epoch (sy_state y)).
Proof.
  intros Hn Hr Hs. pose proof (manager_wf _ _ _ _ _ _ _ _ _ Hn Hr) as Hw.
  apply (wf_sys_step _ _ _ _ _ _ _ Hw) in Hs as [_ [He _ _]].
  destruct (ev_advances _ _ _ _ _ _ _ _ He) as [[?|[? ?]] [?|[? ?]]]; split_and!; (lia || done).
Qed.

(** A transition is committed with success: by the replay proof of a protected packet, or by that of
    a profile-3 packet. *)
Inductive committed (m : CandidateManager) (t : Transition) (s s1 : State) : Prop :=
| committed_protected {R} (commit : ProtectedReplayProof → R →
      outcome SessionError.t unit * ProtectedReplayProof * R) (q q1 : R) :
    commit_protected_replay m commit t (s, q) = (Ok (), (s1, q1)) → committed m t s s1
| committed_profile3 (d d1 : DirectionalSession) :
    commit_profile3 m t (s, d) = (Ok (), (s1, d1)) → committed m t s s1.

Lemma committed_current m t s s1 : committed m t s s1 → stale m s t = false.
Proof.
  intros [R commit q q1 H|d d1 H].
  - unfold commit_protected_replay in H. cond_case H Hx; [done|].
    destruct (tr_protected_proof t); [|done]. by cond_case H Hst.
  - unfold commit_profile3 in H. cond_case H Hx; [done|].
    destruct (tr_profile3_proof t); [|done]. by cond_case H Hst.
Qed.

Lemma committed_applied m K L0 B0 single B t s s1 :
  wf_manager m K L0 B0 single B s → issued_ok m K B s t →
  (single = true → fresh_probe s t = true) → committed m t s s1 →
  applied m K L0 B0 single B t s (Ok ()) s1.
Proof.
  intros Hw Hi Hf [R commit q q1 H|d d1 H];
    [by eapply applied_commit_protected|by eapply applied_commit_profile3].
Qed.

(** C21: a transition takes effect at most once, on the state it was previewed on, in a manager of
    any profile: once a transition that changes the state is committed, by the replay proof of a
    protected or of a profile-3 packet, that one and every other transition issued before is refused
    for ever by both ways to commit, with the manager and the replay state untouched. *)
Theorem transition_applied_once c o b n m s0 n' single s T B a t s1 t' y :
  new_inner c o b n = (Ok (m, s0), n') → reachable m single s0 (mkSys s T B a) →
  t ∈ T → t' ∈ T → (single = true → fresh_probe s t = true) → mutates (tr_action t) = true →
  committed m t s s1 → rtc (mstep m single) (mkSys s1 T B a) y →
  (∀ R (commit : ProtectedReplayProof → R → outcome SessionError.t unit * ProtectedReplayProof * R) q,
     commit_protected_replay m commit t' (sy_state y, q) = (Err MobilityError.Replay, (sy_state y, q))) ∧
  (∀ d, commit_profile3 m t' (sy_state y, d) = (Err MobilityError.Replay, (sy_state y, d))).
Proof.
  intros Hn Hr Ht Ht' Hf Hmt Hc Hy. pose proof (manager_wf _ _ _ _ _ _ _ _ _ Hn Hr) as Hw.
  pose proof Hw as [Hws Hi _]. simpl in *.
  destruct (committed_applied _ _ _ _ _ _ _ _ _ Hws (Hi _ Ht) Hf Hc) as [He Hlt].
  destruct (wf_sys_move _ _ _ _ _ _ _ _ _ _ _ Hw He) as [Hw1 _]; [done|].
  destruct (wf_steps _ _ _ _ _ _ _ Hw1 Hy) as [_ Hg]. simpl in Hg.
  pose proof (io_generation _ _ _ _ _ (Hi _ Ht')). specialize (Hlt eq_refl Hmt).
  apply committed_current, orb_false_iff in Hc as [_ Heq%negb_false_iff%Z.eqb_eq].
  assert (stale m (sy_state y) t' = true) as Hst
    by (apply orb_true_iff; right; apply negb_true_iff, Z.eqb_neq; lia).
  split; intros; [by apply stale_protected|by apply stale_profile3].
Qed.

(** The admission authority handed to a profile-3 manager is spent at most once: whatever the
    calls, at most one admission is ever taken out of it. *)
Theorem profile3_admitted_once c o b n m s0 n' single x :
  new_inner c o b n = (Ok (m, s0), n') → reachable m single s0 x →
  (length (sy_admitted x) ≤ 1)%nat.
Proof. intros Hn [_ _ ?]%(manager_wf _ _ _ _ _ _ _ _ _ Hn). lia. Qed.
End Theorems.
