(* ===== verification/Migration.v ===== *)
(** * Migrations

    The arbitration of a cohort against its declarative rule, and two managers
    that migrate a session from end to end. *)

From stdpp Require Import gmap sets sorting.
From S2P Require Import Prelude Wire Checksum Codec HeaderRules Crypto SessionMsg Replay SessionCrypto Directional Client Limiter Server Handshake Control Mobility MobilityInv.
#[local] Open Scope Z_scope.

(** ** Arbitration *)

Definition has_candidate (s : State) (p : Proposal) : Prop :=
  ∃ c, c ∈ st_candidates s ∧ ca_candidate_id c = pr_candidate_id p.
Definition proven_member (s : State) (p : Proposal) : Prop :=
  ∃ c, c ∈ st_candidates s ∧ ca_candidate_id c = pr_candidate_id p ∧ ca_state c = Proven.

(** [w] is the smallest identifier of a proven member. *)
Definition winning (s : State) (ms : list Proposal) (w : Proposal) : Prop :=
  w ∈ ms ∧ proven_member s w ∧
  ∀ q, q ∈ ms → proven_member s q → id_le (pr_candidate_id w) (pr_candidate_id q).

(** The result a member is told: promoted, rejected or expired. *)
Definition verdict (s : State) (ms : list Proposal) (p : Proposal) (v : Z) : Prop :=
  (v = 1 ∧ winning s ms p) ∨
  (v = 2 ∧ has_candidate s p ∧ ∃ w, winning s ms w ∧ pr_candidate_id w ≠ pr_candidate_id p) ∨
  (v = 3 ∧ ((∀ q, q ∈ ms → ¬ proven_member s q) ∨
            ¬ has_candidate s p ∧ ∃ w, winning s ms w)).

Definition announces (s : State) (ms : list Proposal) (p : Proposal) (l : bytes) : Prop :=
  ∃ v, verdict s ms p v ∧
       control_encode (CandidateResult (pr_candidate_id p) (pr_epoch p) (pr_slot p) v) = Ok l.

#[export] Instance id_le_total : Total id_le.
Proof. intros a b. unfold id_le. lia. Qed.
#[export] Instance id_le_trans : Transitive id_le.
Proof. intros a b c. unfold id_le. lia. Qed.

Lemma proven_spec s p :
  existsb (λ c, has_id (pr_candidate_id p) c && is_proven (ca_state c)) (st_candidates s) = true ↔
  proven_member s p.
Proof.
  rewrite existsb_elem. unfold proven_member, has_id. split.
  - intros (c & Hc & [Hid%beq_true Hp]%andb_true_iff). exists c. by destruct (ca_state c).
  - intros (c & Hc & Hid & Hp). exists c. split; [done|]. rewrite Hid, beq_refl. by rewrite Hp.
Qed.

Lemma elem_cohort_proven s ms i :
  i ∈ cohort_proven s ms ↔ ∃ p, p ∈ ms ∧ proven_member s p ∧ pr_candidate_id p = i.
Proof.
  unfold cohort_proven. rewrite merge_sort_Permutation, list_elem_of_fmap.
  setoid_rewrite list_elem_of_filter. setoid_rewrite proven_spec. naive_solver.
Qed.

Lemma winner_some s ms w :
  head (cohort_proven s ms) = Some w → ∃ p, winning s ms p ∧ pr_candidate_id p = w.
Proof.
  intros Hw. pose proof (elem_cohort_proven s ms) as Hel.
  assert (StronglySorted id_le (cohort_proven s ms)) as Hs
    by (apply (StronglySorted_merge_sort id_le); apply _).
  destruct (cohort_proven s ms) as [|w' l]; [done|]. injection Hw as ->.
  apply StronglySorted_inv in Hs as [_ Hs].
  destruct (proj1 (Hel w)) as (p & Hp & Hpr & Hid); [by left|]. exists p. split; [|done].
  split_and!; [done..|]. intros q Hq Hqp. rewrite Hid.
  assert (pr_candidate_id q ∈ w :: l) as Hin by (apply Hel; eauto).
  apply elem_of_cons in Hin as [->|Hin]; [unfold id_le; lia|].
  by eapply Forall_forall in Hs.
Qed.

Lemma winner_none s ms :
  head (cohort_proven s ms) = None → ∀ q, q ∈ ms → ¬ proven_member s q.
Proof.
  intros Hn q Hq Hp. assert (pr_candidate_id q ∈ cohort_proven s ms) as Hin
    by (apply elem_cohort_proven; eauto).
  destruct (cohort_proven s ms); [by apply elem_of_nil in Hin|done].
Qed.

Lemma cohort_result_verdict s ms p :
  p ∈ ms → verdict s ms p (cohort_result s (head (cohort_proven s ms)) p).
Proof.
  intros Hp. destruct (head (cohort_proven s ms)) as [w|] eqn:Hw; cbn [cohort_result].
  - apply winner_some in Hw as (q & Hq & <-).
    destruct (beq _ _) eqn:Heq; [apply beq_true in Heq|apply beq_false in Heq].
    + left. split; [done|]. destruct Hq as (? & (c & ? & ? & ?) & Hmin). split_and!; [done| |].
      * exists c. split_and!; [done|congruence|done].
      * intros q' ? ?. rewrite <-Heq. auto.
    + destruct (existsb _ _) eqn:Hc.
      * apply existsb_elem in Hc as (c & ? & ?%beq_true). right. left. split; [done|]. split; eauto.
        by exists c.
      * right. right. split; [done|]. right. split; [|eauto]. intros (c & Hin & Hid).
        apply (existsb_false _ _ c) in Hc; [|done]. by apply beq_false in Hc.
  - right. right. split; [done|]. left. by apply winner_none.
Qed.

Lemma mapO_Forall2 {E A B} (P : A → B → Prop) (f : A → outcome E B) l ys :
  (∀ x y, x ∈ l → f x = Ok y → P x y) → mapO f l = Ok ys → Forall2 P l ys.
Proof.
  revert ys. induction l as [|x l IH]; intros ys Hf H; cbn [mapO] in H.
  - apply Ok_inj in H as <-. constructor.
  - apply bind_Ok in H as (y & Hy & H). apply bind_Ok in H as (ys' & Hl & <-%Ok_inj).
    constructor; [apply Hf; [by left|done]|]. apply IH; [|done]. intros. apply Hf; [by right|done].
Qed.

(** C25: settling a frozen cohort tells every member its result, in order, by the arbitration rule:
    the proven member with the smallest identifier is promoted, members with a candidate that lost
    are rejected, and the others, or all if none is proven, have expired; afterwards the cohort and
    every proposal and candidate of its epoch or older are gone. *)
Theorem settle_announces_verdicts `{DA : Build} profile scid now s e ms s' :
  st_frozen_cohort s = Some (e, ms) → settle_frozen_cohort profile scid now s = (Ok true, s') →
  ∃ kept ls, st_emitted_results s' = kept ++ ls ∧ Forall2 (announces s ms) ms ls ∧
    (kept = st_emitted_results s ∨ st_profile3_slot1_admitted s' = true) ∧
    st_frozen_cohort s' = None ∧
    (∀ p, p ∈ st_proposals s' → e < pr_epoch p) ∧ (∀ c, c ∈ st_candidates s' → e < ca_epoch c).
Proof.
  intros Hfr H. unfold settle_frozen_cohort in H. rewrite Hfr in H.
  cond_case H Hb; [done|]. cond_case H Hem; [done|].
  destruct (mapO _ ms) as [outs| |] eqn:Hout; [|done..]. cond_case H Hr; [done|].
  assert (Forall2 (announces s ms) ms (re_bytes <$> outs)) as Hls.
  { apply Forall2_fmap_r. eapply mapO_Forall2, Hout. intros p o Hp Ho. simpl in Ho.
    unfold cohort_outcome in Ho.
    edestruct (result_entry_Ok p) as (l & Hl & Henc). rewrite Hl in Ho. apply Ok_inj in Ho as <-.
    eexists. split; [by apply cohort_result_verdict|exact Henc]. }
  assert (∀ s1, let s2 := publish_cohort e outs s1 in st_frozen_cohort s2 = None ∧
    (∀ p, p ∈ st_proposals s2 → e < pr_epoch p) ∧ (∀ c, c ∈ st_candidates s2 → e < ca_epoch c)) as Hpub.
  { intros s1 s2. split_and!; [done|..]; intros x [Hx _]%list_elem_of_filter; lia. }
  assert (∀ s1, st_emitted_results s1 = st_emitted_results s →
    s' = publish_cohort e outs s1 → ∃ kept ls, st_emitted_results s' = kept ++ ls ∧
      Forall2 (announces s ms) ms ls ∧
      (kept = st_emitted_results s ∨ st_profile3_slot1_admitted s' = true) ∧
      st_frozen_cohort s' = None ∧ (∀ p, p ∈ st_proposals s' → e < pr_epoch p) ∧
      (∀ c, c ∈ st_candidates s' → e < ca_epoch c)) as Hdone.
  { intros s1 He ->. exists (st_emitted_results s), (re_bytes <$> outs).
    split_and!; [simpl; by rewrite He|done|by left|by apply Hpub..]. }
  destruct (head _) as [w|]; [|injection H as <-; by eapply Hdone; [|reflexivity]].
  destruct (List.find _ _) as [c|]; [|done].
  destruct (profile =? 3); [|injection H as <-; by eapply Hdone; [|reflexivity]].
  match type of H with context [admit_slot1 ?a ?b ?c ?d ?e s] => set (s1 := admit_slot1 a b c d e s) in * end.
  destruct (st_profile3_slot1_admitted s1) eqn:Had; injection H as <-.
  - exists [], (re_bytes <$> outs). split_and!; [done|done|by right|done|..];
      intros x Hx; by apply elem_of_nil in Hx.
  - eapply Hdone; [|done]. simpl. unfold s1, admit_slot1.
    by destruct (st_profile3_slot1_admitted s), (st_profile3_owner s).
Qed.

(** ** Receiving a control

    What a session does with a control that arrives on [b]: preview, answer, commit. *)

Section Receive.
Context `{C : Crypto} `{DA : Build}.

Definition receive (m : CandidateManager) (b : ObservedBinding) (now : Z) (c : Control) :
    st State MobilityError.t (option Control) :=
  l ← lift (control_encode c);
  s ← get;
  t ← lift (preview_inner m s b now l None None);
  response ← lift (response_for m t s);
  apply_after_replay m t ;;
  mret response.

Definition bump_if (a : Action) (g : Z) (s : State) : State :=
  if mutates a then set_generation (g + 1) s else s.

Lemma apply_after_replay_Ok m t s s1 :
  st_generation s < u64_max → apply_action m (tr_action t) s = (Ok (), s1) →
  apply_after_replay m t s = (Ok (), bump_if (tr_action t) (st_generation s) s1).
Proof.
  intros Hg Ha. unfold apply_after_replay, bump_if. rewrite bind_get, st_bind_lift.
  destruct (mutates (tr_action t)) eqn:Hm; [rewrite checked_add_Some by lia|];
    cbn [ok_or]; unfold mbind, st_bind; rewrite Ha; unfold get; by rewrite ?Hm.
Qed.

Lemma receive_Ok m b now c s a response s1 :
  typed_control c → control_rules c → binding_validate b = Ok () →
  profile_allows_slot (cm_profile m) (control_slot c) = true → cm_profile m ≤ 2 →
  st_closed s = false → st_generation s < u64_max →
  preview_action m s b now c = Ok a →
  response_for m (mkTransition (st_generation s) (cm_owner_id m) a None None) s = Ok response →
  apply_action m a s = (Ok (), s1) →
  receive m b now c s = (Ok response, bump_if a (st_generation s) s1).
Proof.
  intros Ht Hr Hb Hslot Hprof Hcl Hg Ha Hresp Happ. unfold receive.
  rewrite control_encode_layout. set (l := concat _).
  assert (preview_inner m s b now l None None =
          Ok (mkTransition (st_generation s) (cm_owner_id m) a None None)) as Hpre.
  { unfold preview_inner. rewrite Hb. cbn [map_err mbind outcome_bind].
    rewrite (control_parse_encoded c l) by (done || apply control_encode_layout).
    cbn [mbind outcome_bind]. rewrite Hslot, Hcl.
    assert (st_generation s =? u64_max = false) as -> by (apply Z.eqb_neq; lia).
    assert (cm_profile m =? 3 = false) as -> by (apply Z.eqb_neq; lia). cbn [negb orb andb].
    by rewrite Ha. }
  rewrite st_bind_lift, bind_get, st_bind_lift, Hpre, st_bind_lift, Hresp.
  unfold mbind, st_bind. erewrite apply_after_replay_Ok by (done || exact Happ). done.
Qed.

(** The same for an action that changes the state. *)
Lemma receive_mutates m b now c s a response s1 :
  typed_control c → control_rules c → binding_validate b = Ok () →
  profile_allows_slot (cm_profile m) (control_slot c) = true → cm_profile m ≤ 2 →
  st_closed s = false → st_generation s < u64_max → mutates a = true →
  preview_action m s b now c = Ok a →
  response_for m (mkTransition (st_generation s) (cm_owner_id m) a None None) s = Ok response →
  apply_action m a s = (Ok (), s1) →
  receive m b now c s = (Ok response, set_generation (st_generation s + 1) s1).
Proof.
  intros ??????? Hm ???. erewrite receive_Ok by done. unfold bump_if. by rewrite Hm.
Qed.
End Receive.

Lemma sat_add_u64 a b : 0 ≤ a → 0 ≤ b → sat_add a b = a + b → is_u64 (a + b).
Proof. unfold sat_add. intros. solve_width. Qed.

(** ** Two managers of one session *)

(** The two ends of a session: same session and policy, mirrored identities, the mobile end's own key. *)
Record linked `{C : Crypto} (ma mb : CandidateManager) : Prop := {
  lk_profile : 0 ≤ cm_profile ma ≤ 2;
  lk_profiles : cm_profile mb = cm_profile ma;
  lk_scid : cm_scid mb = cm_scid ma;
  lk_policy : cm_policy_id mb = cm_policy_id ma;
  lk_local : cm_peer mb = cm_local ma;
  lk_peer : cm_local mb = cm_peer ma;
  lk_wf : wf_mobility_context (local_context ma);
  lk_roles : id_role (cm_local ma) ≠ id_role (cm_peer ma);
  lk_role_a : role_known (id_role (cm_local ma)) = true;
  lk_role_b : role_known (id_role (cm_peer ma)) = true;
  lk_signing : wf_array 32 (cm_signing ma);
  lk_key : ed25519_public (cm_signing ma) = id_public_key (cm_local ma);
}.

(** The parameters of a move. *)
Record Move : Set := mkMove {
  mv_id : bytes; mv_old : bytes; mv_new : bytes; mv_epoch : Z;
  mv_carrier : ObservedBinding;   (** as the mobile end names its carrier *)
  mv_observed : ObservedBinding;  (** as the other end observes it *)
  mv_nonce : bytes;
}.

Record wf_move (v : Move) : Prop := {
  vm_id : wf_array 16 (mv_id v); vm_nonzero : mv_id v ≠ replicate 16 0;
  vm_old : wf_array 16 (mv_old v); vm_new : wf_array 16 (mv_new v);
  vm_epoch : is_u64 (mv_epoch v); vm_nonce : wf_array 16 (mv_nonce v);
  vm_carrier : binding_validate (mv_carrier v) = Ok ();
  vm_observed : binding_validate (mv_observed v) = Ok (); vm_wf : wf_binding (mv_observed v);
}.

Section Honest.
Context `{L : CryptoLaws} `{DA : Build}.
Context (ma mb : CandidateManager) (Hl : linked ma mb) (v : Move) (Hv : wf_move v).

Notation fields := (mkLocUpdateFields (mv_id v) (mv_old v) (mv_new v) (mv_epoch v) 0).

Lemma peer_context_linked : peer_context mb = local_context ma.
Proof. destruct Hl. unfold peer_context, local_context. congruence. Qed.

Lemma slot_0_allowed m : 0 ≤ cm_profile m ≤ 2 → profile_allows_slot (cm_profile m) 0 = true.
Proof. intros. unfold profile_allows_slot. simpl. lia. Qed.

Lemma context_checked :
  let c := local_context ma in
  (3 <? mc_profile c) = false ∧ (id_role (mc_sender c) =? id_role (mc_receiver c)) = false ∧
  role_known (id_role (mc_sender c)) = true ∧ role_known (id_role (mc_receiver c)) = true ∧
  profile_allows_slot (mc_profile c) 0 = true.
Proof.
  destruct Hl. cbn [mc_profile mc_sender mc_receiver local_context].
  split_and!; [lia|lia|done|done|by apply slot_0_allowed].
Qed.

Lemma wf_binding_encode b : wf_binding b → wf_bytes (binding_encode b).
Proof. destruct b; [done|]. intros [? [? ?]]. cbn [binding_encode].
  apply wf_bytes_app; [compute_decide|apply wf_bytes_app; [apply wf_be_bytes|done]].
Qed.

Lemma update_input :
  ∃ input, loc_update_signature_input (local_context ma) fields = Ok input ∧ wf_bytes input.
Proof.
  pose proof context_checked as (H3 & Hr & Ha & Hb & Hs). pose proof Hl as []. pose proof Hv as [].
  unfold loc_update_signature_input. cbn [lu_path_slot]. rewrite H3, Hr, Ha, Hb, Hs.
  cbn [negb orb]. eexists. split; [reflexivity|].
  destruct lk_wf0 as ([? ?] & ? & (_ & _ & [_ ?] & _) & (_ & _ & [_ ?] & _) & _).
  cbn [lu_candidate_id lu_old_loc lu_new_loc lu_epoch]. inv_wf. unfold SESSION_VERSION. solve_wf.
  all: compute_decide.
Qed.

Lemma sign_verify :
  ∃ sig, wf_array 64 sig ∧
    let u := LocUpdate (mv_id v) (mv_old v) (mv_new v) (mv_epoch v) 0 5000 0 sig in
    sign_loc_update (cm_signing ma) (local_context ma) fields = Ok u ∧
    verify_loc_update u (peer_context mb) = Ok ().
Proof.
  destruct update_input as (input & Hi & Hw). pose proof Hl as []. rewrite peer_context_linked.
  exists (ed25519_sign (cm_signing ma) input). split; [by apply ed25519_sign_array|].
  cbv zeta. unfold sign_loc_update. rewrite Hi. split; [done|].
  cbn [verify_loc_update]. change (0 =? 0) with true. change (5000 =? 5000) with true.
  cbn [negb orb]. rewrite Hi. cbn [mbind outcome_bind].
  change (mc_sender (local_context ma)) with (cm_local ma). rewrite <-lk_key0.
  by rewrite ed25519_public_ok, ed25519_verify_sign by done.
Qed.

(** The token of the move at the other end: it can always be computed. *)
Lemma token_total K expiry :
  wf_bytes K → is_u64 expiry →
  ∃ tok, token K (peer_context mb)
           (mkTokenFields (mv_id v) (mv_new v) (mv_observed v) (mv_epoch v) 0 expiry) = Ok tok ∧
         wf_array 32 tok.
Proof.
  intros HK He. pose proof context_checked as (H3 & Hr & Ha & Hb & Hs). pose proof Hl as [].
  pose proof Hv as []. rewrite peer_context_linked. unfold token.
  set (f := mkTokenFields _ _ _ _ _ _).
  assert (∃ input, token_input (local_context ma) f = Ok input) as [input Hi].
  { unfold token_input. cbn [tf_binding tf_path_slot f]. rewrite vm_observed0, H3, Hr, Ha, Hb, Hs.
    cbn [negb orb orM mbind outcome_bind]. eexists. reflexivity. }
  assert (wf_bytes input) as Hw.
  { apply token_input_inv in Hi as (_ & _ & _ & ->).
    destruct lk_wf0 as ([? ?] & ? & (_ & _ & [_ ?] & _) & (_ & _ & [_ ?] & _) & _).
    pose proof (wf_binding_encode _ vm_wf0).
    cbn [tf_binding tf_candidate_id tf_loc tf_epoch tf_path_slot tf_expiry_ms f].
    inv_wf. unfold SESSION_VERSION. destruct (id_role _ =? 1); solve_wf; compute_decide. }
  rewrite Hi. cbn [mbind outcome_bind]. pose proof (hmac_array K input HK Hw) as Ht.
  exists (hmac_sha256 K input). split; [|done]. by rewrite (proj1 Ht), Nat.eqb_refl.
Qed.

(** *** The steps of the other end *)

Lemma profile_b : cm_profile mb ≤ 2 ∧ profile_allows_slot (cm_profile mb) 0 = true ∧
  (cm_profile mb =? 3) = false.
Proof. pose proof Hl as []. rewrite lk_profiles0. split_and!; [lia|by apply slot_0_allowed|lia]. Qed.

(** A manager with no peer move in progress, ready for this one. *)
Record ready_b (now : Z) (s : State) : Prop := {
  rb_closed : st_closed s = false;
  rb_generation : 0 ≤ st_generation s ∧ st_generation s + 3 ≤ u64_max;
  rb_peer : st_peer_loc s = mv_old v;
  rb_epoch : st_peer_epoch s < mv_epoch v;
  rb_frozen : st_frozen_cohort s = None;
  rb_old : st_old_binding s = None;
  rb_proposals : st_proposals s = [];
  rb_candidates : st_candidates s = [];
  rb_results : st_results s = [];
  rb_emitted : st_emitted_results s = [];
  rb_outbound : existsb (λ c, beq (oc_candidate_id c) (mv_id v)) (st_outbound s) = false;
  rb_tombstones : tombstoned s (mv_id v) now = false;
  rb_tokens : 1 ≤ st_proposal_tokens s;
}.

Definition the_update (sig : bytes) : Control :=
  LocUpdate (mv_id v) (mv_old v) (mv_new v) (mv_epoch v) 0 5000 0 sig.

Lemma step_update sig b s now :
  wf_array 64 sig → verify_loc_update (the_update sig) (peer_context mb) = Ok () →
  binding_validate b = Ok () → ready_b now s →
  ∃ l tk rf, receive mb b now (the_update sig) s =
    (Ok None,
     set_generation (st_generation s + 1)
       (set_proposals [mkProposal l (mv_id v) (mv_new v) (mv_epoch v) 0 (sat_add now 5000)]
          (set_proposal_refill_ms rf (set_proposal_tokens tk s)))).
Proof.
  intros Hsig Hver Hb []. pose proof Hv as []. destruct profile_b as (? & ? & Hp3).
  set (el := sat_sub now (st_proposal_refill_ms s) / 1000).
  assert (0 ≤ el) by (apply Z.div_pos; unfold sat_sub; lia).
  set (l := concat (control_layout (the_update sig))).
  set (tk := Z.min (st_proposal_tokens s + el) 2 - 1).
  set (rf := sat_add (st_proposal_refill_ms s) (el * 1000)).
  exists l, tk, rf.
  erewrite (receive_Ok _ _ _ _ _ (CacheProposal
    (mkProposal l (mv_id v) (mv_new v) (mv_epoch v) 0 (sat_add now 5000)) tk rf));
    [reflexivity|..]; try done; try lia.
  - unfold the_update. cbn [preview_action]. unfold preview_loc_update.
    change (LocUpdate _ _ _ _ _ _ _ _) with (the_update sig). rewrite Hver.
    cbn [mbind outcome_bind]. rewrite rb_peer0, beq_refl, Hp3.
    assert (mv_epoch v <=? st_peer_epoch s = false) as -> by lia. cbn [negb orb andb].
    rewrite control_encode_layout. cbn [mbind outcome_bind].
    rewrite rb_proposals0, rb_frozen0, rb_candidates0, rb_outbound0, rb_results0, rb_tombstones0, rb_emitted0.
    cbn [List.find existsb orb negb]. rewrite bool_decide_eq_true_2 by done. cbn [negb].
    change (len (@nil Proposal) =? PROPOSAL_SLOTS) with false.
    change (RESULT_CACHE_SLOTS <=? len (@nil ResultEntry) + len (@nil Proposal)) with false.
    cbn [orb]. cbv zeta. fold el.
    assert (Z.min (st_proposal_tokens s + el) 2 =? 0 = false) as -> by lia. reflexivity.
  - unfold response_for. cbn [tr_owner_id tr_generation tr_action].
    by rewrite rb_closed0, !Z.eqb_refl.
  - cbn [apply_action]. rewrite rb_proposals0. reflexivity.
Qed.

(** The proposal of the move, as the other end cached it. *)
Definition caches (p : Proposal) : Prop :=
  pr_candidate_id p = mv_id v ∧ pr_loc p = mv_new v ∧ pr_epoch p = mv_epoch v ∧ pr_slot p = 0.

Definition challenged (expiry : Z) : Candidate :=
  mkCandidate (mv_id v) (mv_new v) (mv_epoch v) 0 (mv_observed v) expiry None Challenged.

Lemma preview_probe_b p s now :
  st_proposals s = [p] → caches p → now < pr_expiry_ms p → st_candidates s = [] →
  st_old_binding s = None → sat_add now 3000 = now + 3000 →
  preview_action mb s (mv_observed v) now
    (BindProbe (mv_id v) (mv_new v) (mv_epoch v) 0 (mv_nonce v)) =
  Ok (Challenge (challenged (now + 3000))).
Proof.
  intros Hps (Hid & Hloc & He & Hsl) Hnow Hcs Hob Hsat.
  cbn [preview_action]. unfold preview_probe. rewrite Hps. cbn [List.find].
  rewrite Hid, Hloc, He, Hsl, !beq_refl, !Z.eqb_refl.
  assert (now <? pr_expiry_ms p = true) as -> by lia. cbn [andb ok_or mbind outcome_bind].
  rewrite Hcs, Hob, Hid, Hloc, He, Hsl. cbn [List.find].
  change ((len (@nil Candidate) =? LIVE_CANDIDATES_MAX) || (1 =? LIVE_CANDIDATES_MAX)) with false.
  cbv zeta. unfold CHALLENGE_EXPIRY_MS. by rewrite Hsat.
Qed.

Lemma respond_challenge K s expiry tok g :
  st_closed s = false → st_generation s = g → st_candidate_secret s = Some K →
  token K (peer_context mb)
    (mkTokenFields (mv_id v) (mv_new v) (mv_observed v) (mv_epoch v) 0 expiry) = Ok tok →
  response_for mb (mkTransition g (cm_owner_id mb) (Challenge (challenged expiry)) None None) s =
  Ok (Some (BindChallenge (mv_id v) (mv_new v) (mv_epoch v) 0 expiry tok)).
Proof.
  intros Hcl <- HK Htok. unfold response_for. cbn [tr_owner_id tr_generation tr_action].
  rewrite Hcl, !Z.eqb_refl, HK. cbn [negb orb ok_or mbind outcome_bind].
  cbn [challenged ca_candidate_id ca_loc ca_binding ca_epoch ca_slot ca_expiry_ms].
  by rewrite Htok.
Qed.

Lemma step_probe_b K p s now :
  st_closed s = false → 0 ≤ st_generation s < u64_max → st_proposals s = [p] → caches p →
  now < pr_expiry_ms p → st_candidates s = [] → st_old_binding s = None →
  st_candidate_secret s = Some K → wf_bytes K → 0 ≤ now → sat_add now 3000 = now + 3000 →
  ∃ tok, wf_array 32 tok ∧
    token K (peer_context mb)
      (mkTokenFields (mv_id v) (mv_new v) (mv_observed v) (mv_epoch v) 0 (now + 3000)) = Ok tok ∧
    receive mb (mv_observed v) now (BindProbe (mv_id v) (mv_new v) (mv_epoch v) 0 (mv_nonce v)) s =
    (Ok (Some (BindChallenge (mv_id v) (mv_new v) (mv_epoch v) 0 (now + 3000) tok)),
     set_generation (st_generation s + 1) (set_candidates [challenged (now + 3000)] s)).
Proof.
  intros Hcl Hg Hps (Hid & Hloc & He & Hsl) Hnow Hcs Hob HK HwK H0 Hsat. pose proof Hv as [].
  destruct profile_b as (? & ? & Hp3).
  assert (is_u64 (now + 3000)) by by apply sat_add_u64.
  destruct (token_total K (now + 3000)) as (tok & Htok & Hwt); [done..|].
  exists tok. split; [done|]. split; [done|].
  apply (receive_mutates _ _ _ _ _ (Challenge (challenged (now + 3000)))).
  - split; [done|]. split; [compute_decide|]. by split_and!.
  - split; [done|]. by split.
  - done.
  - done.
  - done.
  - done.
  - lia.
  - done.
  - by eapply preview_probe_b.
  - by eapply respond_challenge.
  - cbn [apply_action]. rewrite Hcs. reflexivity.
Qed.

Definition answered (expiry : Z) (tok : bytes) : BindResponseIdentity :=
  mkResponseIdentity (mv_new v) (mv_observed v) expiry tok.

Lemma preview_response_b K p s now expiry tok :
  st_proposals s = [p] → caches p → st_candidates s = [challenged expiry] → st_results s = [] →
  st_candidate_secret s = Some K → now < expiry →
  token K (peer_context mb)
    (mkTokenFields (mv_id v) (mv_new v) (mv_observed v) (mv_epoch v) 0 expiry) = Ok tok →
  preview_action mb s (mv_observed v) now
    (BindResponse (mv_id v) (mv_new v) (mv_epoch v) 0 expiry tok) =
  Ok (Prove (mv_id v) (mv_epoch v) 0 now (answered expiry tok)).
Proof.
  intros Hps (Hid & Hloc & He & Hsl) Hcs Hrs HK Hnow Htok.
  cbn [preview_action]. unfold preview_response, cached_result, has_id. rewrite Hrs, Hcs.
  cbn [List.find challenged ca_candidate_id ca_loc ca_epoch ca_slot ca_binding ca_expiry_ms ca_state].
  rewrite !beq_refl, !Z.eqb_refl, bool_decide_eq_true_2 by done.
  cbn [andb ok_or mbind outcome_bind is_challenged negb].
  cbn [challenged ca_candidate_id ca_loc ca_epoch ca_slot ca_binding ca_expiry_ms ca_state].
  cbn [andb ok_or mbind outcome_bind is_challenged negb]. rewrite Z.eqb_refl.
  assert (expiry <=? now = false) as -> by lia. cbn [orb negb].
  rewrite HK. cbn [ok_or mbind outcome_bind]. rewrite Htok. cbn [mbind outcome_bind].
  rewrite beq_refl. cbn [negb]. unfold cohort_overflows. rewrite Hps, Hrs.
  change (max_epoch (pr_epoch <$> [p])) with (Some (pr_epoch p)). rewrite He.
  cbn [ok_or mbind outcome_bind]. rewrite filter_cons_True, filter_nil by done.
  assert (RESULT_CACHE_SLOTS <? len (@nil ResultEntry) +
    len match st_frozen_cohort s with
        | Some (e, members) => if e =? mv_epoch v then members else [p]
        | None => [p] end = (match st_frozen_cohort s with Some (e, ms) =>
            if e =? mv_epoch v then RESULT_CACHE_SLOTS <? len ms else false | None => false end)) as ->.
  { destruct (st_frozen_cohort s) as [[e ms]|]; [destruct (e =? mv_epoch v)|]; done. }
  destruct (st_frozen_cohort s) as [[e ms]|]; cbn [andb]; [rewrite bool_decide_eq_false_2 by done|];
    cbn [andb mbind outcome_bind]; rewrite ?andb_false_r; reflexivity.
Qed.

Lemma apply_prove_b p s now expiry tok :
  st_proposals s = [p] → caches p → st_candidates s = [challenged expiry] → st_results s = [] →
  st_emitted_results s = [] → st_frozen_cohort s = None →
  ∃ l s', control_encode (CandidateResult (mv_id v) (mv_epoch v) 0 1) = Ok l ∧
    apply_action mb (Prove (mv_id v) (mv_epoch v) 0 now (answered expiry tok)) s = (Ok (), s') ∧
    st_emitted_results s' = [l] ∧ st_peer_loc s' = mv_new v ∧ st_peer_epoch s' = mv_epoch v ∧
    st_current_binding s' = mv_observed v ∧ st_old_binding s' = Some (st_current_binding s, sat_add now 10000).
Proof.
  intros Hps (Hid & Hloc & He & Hsl) Hcs Hrs Hem Hfr. destruct profile_b as (_ & _ & Hp3).
  set (c1 := set_ca_response (Some (answered expiry tok)) (set_ca_state Proven (challenged expiry))).
  set (s1 := set_candidates [c1] s). set (s2 := set_frozen_cohort (Some (mv_epoch v, [p])) s1).
  assert (prove_candidate (mv_id v) (mv_epoch v) 0 (answered expiry tok) s = Ok s1) as Hprove.
  { unfold prove_candidate. rewrite Hcs. cbn [list_find]. rewrite decide_True by done. reflexivity. }
  assert (freeze_proven (mv_epoch v) s1 = s2) as Hfreeze.
  { unfold freeze_proven, freeze_cohort. change (st_frozen_cohort s1) with (st_frozen_cohort s).
    change (st_proposals s1) with (st_proposals s). rewrite Hfr, Hps.
    change (max_epoch (pr_epoch <$> [p])) with (Some (pr_epoch p)).
    rewrite !bool_decide_eq_true_2 by (done || congruence). cbn [andb].
    rewrite filter_cons_True, filter_nil by done. reflexivity. }
  assert (cohort_blocked s2 [p] = false) as Hblk.
  { unfold cohort_blocked. cbn [existsb]. change (st_candidates s2) with [c1]. cbn [existsb].
    change (negb (settled (ca_state c1))) with false. by rewrite andb_false_r, andb_false_r. }
  assert (cohort_proven s2 [p] = [pr_candidate_id p]) as Hpr.
  { unfold cohort_proven. change (st_candidates s2) with [c1]. cbn [existsb].
    rewrite filter_cons_True, filter_nil; [done|].
    unfold has_id. cbn [c1 ca_candidate_id set_ca_response set_ca_state challenged]. by rewrite Hid, beq_refl. }
  destruct (result_entry_Ok p 1 now (Some (answered expiry tok))) as (l & Hres & Henc).
  rewrite Hid, He, Hsl in Henc.
  assert (has_id (pr_candidate_id p) c1 = true) as Hhas by (apply beq_true; by rewrite Hid).
  eexists l, _. split; [done|]. split.
  - cbn [apply_action]. rewrite Hprove, Hfreeze. unfold settle_frozen_cohort at 1.
    change (st_frozen_cohort s2) with (Some (mv_epoch v, [p])). cbv iota beta.
    rewrite Hblk. change (st_emitted_results s2) with (st_emitted_results s). rewrite Hem.
    change (RESULT_CACHE_SLOTS <? len (@nil bytes) + len [p]) with false. cbv iota.
    rewrite Hpr. cbn [head mapO]. unfold cohort_outcome. cbn [cohort_result]. rewrite beq_refl.
    change (st_candidates s2) with [c1]. cbn [List.find]. rewrite Hhas.
    change (Some c1 ≫= ca_response) with (Some (answered expiry tok)). rewrite Hres.
    cbn [mbind outcome_bind mapO]. change (st_results s2) with (st_results s). rewrite Hrs.
    match goal with |- context [RESULT_CACHE_SLOTS <? ?x] =>
      change (RESULT_CACHE_SLOTS <? x) with false end. rewrite andb_false_r. cbv iota.
    rewrite Hp3. reflexivity.
  - split_and!; try done. simpl. by rewrite Hem.
Qed.

Lemma step_response_b K p s now expiry tok :
  st_closed s = false → 0 ≤ st_generation s < u64_max →
  st_proposals s = [p] → caches p → st_candidates s = [challenged expiry] → st_results s = [] →
  st_emitted_results s = [] → st_frozen_cohort s = None → st_candidate_secret s = Some K →
  now < expiry → is_u64 expiry → wf_array 32 tok →
  token K (peer_context mb)
    (mkTokenFields (mv_id v) (mv_new v) (mv_observed v) (mv_epoch v) 0 expiry) = Ok tok →
  ∃ l s', control_encode (CandidateResult (mv_id v) (mv_epoch v) 0 1) = Ok l ∧
    receive mb (mv_observed v) now (BindResponse (mv_id v) (mv_new v) (mv_epoch v) 0 expiry tok) s =
      (Ok None, s') ∧
    st_emitted_results s' = [l] ∧ st_peer_loc s' = mv_new v ∧ st_peer_epoch s' = mv_epoch v ∧
    st_current_binding s' = mv_observed v ∧ st_old_binding s' = Some (st_current_binding s, sat_add now 10000).
Proof.
  intros Hcl Hg Hps Hp Hcs Hrs Hem Hfr HK Hnow Hex Hwt Htok. pose proof Hv as [].
  destruct profile_b as (? & ? & _).
  destruct (apply_prove_b p s now expiry tok) as (l & s' & Henc & Happ & Hfacts); [done..|].
  exists l, (set_generation (st_generation s + 1) s'). split; [done|]. split; [|exact Hfacts].
  apply (receive_mutates _ _ _ _ _ (Prove (mv_id v) (mv_epoch v) 0 now (answered expiry tok)));
    [..|by eapply preview_response_b| |done]; try done.
  - lia.
  - unfold response_for. cbn [tr_owner_id tr_generation tr_action]. by rewrite Hcl, !Z.eqb_refl.
Qed.

(** *** The steps of the mobile end *)

(** A manager with no move of its own in progress, ready for this one. *)
Record ready_a (now : Z) (s : State) : Prop := {
  ra_closed : st_closed s = false;
  ra_generation : 0 ≤ st_generation s ∧ st_generation s + 2 ≤ u64_max;
  ra_loc : st_local_loc s = mv_old v;
  ra_epoch : st_local_epoch s < mv_epoch v;
  ra_outbound : st_outbound s = [];
  ra_results : st_results s = [];
  ra_frozen : st_frozen_cohort s = None;
  ra_tombstones : tombstoned s (mv_id v) now = false;
}.

Lemma profile_a : cm_profile ma ≤ 2 ∧ profile_allows_slot (cm_profile ma) 0 = true ∧
  (cm_profile ma =? 3) = false.
Proof. pose proof Hl as []. split_and!; [lia|by apply slot_0_allowed|lia]. Qed.

Definition outgoing (b : option ObservedBinding) (now : Z) : OutboundCandidate :=
  mkOutbound (mv_id v) (mv_new v) (mv_epoch v) 0 b (sat_add now 5000).

Lemma step_propose sig s now :
  sign_loc_update (cm_signing ma) (local_context ma) fields = Ok (the_update sig) → ready_a now s →
  propose_local ma (mv_id v) (mv_new v) (mv_epoch v) 0 now s =
  (Ok (the_update sig), set_generation (st_generation s + 1) (set_outbound [outgoing None now] s)).
Proof.
  intros Hsig []. pose proof Hv as []. destruct profile_a as (_ & Hslot & Hp3).
  unfold propose_local. rewrite bind_get, ra_closed0, ra_loc0, Hslot, Hp3, ra_tombstones0.
  rewrite (proj2 (beq_false _ _)) by done.
  assert (mv_epoch v <=? st_local_epoch s = false) as -> by lia. cbn [orb andb negb].
  rewrite Hsig, ra_outbound0. cbn [List.find].
  change (len (@nil OutboundCandidate) =? PROPOSAL_SLOTS) with false. cbv iota.
  rewrite st_bind_lift, bind_put, bind_get, st_bind_lift.
  change (st_generation (set_outbound _ s)) with (st_generation s).
  rewrite checked_add_Some by lia. reflexivity.
Qed.

Lemma step_probe_a s now t0 :
  st_closed s = false → st_outbound s = [outgoing None t0] → now < sat_add t0 5000 →
  make_probe ma (mv_id v) (mv_carrier v) (mv_nonce v) now s =
  (Ok (BindProbe (mv_id v) (mv_new v) (mv_epoch v) 0 (mv_nonce v)),
   set_outbound [outgoing (Some (mv_carrier v)) t0] s).
Proof.
  intros Hcl Hob Hnow. pose proof Hv as []. destruct profile_a as (_ & _ & Hp3).
  unfold make_probe. rewrite vm_carrier0. cbn [map_err]. rewrite st_bind_lift, bind_get, Hcl, Hp3, Hob.
  cbn [orb andb list_find]. rewrite decide_True by done. cbn [outgoing oc_expiry_ms].
  assert (sat_add t0 5000 <=? now = false) as -> by lia. reflexivity.
Qed.

Lemma step_challenge_a s now t0 expiry tok :
  st_closed s = false → 0 ≤ st_generation s < u64_max → st_outbound s = [outgoing (Some (mv_carrier v)) t0] →
  now < sat_add t0 5000 → is_u64 expiry → wf_array 32 tok →
  receive ma (mv_carrier v) now (BindChallenge (mv_id v) (mv_new v) (mv_epoch v) 0 expiry tok) s =
  (Ok (Some (BindResponse (mv_id v) (mv_new v) (mv_epoch v) 0 expiry tok)), s).
Proof.
  intros Hcl Hg Hob Hnow Hex Hwt. pose proof Hv as []. destruct profile_a as (? & Hslot & Hp3).
  set (r := BindResponse (mv_id v) (mv_new v) (mv_epoch v) 0 expiry tok).
  assert (typed_control r) as Htr.
  { split; [done|]. split; [compute_decide|]. by split_and!. }
  assert (control_rules r) as Hrr by by split.
  erewrite (receive_Ok _ _ _ _ _ (Respond (concat (control_layout r))) (Some r) s); [done|..]; try done.
  - lia.
  - cbn [preview_action]. unfold preview_challenge. rewrite Hob.
    cbn [List.find outgoing oc_candidate_id oc_loc oc_epoch oc_slot oc_binding oc_expiry_ms].
    rewrite !beq_refl, !Z.eqb_refl, bool_decide_eq_true_2 by done.
    assert (now <? sat_add t0 5000 = true) as -> by lia. cbn [andb ok_or mbind outcome_bind].
    cbn [outgoing oc_candidate_id oc_loc oc_epoch oc_slot].
    change (BindResponse _ _ _ _ _ _) with r. by rewrite control_encode_layout.
  - unfold response_for. cbn [tr_owner_id tr_generation tr_action]. rewrite Hcl, !Z.eqb_refl.
    cbn [orb negb]. by rewrite (control_parse_encoded r) by (done || apply control_encode_layout).
Qed.

Lemma step_result_a s now t0 :
  st_closed s = false → 0 ≤ st_generation s < u64_max → st_outbound s = [outgoing (Some (mv_carrier v)) t0] →
  st_results s = [] → st_frozen_cohort s = None → now < sat_add t0 5000 →
  ∃ s', receive ma (mv_carrier v) now (CandidateResult (mv_id v) (mv_epoch v) 0 1) s = (Ok None, s') ∧
    st_local_loc s' = mv_new v ∧ st_local_epoch s' = mv_epoch v ∧
    st_current_binding s' = mv_carrier v ∧ st_outbound s' = [] ∧
    st_old_binding s' = Some (st_current_binding s, sat_add now 10000).
Proof.
  intros Hcl Hg Hob Hrs Hfr Hnow. pose proof Hv as []. destruct profile_a as (? & Hslot & Hp3).
  set (r := CandidateResult (mv_id v) (mv_epoch v) 0 1).
  set (entry := mkResult (mv_id v) (mv_epoch v) 0 (concat (control_layout r)) (sat_add now 10000) None
                  Received (Some (mv_carrier v))).
  exists (set_generation (st_generation s + 1)
            (commit_local ma (mv_epoch v) (mv_new v) (mv_carrier v) true entry s)).
  split.
  - apply (receive_mutates _ _ _ _ _ (CommitLocal (mv_epoch v) (mv_new v) (mv_carrier v) true entry));
      try done; try lia.
    + cbn [preview_action r]. unfold preview_result, cached_result. rewrite control_encode_layout.
      cbn [mbind outcome_bind]. rewrite Hrs, Hob.
      cbn [List.find outgoing oc_candidate_id oc_loc oc_epoch oc_slot oc_binding oc_expiry_ms].
      rewrite !beq_refl, !Z.eqb_refl, bool_decide_eq_true_2 by done.
      assert (now <? sat_add t0 5000 = true) as -> by lia. cbn [andb ok_or mbind outcome_bind].
      unfold frozen_slots. rewrite Hfr. reflexivity.
    + unfold response_for. cbn [tr_owner_id tr_generation tr_action]. by rewrite Hcl, !Z.eqb_refl.
  - unfold commit_local. rewrite Hp3. split_and!; try done. simpl. rewrite Hob.
    rewrite filter_cons_False, filter_nil; [done|]. simpl. lia.
Qed.
End Honest.

(** C9: an honest move completes.  When the two managers of a session are ready and the messages
    arrive in time, the update is accepted, the probe is challenged, the response proves the carrier
    and promotes it, and the result promotes the mobile end: both ends agree on the new locator and
    epoch, each uses its own name of the new carrier, and each keeps the old one for ten seconds. *)
Theorem honest_move_completes `{L : CryptoLaws} `{DA : Build} ma mb v K sa sb b0 t1 t2 t3 u1 u2 u3 :
  linked ma mb → wf_move v → ready_a v t1 sa → ready_b v u1 sb →
  st_candidate_secret sb = Some K → wf_bytes K → binding_validate b0 = Ok () →
  0 ≤ t1 ∧ t1 + 5000 ≤ u64_max ∧ t2 < t1 + 5000 ∧ t3 < t1 + 5000 →
  0 ≤ u1 ∧ 0 ≤ u2 < u1 + 5000 ∧ u1 + 8000 ≤ u64_max ∧ u3 < u2 + 3000 →
  ∃ update sa1 sb1 probe sa2 challenge sb2 response sb3 result sb4 sa3,
    propose_local ma (mv_id v) (mv_new v) (mv_epoch v) 0 t1 sa = (Ok update, sa1) ∧
    receive mb b0 u1 update sb = (Ok None, sb1) ∧
    make_probe ma (mv_id v) (mv_carrier v) (mv_nonce v) t2 sa1 = (Ok probe, sa2) ∧
    receive mb (mv_observed v) u2 probe sb1 = (Ok (Some challenge), sb2) ∧
    receive ma (mv_carrier v) t2 challenge sa2 = (Ok (Some response), sa2) ∧
    receive mb (mv_observed v) u3 response sb2 = (Ok None, sb3) ∧
    take_results sb3 = ([result], sb4) ∧
    receive ma (mv_carrier v) t3 result sa2 = (Ok None, sa3) ∧
    local_loc sa3 = mv_new v ∧ peer_loc sb4 = mv_new v ∧
    st_local_epoch sa3 = mv_epoch v ∧ st_peer_epoch sb4 = mv_epoch v ∧
    current_binding sa3 = Some (mv_carrier v) ∧ current_binding sb4 = Some (mv_observed v) ∧
    st_old_binding sa3 = Some (st_current_binding sa, sat_add t3 10000) ∧
    st_old_binding sb4 = Some (st_current_binding sb, sat_add u3 10000).
Proof.
  intros Hl Hv Ha Hb HK HwK Hb0 (Ht0 & Ht1 & Ht2 & Ht3) (Hu1 & Hu2 & Hu & Hu3).
  destruct (sign_verify ma mb Hl v Hv) as (sig & Hwsig & Hsign & Hver).
  pose proof (step_propose ma mb Hl v Hv sig sa t1 Hsign Ha) as HA1.
  destruct (step_update ma mb Hl v Hv sig b0 sb u1) as (l & tk & rf & HB1); [done..|].
  assert (sat_add t1 5000 = t1 + 5000) as St1 by (unfold sat_add; lia).
  assert (sat_add u1 5000 = u1 + 5000) as Su1 by (unfold sat_add; lia).
  assert (sat_add u2 3000 = u2 + 3000) as Su2 by (unfold sat_add; lia).
  assert (is_u64 (u2 + 3000)) as Hex by (unfold is_u64; lia).
  pose proof Ha as []. pose proof Hb as [].
  set (sa1 := set_generation _ _) in HA1. set (p := mkProposal _ _ _ _ _ _) in HB1.
  set (sb1 := set_generation _ _) in HB1.
  assert (caches v p) as Hp by done.
  pose proof (step_probe_a ma mb Hl v Hv sa1 t2 t1) as HA2.
  rewrite St1 in HA2. specialize (HA2 ra_closed0 eq_refl Ht2). set (sa2 := set_outbound _ sa1) in HA2.
  destruct (step_probe_b ma mb Hl v Hv K p sb1 u2) as (tok & Hwt & Htok & HB2);
    try done; try (simpl; lia).
  set (sb2 := set_generation _ _) in HB2.
  pose proof (step_challenge_a ma mb Hl v Hv sa2 t2 t1 (u2 + 3000) tok) as HA3.
  rewrite St1 in HA3. specialize (HA3 ra_closed0 ltac:(simpl; lia) eq_refl Ht2 Hex Hwt).
  destruct (step_response_b ma mb Hl v Hv K p sb2 u3 (u2 + 3000) tok)
    as (r & sb3 & Henc & HB3 & Hem & Hpl & Hpe & Hcb & Hob); try done; try (simpl; lia).
  destruct (step_result_a ma mb Hl v Hv sa2 t3 t1) as (sa3 & HA4 & Hll & Hle & Hca & _ & Hoa);
    try done; try (simpl; lia).
  assert (take_results sb3 = ([CandidateResult (mv_id v) (mv_epoch v) 0 1], set_emitted_results [] sb3)) as HT.
  { unfold take_results. rewrite Hem. cbn [omap list_omap]. pose proof Hv as [].
    by rewrite (control_parse_encoded (CandidateResult (mv_id v) (mv_epoch v) 0 1) r). }
  do 12 eexists. split; [exact HA1|]. split; [exact HB1|]. split; [exact HA2|]. split; [exact HB2|].
  split; [exact HA3|]. split; [exact HB3|]. split; [exact HT|]. split; [exact HA4|].
  unfold local_loc, peer_loc, current_binding. rewrite Hll, Hle, Hca, Hoa.
  cbn [set_emitted_results st_peer_loc st_peer_epoch st_current_binding st_old_binding].
  rewrite Hpl, Hpe, Hcb, Hob. done.
Qed.
