(* ===== verification/MobilityRuns.v ===== *)
(** * Concrete mobility runs

    Two managers with concrete identities over the arithmetic stand-ins of the
    primitives: instances of the theorems of MobilityInv.v and Migration.v, and
    two runs that show what the manager does not guarantee.  The build is the
    release build where nothing else is said. *)

From stdpp Require Import gmap sets sorting.
From S2P Require Import Prelude Wire Checksum Codec HeaderRules Crypto SessionMsg Replay SessionCrypto Directional Client Limiter Server Handshake Control Mobility MobilityInv Migration.
#[local] Open Scope Z_scope.
#[local] Existing Instance release_build.

(** ** The managers *)

Definition mr_carrier (n : Z) : ObservedBinding := Native n [2; 0; 0; 0; 0; n].
Definition mr_loc (n : Z) : bytes := replicate 15 0 ++ [n].
Definition mr_id (n : Z) : bytes := replicate 16 n.
Definition mr_secret : bytes := replicate 32 9.

(** The mobile end and the other end of session 5. *)
Definition mr_config_a : CandidateManagerConfig :=
  mkManagerConfig demo_client_key demo_client_id demo_server_id 0 5 77 (mr_loc 2) (mr_loc 1)
    (mr_carrier 1) (replicate 32 8).
Definition mr_config_b : CandidateManagerConfig :=
  mkManagerConfig demo_server_key demo_server_id demo_client_id 0 5 77 (mr_loc 1) (mr_loc 2)
    (mr_carrier 1) mr_secret.

Definition mr_a : CandidateManager :=
  mkManager demo_client_key demo_client_id demo_server_id 0 5 77 1 (Some (mkReplayBinding 3)).
Definition mr_b : CandidateManager :=
  mkManager demo_server_key demo_server_id demo_client_id 0 5 77 1 (Some (mkReplayBinding 4)).
Definition mr_state_a : State := initial_state mr_config_a None.
Definition mr_state_b : State := initial_state mr_config_b None.

Lemma mr_new_a : new_inner mr_config_a None (Some (mkReplayBinding 3)) 1 = (Ok (mr_a, mr_state_a), 2).
Proof. vm_compute. reflexivity. Qed.
Lemma mr_new_b : new_inner mr_config_b None (Some (mkReplayBinding 4)) 1 = (Ok (mr_b, mr_state_b), 2).
Proof. vm_compute. reflexivity. Qed.

Definition mr_update (id loc : bytes) (epoch : Z) : Control :=
  match propose_local mr_a id loc epoch 0 0 mr_state_a with
  | (Ok u, _) => u | _ => CandidateResult id epoch 0 0 end.
Definition mr_probe (id loc : bytes) (epoch : Z) : Control := BindProbe id loc epoch 0 (replicate 16 4).
(** The response to the challenge that [mr_b] sent to a carrier. *)
Definition mr_answer (id loc : bytes) (epoch : Z) (b : ObservedBinding) (expiry : Z) : Control :=
  match token mr_secret (peer_context mr_b) (mkTokenFields id loc b epoch 0 expiry) with
  | Ok t => BindResponse id loc epoch 0 expiry t | _ => CandidateResult id epoch 0 0 end.

(** ** What the manager does not guarantee *)

Definition mr_double_probe : st State MobilityError.t unit :=
  receive mr_b (mr_carrier 1) 0 (mr_update (mr_id 1) (mr_loc 3) 1) ;;
  receive mr_b (mr_carrier 66) 50 (mr_probe (mr_id 1) (mr_loc 3) 1) ;;
  receive mr_b (mr_carrier 2) 100 (mr_probe (mr_id 1) (mr_loc 3) 1) ;;
  receive mr_b (mr_carrier 2) 200 (mr_answer (mr_id 1) (mr_loc 3) 1 (mr_carrier 2) 3100) ;;
  expire mr_b 3100.

(** A candidate probed from two carriers: the token comes back from the second, and the first, from
    which nothing ever came back, becomes the carrier of the session.  [Prove] and the promotion
    look the candidate up without its carrier. *)
Theorem unanswered_carrier_installed :
  let s := (mr_double_probe mr_state_b).2 in
  (mr_double_probe mr_state_b).1 = Ok () ∧
  st_current_binding s = mr_carrier 66 ∧ st_peer_loc s = mr_loc 3.
Proof. vm_compute. done. Qed.

Definition mr_full_cache `{DA : Build} : st State MobilityError.t unit :=
  receive mr_b (mr_carrier 1) 0 (mr_update (mr_id 2) (mr_loc 4) 5) ;;
  receive mr_b (mr_carrier 1) 1000 (mr_update (mr_id 1) (mr_loc 3) 3) ;;
  receive mr_b (mr_carrier 2) 1000 (mr_probe (mr_id 2) (mr_loc 4) 5) ;;
  receive mr_b (mr_carrier 3) 1000 (mr_probe (mr_id 1) (mr_loc 3) 3) ;;
  receive mr_b (mr_carrier 3) 1100 (mr_answer (mr_id 1) (mr_loc 3) 3 (mr_carrier 3) 4000) ;;
  propose_local mr_b (mr_id 9) (mr_loc 8) 1 0 1200 ;;
  make_probe mr_b (mr_id 9) (mr_carrier 5) (replicate 16 4) 1300 ;;
  receive mr_b (mr_carrier 5) 1400 (CandidateResult (mr_id 9) 1 0 2) ;;
  mret ().

(** A proven candidate below a pending greater epoch, and a result of an own move: when the greater
    candidate times out its result fills the cache, and [expire] settles the proven one into the
    full cache.  In a debug build the assertion on the result cache unwinds; a release build goes on
    with three results in a cache of two. *)
Theorem expire_overfills_results :
  let debug := mr_full_cache (DA:=debug_build) mr_state_b in
  let release := mr_full_cache (DA:=release_build) mr_state_b in
  debug.1 = Ok () ∧ (expire (DA:=debug_build) mr_b 4500 debug.2).1 = Panic ∧
  release.1 = Ok () ∧ (expire (DA:=release_build) mr_b 4500 release.2).1 = Ok () ∧
  len (st_results (expire (DA:=release_build) mr_b 4500 release.2).2) = RESULT_CACHE_SLOTS + 1.
Proof. vm_compute. done. Qed.

(** ** Instances *)

Definition mr_move : Move :=
  mkMove (mr_id 1) (mr_loc 2) (mr_loc 3) 1 (mr_carrier 7) (mr_carrier 2) (replicate 16 4).

Lemma honest_move_completes_witness :
  ∃ sb4 sa3, local_loc sa3 = mr_loc 3 ∧ peer_loc sb4 = mr_loc 3 ∧
    current_binding sa3 = Some (mr_carrier 7) ∧ current_binding sb4 = Some (mr_carrier 2).
Proof.
  assert (linked mr_a mr_b) as Hl.
  { constructor; try compute_decide; vm_compute; reflexivity. }
  assert (wf_move mr_move) as Hv by (constructor; try compute_decide; vm_compute; reflexivity).
  assert (ready_a mr_move 100 mr_state_a) as Ha
    by (constructor; try compute_decide; vm_compute; reflexivity).
  assert (ready_b mr_move 20 mr_state_b) as Hb
    by (constructor; try compute_decide; vm_compute; reflexivity).
  destruct (honest_move_completes mr_a mr_b mr_move mr_secret mr_state_a mr_state_b (mr_carrier 1)
    100 200 300 20 120 220 Hl Hv Ha Hb eq_refl ltac:(compute_decide) eq_refl
    ltac:(compute_decide) ltac:(compute_decide))
    as (?&?&?&?&?&?&?&?&?&?&sb4&sa3&_&_&_&_&_&_&_&_&H1&H2&_&_&H3&H4&_).
  exists sb4, sa3. split_and!; [exact H1|exact H2|exact H3|exact H4].
Defined.

(** A session that consumes its replay proof, and the first two calls of the move. *)
Definition mr_proof : ProtectedReplayProof := mkReplayProof None false.
Definition mr_commit (p : ProtectedReplayProof) (r : nat) :
    outcome SessionError.t unit * ProtectedReplayProof * nat :=
  (Ok (), mkReplayProof (rp_preview p) true, S r).
Definition mr_bytes : bytes :=
  match control_encode (mr_update (mr_id 1) (mr_loc 3) 1) with Ok l => l | _ => [] end.
Definition mr_transition : Transition :=
  match preview_inner mr_b mr_state_b (mr_carrier 1) 0 mr_bytes (Some mr_proof) None with
  | Ok t => t | _ => mkTransition 0 0 NoAction None None end.
Definition mr_state_b1 : State :=
  (commit_protected_replay mr_b mr_commit mr_transition (mr_state_b, 0%nat)).2.1.

(** Conversion compares the states by name before it evaluates the calls. *)
Strategy 100 [mr_state_b1 mr_transition].

Definition mr_history : History := add_received (mkReceipt (mr_carrier 1) 0 mr_bytes) no_history.

Lemma mr_previewed :
  reachable mr_b true mr_state_b (mkSys mr_state_b [mr_transition] mr_history []).
Proof.
  eapply reach_step; [apply reach_init|].
  apply (step_preview mr_b true (mr_carrier 1) 0 mr_bytes (Some mr_proof) None).
  vm_compute. reflexivity.
Qed.

Lemma mr_commit_result :
  commit_protected_replay mr_b mr_commit mr_transition (mr_state_b, 0%nat) =
  (Ok (), (mr_state_b1, 1%nat)).
Proof. vm_compute. reflexivity. Qed.

(** A control that is received, previewed and committed: the next state of the run, and whether both
    calls succeed and the control opens no second candidate. *)
Definition mr_next (b : ObservedBinding) (now : Z) (l : bytes) (s : State) : option (Transition * State) :=
  match preview_inner mr_b s b now l (Some mr_proof) None with
  | Ok t =>
      match commit_protected_replay mr_b mr_commit t (s, 0%nat) with
      | (Ok _, (s', _)) => if fresh_probe s t then Some (t, s') else None
      | _ => None
      end
  | _ => None
  end.

Lemma mr_next_reachable b now l s T B a t s' :
  reachable mr_b true mr_state_b (mkSys s T B a) → mr_next b now l s = Some (t, s') →
  reachable mr_b true mr_state_b (mkSys s' (t :: T) (add_received (mkReceipt b now l) B) a).
Proof.
  unfold mr_next. intros Hr H. destruct (preview_inner _ _ _ _ _ _ _) as [t1| |] eqn:Hp; [|done..].
  destruct (commit_protected_replay _ _ _ _) as [[[]| |] [s1 q]] eqn:Hc; [|done..].
  destruct (fresh_probe s t1) eqn:Hf; [|done]. injection H as -> ->.
  eapply reach_step; [eapply reach_step; [exact Hr|]|].
  - apply (step_preview mr_b true b now l (Some mr_proof) None), Hp.
  - eapply (step_commit_protected mr_b true mr_commit t); [by left|done|exact Hc|done].
Qed.

(** A whole move of the peer, as this end receives it. *)
Definition mr_encoded (c : Control) : bytes := match control_encode c with Ok l => l | _ => [] end.
Definition mr_probe_bytes : bytes := mr_encoded (mr_probe (mr_id 1) (mr_loc 3) 1).
Definition mr_answer_bytes : bytes := mr_encoded (mr_answer (mr_id 1) (mr_loc 3) 1 (mr_carrier 2) 3050).
Definition mr_move_history : History :=
  add_received (mkReceipt (mr_carrier 2) 200 mr_answer_bytes)
    (add_received (mkReceipt (mr_carrier 2) 50 mr_probe_bytes) mr_history).

Definition mr_moved : option (State * list Transition) := Eval vm_compute in
  '(t1, s1) ← mr_next (mr_carrier 1) 0 mr_bytes mr_state_b;
  '(t2, s2) ← mr_next (mr_carrier 2) 50 mr_probe_bytes s1;
  '(t3, s3) ← mr_next (mr_carrier 2) 200 mr_answer_bytes s2;
  Some (s3, [t3; t2; t1]).
Definition mr_moved_state : State := from_option fst mr_state_b mr_moved.
Definition mr_moved_issued : list Transition := from_option snd [] mr_moved.

Lemma mr_move_reached :
  reachable mr_b true mr_state_b (mkSys mr_moved_state mr_moved_issued mr_move_history []).
Proof.
  destruct (mr_next (mr_carrier 1) 0 mr_bytes mr_state_b) as [[t1 s1]|] eqn:H1; [|by vm_compute in H1].
  destruct (mr_next (mr_carrier 2) 50 mr_probe_bytes s1) as [[t2 s2]|] eqn:H2;
    [|vm_compute in H1; injection H1 as <- <-; by vm_compute in H2].
  destruct (mr_next (mr_carrier 2) 200 mr_answer_bytes s2) as [[t3 s3]|] eqn:H3;
    [|vm_compute in H1; injection H1 as <- <-; vm_compute in H2; injection H2 as <- <-; by vm_compute in H3].
  assert (mr_moved = Some (s3, [t3; t2; t1])) as Hm.
  { transitivity ('(t1, s1) ← mr_next (mr_carrier 1) 0 mr_bytes mr_state_b;
      '(t2, s2) ← mr_next (mr_carrier 2) 50 mr_probe_bytes s1;
      '(t3, s3) ← mr_next (mr_carrier 2) 200 mr_answer_bytes s2; Some (s3, [t3; t2; t1]));
      [vm_compute; reflexivity|]. rewrite H1. cbn [mbind option_bind]. rewrite H2. cbn [mbind option_bind].
    by rewrite H3. }
  unfold mr_moved_state, mr_moved_issued. rewrite Hm. cbn [from_option fst snd].
  eapply mr_next_reachable; [|exact H3]. eapply mr_next_reachable; [|exact H2].
  eapply mr_next_reachable; [apply reach_init|exact H1].
Qed.

Lemma manager_invariant_witness :
  len (st_emitted_results mr_moved_state) = 1 ∧ wf_bounds mr_moved_state ∧ wf_epochs mr_moved_state.
Proof.
  destruct (manager_invariant _ _ _ _ _ _ _ _ _ mr_new_b mr_move_reached) as (Hb & He & _).
  split; [vm_compute; reflexivity|]. split; [exact Hb|exact He].
Defined.

(** The peer has moved: the locator and the carrier are those of the response that was received. *)
Lemma peer_location_authenticated_witness :
  st_peer_loc mr_moved_state = mr_loc 3 ∧ st_current_binding mr_moved_state = mr_carrier 2 ∧
  ∃ k r, (signed_update mr_b mr_move_history k ∧ token_returned mr_b mr_secret mr_move_history k r ∧
          key_loc k = mr_loc 3) ∧ bri_binding r = mr_carrier 2.
Proof.
  assert (st_peer_loc mr_moved_state = mr_loc 3) as Hl by (vm_compute; reflexivity).
  assert (st_current_binding mr_moved_state = mr_carrier 2) as Hb by (vm_compute; reflexivity).
  split; [exact Hl|]. split; [exact Hb|].
  destruct (peer_location_authenticated _ _ _ _ _ _ _ _ _ mr_new_b mr_move_reached) as [_ H].
  specialize (H eq_refl). cbn [sy_state sy_history] in H. rewrite Hl, Hb in H.
  destruct H as [H|[[H _]|H]]; [discriminate H|by apply not_elem_of_nil in H|exact H].
Defined.

Lemma epochs_never_roll_back_witness :
  st_peer_epoch mr_moved_state ≤ st_peer_epoch (close mr_moved_state).
Proof.
  exact (proj1 (epochs_never_roll_back _ _ _ _ _ _ _ _ _ _ mr_new_b mr_move_reached
    (step_close mr_b true mr_moved_state mr_moved_issued mr_move_history []))).
Defined.

Definition mr_config_3 : CandidateManagerConfig :=
  mkManagerConfig demo_server_key demo_server_id demo_client_id 3 5 77 (mr_loc 1) (mr_loc 2)
    (mr_carrier 1) mr_secret.
Definition mr_owner : Profile3AdmissionOwner := mkAdmissionOwner 5 77 (mkProfile3Binding 6) 8.
Definition mr_3 : CandidateManager := mkManager demo_server_key demo_server_id demo_client_id 3 5 77 1 None.
Definition mr_state_3 : State := initial_state mr_config_3 (Some mr_owner).

Lemma mr_new_3 : new_inner mr_config_3 (Some mr_owner) None 1 = (Ok (mr_3, mr_state_3), 2).
Proof. vm_compute. reflexivity. Qed.

(** An update of the second slot in a profile-3 packet, and the session that accepts its counter. *)
Definition mr_bytes_3 : bytes :=
  let peer := mkManager demo_client_key demo_client_id demo_server_id 3 5 77 1 None in
  match propose_local peer (mr_id 1) (mr_loc 3) 1 1 0 mr_state_a with
  | (Ok u, _) => mr_encoded u | _ => [] end.
Definition mr_proof_3 : Profile3ReplayProof :=
  mkProfile3Proof (Some (mkProfile3Preview 1 mr_bytes_3 (mkCommit 1 0) 6)) false.
Definition mr_session_3 : DirectionalSession := mkSession [] [] counters_new window_new [] 0 6.
Definition mr_transition_3 : Transition :=
  match preview_inner mr_3 mr_state_3 (mr_carrier 1) 0 mr_bytes_3 None (Some mr_proof_3) with
  | Ok t => t | _ => mkTransition 0 0 NoAction None None end.
Definition mr_committed_3 := commit_profile3 mr_3 mr_transition_3 (mr_state_3, mr_session_3).

Definition mr_history_3 : History := add_received (mkReceipt (mr_carrier 1) 0 mr_bytes_3) no_history.

Lemma mr_previewed_3 :
  reachable mr_3 true mr_state_3 (mkSys mr_state_3 [mr_transition_3] mr_history_3 []).
Proof.
  eapply reach_step; [apply reach_init|].
  apply (step_preview mr_3 true (mr_carrier 1) 0 mr_bytes_3 None (Some mr_proof_3)).
  vm_compute. reflexivity.
Qed.

Strategy 100 [mr_transition_3 mr_committed_3].

(** Both kinds of manager: the transition is refused when it is committed again, although the replay
    state it is committed with would accept its proof once more. *)
Lemma transition_applied_once_witness :
  commit_protected_replay mr_b mr_commit mr_transition (mr_state_b1, 0%nat) =
    (Err MobilityError.Replay, (mr_state_b1, 0%nat)) ∧
  mr_committed_3.1 = Ok () ∧
  commit_profile3 mr_3 mr_transition_3 (mr_committed_3.2.1, mr_session_3) =
    (Err MobilityError.Replay, (mr_committed_3.2.1, mr_session_3)).
Proof.
  split; [|split].
  - assert (mr_transition ∈ [mr_transition]) as Hin by (by left).
    assert (true = true → fresh_probe mr_state_b mr_transition = true) as Hf
      by (intros _; vm_compute; reflexivity).
    assert (mutates (tr_action mr_transition) = true) as Hm by (vm_compute; reflexivity).
    exact (proj1 (transition_applied_once _ _ _ _ _ _ _ true _ _ _ _ _ _ _
      (mkSys mr_state_b1 [mr_transition] mr_history []) mr_new_b mr_previewed Hin Hin Hf Hm
      (committed_protected _ _ _ _ mr_commit _ _ mr_commit_result) (rtc_refl _ _)) nat mr_commit 0%nat).
  - vm_compute. reflexivity.
  - assert (mr_transition_3 ∈ [mr_transition_3]) as Hin by (by left).
    assert (true = true → fresh_probe mr_state_3 mr_transition_3 = true) as Hf
      by (intros _; vm_compute; reflexivity).
    assert (mutates (tr_action mr_transition_3) = true) as Hm by (vm_compute; reflexivity).
    assert (commit_profile3 mr_3 mr_transition_3 (mr_state_3, mr_session_3) =
            (Ok (), (mr_committed_3.2.1, mr_committed_3.2.2))) as Hc by (vm_compute; reflexivity).
    exact (proj2 (transition_applied_once _ _ _ _ _ _ _ true _ _ _ _ _ _ _
      (mkSys mr_committed_3.2.1 [mr_transition_3] mr_history_3 []) mr_new_3 mr_previewed_3 Hin Hin Hf Hm
      (committed_profile3 _ _ _ _ _ _ Hc) (rtc_refl _ _)) mr_session_3).
Defined.

Lemma profile3_admitted_once_witness :
  ∃ l s, take_profile3_admissions (close mr_state_3) = (l, s) ∧ (length (l ++ []) ≤ 1)%nat.
Proof.
  assert (take_profile3_admissions (close mr_state_3) = ([], close mr_state_3)) as Ht
    by (vm_compute; reflexivity).
  exists [], (close mr_state_3). split; [exact Ht|].
  apply (profile3_admitted_once _ _ _ _ _ _ _ true (mkSys (close mr_state_3) [] no_history ([] ++ [])) mr_new_3).
  apply (reach_step _ _ _ (mkSys (close mr_state_3) [] no_history [])).
  - eapply reach_step; [apply reach_init|apply step_close].
  - by apply step_take_admissions.
Defined.

(** A cohort of two, of which the larger identifier alone is proven. *)
Definition mr_cohort : list Proposal :=
  [mkProposal [] (mr_id 1) (mr_loc 3) 4 0 5000; mkProposal [] (mr_id 2) (mr_loc 4) 4 0 5000].
Definition mr_frozen : State :=
  set_frozen_cohort (Some (4, mr_cohort)) (set_proposals mr_cohort (set_candidates
    [mkCandidate (mr_id 2) (mr_loc 4) 4 0 (mr_carrier 2) 3000
       (Some (mkResponseIdentity (mr_loc 4) (mr_carrier 2) 3000 [])) Proven] mr_state_b)).

Lemma settle_announces_verdicts_witness :
  ∃ s' kept ls, settle_frozen_cohort 0 5 100 mr_frozen = (Ok true, s') ∧
    st_emitted_results s' = kept ++ ls ∧ Forall2 (announces mr_frozen mr_cohort) mr_cohort ls.
Proof.
  assert (settle_frozen_cohort 0 5 100 mr_frozen =
          (Ok true, (settle_frozen_cohort 0 5 100 mr_frozen).2)) as H by (vm_compute; reflexivity).
  destruct (settle_announces_verdicts 0 5 100 mr_frozen 4 mr_cohort _ eq_refl H)
    as (kept & ls & He & Hf & _).
  eexists _, kept, ls. split; [exact H|]. split; [exact He|exact Hf].
Defined.
