(* ===== verification/DeliveryWindow.v ===== *)
(** * The delivered window (src/rust/crates/r8-redundant/src/lib.rs, DeliveredWindow)

    Which delivery identifiers a redundant session has delivered: one bit and one
    fingerprint for each of the 4096 newest identifiers, in arrays indexed
    modulo 4096.  The theorem: the arrays implement a finite map from the
    identifiers of the window to fingerprints. *)

From stdpp Require Import gmap.
From S2P Require Import Prelude Crypto Replay.
#[local] Open Scope Z_scope.

Definition DELIVERED_WINDOW_IDS : Z := 4096.
Definition DELIVERED_WINDOW_WORDS : Z := DELIVERED_WINDOW_IDS / 64.

Record DeliveredFingerprint : Set := mkFingerprint { fp_digest : bytes; fp_length : Z }.

#[export] Instance DeliveredFingerprint_eq_dec : EqDecision DeliveredFingerprint.
Proof. solve_decision. Defined.

Record DeliveredWindow : Set := mkDelivered {
  high_water : option Z;
  dw_bits : list Z;
  fingerprints : list (option DeliveredFingerprint);
}.

(** ** Operations *)

Definition window_empty : DeliveredWindow :=
  mkDelivered None (replicate (Z.to_nat DELIVERED_WINDOW_WORDS) 0)
    (replicate (Z.to_nat DELIVERED_WINDOW_IDS) None).

Definition index (id : Z) : Z := id mod DELIVERED_WINDOW_IDS.
Definition position (id : Z) : Z * Z := (index id / 64, Z.shiftl 1 (index id mod 64)).

(** [!bit] on a word *)
Definition not64 (b : Z) : Z := Z.lxor b u64_max.

Section Window.
Context {E : Type}.

Definition bit (w : DeliveredWindow) (id : Z) : outcome E bool :=
  let '(word, b) := position id in
  x ← idx (dw_bits w) (Z.to_nat word); Ok (negb (Z.land x b =? 0)).

Definition set (id : Z) (w : DeliveredWindow) : outcome E DeliveredWindow :=
  let '(word, b) := position id in
  x ← idx (dw_bits w) (Z.to_nat word);
  bits ← idx_set (dw_bits w) (Z.to_nat word) (Z.lor x b);
  Ok (mkDelivered (high_water w) bits (fingerprints w)).

Definition clear (id : Z) (w : DeliveredWindow) : outcome E DeliveredWindow :=
  let '(word, b) := position id in
  x ← idx (dw_bits w) (Z.to_nat word);
  bits ← idx_set (dw_bits w) (Z.to_nat word) (Z.land x (not64 b));
  fps ← idx_set (fingerprints w) (Z.to_nat (index id)) None;
  Ok (mkDelivered (high_water w) bits fps).

Definition clear_all (w : DeliveredWindow) : DeliveredWindow :=
  mkDelivered (high_water w) ((λ _, 0) <$> dw_bits w) ((λ _, None) <$> fingerprints w).

Definition seen (w : DeliveredWindow) (id : Z) : outcome E bool :=
  match high_water w with
  | None => Ok false
  | Some high =>
      if (high <? id) || (DELIVERED_WINDOW_IDS <=? high - id) then Ok false else bit w id
  end.

Definition too_old (w : DeliveredWindow) (id : Z) : bool :=
  match high_water w with
  | Some high => (id <=? high) && (DELIVERED_WINDOW_IDS <=? high - id)
  | None => false
  end.

Definition set_high_water (h : option Z) (w : DeliveredWindow) : DeliveredWindow :=
  mkDelivered h (dw_bits w) (fingerprints w).

(** [for value in value..=value + n - 1] *)
Fixpoint clear_range (n : nat) (value : Z) (w : DeliveredWindow) : outcome E DeliveredWindow :=
  match n with
  | O => Ok w
  | S n => w ← clear value w; clear_range n (value + 1) w
  end.
End Window.

Section Fingerprint.
Context `{C : Crypto}.
Context {E : Type}.

Definition fingerprint (l : bytes) : DeliveredFingerprint := mkFingerprint (sha256 l) (len l).

Definition insert (id : Z) (l : bytes) (w : DeliveredWindow) : outcome E DeliveredWindow :=
  w ← match high_water w with
      | Some high =>
          if high <? id then
            let advance := id - high in
            w ← (if DELIVERED_WINDOW_IDS <=? advance then Ok (clear_all w)
                 else clear_range (Z.to_nat (id - high)) (high + 1) w);
            Ok (set_high_water (Some id) w)
          else Ok w
      | None => Ok (set_high_water (Some id) w)
      end;
  w ← clear id w;
  w ← set id w;
  fps ← idx_set (fingerprints w) (Z.to_nat (index id)) (Some (fingerprint l));
  Ok (mkDelivered (high_water w) (dw_bits w) fps).

Definition matches (w : DeliveredWindow) (id : Z) (l : bytes) : outcome E bool :=
  f ← idx (fingerprints w) (Z.to_nat (index id));
  Ok (match f with
      | Some f => (fp_length f =? len l) && bool_decide (fp_digest f = sha256 l)
      | None => false
      end).
End Fingerprint.

(** ** The arrays by index *)

Definition wbit_at (w : DeliveredWindow) (i : Z) : bool :=
  match dw_bits w !! Z.to_nat (i / 64) with Some x => Z.testbit x (i mod 64) | None => false end.
Definition fp_at (w : DeliveredWindow) (i : Z) : option DeliveredFingerprint :=
  match fingerprints w !! Z.to_nat i with Some f => f | None => None end.

Definition wf_window (w : DeliveredWindow) : Prop :=
  length (dw_bits w) = 64%nat ∧ length (fingerprints w) = 4096%nat.

Lemma index_range id : 0 ≤ index id < 4096.
Proof. apply Z.mod_pos_bound. unfold DELIVERED_WINDOW_IDS. lia. Qed.

Lemma word_lookup w i :
  wf_window w → 0 ≤ i < 4096 → ∃ x, dw_bits w !! Z.to_nat (i / 64) = Some x.
Proof.
  intros [Hb _] Hi. apply lookup_lt_is_Some. rewrite Hb.
  pose proof (Z.div_lt_upper_bound i 64 64). pose proof (Z.div_pos i 64). lia.
Qed.

Lemma split_index i j : i = j ↔ i / 64 = j / 64 ∧ i mod 64 = j mod 64.
Proof. split; [by intros ->|]. intros [? ?]. rewrite (Z_div_mod_eq_full i 64), (Z_div_mod_eq_full j 64). lia. Qed.

(** Writing a word changes exactly the bits that differ. *)
Lemma wbit_at_insert w i v h fps j :
  wf_window w → 0 ≤ i < 4096 → 0 ≤ j < 4096 →
  wbit_at (mkDelivered h (<[Z.to_nat (i / 64) := v]> (dw_bits w)) fps) j =
  if j / 64 =? i / 64 then Z.testbit v (j mod 64) else wbit_at w j.
Proof.
  intros Hw Hi Hj. destruct (word_lookup w i Hw Hi) as [x Hx]. apply lookup_lt_Some in Hx.
  unfold wbit_at. cbn [dw_bits]. pose proof (Z.div_pos i 64). pose proof (Z.div_pos j 64).
  destruct (Z.eqb_spec (j / 64) (i / 64)) as [->|Hne].
  - by rewrite list_lookup_insert_eq.
  - rewrite list_lookup_insert_ne; [done|]. lia.
Qed.

Lemma testbit_position id j :
  0 ≤ j < 64 → Z.testbit (Z.shiftl 1 (index id mod 64)) j = (j =? index id mod 64).
Proof.
  intros Hj. pose proof (Z.mod_pos_bound (index id) 64).
  rewrite Z.shiftl_mul_pow2, Z.mul_1_l, Z.pow2_bits_eqb by lia. apply Z.eqb_sym.
Qed.

Lemma testbit_not64 b j : 0 ≤ j < 64 → Z.testbit (not64 b) j = negb (Z.testbit b j).
Proof.
  intros Hj. unfold not64. rewrite Z.lxor_spec.
  change u64_max with (Z.ones 64). rewrite Z.ones_spec_low by lia. by destruct (Z.testbit b j).
Qed.

Lemma bit_Ok {E} w id : wf_window w → bit (E:=E) w id = Ok (wbit_at w (index id)).
Proof.
  intros Hw. pose proof (index_range id) as Hi. destruct (word_lookup w _ Hw Hi) as [x Hx].
  unfold bit, position, idx, wbit_at. rewrite Hx. cbn [mbind outcome_bind].
  rewrite land_bit_zero by (apply Z.mod_pos_bound; lia). by rewrite negb_involutive.
Qed.

(** What [set] and [clear] do to the arrays. *)
Lemma set_Ok {E} w id :
  wf_window w → ∃ w', set (E:=E) id w = Ok w' ∧ wf_window w' ∧ high_water w' = high_water w ∧
    (∀ j, 0 ≤ j < 4096 → wbit_at w' j = (j =? index id) || wbit_at w j) ∧
    ∀ j, fp_at w' j = fp_at w j.
Proof.
  intros Hw. pose proof (index_range id) as Hi. destruct (word_lookup w _ Hw Hi) as [x Hx].
  unfold set, position, idx. rewrite Hx. cbn [mbind outcome_bind].
  rewrite (idx_set_Ok (dw_bits w)) by by eapply lookup_lt_Some. cbn [mbind outcome_bind].
  eexists. split; [reflexivity|]. split; [|split; [done|split; [|done]]].
  - destruct Hw. split; [simpl; by rewrite length_insert|done].
  - intros j Hj. rewrite wbit_at_insert by done. pose proof (Z.mod_pos_bound j 64).
    rewrite Z.lor_spec, testbit_position by lia.
    destruct (Z.eqb_spec (j / 64) (index id / 64)) as [Hd|Hd].
    + unfold wbit_at. rewrite Hd, Hx, orb_comm. f_equal.
      destruct (Z.eqb_spec (j mod 64) (index id mod 64)), (Z.eqb_spec j (index id)); try done.
      * exfalso. apply n. by apply split_index.
      * exfalso. apply n. congruence.
    + destruct (Z.eqb_spec j (index id)); [congruence|done].
Qed.

Lemma clear_Ok {E} w id :
  wf_window w → ∃ w', clear (E:=E) id w = Ok w' ∧ wf_window w' ∧ high_water w' = high_water w ∧
    (∀ j, 0 ≤ j < 4096 → wbit_at w' j = negb (j =? index id) && wbit_at w j) ∧
    ∀ j, 0 ≤ j < 4096 → fp_at w' j = if j =? index id then None else fp_at w j.
Proof.
  intros Hw. pose proof (index_range id) as Hi. destruct (word_lookup w _ Hw Hi) as [x Hx].
  unfold clear, position, idx. rewrite Hx. cbn [mbind outcome_bind].
  rewrite (idx_set_Ok (dw_bits w)) by by eapply lookup_lt_Some. cbn [mbind outcome_bind].
  destruct Hw as [Hb Hf]. rewrite (idx_set_Ok (fingerprints w)) by lia. cbn [mbind outcome_bind].
  eexists. split; [reflexivity|]. split; [|split; [done|split]].
  - split; simpl; by rewrite length_insert.
  - intros j Hj. rewrite wbit_at_insert by done. pose proof (Z.mod_pos_bound j 64).
    pose proof (Z.mod_pos_bound (index id) 64).
    rewrite Z.land_spec, testbit_not64, testbit_position by lia.
    destruct (Z.eqb_spec (j / 64) (index id / 64)) as [Hd|Hd].
    + unfold wbit_at. rewrite Hd, Hx, andb_comm. f_equal. f_equal.
      destruct (Z.eqb_spec (j mod 64) (index id mod 64)), (Z.eqb_spec j (index id)); try done.
      * exfalso. apply n. by apply split_index.
      * exfalso. apply n. congruence.
    + destruct (Z.eqb_spec j (index id)); [congruence|done].
  - intros j Hj. unfold fp_at. cbn [fingerprints]. destruct (Z.eqb_spec j (index id)) as [->|Hne].
    + by rewrite list_lookup_insert_eq by lia.
    + by rewrite list_lookup_insert_ne by lia.
Qed.

(** Clearing a range clears the indices of its members. *)
Lemma clear_range_Ok {E} n value w :
  wf_window w → ∃ w', clear_range (E:=E) n value w = Ok w' ∧ wf_window w' ∧
    high_water w' = high_water w ∧
    ∀ j, 0 ≤ j < 4096 →
      ((∃ v, value ≤ v < value + Z.of_nat n ∧ index v = j) ∧ wbit_at w' j = false ∧ fp_at w' j = None) ∨
      ((∀ v, value ≤ v < value + Z.of_nat n → index v ≠ j) ∧ wbit_at w' j = wbit_at w j ∧
       fp_at w' j = fp_at w j).
Proof.
  revert value w. induction n as [|n IH]; intros value w Hw.
  - exists w. split_and!; [done..|]. intros j _. right. split; [lia|done].
  - cbn [clear_range]. destruct (clear_Ok (E:=E) w value Hw) as (w1 & -> & Hw1 & Hh1 & Hb1 & Hf1).
    cbn [mbind outcome_bind]. destruct (IH (value + 1) w1 Hw1) as (w2 & -> & Hw2 & Hh2 & H2).
    exists w2. split; [done|]. split; [done|]. split; [congruence|]. intros j Hj.
    destruct (H2 j Hj) as [((v & ? & ?) & ? & ?)|(Hno & -> & ->)].
    + left. split; [|done]. exists v. split; [lia|done].
    + rewrite Hb1, Hf1 by done. destruct (Z.eqb_spec j (index value)) as [->|Hne].
      * left. split; [|done]. exists value. split; [lia|done].
      * right. split; [|done]. intros v Hv. destruct (decide (v = value)) as [->|]; [congruence|].
        apply Hno. lia.
Qed.

Lemma clear_all_Ok w :
  wf_window w → wf_window (clear_all w) ∧ high_water (clear_all w) = high_water w ∧
  ∀ j, wbit_at (clear_all w) j = false ∧ fp_at (clear_all w) j = None.
Proof.
  intros [Hb Hf]. split; [split; simpl; by rewrite length_fmap|]. split; [done|]. intros j.
  unfold wbit_at, fp_at, clear_all. cbn [dw_bits fingerprints]. rewrite !list_lookup_fmap. split.
  - destruct (dw_bits w !! _); [|done]. apply Z.bits_0.
  - by destruct (fingerprints w !! _).
Qed.

(** ** Refinement *)

(** Distinct identifiers of a window have distinct indices. *)
Lemma index_inj h a b : h - 4096 < a ≤ h → h - 4096 < b ≤ h → index a = index b → a = b.
Proof.
  unfold index, DELIVERED_WINDOW_IDS. intros Ha Hb Heq.
  pose proof (Z_div_mod_eq_full a 4096). pose proof (Z_div_mod_eq_full b 4096).
  pose proof (Z.mod_pos_bound a 4096). pose proof (Z.mod_pos_bound b 4096). lia.
Qed.

Abbreviation delivered_map := (gmap Z DeliveredFingerprint).

(** The window holds exactly the map: its identifiers lie in the window below the high water
    mark, each has its bit and its fingerprint, and every other identifier of the window has
    neither. *)
Record represents (w : DeliveredWindow) (m : delivered_map) : Prop := {
  rp_wf : wf_window w;
  rp_empty : high_water w = None → m = ∅ ∧ ∀ j, 0 ≤ j < 4096 → wbit_at w j = false ∧ fp_at w j = None;
  rp_dom h i f : high_water w = Some h → m !! i = Some f → 1 ≤ i ∧ h - 4096 < i ≤ h;
  rp_bit h i : high_water w = Some h → 1 ≤ i → h - 4096 < i ≤ h →
    wbit_at w (index i) = bool_decide (is_Some (m !! i));
  rp_fp h i : high_water w = Some h → 1 ≤ i → h - 4096 < i ≤ h → fp_at w (index i) = m !! i;
}.

(** The high water mark after an insertion. *)
Definition new_high (high : option Z) (i : Z) : Z :=
  match high with Some h => Z.max h i | None => i end.

(** The specification: insertion forgets what falls out of the window. *)
Definition spec_insert (high : option Z) (i : Z) (f : DeliveredFingerprint) (m : delivered_map) :
    delivered_map :=
  let h := new_high high i in
  <[i := f]> (filter (λ kv, h - 4096 < kv.1) m).

Lemma represents_empty : represents window_empty ∅.
Proof.
  split; [done| |done..]. intros _. split; [done|]. intros j Hj.
  unfold wbit_at, fp_at, window_empty. cbn [dw_bits fingerprints].
  pose proof (Z.div_lt_upper_bound j 64 64). pose proof (Z.div_pos j 64).
  rewrite !lookup_replicate_2; [split; [apply Z.bits_0|done]|..].
  - change (Z.to_nat DELIVERED_WINDOW_IDS) with 4096%nat. lia.
  - change (Z.to_nat DELIVERED_WINDOW_WORDS) with 64%nat. lia.
Qed.

(** Moving the high water mark up. *)
Definition advance_window {E} (id : Z) (w : DeliveredWindow) : outcome E DeliveredWindow :=
  match high_water w with
  | Some high =>
      if high <? id then
        let advance := id - high in
        w ← (if DELIVERED_WINDOW_IDS <=? advance then Ok (clear_all w)
             else clear_range (Z.to_nat (id - high)) (high + 1) w);
        Ok (set_high_water (Some id) w)
      else Ok w
  | None => Ok (set_high_water (Some id) w)
  end.

Lemma bool_decide_filter (m : delivered_map) h i :
  h < i → filter (λ kv : Z * DeliveredFingerprint, h < kv.1) m !! i = m !! i.
Proof.
  intros Hi. destruct (m !! i) as [f|] eqn:Hm.
  - by apply map_lookup_filter_Some.
  - apply map_lookup_filter_None. by left.
Qed.

Lemma advance_spec {E} w m id :
  represents w m → 1 ≤ id → too_old w id = false →
  ∃ w' h, advance_window (E:=E) id w = Ok w' ∧ high_water w' = Some h ∧
    h = match high_water w with Some h => Z.max h id | None => id end ∧ h - 4096 < id ≤ h ∧
    represents w' (filter (λ kv, h - 4096 < kv.1) m).
Proof.
  intros [Hw He Hd Hb Hf] Hid Hold. unfold advance_window, too_old in *.
  destruct (high_water w) as [h|] eqn:Hh.
  - destruct (Z.ltb_spec h id) as [Hlt|Hge].
    + exists (set_high_water (Some id) (match (if DELIVERED_WINDOW_IDS <=? id - h then Ok (clear_all w)
         else clear_range (E:=E) (Z.to_nat (id - h)) (h + 1) w) with Ok w => w | _ => w end)), id.
      assert (∃ w1, (if DELIVERED_WINDOW_IDS <=? id - h then Ok (clear_all w)
         else clear_range (E:=E) (Z.to_nat (id - h)) (h + 1) w) = Ok w1 ∧ wf_window w1 ∧
         ∀ i, 1 ≤ i → id - 4096 < i ≤ id →
           wbit_at w1 (index i) = (if i <=? h then wbit_at w (index i) else false) ∧
           fp_at w1 (index i) = (if i <=? h then fp_at w (index i) else None)) as (w1 & -> & Hw1 & H1).
      { unfold DELIVERED_WINDOW_IDS. destruct (Z.leb_spec 4096 (id - h)).
        - destruct (clear_all_Ok w Hw) as (? & _ & Hc). eexists. split; [done|]. split; [done|].
          intros i ? ?. rewrite (proj2 (Z.leb_gt i h)) by lia. apply Hc.
        - destruct (clear_range_Ok (E:=E) (Z.to_nat (id - h)) (h + 1) w Hw) as (w1 & -> & ? & _ & Hc).
          exists w1. split; [done|]. split; [done|]. intros i Hi1 Hi.
          destruct (Hc (index i) (index_range i)) as [((v & Hv & Hvi) & -> & ->)|(Hno & -> & ->)].
          + apply (index_inj id) in Hvi; [|lia..]. subst v. by rewrite (proj2 (Z.leb_gt i h)) by lia.
          + rewrite (proj2 (Z.leb_le i h)); [done|]. destruct (Z.le_gt_cases i h); [done|].
            exfalso. apply (Hno i); [lia|done]. }
      cbn [mbind outcome_bind]. split; [done|]. split; [done|]. split; [lia|]. split; [lia|].
      split; [done|done|..].
      * intros h' i f [= <-] [Hm Hlo]%map_lookup_filter_Some. simpl in Hlo.
        specialize (Hd h i f eq_refl Hm). lia.
      * intros h' i [= <-] Hi1 Hi. change (wbit_at (set_high_water _ w1)) with (wbit_at w1).
        destruct (H1 i Hi1 Hi) as [-> _]. rewrite bool_decide_filter by lia.
        destruct (Z.leb_spec i h); [apply (Hb h i eq_refl); lia|].
        symmetry. apply bool_decide_eq_false. intros [f Hm]. specialize (Hd h i f eq_refl Hm). lia.
      * intros h' i [= <-] Hi1 Hi. change (fp_at (set_high_water _ w1)) with (fp_at w1).
        destruct (H1 i Hi1 Hi) as [_ ->]. rewrite bool_decide_filter by lia.
        destruct (Z.leb_spec i h); [apply (Hf h i eq_refl); lia|].
        destruct (m !! i) as [f|] eqn:Hm; [|done]. specialize (Hd h i f eq_refl Hm). lia.
    + exists w, h. split; [done|]. split; [done|]. split; [lia|].
      apply andb_false_iff in Hold as [Hold|Hold];
        [apply Z.leb_gt in Hold; lia|apply Z.leb_gt in Hold; unfold DELIVERED_WINDOW_IDS in Hold].
      split; [lia|]. split; [done|congruence|..].
      * intros h' i f Heq [Hm _]%map_lookup_filter_Some. by apply (Hd h' i f); [congruence|].
      * intros h' i Heq Hi1 Hi. assert (h' = h) as -> by congruence.
        rewrite bool_decide_filter by lia. by apply (Hb h).
      * intros h' i Heq Hi1 Hi. assert (h' = h) as -> by congruence.
        rewrite bool_decide_filter by lia. by apply (Hf h).
  - destruct (He eq_refl) as [-> Hbits]. exists (set_high_water (Some id) w), id.
    split; [done|]. split; [done|]. split; [done|]. split; [lia|]. rewrite map_filter_empty.
    split; [done|done|done| |].
    + intros h i _ Hi1 Hi. change (wbit_at (set_high_water _ w)) with (wbit_at w).
      destruct (Hbits _ (index_range i)) as [-> _]. by rewrite lookup_empty.
    + intros h i _ Hi1 Hi. change (fp_at (set_high_water _ w)) with (fp_at w).
      destruct (Hbits _ (index_range i)) as [_ ->]. by rewrite lookup_empty.
Qed.

Section Refinement.
Context `{C : Crypto}.

Lemma insert_spec {E} w m id l :
  represents w m → 1 ≤ id → too_old w id = false →
  ∃ w', insert (E:=E) id l w = Ok w' ∧
        represents w' (spec_insert (high_water w) id (fingerprint l) m) ∧
        high_water w' = Some (new_high (high_water w) id).
Proof.
  intros Hr Hid Hold. destruct (advance_spec (E:=E) w m id Hr Hid Hold) as (w1 & h & Ha & Hh & Heq & Hr1 & [Hw1 _ Hd1 Hb1 Hf1]).
  unfold insert. change (match high_water w with Some _ => _ | None => _ end) with (advance_window (E:=E) id w).
  rewrite Ha. cbn [mbind outcome_bind].
  destruct (clear_Ok (E:=E) w1 id Hw1) as (w2 & -> & Hw2 & Hh2 & Hb2 & Hf2). cbn [mbind outcome_bind].
  destruct (set_Ok (E:=E) w2 id Hw2) as (w3 & -> & Hw3 & Hh3 & Hb3 & Hf3). cbn [mbind outcome_bind].
  pose proof (index_range id). destruct Hw3 as [Hlb Hlf]. rewrite idx_set_Ok by lia.
  cbn [mbind outcome_bind]. eexists. split; [reflexivity|]. unfold spec_insert, new_high. rewrite <-Heq.
  set (m1 := filter _ m) in *. assert (high_water w3 = Some h) as Hh' by congruence. split; [|done].
  split; cbn [high_water dw_bits fingerprints].
  - split; [done|]. simpl. by rewrite length_insert.
  - congruence.
  - intros h' i f Heq' [[<- _]|[_ Hm]]%lookup_insert_Some.
    + split; [lia|]. assert (h' = h) by congruence. lia.
    + assert (h' = h) as -> by congruence. by apply (Hd1 h i f).
  - intros h' i Heq' Hi1 Hi. assert (h' = h) as -> by congruence.
    change (wbit_at (mkDelivered _ _ _)) with (wbit_at w3).
    rewrite Hb3 by apply index_range. destruct (Z.eqb_spec (index i) (index id)) as [Hix|Hix].
    + apply (index_inj h) in Hix; [|lia..]. subst i. rewrite lookup_insert_eq. done.
    + rewrite lookup_insert_ne by congruence. rewrite Hb2 by apply index_range.
      rewrite (proj2 (Z.eqb_neq _ _) Hix). by apply (Hb1 h).
  - intros h' i Heq' Hi1 Hi. assert (h' = h) as -> by congruence. unfold fp_at. cbn [fingerprints].
    pose proof (index_range i). destruct (decide (index i = index id)) as [Hix|Hix].
    + pose proof Hix as Hii. apply (index_inj h) in Hii; [|lia..]. subst i.
      rewrite list_lookup_insert_eq by lia. by rewrite lookup_insert_eq.
    + rewrite list_lookup_insert_ne by lia. rewrite lookup_insert_ne by congruence.
      change (fp_at w3 (index i) = m1 !! i). rewrite Hf3, Hf2 by done.
      rewrite (proj2 (Z.eqb_neq _ _) Hix). by apply (Hf1 h).
Qed.

Lemma delivered_seen_spec {E} w m id :
  represents w m → 1 ≤ id → seen (E:=E) w id = Ok (bool_decide (is_Some (m !! id))).
Proof.
  intros [Hw He Hd Hb Hf] Hid. unfold seen. destruct (high_water w) as [h|] eqn:Hh.
  - destruct (_ || _) eqn:Hc.
    + f_equal. symmetry. apply bool_decide_eq_false. intros [f Hm].
      specialize (Hd h id f eq_refl Hm). apply orb_true_iff in Hc.
      unfold DELIVERED_WINDOW_IDS in Hc. lia.
    + apply orb_false_iff in Hc as [?%Z.ltb_ge ?%Z.leb_gt]. unfold DELIVERED_WINDOW_IDS in *.
      rewrite bit_Ok by done. f_equal. apply (Hb h id eq_refl); lia.
  - destruct (He eq_refl) as [-> _]. by rewrite lookup_empty.
Qed.

Lemma matches_spec {E} w m id l f :
  represents w m → 1 ≤ id → m !! id = Some f →
  matches (E:=E) w id l = Ok (bool_decide (f = fingerprint l)).
Proof.
  intros [Hw He Hd Hb Hf] Hid Hm. unfold matches.
  destruct (high_water w) as [h|] eqn:Hh.
  2:{ destruct (He eq_refl) as [-> _]. by rewrite lookup_empty in Hm. }
  pose proof (Hd h id f eq_refl Hm) as [_ Hi]. specialize (Hf h id eq_refl Hid Hi).
  unfold fp_at in Hf. pose proof (index_range id). destruct Hw as [_ Hlf].
  destruct (lookup_lt_is_Some_2 (fingerprints w) (Z.to_nat (index id))) as [o Ho]; [lia|].
  unfold idx. rewrite Ho in *. cbn [mbind outcome_bind]. subst o. rewrite Hm.
  f_equal. destruct f as [d n]. unfold fingerprint. cbn [fp_length fp_digest].
  destruct (Z.eqb_spec n (len l)) as [->|Hn].
  - cbn [andb]. apply bool_decide_ext. split; [by intros ->|by intros [= ->]].
  - symmetry. apply bool_decide_eq_false. congruence.
Qed.

Lemma too_old_spec w h m id :
  represents w m → high_water w = Some h → too_old w id = bool_decide (id ≤ h - 4096).
Proof.
  intros _ Hh. unfold too_old, DELIVERED_WINDOW_IDS. rewrite Hh.
  destruct (Z.leb_spec id h), (Z.leb_spec 4096 (h - id)); simpl; symmetry;
    (apply bool_decide_eq_true || apply bool_decide_eq_false); lia.
Qed.

(** C15: the two fixed arrays of the delivered window implement a finite map from the identifiers
    within 4096 of the newest to fingerprints: membership, the age test and the comparison of
    fingerprints agree with the map, none of the operations indexes out of range, and inserting an
    identifier that is not too old is insertion into the map after forgetting what falls out. *)
Theorem delivered_window_refines {E} w m id l :
  represents w m → 1 ≤ id →
  seen (E:=E) w id = Ok (bool_decide (is_Some (m !! id))) ∧
  too_old w id = match high_water w with Some h => bool_decide (id ≤ h - 4096) | None => false end ∧
  (∀ f, m !! id = Some f → matches (E:=E) w id l = Ok (bool_decide (f = fingerprint l))) ∧
  (too_old w id = false →
   ∃ w', insert (E:=E) id l w = Ok w' ∧
         represents w' (spec_insert (high_water w) id (fingerprint l) m) ∧
         high_water w' = Some (new_high (high_water w) id)).
Proof.
  intros Hr Hid. split; [by apply delivered_seen_spec|]. split; [|split].
  - destruct (high_water w) as [h|] eqn:Hh; [by eapply too_old_spec|].
    unfold too_old. by rewrite Hh.
  - intros f Hm. by apply (matches_spec w m).
  - intros Hold. by apply insert_spec.
Qed.

(** Identifiers that will not be delivered again: in the map, or below the window. *)
Definition consumed (w : DeliveredWindow) (id : Z) : Prop :=
  seen (E:=unit) w id = Ok true ∨ too_old w id = true.

Lemma consumed_iff w m id :
  represents w m → 1 ≤ id →
  consumed w id ↔ is_Some (m !! id) ∨ ∃ h, high_water w = Some h ∧ id ≤ h - 4096.
Proof.
  intros Hr Hid. unfold consumed. rewrite (delivered_seen_spec w m) by done.
  assert (Ok (E:=unit) (bool_decide (is_Some (m !! id))) = Ok true ↔ is_Some (m !! id)) as ->.
  { split; [intros H%Ok_inj; by apply bool_decide_eq_true in H|intros H; by rewrite bool_decide_eq_true_2]. }
  f_equiv. destruct (high_water w) as [h|] eqn:Hh.
  - rewrite (too_old_spec w h m) by done. rewrite bool_decide_eq_true. naive_solver.
  - unfold too_old. rewrite Hh. naive_solver.
Qed.

(** An insertion consumes its identifier and leaves the others consumed. *)
Lemma consumed_insert {E} w m id l w' :
  represents w m → 1 ≤ id → too_old w id = false → insert (E:=E) id l w = Ok w' →
  consumed w' id ∧ ∀ j, 1 ≤ j → consumed w j → consumed w' j.
Proof.
  intros Hr Hid Hold Hi. destruct (insert_spec (E:=E) w m id l Hr Hid Hold) as (w1 & Hi' & Hr' & Hh').
  assert (w1 = w') as -> by congruence. split.
  - apply (consumed_iff _ _ _ Hr' Hid). left. unfold spec_insert. rewrite lookup_insert_eq. by eexists.
  - intros j Hj Hc. apply (consumed_iff _ _ _ Hr Hj) in Hc. apply (consumed_iff _ _ _ Hr' Hj).
    rewrite Hh'. destruct (Z.leb_spec j (new_high (high_water w) id - 4096)) as [?|Hin]; [naive_solver|].
    left. unfold spec_insert. destruct Hc as [[f Hf]|(h & Hh & Hle)].
    + destruct (decide (j = id)) as [->|Hne]; [rewrite lookup_insert_eq; by eexists|].
      rewrite lookup_insert_ne by done. exists f. apply map_lookup_filter_Some. by split.
    + rewrite Hh in Hin. unfold new_high in Hin. lia.
Qed.
End Refinement.

Lemma delivered_window_refines_witness :
  seen (E:=unit) window_empty 7 = Ok false ∧ too_old window_empty 7 = false ∧
  ∃ w', insert (E:=unit) 7 [1; 2] window_empty = Ok w' ∧
        represents w' (spec_insert None 7 (fingerprint [1; 2]) ∅) ∧ high_water w' = Some 7.
Proof.
  destruct (delivered_window_refines (E:=unit) window_empty ∅ 7 [1; 2] represents_empty ltac:(lia))
    as (Hs & Ht & _ & Hi).
  rewrite lookup_empty, bool_decide_eq_false_2 in Hs by (intros [? ?]; done).
  split; [exact Hs|]. split; [exact Ht|]. exact (Hi Ht).
Defined.
