(* ===== verification/Redundant.v ===== *)
(** * Dual-path redundant sessions (src/rust/crates/r8-redundant/src/lib.rs)

    [RedundantSession]: every plaintext is encrypted once per active path under
    one delivery identifier; received copies are previewed, committed or handed
    to mobility, delivered once and suppressed afterwards.  Leases of previews
    are names; [RWorld] holds the ones that are active, with the sessions and
    admission capabilities that are alive. *)

From stdpp Require Import gmap sets.
From S2P Require Import Prelude Wire Checksum Codec HeaderRules Crypto SessionMsg Replay SessionCrypto Directional Client Server Control Mobility DeliveryWindow.
#[local] Open Scope Z_scope.

Definition OVERHEAD : Z := 84.
Definition QUEUE_PACKETS : Z := 256.
Definition QUEUE_BYTES : Z := 256 * 1024.
Definition DEDUP_IDS : Z := 4096.
Definition DEDUP_LIFETIME_MS : Z := 30000.
Definition DELIVERY_GAP : Z := 65536.
Definition EVENTS : Z := 64.

(** ** Data *)

Inductive PathState : Set :=
| PathAbsent | PathCandidate | PathValidated | PathActive | PathDegraded | PathRemoved | PathReleased.
Inductive SessionState : Set := SessionActive | SessionReleased.

Module RedundantError.

Inductive t : Set :=
| ProfileInvalid | AdmissionInvalid | PathUnavailable | BindingMismatch | MtuExceeded
| QueueOverflow | CounterExhausted | DeliveryExhausted | AuthFailed | Replay | DeliveryGap
| DedupCapacity | DivergentDelivery | PathFailure | Released.

#[export] Instance eq_dec : EqDecision t.
Proof. solve_decision. Defined.

Definition category (e : t) : string :=
  match e with
  | MtuExceeded => "E-BUDGET"
  | DedupCapacity => "E-CAPACITY"
  | CounterExhausted | DeliveryExhausted => "E-COUNTER"
  | Replay | DeliveryGap => "E-REPLAY"
  | DivergentDelivery => "E-PATH"
  | AdmissionInvalid => "E-CANDIDATE"
  | PathUnavailable | BindingMismatch | PathFailure => "E-PATH"
  | Released => "E-TIMEOUT"
  | ProfileInvalid | QueueOverflow | AuthFailed => "E-PATH"
  end.

End RedundantError.

Inductive RedundantEvent : Set :=
| InitialDegraded | Recovered | EventQueueOverflow | Divergence | EventDegraded | EventReleased.

#[export] Instance PathState_eq_dec : EqDecision PathState.
Proof. solve_decision. Defined.
#[export] Instance SessionState_eq_dec : EqDecision SessionState.
Proof. solve_decision. Defined.
#[export] Instance RedundantEvent_eq_dec : EqDecision RedundantEvent.
Proof. solve_decision. Defined.

(** A wire packet with the slot and the carrier it is meant for. *)
Record OutboundPacket : Set := mkOutboundPacket {
  op_slot : Z;
  op_binding : ObservedBinding;
  op_packet : bytes;
}.

Inductive SendOutcome : Set :=
| Enqueued (delivery_id : Z) (packets : list OutboundPacket)
| DroppedNewest.
Inductive ReceiveOutcome : Set := Delivered (l : bytes) | Suppressed.
Inductive ReceiveDecision : Set := New | Equal.

Record InboundPreview : Set := mkInbound {
  ip_owner : Z;
  ip_generation : Z;
  ip_slot : Z;
  ip_session_preview : option Profile3DataPreview;
  ip_decision : ReceiveDecision;
  ip_now_ms : Z;
  ip_lease : option Z;
}.

Record InboundReplayLease : Set := mkReplayLease {
  rl_owner : Z;
  rl_generation : Z;
  rl_slot : Z;
  rl_lease : Z;
}.

Record MobilityInboundCommit : Set := mkInboundCommit {
  mic_lease : InboundReplayLease;
  mic_transition : Transition;
  mic_delivery_id : Z;
  mic_plaintext : bytes;
  mic_decision : ReceiveDecision;
  mic_now_ms : Z;
}.

Record Path : Set := mkPath {
  pa_state : PathState;
  pa_binding : option ObservedBinding;
  pa_local_loc : option bytes;
  pa_peer_loc : option bytes;
  pa_budget : Z;
  pa_session : option DirectionalSession;
  pa_queue : list OutboundPacket;
  pa_queued_bytes : Z;
}.

Record Dedup : Set := mkDedup { dd_bytes : bytes; dd_expiry_ms : Z }.

Record RedundantSession : Set := mkRedundant {
  rs_bootstrap : option Profile3Bootstrap;
  rs_paths : list Path;
  rs_state : SessionState;
  rs_next_delivery : Z;
  rs_delivered : DeliveredWindow;
  rs_dedup : gmap Z Dedup;
  rs_events : list RedundantEvent;
  rs_admission_issuer : option Profile3AdmissionIssuer;
  rs_receive_owner : Z;
  rs_receive_generation : Z;
  rs_receive_preview : option Z;
}.

(** The shared objects: directional sessions, admission capabilities, inbound leases, and the
    counter [NEXT_RECEIVE_OWNER] (which wraps). *)
Record RWorld : Set := mkRWorld {
  rw_sessions : World;
  rw_caps : Capabilities;
  rw_next_lease : Z;
  rw_active : gset Z;
  rw_next_receive_owner : Z;
}.

Definition RState : Type := RedundantSession * RWorld.

(** Assignment to one field. *)
Definition set_bootstrap (v : option Profile3Bootstrap) (s : RedundantSession) : RedundantSession :=
  mkRedundant v (rs_paths s) (rs_state s) (rs_next_delivery s) (rs_delivered s) (rs_dedup s)
    (rs_events s) (rs_admission_issuer s) (rs_receive_owner s) (rs_receive_generation s)
    (rs_receive_preview s).
Definition set_paths (v : list Path) (s : RedundantSession) : RedundantSession :=
  mkRedundant (rs_bootstrap s) v (rs_state s) (rs_next_delivery s) (rs_delivered s) (rs_dedup s)
    (rs_events s) (rs_admission_issuer s) (rs_receive_owner s) (rs_receive_generation s)
    (rs_receive_preview s).
Definition set_next_delivery (v : Z) (s : RedundantSession) : RedundantSession :=
  mkRedundant (rs_bootstrap s) (rs_paths s) (rs_state s) v (rs_delivered s) (rs_dedup s)
    (rs_events s) (rs_admission_issuer s) (rs_receive_owner s) (rs_receive_generation s)
    (rs_receive_preview s).
Definition set_delivered (v : DeliveredWindow) (s : RedundantSession) : RedundantSession :=
  mkRedundant (rs_bootstrap s) (rs_paths s) (rs_state s) (rs_next_delivery s) v (rs_dedup s)
    (rs_events s) (rs_admission_issuer s) (rs_receive_owner s) (rs_receive_generation s)
    (rs_receive_preview s).
Definition set_dedup (v : gmap Z Dedup) (s : RedundantSession) : RedundantSession :=
  mkRedundant (rs_bootstrap s) (rs_paths s) (rs_state s) (rs_next_delivery s) (rs_delivered s) v
    (rs_events s) (rs_admission_issuer s) (rs_receive_owner s) (rs_receive_generation s)
    (rs_receive_preview s).
Definition set_events (v : list RedundantEvent) (s : RedundantSession) : RedundantSession :=
  mkRedundant (rs_bootstrap s) (rs_paths s) (rs_state s) (rs_next_delivery s) (rs_delivered s)
    (rs_dedup s) v (rs_admission_issuer s) (rs_receive_owner s) (rs_receive_generation s)
    (rs_receive_preview s).
Definition set_issuer (v : option Profile3AdmissionIssuer) (s : RedundantSession) : RedundantSession :=
  mkRedundant (rs_bootstrap s) (rs_paths s) (rs_state s) (rs_next_delivery s) (rs_delivered s)
    (rs_dedup s) (rs_events s) v (rs_receive_owner s) (rs_receive_generation s)
    (rs_receive_preview s).
Definition set_receive_generation (v : Z) (s : RedundantSession) : RedundantSession :=
  mkRedundant (rs_bootstrap s) (rs_paths s) (rs_state s) (rs_next_delivery s) (rs_delivered s)
    (rs_dedup s) (rs_events s) (rs_admission_issuer s) (rs_receive_owner s) v
    (rs_receive_preview s).
Definition set_receive_preview (v : option Z) (s : RedundantSession) : RedundantSession :=
  mkRedundant (rs_bootstrap s) (rs_paths s) (rs_state s) (rs_next_delivery s) (rs_delivered s)
    (rs_dedup s) (rs_events s) (rs_admission_issuer s) (rs_receive_owner s)
    (rs_receive_generation s) v.

Definition set_path_state (v : PathState) (p : Path) : Path :=
  mkPath v (pa_binding p) (pa_local_loc p) (pa_peer_loc p) (pa_budget p) (pa_session p)
    (pa_queue p) (pa_queued_bytes p).
Definition set_path_session (v : option DirectionalSession) (p : Path) : Path :=
  mkPath (pa_state p) (pa_binding p) (pa_local_loc p) (pa_peer_loc p) (pa_budget p) v
    (pa_queue p) (pa_queued_bytes p).
Definition set_path_queue (q : list OutboundPacket) (n : Z) (p : Path) : Path :=
  mkPath (pa_state p) (pa_binding p) (pa_local_loc p) (pa_peer_loc p) (pa_budget p) (pa_session p)
    q n.

Definition set_sessions (v : World) (w : RWorld) : RWorld :=
  mkRWorld v (rw_caps w) (rw_next_lease w) (rw_active w) (rw_next_receive_owner w).
Definition set_caps (v : Capabilities) (w : RWorld) : RWorld :=
  mkRWorld (rw_sessions w) v (rw_next_lease w) (rw_active w) (rw_next_receive_owner w).

(** ** Leases *)

(** [lease.active.store(false)] *)
Definition lease_release (l : Z) (w : RWorld) : RWorld :=
  mkRWorld (rw_sessions w) (rw_caps w) (rw_next_lease w) (rw_active w ∖ {[l]})
    (rw_next_receive_owner w).
Definition lease_active (w : RWorld) (l : Z) : bool := bool_decide (l ∈ rw_active w).
(** [Arc::new(InboundLease { active: true })] *)
Definition lease_new (w : RWorld) : Z * RWorld :=
  (rw_next_lease w,
   mkRWorld (rw_sessions w) (rw_caps w) (rw_next_lease w + 1) ({[rw_next_lease w]} ∪ rw_active w)
     (rw_next_receive_owner w)).

(** [Drop for InboundPreview] and [Drop for InboundReplayLease] *)
Definition preview_drop (p : InboundPreview) (w : RWorld) : RWorld :=
  match ip_lease p with Some l => lease_release l w | None => w end.
Definition replay_lease_drop (l : InboundReplayLease) (w : RWorld) : RWorld :=
  lease_release (rl_lease l) w.

(** [InboundPreview::plaintext] *)
Definition preview_plaintext (w : RWorld) (p : InboundPreview) : outcome RedundantError.t bytes :=
  match ip_lease p with
  | Some l =>
      if lease_active w l then ok_or (p3_plaintext <$> ip_session_preview p) RedundantError.Released
      else Err RedundantError.Released
  | None => Err RedundantError.Released
  end.

(** [into_mobility_commit] *)
Definition into_mobility_commit (p : InboundPreview) (t : Transition) (delivery_id : Z) (pt : bytes) :
    outcome RedundantError.t MobilityInboundCommit :=
  l ← expect (ip_lease p);
  Ok (mkInboundCommit (mkReplayLease (ip_owner p) (ip_generation p) (ip_slot p) l) t delivery_id pt
        (ip_decision p) (ip_now_ms p)).

(** ** Paths *)

Definition path_clear (p : Path) : Path := mkPath (pa_state p) None None None (pa_budget p) None [] 0.

(** The session a path lets go of. *)
Definition path_drop_session (p : Path) (w : RWorld) : RWorld :=
  match pa_session p with
  | Some s => set_sessions (session_drop s (rw_sessions w)) w
  | None => w
  end.

Definition can_enqueue (p : Path) (n : Z) : bool :=
  (len (pa_queue p) <? QUEUE_PACKETS) &&
  match checked_add (pa_queued_bytes p) n with
  | Some value => value <=? QUEUE_BYTES
  | None => false
  end.

Definition is_active (p : Path) : bool := bool_decide (pa_state p = PathActive).

(** [paths.get(slot)] with the error of the callers. *)
Definition get_path (s : RedundantSession) (slot : Z) : outcome RedundantError.t Path :=
  ok_or (rs_paths s !! Z.to_nat slot) RedundantError.PathUnavailable.
(** Assignment through [paths[slot]]. *)
Definition update_path (slot : Z) (f : Path → Path) (s : RedundantSession) : RedundantSession :=
  set_paths (alter f (Z.to_nat slot) (rs_paths s)) s.

(** ** Small operations *)

Definition map_session (e : SessionError.t) : RedundantError.t :=
  match e with
  | SessionError.Budget => RedundantError.MtuExceeded
  | SessionError.CounterExhausted => RedundantError.CounterExhausted
  | SessionError.CounterRange | SessionError.Replay => RedundantError.Replay
  | _ => RedundantError.AuthFailed
  end.

Definition event (e : RedundantEvent) (s : RedundantSession) : RedundantSession :=
  let events := if len (rs_events s) =? EVENTS then tail (rs_events s) else rs_events s in
  set_events (events ++ [e]) s.

Definition live (s : RedundantSession) : outcome RedundantError.t unit :=
  if bool_decide (rs_state s = SessionActive) then Ok () else Err RedundantError.Released.

Definition state (s : RedundantSession) : SessionState := rs_state s.
Definition path_state (s : RedundantSession) (slot : Z) : option PathState :=
  pa_state <$> rs_paths s !! Z.to_nat slot.
Definition drain_events (s : RedundantSession) : list RedundantEvent * RedundantSession :=
  (rs_events s, set_events [] s).

Definition expire (now_ms : Z) (s : RedundantSession) : RedundantSession :=
  set_dedup (filter (λ kv, now_ms < dd_expiry_ms kv.2) (rs_dedup s)) s.

Definition redundant_header (s : RedundantSession) (slot : Z) : outcome RedundantError.t Header :=
  b ← ok_or (rs_bootstrap s) RedundantError.Released;
  p ← get_path s slot;
  src ← ok_or (pa_local_loc p) RedundantError.PathUnavailable;
  dst ← ok_or (pa_peer_loc p) RedundantError.PathUnavailable;
  Ok (mkHeader 3 0 NH_SES 64 (if slot =? 0 then 1 else 3) slot (pb_scid b) src dst).

Definition reap_preview (w : RWorld) (s : RedundantSession) : RedundantSession :=
  match rs_receive_preview s with
  | Some l => if lease_active w l then s else set_receive_preview None s
  | None => s
  end.

Definition accepts_preview (w : RWorld) (s : RedundantSession) (p : InboundPreview) : bool :=
  (ip_owner p =? rs_receive_owner s) && (ip_generation p =? rs_receive_generation s) &&
  match ip_lease p with
  | Some l => lease_active w l && bool_decide (rs_receive_preview s = Some l)
  | None => false
  end.

Definition accepts_replay_lease (w : RWorld) (s : RedundantSession) (l : InboundReplayLease) : bool :=
  (rl_owner l =? rs_receive_owner s) && (rl_generation l =? rs_receive_generation s) &&
  lease_active w (rl_lease l) && bool_decide (rs_receive_preview s = Some (rl_lease l)).

(** [close]: every session, the bootstrap and the pending preview are let go. *)
Definition redundant_close : RState → RState := λ '(s, w),
  if bool_decide (rs_state s = SessionReleased) then (s, w) else
  let w := foldl (λ w p, path_drop_session p w) w (rs_paths s) in
  let w := match rs_bootstrap s with
           | Some b => set_sessions (bootstrap_drop b (rw_sessions w)) w | None => w end in
  let w := match rs_receive_preview s with Some l => lease_release l w | None => w end in
  (event EventReleased
     (mkRedundant None ((λ p, set_path_state PathReleased (path_clear p)) <$> rs_paths s)
        SessionReleased 1 (set_high_water None (clear_all (rs_delivered s))) ∅ (rs_events s) None
        (rs_receive_owner s) u64_max None), w).

(** ** Construction and admission *)

Section Operations.
Context `{C : Crypto} `{DA : Build}.

Definition budget_ok (budget : Z) : bool := (OVERHEAD <=? budget) && (budget <=? 1280).

Definition new_path (state : PathState) (binding : option ObservedBinding)
    (local_loc peer_loc : option bytes) (budget : Z) (session : option DirectionalSession) : Path :=
  mkPath state binding local_loc peer_loc budget session [] 0.

(** [RedundantSession::new]: what is not moved into the session is dropped. *)
Definition redundant_new (b : Profile3Bootstrap) (slot0_binding : ObservedBinding) (seed : Z) :
    st RWorld RedundantError.t RedundantSession := λ w,
  let drop b w := set_sessions (bootstrap_drop b (rw_sessions w)) w in
  match map_err (λ _, RedundantError.BindingMismatch) (binding_validate slot0_binding) with
  | Err e => (Err e, drop b w)
  | Panic => (Panic, drop b w)
  | Ok _ =>
      let budget := pb_budget b in
      if negb (budget_ok budget) then (Err RedundantError.ProfileInvalid, drop b w) else
      match take_slot0 b with
      | (Err e, b) => (Err (map_session e), drop b w)
      | (Panic, b) => (Panic, drop b w)
      | (Ok slot0, b) =>
          if negb (session_can_reserve slot0)
          then (Err RedundantError.CounterExhausted,
                set_sessions (session_drop slot0 (rw_sessions (drop b w))) (drop b w))
          else
          let owner := rw_next_receive_owner w in
          let w := mkRWorld (rw_sessions w) (rw_caps w) (rw_next_lease w) (rw_active w)
                     ((owner + 1) mod 2 ^ 64) in
          (Ok (event InitialDegraded
                 (mkRedundant (Some b)
                    [new_path PathActive (Some slot0_binding) (Some (pb_local_loc b))
                       (Some (pb_peer_loc b)) budget (Some slot0);
                     new_path PathAbsent None None None budget None]
                    SessionActive seed window_empty ∅ [] None owner 0 None)), w)
      end
  end.

Definition issue_profile3_admission_owner (policy_id : Z) :
    st RState RedundantError.t Profile3AdmissionOwner := λ '(s, w),
  let fail e s := (Err e, (s, w)) in
  if negb (is_ok (live s)) then fail RedundantError.Released s else
  match get_path s 1 with
  | Ok p1 =>
      if negb (bool_decide (pa_state p1 = PathAbsent))
         || match rs_admission_issuer s with
            | Some i => Mobility.owner_is_live (rw_caps w) i | None => false end
      then fail RedundantError.AdmissionInvalid s else
      let s := set_issuer None s in
      match rs_bootstrap s, get_path s 0 with
      | None, _ => fail RedundantError.Released s
      | Some b, Ok p0 =>
          match pa_session p0 with
          | None => fail RedundantError.Released s
          | Some session =>
              match owner_issue (pb_scid b) policy_id (profile3_replay_binding session) (rw_caps w) with
              | (Ok (owner, issuer), caps) => (Ok owner, (set_issuer (Some issuer) s, set_caps caps w))
              | (_, caps) => (Err RedundantError.AdmissionInvalid, (s, set_caps caps w))
              end
          end
      | _, _ => (Panic, (s, w))
      end
  | _ => (Panic, (s, w))
  end.

(** The closure of [activate]: the session of slot one, for the holder of the authority. *)
Definition admit_slot1_session (a : Profile3Admission) : st RState RedundantError.t DirectionalSession :=
  λ '(s, w),
  match rs_bootstrap s with
  | None => (Err RedundantError.Released, (s, w))
  | Some b =>
      match rs_paths s !! 0%nat ≫= pa_session with
      | None => (Err RedundantError.Released, (s, w))
      | Some slot0 =>
          if negb (ad_scid a =? pb_scid b)
             || negb (match rs_admission_issuer s with
                      | Some i => admits (rw_caps w) i a | None => false end)
             || negb (matches_replay_binding a (profile3_replay_binding slot0))
          then (Err RedundantError.AdmissionInvalid, (s, w)) else
          let '(r, (b, sw)) := take_slot1_after_admission (b, rw_sessions w) in
          let s := set_bootstrap (Some b) s in
          match r with
          | Err e => (Err (map_session e), (s, set_sessions sw w))
          | Panic => (Panic, (s, set_sessions sw w))
          | Ok session =>
              if negb (session_can_reserve session)
              then (Err RedundantError.CounterExhausted, (s, set_sessions (session_drop session sw) w))
              else (Ok session, (s, set_sessions sw w))
          end
      end
  end.

(** [activate] consumes the admission: its capability dies with the call. *)
Definition activate (a : Profile3Admission) (budget : Z) : st RState RedundantError.t unit := λ '(s, w),
  let finish '(r, (s, w)) := (r, (s, set_caps (owner_drop (ad_owner a) (rw_caps w)) w)) in
  finish
    match map_err (λ _, RedundantError.AdmissionInvalid) (binding_validate (ad_binding a)) with
    | Err e => (Err e, (s, w))
    | Panic => (Panic, (s, w))
    | Ok _ =>
        if negb (is_ok (live s)) then (Err RedundantError.Released, (s, w)) else
        let s := reap_preview w s in
        match rs_paths s !! 1%nat with
        | None => (Panic, (s, w))
        | Some p1 =>
            if negb (bool_decide (pa_state p1 = PathAbsent)) || negb (budget_ok budget)
               || bool_decide (is_Some (rs_receive_preview s))
            then (Err RedundantError.AdmissionInvalid, (s, w)) else
            match checked_add (rs_receive_generation s) 1 with
            | None => (Err RedundantError.Released, (s, w))
            | Some next =>
                let s := update_path 1 (set_path_state PathCandidate) s in
                match admit_slot1_session a (s, w) with
                | (Err e, (s, w)) => (Err e, (update_path 1 (set_path_state PathAbsent) s, w))
                | (Panic, sw) => (Panic, sw)
                | (Ok session, (s, w)) =>
                    let s := set_issuer None s in
                    let s := update_path 1 (λ p,
                      mkPath PathActive (Some (ad_binding a)) (Some (ad_local_loc a))
                        (Some (ad_peer_loc a)) budget (Some session) (pa_queue p) (pa_queued_bytes p)) s in
                    (Ok (), (set_receive_generation next (event Recovered s), w))
                end
            end
        end
    end.

(** ** Sending *)

(** What the first pass over the active paths finds. *)
Inductive Admissible : Set := Fits | TooBig | Full | Exhausted.

Definition path_fits (length : Z) (p : Path) : Admissible :=
  if pa_budget p <? length then TooBig else
  if negb (can_enqueue p length) then Full else
  if negb (match pa_session p with Some s => session_can_reserve s | None => false end) then Exhausted
  else Fits.

Fixpoint first_obstacle (length : Z) (ps : list Path) : Admissible :=
  match ps with
  | [] => Fits
  | p :: ps => match path_fits length p with Fits => first_obstacle length ps | o => o end
  end.

(** The slots of the active paths. *)
Definition active_slots (s : RedundantSession) : list Z :=
  omap (λ '(i, p), if is_active p then Some (Z.of_nat i) else None) (imap (λ i p, (i, p)) (rs_paths s)).

(** One path of the second pass. *)
Definition send_on (slot delivery : Z) (pt : bytes) :
    st RedundantSession RedundantError.t OutboundPacket := λ s,
  match redundant_header s slot, get_path s slot with
  | Ok header, Ok p =>
      match pa_binding p, pa_session p with
      | Some binding, Some session =>
          let '(r, session) := encrypt_profile3_data header delivery pt (pa_budget p) session in
          let s := update_path slot (set_path_session (Some session)) s in
          match r with
          | Ok packet =>
              (Ok (mkOutboundPacket slot binding packet),
               update_path slot (λ p, set_path_queue (pa_queue p ++ [mkOutboundPacket slot binding packet])
                                        (pa_queued_bytes p + len packet) p) s)
          | Err e => (Err (map_session e), s)
          | Panic => (Panic, s)
          end
      | _, _ => (Err RedundantError.PathUnavailable, s)
      end
  | Err e, _ => (Err e, s)
  | Ok _, Err e => (Err e, s)
  | _, _ => (Panic, s)
  end.

Fixpoint send_all (slots : list Z) (delivery : Z) (pt : bytes) :
    st RedundantSession RedundantError.t (list OutboundPacket) :=
  match slots with
  | [] => mret []
  | slot :: slots =>
      packet ← send_on slot delivery pt;
      packets ← send_all slots delivery pt;
      mret (packet :: packets)
  end.

Definition outbound (pt : bytes) : st RState RedundantError.t SendOutcome := λ '(s, w),
  if negb (is_ok (live s)) then (Err RedundantError.Released, (s, w)) else
  match checked_add (len pt) OVERHEAD with
  | None => (Err RedundantError.MtuExceeded, (s, w))
  | Some length =>
      let slots := active_slots s in
      if bool_decide (slots = []) then (Err RedundantError.PathUnavailable, (s, w)) else
      match first_obstacle length (filter (λ p, is_active p = true) (rs_paths s)) with
      | TooBig => (Err RedundantError.MtuExceeded, (s, w))
      | Full => (Ok DroppedNewest, (event EventQueueOverflow s, w))
      | Exhausted => (Err RedundantError.CounterExhausted, redundant_close (s, w))
      | Fits =>
          let delivery := rs_next_delivery s in
          if delivery =? u64_max then (Err RedundantError.DeliveryExhausted, redundant_close (s, w)) else
          match send_all slots delivery pt s with
          | (Ok packets, s) => (Ok (Enqueued delivery packets), (set_next_delivery (delivery + 1) s, w))
          | (Err e, s) => (Err e, (s, w))
          | (Panic, s) => (Panic, (s, w))
          end
      end
  end.

Definition front (s : RedundantSession) (slot : Z) : option OutboundPacket :=
  rs_paths s !! Z.to_nat slot ≫= λ p, head (pa_queue p).

Definition confirm_sent (slot : Z) (packet : bytes) : st RedundantSession RedundantError.t unit := λ s,
  match get_path s slot with
  | Err e => (Err e, s)
  | Panic => (Panic, s)
  | Ok p =>
      match pa_queue p with
      | [] => (Err RedundantError.PathUnavailable, s)
      | cached :: queue =>
          if negb (beq (op_packet cached) packet) then (Err RedundantError.PathFailure, s) else
          match checked_sub (pa_queued_bytes p) (len (op_packet cached)) with
          | None => (Panic, update_path slot (set_path_queue queue (pa_queued_bytes p)) s)
          | Some n => (Ok (), update_path slot (set_path_queue queue n) s)
          end
      end
  end.

(** ** Receiving *)

(** The checks of [preview_inbound_inner] up to the authenticated preview of the session. *)
Definition authenticate (s : RedundantSession) (slot : Z) (binding : ObservedBinding) (packet : bytes)
    (require_active_binding : bool) : outcome RedundantError.t Profile3DataPreview :=
  p ← get_path s slot;
  if negb (is_active p) || (require_active_binding && negb (bool_decide (pa_binding p = Some binding)))
  then Err RedundantError.BindingMismatch else
  '(header, _) ← map_err (λ _, RedundantError.AuthFailed) (unpack_with_budget packet (pa_budget p));
  b ← ok_or (rs_bootstrap s) RedundantError.Released;
  if negb (scid header =? pb_scid b) || negb (path_slot header =? slot)
     || negb (bool_decide (pa_peer_loc p = Some (src header)))
     || negb (bool_decide (pa_local_loc p = Some (dst header)))
  then Err RedundantError.AuthFailed else
  session ← ok_or (pa_session p) RedundantError.PathUnavailable;
  map_err map_session (preview_profile3_data session packet).

Definition beyond_gap (s : RedundantSession) (id : Z) : bool :=
  match high_water (rs_delivered s) with
  | Some high => (high <? id) && (DELIVERY_GAP <? id - high)
  | None => false
  end.

(** Hand out a preview under a fresh lease. *)
Definition lease_preview (slot now_ms : Z) (pv : Profile3DataPreview) (d : ReceiveDecision) :
    st RState RedundantError.t InboundPreview := λ '(s, w),
  let '(l, w) := lease_new w in
  (Ok (mkInbound (rs_receive_owner s) (rs_receive_generation s) slot (Some pv) d now_ms (Some l)),
   (set_receive_preview (Some l) s, w)).

Definition preview_inbound_inner (slot : Z) (binding : ObservedBinding) (packet : bytes) (now_ms : Z)
    (require_active_binding : bool) : st RState RedundantError.t InboundPreview := λ '(s, w),
  match map_err (λ _, RedundantError.BindingMismatch) (binding_validate binding) with
  | Err e => (Err e, (s, w))
  | Panic => (Panic, (s, w))
  | Ok _ =>
      if negb (is_ok (live s)) then (Err RedundantError.Released, (s, w)) else
      let s := reap_preview w s in
      if bool_decide (is_Some (rs_receive_preview s)) then (Err RedundantError.DedupCapacity, (s, w)) else
      match authenticate s slot binding packet require_active_binding with
      | Err e => (Err e, (s, w))
      | Panic => (Panic, (s, w))
      | Ok pv =>
          let id := p3_delivery_id pv in
          if too_old (rs_delivered s) id then (Err RedundantError.Replay, (s, w)) else
          match seen (rs_delivered s) id with
          | Ok true =>
              match matches (rs_delivered s) id (p3_plaintext pv) with
              | Ok true => lease_preview slot now_ms pv Equal (s, w)
              | Ok false => (Err RedundantError.DivergentDelivery, redundant_close (event Divergence s, w))
              | Err e => (Err e, (s, w))
              | Panic => (Panic, (s, w))
              end
          | Ok false =>
              if beyond_gap s id then (Err RedundantError.DeliveryGap, (s, w))
              else lease_preview slot now_ms pv New (s, w)
          | Err e => (Err e, (s, w))
          | Panic => (Panic, (s, w))
          end
      end
  end.

Definition preview_inbound (slot : Z) (binding : ObservedBinding) (packet : bytes) (now_ms : Z) :=
  preview_inbound_inner slot binding packet now_ms true.
Definition preview_mobility_inbound (slot : Z) (binding : ObservedBinding) (packet : bytes) (now_ms : Z) :=
  preview_inbound_inner slot binding packet now_ms false.

(** The entry with the least expiry, then the least identifier. *)
Definition entry_le (a b : Z * Dedup) : bool :=
  (dd_expiry_ms a.2 <? dd_expiry_ms b.2) ||
  ((dd_expiry_ms a.2 =? dd_expiry_ms b.2) && (a.1 <=? b.1)).
Definition oldest_entry (m : gmap Z Dedup) : option Z :=
  fst <$> foldl (λ acc e, match acc with
                          | None => Some e
                          | Some a => Some (if entry_le a e then a else e) end)
            None (map_to_list m).

(** Remember a delivery: evict when full, then insert in the window and the cache. *)
Definition remember (id : Z) (l : bytes) (now_ms : Z) (s : RedundantSession) :
    outcome RedundantError.t RedundantSession :=
  m ← (if DEDUP_IDS <=? Z.of_nat (size (rs_dedup s))
       then old ← expect (oldest_entry (rs_dedup s)); Ok (delete old (rs_dedup s))
       else Ok (rs_dedup s));
  window ← insert id l (rs_delivered s);
  Ok (set_dedup (<[id := mkDedup l (sat_add now_ms DEDUP_LIFETIME_MS)]> m) (set_delivered window s)).

(** [commit]: the replay proof of the path's session. *)
Definition commit (slot : Z) (pv : Profile3DataPreview) :
    st RedundantSession RedundantError.t (Z * bytes) := λ s,
  match get_path s slot with
  | Err e => (Err e, s)
  | Panic => (Panic, s)
  | Ok p =>
      match pa_session p with
      | None => (Err RedundantError.PathUnavailable, s)
      | Some session =>
          let '(r, session) := commit_profile3_data pv session in
          (map_err map_session r, update_path slot (set_path_session (Some session)) s)
      end
  end.

(** [commit_inbound] consumes the preview: its lease ends with the call. *)
Definition commit_inbound (p : InboundPreview) : st RState RedundantError.t ReceiveOutcome := λ '(s, w),
  let finish '(r, s) := (r, (s, preview_drop p w)) in
  finish
    (if negb (is_ok (live s)) then (Err RedundantError.Released, s) else
     if negb (accepts_preview w s p) then (Err RedundantError.Replay, s) else
     match checked_add (rs_receive_generation s) 1, ip_session_preview p with
     | None, _ => (Err RedundantError.Released, s)
     | Some _, None => (Err RedundantError.Replay, s)
     | Some next, Some pv =>
         let s := set_receive_preview None s in
         match commit (ip_slot p) pv s with
         | (Err e, s) => (Err e, s)
         | (Panic, s) => (Panic, s)
         | (Ok (id, l), s) =>
             let s := expire (ip_now_ms p) (set_receive_generation next s) in
             match ip_decision p with
             | Equal => (Ok Suppressed, s)
             | New =>
                 match remember id l (ip_now_ms p) s with
                 | Ok s => (Ok (Delivered l), s)
                 | Err e => (Err e, s)
                 | Panic => (Panic, s)
                 end
             end
         end
     end).

Definition abort_inbound (p : InboundPreview) : st RState RedundantError.t unit := λ '(s, w),
  let finish '(r, s) := (r, (s, preview_drop p w)) in
  finish
    (if negb (is_ok (live s)) then (Err RedundantError.Released, s) else
     if negb (accepts_preview w s p) then (Err RedundantError.Replay, s) else
     (Ok (), set_receive_preview None s)).

Definition inbound (slot : Z) (binding : ObservedBinding) (packet : bytes) (now_ms : Z) :
    st RState RedundantError.t ReceiveOutcome :=
  p ← preview_inbound slot binding packet now_ms;
  commit_inbound p.

(** ** Mobility controls *)

(** On success the lease of the preview moves into the commit; otherwise it ends. *)
Definition prepare_mobility_commit (m : CandidateManager) (ms : State) (binding : ObservedBinding)
    (p : InboundPreview) (now_ms : Z) : st RState RedundantError.t MobilityInboundCommit := λ '(s, w),
  let r :=
    (if negb (is_ok (live s)) then Err RedundantError.Released else
     if negb (accepts_preview w s p) then Err RedundantError.Replay else
     pv ← ok_or (ip_session_preview p) RedundantError.Replay;
     pt ← preview_plaintext w p;
     t ← map_err (λ _, RedundantError.Replay)
           (preview_profile3 m ms binding now_ms pt (p3_into_replay_proof pv));
     into_mobility_commit p t (p3_delivery_id pv) pt) in
  match r with
  | Ok c => (Ok c, (s, w))
  | Err e => (Err e, (s, preview_drop p w))
  | Panic => (Panic, (s, preview_drop p w))
  end.

Definition mobility_response (m : CandidateManager) (ms : State) (c : MobilityInboundCommit) :
    outcome RedundantError.t (option Control) :=
  map_err (λ _, RedundantError.Replay) (response_for m (mic_transition c) ms).

(** [commit_mobility] consumes the commit: its lease ends with the call. *)
Definition commit_mobility (m : CandidateManager) (c : MobilityInboundCommit) :
    st (RState * State) RedundantError.t unit := λ '((s, w), ms),
  let finish '(r, (s, ms)) := (r, ((s, replay_lease_drop (mic_lease c) w), ms)) in
  finish
    (if negb (is_ok (live s)) then (Err RedundantError.Released, (s, ms)) else
     if negb (accepts_replay_lease w s (mic_lease c)) then (Err RedundantError.Replay, (s, ms)) else
     match checked_add (rs_receive_generation s) 1 with
     | None => (Err RedundantError.Released, (s, ms))
     | Some next =>
         let slot := rl_slot (mic_lease c) in
         match get_path s slot with
         | Err e => (Err e, (s, ms))
         | Panic => (Panic, (s, ms))
         | Ok p =>
             match pa_session p with
             | None => (Err RedundantError.PathUnavailable, (s, ms))
             | Some session =>
                 let '(r, (ms, session)) := commit_profile3 m (mic_transition c) (ms, session) in
                 let s := update_path slot (set_path_session (Some session)) s in
                 match r with
                 | Err _ => (Err RedundantError.Replay, (s, ms))
                 | Panic => (Panic, (s, ms))
                 | Ok _ =>
                     let s := expire (mic_now_ms c)
                                (set_receive_generation next (set_receive_preview None s)) in
                     match mic_decision c with
                     | Equal => (Ok (), (s, ms))
                     | New =>
                         match remember (mic_delivery_id c) (mic_plaintext c) (mic_now_ms c) s with
                         | Ok s => (Ok (), (s, ms))
                         | Err e => (Err e, (s, ms))
                         | Panic => (Panic, (s, ms))
                         end
                     end
                 end
             end
         end
     end).

(** ** Removing paths and time *)

Definition remove_path (slot : Z) : st RState RedundantError.t unit := λ '(s, w),
  if negb (is_ok (live s)) then (Err RedundantError.Released, (s, w)) else
  let s := reap_preview w s in
  let w := match rs_receive_preview s with Some l => lease_release l w | None => w end in
  let s := set_receive_preview None s in
  match checked_add (rs_receive_generation s) 1 with
  | None => (Err RedundantError.Released, (s, w))
  | Some next =>
      match get_path s slot with
      | Err e => (Err e, (s, w))
      | Panic => (Panic, (s, w))
      | Ok p =>
          if bool_decide (pa_state p = PathRemoved) || bool_decide (pa_state p = PathDegraded)
          then (Ok (), (s, w)) else
          if negb (is_active p) then (Err RedundantError.PathUnavailable, (s, w)) else
          let w := path_drop_session p w in
          let s := update_path slot (λ p, set_path_state PathRemoved (path_clear p)) s in
          let s := event EventDegraded (set_receive_generation next s) in
          (Ok (), if existsb is_active (rs_paths s) then (s, w) else redundant_close (s, w))
      end
  end.

Definition tick (now_ms : Z) : st RState RedundantError.t unit := λ '(s, w),
  if negb (is_ok (live s)) then (Err RedundantError.Released, (s, w)) else
  (Ok (), (expire now_ms (reap_preview w s), w)).

(** [Drop for RedundantSession] *)
Definition redundant_drop (s : RState) : RState := redundant_close s.
End Operations.
