(* ===== verification/RedundantInv.v ===== *)
(** * What a redundant session guarantees

    The well-formedness of a session and of its paths
    (src/rust/crates/r8-redundant/src/lib.rs), that the small operations keep
    it, and the two halves of the data path: a datagram is sent on all active
    paths or on none, and what authentication, replay commit and remembering do
    on the receiving side.  RedundantRuns.v puts them together. *)

From stdpp Require Import gmap sets.
From S2P Require Import Prelude Wire Checksum Codec HeaderRules Crypto SessionMsg Replay SessionCrypto Directional Client Server ServerInv Control Mobility DeliveryWindow Redundant.
#[local] Open Scope Z_scope.

(** ** Well-formed sessions *)

Definition wf_directional (x : DirectionalSession) : Prop :=
  session_ok x ∧ is_u64 (next (send_counters x)) ∧ wf_array 32 (send_key x).

Definition wf_loc (l : option bytes) : Prop := ∃ a, l = Some a ∧ wf_array 16 a.

(** What the handshake leaves in a bootstrap. *)
Record wf_bootstrap (b : Profile3Bootstrap) : Prop := {
  wb_scid : is_u64 (pb_scid b) ∧ pb_scid b ≠ 0;
  wb_local : wf_array 16 (pb_local_loc b);
  wb_peer : wf_array 16 (pb_peer_loc b);
  wb_roles : role_ok (pb_local_role b) = true ∧ role_ok (pb_peer_role b) = true ∧
             pb_local_role b ≠ pb_peer_role b;
  wb_transcript : wf_array 32 (pb_transcript_hash b);
  wb_schedule k : pb_schedule b = Some k → wf_array 32 k;
  wb_slot0 x : pb_slot0 b = Some x → wf_directional x;
}.

(** The bytes of a queue. *)
Definition queue_bytes (q : list OutboundPacket) : Z := foldr (λ o n, len (op_packet o) + n) 0 q.

Definition active_path (p : Path) : Prop :=
  (∃ b, pa_binding p = Some b ∧ binding_validate b = Ok ()) ∧ wf_loc (pa_local_loc p) ∧ wf_loc (pa_peer_loc p) ∧
  ∃ x, pa_session p = Some x ∧ wf_directional x.
Definition idle_path (p : Path) : Prop :=
  pa_session p = None ∧ pa_queue p = [] ∧ pa_binding p = None ∧ pa_local_loc p = None ∧
  pa_peer_loc p = None.

Record wf_rpath (p : Path) : Prop := {
  pw_budget : OVERHEAD ≤ pa_budget p ≤ 1280;
  pw_queue : len (pa_queue p) ≤ QUEUE_PACKETS;
  pw_bytes : pa_queued_bytes p = queue_bytes (pa_queue p);
  pw_cap : pa_queued_bytes p ≤ QUEUE_BYTES;
  pw_active : is_active p = true → active_path p;
  pw_idle : is_active p = false → idle_path p;
}.

Record cleared_session (s : RedundantSession) : Prop := {
  cl_paths : Forall (λ p, pa_state p = PathReleased) (rs_paths s);
  cl_bootstrap : rs_bootstrap s = None;
  cl_dedup : rs_dedup s = ∅;
  cl_high_water : high_water (rs_delivered s) = None;
  cl_issuer : rs_admission_issuer s = None;
  cl_preview : rs_receive_preview s = None;
  cl_generation : rs_receive_generation s = u64_max;
}.

Record live_session (s : RedundantSession) : Prop := {
  lv_bootstrap : ∃ b, rs_bootstrap s = Some b ∧ wf_bootstrap b;
  lv_active : existsb is_active (rs_paths s) = true;
}.

Record wf_redundant (s : RedundantSession) : Prop := {
  wr_two : length (rs_paths s) = 2%nat;
  wr_paths : Forall wf_rpath (rs_paths s);
  wr_dedup : Z.of_nat (size (rs_dedup s)) ≤ DEDUP_IDS;
  wr_events : len (rs_events s) ≤ EVENTS;
  wr_window : ∃ m, represents (rs_delivered s) m;
  wr_generation : is_u64 (rs_receive_generation s);
  wr_next : 1 ≤ rs_next_delivery s ≤ u64_max;
  wr_live : rs_state s = SessionActive → live_session s;
  wr_released : rs_state s = SessionReleased → cleared_session s;
}.

(** ** Changes that keep a session well formed *)

Lemma event_bounded e (l : list RedundantEvent) :
  len l ≤ EVENTS → len ((if len l =? EVENTS then tail l else l) ++ [e]) ≤ EVENTS.
Proof.
  intros H. rewrite len_app. change (len [e]) with 1.
  destruct (Z.eqb_spec (len l) EVENTS) as [Heq|Hne].
  - destruct l; [vm_compute in Heq; lia|]. unfold len, EVENTS in *. simpl in *. lia.
  - unfold EVENTS in *. lia.
Qed.

Section Keep.
Implicit Types s : RedundantSession.

Lemma wf_event e s : wf_redundant s → wf_redundant (event e s).
Proof.
  intros [? ? ? He ? ? ? Hl Hc]. apply (event_bounded e) in He.
  split; try done.
  - intros Hs. by destruct (Hl Hs).
  - intros Hs. by destruct (Hc Hs).
Qed.

Lemma wf_set_preview v s :
  wf_redundant s → rs_state s = SessionActive ∨ v = None → wf_redundant (set_receive_preview v s).
Proof.
  intros [? ? ? ? ? ? ? Hl Hc] Hv. split; try done.
  - intros Hs. by destruct (Hl Hs).
  - intros Hs. destruct Hv as [Hv| ->]; [cbn in Hs; congruence|]. by destruct (Hc Hs).
Qed.

Lemma wf_set_generation' v s :
  wf_redundant s → rs_state s = SessionActive → is_u64 v → wf_redundant (set_receive_generation v s).
Proof.
  intros [? ? ? ? ? ? ? Hl Hc] Hv ?. split; try done.
  - intros Hs. by destruct (Hl Hs).
  - cbn. congruence.
Qed.

Lemma wf_set_next v s :
  wf_redundant s → rs_state s = SessionActive → 1 ≤ v ≤ u64_max → wf_redundant (set_next_delivery v s).
Proof.
  intros [? ? ? ? ? ? ? Hl Hc] Hv ?. split; try done.
  - intros Hs. by destruct (Hl Hs).
  - cbn. congruence.
Qed.

Lemma wf_set_issuer v s :
  wf_redundant s → rs_state s = SessionActive → wf_redundant (set_issuer v s).
Proof.
  intros [? ? ? ? ? ? ? Hl Hc] Hv. split; try done.
  - intros Hs. by destruct (Hl Hs).
  - cbn. congruence.
Qed.

Lemma wf_set_bootstrap b s :
  wf_redundant s → rs_state s = SessionActive → wf_bootstrap b → wf_redundant (set_bootstrap (Some b) s).
Proof.
  intros [? ? ? ? ? ? ? Hl Hc] Hv ?. split; try done.
  - intros Hs. destruct (Hl Hs). split; [by exists b|done].
  - cbn. congruence.
Qed.

Lemma wf_expire now s : wf_redundant s → wf_redundant (expire now s).
Proof.
  intros [? ? Hd ? ? ? ? Hl Hc]. split; try done.
  - cbn [rs_dedup expire set_dedup]. etrans; [|apply Hd]. apply inj_le.
    apply map_subseteq_size, map_filter_subseteq.
  - intros Hs. by destruct (Hl Hs).
  - intros Hs. destruct (Hc Hs). split; try done. cbn [rs_dedup expire set_dedup].
    by rewrite cl_dedup0, map_filter_empty.
Qed.

Lemma wf_update_path slot f s p :
  wf_redundant s → rs_state s = SessionActive → rs_paths s !! Z.to_nat slot = Some p →
  wf_rpath (f p) → (is_active p = true → is_active (f p) = true) →
  wf_redundant (update_path slot f s).
Proof.
  intros [Htwo Hp ? ? ? ? ? Hl Hc] Hs Hlk Hf Ha.
  assert (∀ q, (alter f (Z.to_nat slot) (rs_paths s)) !! Z.to_nat slot = Some q → q = f p) as Heq.
  { intros q. rewrite list_lookup_alter_eq, Hlk. by intros [= <-]. }
  split; try done; cbn [update_path set_paths rs_paths rs_state].
  - by rewrite length_alter.
  - apply Forall_alter; [done|]. intros q. rewrite Hlk. by intros [= <-].
  - intros _. destruct (Hl Hs) as [Hb He]. split; [done|]. cbn [rs_paths update_path set_paths].
    apply existsb_exists in He as (q & Hq & Hact). apply list_elem_of_In, list_elem_of_lookup in Hq as [i Hi].
    apply existsb_exists. destruct (decide (i = Z.to_nat slot)) as [->|Hne].
    + exists (f p). split; [|apply Ha; congruence]. apply list_elem_of_In, list_elem_of_lookup.
      exists (Z.to_nat slot). by rewrite list_lookup_alter_eq, Hlk.
    + exists q. split; [|done]. apply list_elem_of_In, list_elem_of_lookup. exists i.
      by rewrite list_lookup_alter_ne by done.
  - cbn in Hs. congruence.
Qed.

Lemma wf_reap w s : wf_redundant s → wf_redundant (reap_preview w s).
Proof.
  intros H. unfold reap_preview. destruct (rs_receive_preview s) as [l|]; [|done].
  destruct (lease_active w l); [done|]. apply wf_set_preview; auto.
Qed.

Lemma wf_drain s : wf_redundant s → wf_redundant (drain_events s).2.
Proof.
  intros [? ? ? ? ? ? ? Hl Hc]. split; try done.
  - intros Hs. by destruct (Hl Hs).
  - intros Hs. by destruct (Hc Hs).
Qed.

Lemma represents_cleared w m : represents w m → represents (set_high_water None (clear_all w)) ∅.
Proof.
  intros [Hw _ _ _ _]. destruct (clear_all_Ok w Hw) as (Hw' & _ & Hj).
  split; [exact Hw'| |done..]. intros _. split; [done|]. intros j _. apply Hj.
Qed.

Lemma wf_released_path p : wf_rpath p → wf_rpath (set_path_state PathReleased (path_clear p)).
Proof. intros []. by split. Qed.

(** Closing establishes well-formedness, whatever became of the active paths. *)
Lemma wf_close_active s w :
  length (rs_paths s) = 2%nat → Forall wf_rpath (rs_paths s) → len (rs_events s) ≤ EVENTS →
  (∃ m, represents (rs_delivered s) m) → rs_state s = SessionActive →
  wf_redundant (redundant_close (s, w)).1.
Proof.
  intros Htwo Hp ? [m Hm] Hs. unfold redundant_close. rewrite bool_decide_eq_false_2 by congruence.
  apply wf_event. split; cbn; try done.
  - by rewrite length_fmap.
  - apply Forall_fmap. eapply Forall_impl; [done|]. intros p. apply wf_released_path.
  - exists ∅. by apply (represents_cleared _ m).
  - intros _. split; cbn; try done. apply Forall_fmap. by apply Forall_true.
Qed.

Lemma wf_close s w : wf_redundant s → wf_redundant (redundant_close (s, w)).1.
Proof.
  intros H. destruct (rs_state s) eqn:Hs; [|unfold redundant_close; by rewrite Hs].
  destruct H. by apply wf_close_active.
Qed.

Lemma close_state s w : rs_state (redundant_close (s, w)).1 = SessionReleased.
Proof. unfold redundant_close. by case_bool_decide. Qed.

Lemma close_preview s w : wf_redundant s → rs_receive_preview (redundant_close (s, w)).1 = None.
Proof.
  intros H. unfold redundant_close. case_bool_decide as Hs; [|done].
  by destruct (wr_released _ H Hs).
Qed.

Lemma live_Ok s : is_ok (live s) = true ↔ rs_state s = SessionActive.
Proof. unfold live. case_bool_decide; naive_solver. Qed.

Lemma get_path_Ok s slot p : get_path s slot = Ok p ↔ rs_paths s !! Z.to_nat slot = Some p.
Proof. unfold get_path. apply ok_or_Ok. Qed.

Lemma wf_get_path s slot p : wf_redundant s → rs_paths s !! Z.to_nat slot = Some p → wf_rpath p.
Proof. intros H Hp. eapply Forall_lookup_1; [apply (wr_paths _ H)|done]. Qed.

Lemma session_active p x : wf_rpath p → pa_session p = Some x → is_active p = true ∧ wf_directional x.
Proof.
  intros [? ? ? ? Ha Hi] Hx. destruct (is_active p) eqn:Hact.
  - split; [done|]. destruct (Ha eq_refl) as (_ & _ & _ & y & Hy & ?). congruence.
  - destruct (Hi eq_refl). congruence.
Qed.

Lemma wf_with_session p x :
  wf_rpath p → is_active p = true → wf_directional x → wf_rpath (set_path_session (Some x) p).
Proof.
  intros [? ? ? ? Ha Hi] Hact Hx. split; try done.
  - intros _. destruct (Ha Hact) as (? & ? & ? & _). split_and!; [done..|]. by exists x.
  - change (is_active (set_path_session _ p)) with (is_active p). congruence.
Qed.
End Keep.

(** ** Sending *)

Section Sending.
Context `{C : Crypto} {L : CryptoLaws C} `{DA : Build}.
Implicit Types s : RedundantSession.

(** Encryption of a datagram that fits, with what the peer's key opens. *)
Lemma encrypt_profile3_Ok x h d pt budget :
  let c := next (send_counters x) in
  ses_header h SESSION_DATA → profile h = 3 → wf_bytes pt →
  84 + len pt ≤ budget → budget ≤ 1280 → wf_directional x → session_can_reserve x = true →
  d < u64_max →
  ∃ ct, open (send_key x) c (profile3_aad h (36 + len pt) c d) ct = Ok pt ∧ len ct = len pt + 16 ∧
    encrypt_profile3_data h d pt budget x =
    (Ok (header_bytes h (36 + len pt) ++ profile3_layout c d ct), set_counters (mkCounters (c + 1)) x).
Proof.
  intros c Hh Hp Hpt Hb Hb' (_ & Hc & Hk) Hr Hd. pose proof (len_nonneg pt) as Hn.
  unfold session_can_reserve, can_reserve in Hr. apply andb_true_iff in Hr as [H0 H1]. fold c in H0, H1, Hc.
  assert (0 < c < u64_max) as Hcr by (unfold is_u64 in Hc; lia).
  destruct (seal_profile3_with_counter (send_key x) h d pt budget c) as (ct & Hop & Hctl & Henc);
    try done; [unfold SERIALIZED_R8_MAX; lia|].
  exists ct. split; [done|]. split; [done|].
  rewrite encrypt_profile3_run by (unfold_widths; lia).
  rewrite profile3_payload_layout by (try apply Hh; unfold SERIALIZED_R8_MAX; lia).
  rewrite (proj2 (profile3_header h ltac:(apply Hh))) by done. cbn [mbind outcome_bind].
  unfold can_reserve. fold c. rewrite H0, H1. cbn [negb andb]. by rewrite Henc.
Qed.

Lemma profile3_send_header slot sc l q :
  slot = 0 ∨ slot = 1 → is_u64 sc → sc ≠ 0 → wf_array 16 l → wf_array 16 q →
  ses_header (mkHeader 3 0 NH_SES 64 (if slot =? 0 then 1 else 3) slot sc l q) SESSION_DATA.
Proof.
  intros Hslot Hsc H0 Hl Hq. unfold ses_header, wf_header, slot_rules, SESSION_DATA.
  cbn [profile tc next_header hop_limit flags path_slot scid src dst]. unfold NH_SES.
  destruct Hslot as [-> | ->]; simpl; split_and!; try done; try solve_width; lia.
Qed.

(** The header a live session sends with on an active path. *)
Lemma header_Ok s slot p :
  wf_redundant s → rs_state s = SessionActive → slot = 0 ∨ slot = 1 →
  rs_paths s !! Z.to_nat slot = Some p → is_active p = true →
  ∃ h, redundant_header s slot = Ok h ∧ ses_header h SESSION_DATA ∧ profile h = 3 ∧
    path_slot h = slot ∧ (∃ b, rs_bootstrap s = Some b ∧ scid h = pb_scid b) ∧
    pa_local_loc p = Some (src h) ∧ pa_peer_loc p = Some (dst h).
Proof.
  intros Hw Hs Hslot Hp Ha. destruct (wr_live _ Hw Hs) as [(b & Hb & Hwb) _].
  destruct (pw_active _ (wf_get_path _ _ _ Hw Hp) Ha) as (_ & (l & Hl & Hwl) & (q & Hq & Hwq) & _).
  unfold redundant_header. rewrite Hb. cbn [mbind outcome_bind ok_or].
  rewrite (proj2 (get_path_Ok s slot p)) by done. cbn [mbind outcome_bind ok_or].
  rewrite Hl, Hq. cbn [mbind outcome_bind ok_or]. eexists. split; [reflexivity|].
  destruct (wb_scid _ Hwb). split_and!; try done; [|by exists b].
  apply profile3_send_header; done.
Qed.

(** What sending leaves in a path: one counter used, one packet at the end of the queue. *)
Definition sent_path (o : OutboundPacket) (p : Path) : Path :=
  set_path_queue (pa_queue p ++ [o]) (pa_queued_bytes p + len (op_packet o))
    (set_path_session ((λ x, set_counters (mkCounters (next (send_counters x) + 1)) x) <$> pa_session p) p).

(** The packet that carries [pt] under identifier [d] on the path. *)
Definition packet_of (s : RedundantSession) (slot d : Z) (pt : bytes) (p : Path) (o : OutboundPacket) : Prop :=
  op_slot o = slot ∧ pa_binding p = Some (op_binding o) ∧ len (op_packet o) = 84 + len pt ∧
  path_fits (84 + len pt) p = Fits ∧ ∃ h x, redundant_header s slot = Ok h ∧ pa_session p = Some x ∧
    (encrypt_profile3_data h d pt (pa_budget p) x).1 = Ok (op_packet o).

Lemma queue_bytes_snoc q o : queue_bytes (q ++ [o]) = queue_bytes q + len (op_packet o).
Proof.
  induction q as [|a q IH]; unfold queue_bytes in *; cbn [foldr app]; [lia|]. rewrite IH. lia.
Qed.

Lemma path_fits_inv n p :
  path_fits n p = Fits → n ≤ pa_budget p ∧ can_enqueue p n = true ∧
  ∃ x, pa_session p = Some x ∧ session_can_reserve x = true.
Proof.
  unfold path_fits. destruct (pa_budget p <? n) eqn:Hb; [done|].
  destruct (can_enqueue p n); [|done]. destruct (pa_session p) as [x|]; [|done]. cbn [negb].
  destruct (session_can_reserve x) eqn:Hr; [|done]. intros _. split; [by apply Z.ltb_ge in Hb|].
  split; [done|]. by exists x.
Qed.

Lemma wf_sent_path o p x n :
  wf_rpath p → is_active p = true → can_enqueue p n = true → len (op_packet o) = n →
  pa_session p = Some x → session_can_reserve x = true → wf_rpath (sent_path o p).
Proof.
  intros Hw Ha Hcan Hlen Hx Hr.
  destruct Hw as [Hbud Hq Hby Hcap Hact Hidle].
  unfold can_enqueue in Hcan. apply andb_true_iff in Hcan as [Hcnt Hsz]. apply Z.ltb_lt in Hcnt.
  destruct (checked_add _ _) as [v|] eqn:Hadd; [|done]. apply checked_add_inv in Hadd as [-> _].
  split; cbn [sent_path set_path_queue set_path_session pa_budget pa_queue pa_queued_bytes].
  - done.
  - rewrite len_app. change (len [o]) with 1. lia.
  - by rewrite queue_bytes_snoc, Hby.
  - apply Z.leb_le in Hsz. lia.
  - intros _. destruct (Hact Ha) as (Hb & Hl & Hp & y & Hy & Hok & Hc & Hk).
    split; [done|]. split; [done|]. split; [done|]. cbn. rewrite Hx. eexists. split; [reflexivity|].
    assert (y = x) as -> by congruence. unfold session_can_reserve, can_reserve in Hr.
    split; [done|]. split; [|done]. cbn [send_counters set_counters next].
    apply andb_true_iff in Hr as [_ Hr%negb_true_iff%Z.eqb_neq]. unfold is_u64 in *. lia.
  - change (is_active (sent_path o p)) with (is_active p). congruence.
Qed.

Lemma send_on_Ok s slot d pt p :
  wf_redundant s → rs_state s = SessionActive → slot = 0 ∨ slot = 1 →
  rs_paths s !! Z.to_nat slot = Some p → is_active p = true → path_fits (84 + len pt) p = Fits →
  wf_bytes pt → d < u64_max →
  ∃ o, send_on slot d pt s = (Ok o, update_path slot (sent_path o) s) ∧
       packet_of s slot d pt p o ∧ wf_rpath (sent_path o p).
Proof.
  intros Hw Hs Hslot Hp Ha Hfit Hpt Hd. pose proof Hfit as Hfits. apply path_fits_inv in Hfit as (Hbud & Hcan & x & Hx & Hr).
  pose proof (wf_get_path _ _ _ Hw Hp) as Hwp.
  destruct (header_Ok s slot p) as (h & Hhd & Hh & Hp3 & _); [done..|].
  destruct (pw_active _ Hwp Ha) as ((b & Hb & _) & _ & _ & y & Hy & Hwx). assert (y = x) as -> by congruence.
  destruct (encrypt_profile3_Ok x h d pt (pa_budget p)) as (ct & _ & Hctl & Henc);
    try done; [apply (pw_budget _ Hwp)|].
  set (packet := header_bytes _ _ ++ _) in Henc. set (o := mkOutboundPacket slot b packet).
  assert (len packet = 84 + len pt) as Hlen.
  { unfold packet. rewrite len_app, len_profile3_layout. unfold len at 1.
    rewrite length_header_bytes by apply Hh. lia. }
  exists o. split; [|split].
  - unfold send_on. rewrite Hhd, (proj2 (get_path_Ok s slot p)), Hb, Hx by done. rewrite Henc.
    f_equal. unfold update_path, set_paths. cbn. f_equal.
    apply list_eq. intros j. rewrite !list_lookup_alter.
    destruct (decide (Z.to_nat slot = j)) as [<-|]; [|done]. rewrite Hp, decide_True by done.
    cbn [fmap option_fmap option_map]. unfold sent_path. by rewrite Hx.
  - split_and!; [done..|]. exists h, x. by rewrite Henc.
  - by eapply wf_sent_path.
Qed.

Lemma header_after_send s slot o j :
  redundant_header (update_path slot (sent_path o) s) j = redundant_header s j.
Proof.
  unfold redundant_header, get_path, update_path. cbn [rs_bootstrap set_paths rs_paths].
  destruct (rs_bootstrap s) as [b|]; [|done]. cbn [mbind outcome_bind ok_or].
  rewrite list_lookup_alter. case_decide as Hj; [|done]. rewrite <-Hj.
  by destruct (rs_paths s !! Z.to_nat slot).
Qed.

(** Every slot of the list sent one packet, the other paths are as before. *)
Definition all_sent s (d : Z) (pt : bytes) (slots : list Z) (os : list OutboundPacket) s' : Prop :=
  op_slot <$> os = slots ∧ s' = set_paths (rs_paths s') s ∧
  length (rs_paths s') = length (rs_paths s) ∧
  ∀ i p, rs_paths s !! i = Some p →
    (∃ o, o ∈ os ∧ packet_of s (Z.of_nat i) d pt p o ∧ rs_paths s' !! i = Some (sent_path o p)) ∨
    (Z.of_nat i ∉ slots ∧ rs_paths s' !! i = Some p).

Lemma send_all_Ok s slots d pt :
  wf_redundant s → rs_state s = SessionActive → NoDup slots →
  (∀ slot, slot ∈ slots → (slot = 0 ∨ slot = 1) ∧ ∃ p, rs_paths s !! Z.to_nat slot = Some p ∧
     is_active p = true ∧ path_fits (84 + len pt) p = Fits) →
  wf_bytes pt → d < u64_max →
  ∃ os s', send_all slots d pt s = (Ok os, s') ∧ all_sent s d pt slots os s' ∧ wf_redundant s'.
Proof.
  intros Hw Hs Hnd Hall Hpt Hd. revert s Hw Hs Hall.
  induction Hnd as [|slot slots Hnin Hnd IH]; intros s Hw Hs Hall.
  - exists [], s. split; [done|]. split; [|done]. split_and!; [done|by destruct s|done|].
    intros i p Hp. right. split; [set_solver|done].
  - destruct (Hall slot ltac:(set_solver)) as (Hslot & p & Hp & Ha & Hfit).
    destruct (send_on_Ok s slot d pt p) as (o & Hsend & Hpk & Hwp); [done..|].
    assert (wf_redundant (update_path slot (sent_path o) s)) as Hw1 by by apply (wf_update_path _ _ _ p).
    destruct (IH (update_path slot (sent_path o) s) Hw1 Hs) as (os & s' & Hsa & (Hos & Hst & Hlen & Hpaths) & Hw').
    { intros j Hj. destruct (Hall j ltac:(set_solver)) as (Hj01 & q & Hq & Hqa & Hqf).
      split; [done|]. exists q. split; [|done]. cbn [rs_paths update_path set_paths].
      rewrite list_lookup_alter_ne; [done|]. intros Heq. assert (j = slot) as -> by lia. done. }
    exists (o :: os), s'. split.
    { cbn [send_all]. unfold mbind, st_bind, mret, st_ret in *. by rewrite Hsend, Hsa. }
    split; [|done]. split_and!.
    + cbn. rewrite Hos. by destruct Hpk as [-> _].
    + by rewrite Hst at 1.
    + rewrite Hlen. cbn. by rewrite length_alter.
    + intros i q Hq. cbn [rs_paths update_path set_paths] in Hpaths.
      destruct (decide (i = Z.to_nat slot)) as [->|Hne].
      * left. rewrite Hp in Hq. injection Hq as <-. exists o. rewrite Z2Nat.id by lia.
        split; [set_solver|]. split; [done|].
        destruct (Hpaths (Z.to_nat slot) (sent_path o p)) as [(o' & Ho' & Hpk' & _)|[_ ?]]; [|exfalso|done].
        { by rewrite list_lookup_alter_eq, Hp. }
        rewrite Z2Nat.id in Hpk' by lia. destruct Hpk' as [Hsl _]. apply Hnin.
        rewrite <-Hos, <-Hsl. by apply list_elem_of_fmap_2.
      * destruct (Hpaths i q) as [(o' & Ho' & Hpk' & Hi)|[Hni Hi]]; [by rewrite list_lookup_alter_ne by done| |].
        -- left. exists o'. split; [set_solver|]. split; [|done].
           destruct Hpk' as (? & ? & ? & ? & h & x & Hh & ? & ?). rewrite header_after_send in Hh.
           split_and!; [done..|]. by exists h, x.
        -- right. split; [|done]. intros [Heq|?]%elem_of_cons; [lia|done].
Qed.

(** The active slots, and the first pass over them. *)
Lemma active_slots_spec s :
  wf_redundant s →
  NoDup (active_slots s) ∧
  ∀ z, z ∈ active_slots s ↔ ∃ i p, z = Z.of_nat i ∧ rs_paths s !! i = Some p ∧ is_active p = true.
Proof.
  intros Hw. pose proof (wr_two _ Hw) as Htwo. unfold active_slots.
  destruct (rs_paths s) as [|p0 [|p1 [|]]]; try done. cbn [imap omap list_omap].
  unfold compose. destruct (is_active p0) eqn:H0, (is_active p1) eqn:H1; cbn;
    (split; [repeat constructor; set_solver|]); intros z; split.
  all: try (intros (i & p & -> & Hi & Ha); destruct i as [|[|]]; cbn in Hi; simplify_eq;
            cbn; rewrite ?elem_of_cons; auto; congruence).
  all: rewrite ?elem_of_cons, elem_of_nil; intros Hz.
  all: repeat match goal with H : _ ∨ _ |- _ => destruct H as [->|H] end; try done.
  all: first [by exists 0%nat, p0|by exists 1%nat, p1].
Qed.

Lemma first_obstacle_Fits n ps :
  first_obstacle n ps = Fits ↔ ∀ p, p ∈ ps → path_fits n p = Fits.
Proof.
  induction ps as [|p ps IH]; cbn [first_obstacle]; [set_solver|].
  destruct (path_fits n p) eqn:Hp.
  - rewrite IH. split; [intros H q [->|?]%elem_of_cons; auto|intros H q ?; apply H; set_solver].
  - split; [done|]. intros H. specialize (H p ltac:(set_solver)). congruence.
  - split; [done|]. intros H. specialize (H p ltac:(set_solver)). congruence.
  - split; [done|]. intros H. specialize (H p ltac:(set_solver)). congruence.
Qed.

(** What a call of [outbound] may do. *)
Definition outbound_result s w (pt : bytes) (r : outcome RedundantError.t SendOutcome) (σ : RState) : Prop :=
  match r with
  | Ok (Enqueued d packets) =>
      d = rs_next_delivery s ∧ d < u64_max ∧ σ.2 = w ∧ packets ≠ [] ∧
      ∃ s1, all_sent s d pt (active_slots s) packets s1 ∧ σ.1 = set_next_delivery (d + 1) s1
  | Ok DroppedNewest => σ = (event EventQueueOverflow s, w)
  | Err RedundantError.CounterExhausted | Err RedundantError.DeliveryExhausted =>
      σ = redundant_close (s, w)
  | Err _ => σ = (s, w)
  | Panic => False
  end.

Lemma outbound_cases s w pt :
  wf_redundant s → wf_bytes pt →
  let '(r, σ) := outbound pt (s, w) in outbound_result s w pt r σ ∧ wf_redundant σ.1.
Proof.
  intros Hw Hpt. unfold outbound. destruct (is_ok (live s)) eqn:Hlive; [|by split].
  apply live_Ok in Hlive. cbn [negb].
  destruct (checked_add (len pt) OVERHEAD) as [n|] eqn:Hn; [|by split].
  apply checked_add_inv in Hn as [-> _]. unfold OVERHEAD. rewrite (Z.add_comm (len pt) 84).
  case_bool_decide as Hsl; [by split|]. destruct (active_slots_spec s Hw) as [Hnd Hin].
  destruct (first_obstacle _ _) eqn:Hob; [|by split| |].
  - destruct (Z.eqb_spec (rs_next_delivery s) u64_max) as [Hd|Hd].
    { split; [done|by apply wf_close]. }
    pose proof (wr_next _ Hw) as Hnext.
    destruct (send_all_Ok s (active_slots s) (rs_next_delivery s) pt) as (os & s1 & Hsa & Hsent & Hw1);
      try done; [|lia|].
    + intros slot (i & p & -> & Hp & Ha)%Hin. rewrite Nat2Z.id. split.
      * apply lookup_lt_Some in Hp. rewrite (wr_two _ Hw) in Hp. lia.
      * exists p. split; [done|]. split; [done|]. apply (proj1 (first_obstacle_Fits _ _) Hob).
        apply list_elem_of_filter. split; [done|]. by eapply list_elem_of_lookup_2.
    + rewrite Hsa. pose proof Hsent as (Hos & Heq & _). split.
      * split; [done|]. split; [lia|]. split; [done|]. split; [by intros ->|by exists s1].
      * apply wf_set_next; [done| |lia]. by rewrite Heq.
  - split; [done|]. by apply wf_event.
  - split; [done|]. by apply wf_close.
Qed.

(** C16: one datagram is sent on every active path or on none.  When it is enqueued, every active
    path has used one counter and queued one packet that encrypts the plaintext under the same
    delivery identifier, which is consumed; otherwise the session is as before, or an overflow was
    reported, or an exhausted counter closed it.  Nothing panics. *)
Theorem outbound_all_or_nothing s w pt :
  wf_redundant s → wf_bytes pt →
  let '(r, σ) := outbound pt (s, w) in outbound_result s w pt r σ.
Proof.
  intros Hw Hpt. pose proof (outbound_cases s w pt Hw Hpt) as H.
  destruct (outbound pt (s, w)) as [r σ]. apply H.
Qed.
End Sending.

(** ** Receiving *)

Section Receiving.
Context `{C : Crypto} {L : CryptoLaws C} `{DA : Build}.
Implicit Types s : RedundantSession.

Lemma preview_profile3_facts x packet pv :
  session_ok x → wf_bytes packet → preview_profile3_data x packet = Ok pv →
  wf_token (p3_commit pv) ∧ 1 ≤ p3_delivery_id pv < u64_max.
Proof.
  intros [acc Hr] Hw H. unfold preview_profile3_data in H.
  apply bind_Ok in H as ([h pl] & Hu & H). apply map_err_Ok, unpack_inv in Hu as (_ & -> & _); [|done].
  apply wf_bytes_app_1 in Hw as [_ Hw]. inv_ok. subst pv. cbn [p3_commit p3_delivery_id].
  match goal with H : message_decode _ _ _ = Ok _ |- _ => apply message_decode_wf in H; [|done] end.
  match goal with H : slice _ 0 8 = Ok _ |- _ => apply slice_inv in H as (_ & -> & Hl) end.
  match goal with H : slice _ 8 16 = Ok _ |- _ => apply slice_inv in H as (_ & -> & Hl') end.
  match goal with H : preview _ _ = Ok _ |- _ => unfold preview in H; inv_ok; subst end.
  split.
  - split; cbn [rc_counter rc_generation]; [apply be_value_u64; [solve_wf|done]|].
    apply (repr_generation _ _ Hr).
  - match goal with |- 1 ≤ be_value ?l < _ => assert (is_u64 (be_value l)) as Hv
      by (apply be_value_u64; [solve_wf|done]) end.
    unfold is_u64 in Hv. lia.
Qed.

Lemma commit_replay_keeps t x : ∃ w', (commit_replay t x).2 = set_replay w' x.
Proof. unfold commit_replay, zoom. destruct (Replay.commit _ _) as [r w']. by exists w'. Qed.

Lemma wf_commit_replay t x : wf_token t → wf_directional x → wf_directional (commit_replay t x).2.
Proof.
  intros Ht (Hok & Hc & Hk). destruct (commit_replay_step t x Ht) as [_ Hs].
  destruct (commit_replay_keeps t x) as [w' Heq]. rewrite Heq in *. split_and!; auto.
Qed.

Lemma wf_commit_profile3 pv x :
  wf_token (p3_commit pv) → wf_directional x → wf_directional (commit_profile3_data pv x).2.
Proof.
  intros Ht Hx. pose proof (wf_commit_replay _ _ Ht Hx) as H. unfold commit_profile3_data, mbind, st_bind, get.
  destruct (negb _); [done|]. by destruct (commit_replay _ x) as [[] x'].
Qed.

Lemma safe_commit_profile3 pv x :
  wf_token (p3_commit pv) → wf_directional x → safe (commit_profile3_data pv x).1.
Proof.
  intros Ht ([acc Hr] & _). unfold commit_profile3_data, mbind, st_bind, get. destruct (negb _); [done|].
  pose proof (commit_spec (replay x) acc (p3_commit pv) Hr Ht) as H. unfold commit_replay, zoom.
  destruct (Replay.commit _ _) as [[[]|e|] w']; [done..|]. by destruct H as [? _].
Qed.

(** The session after the manager's commit is the session, or the session after the replay commit. *)
Lemma wf_commit_manager m t ms x :
  (∀ proof pv, tr_profile3_proof t = Some proof → p3p_preview proof = Some pv → wf_token (p3_commit pv)) →
  wf_directional x → wf_directional (commit_profile3 m t (ms, x)).2.2.
Proof.
  intros Ht Hx. unfold commit_profile3. destruct (_ || _); [done|].
  destruct (tr_profile3_proof t) as [proof|] eqn:Hp; [|done]. destruct (stale _ _ _); [done|].
  unfold commit_profile3_replay. destruct (p3p_committed proof); [done|].
  destruct (p3p_preview proof) as [pv|] eqn:Hpv; [|done]. destruct (negb _); [done|].
  pose proof (wf_commit_replay _ x (Ht _ _ eq_refl Hpv) Hx) as H.
  destruct (commit_replay (p3_commit pv) x) as [[[]| |] x']; cbn [snd] in *; [|done..].
  cbn [p3_is_committed p3p_committed negb]. by destruct (apply_after_replay m t ms).
Qed.

(** What [authenticate] establishes. *)
Lemma authenticate_Ok s slot b packet req pv :
  wf_redundant s → wf_bytes packet → authenticate s slot b packet req = Ok pv →
  wf_token (p3_commit pv) ∧ 1 ≤ p3_delivery_id pv < u64_max ∧
  ∃ p x, rs_paths s !! Z.to_nat slot = Some p ∧ pa_session p = Some x ∧ is_active p = true ∧
    (req = true → pa_binding p = Some b) ∧ preview_profile3_data x packet = Ok pv.
Proof.
  intros Hw Hpk H. unfold authenticate in H. apply bind_Ok in H as (p & Hp & H).
  apply get_path_Ok in Hp. destruct (_ || _) eqn:Hcond; [done|].
  apply orb_false_iff in Hcond as [Ha%negb_false_iff Hb].
  apply bind_Ok in H as ([h ?] & _ & H). apply bind_Ok in H as (bs & _ & H).
  destruct (_ || _) in H; [done|]. apply bind_Ok in H as (x & Hx%ok_or_Ok & H%map_err_Ok).
  destruct (session_active _ _ (wf_get_path _ _ _ Hw Hp) Hx) as [_ Hwx].
  destruct (preview_profile3_facts x packet pv (proj1 Hwx) Hpk H) as [? ?].
  split; [done|]. split; [done|]. exists p, x. split_and!; try done. intros ->.
  by apply negb_false_iff, bool_decide_eq_true in Hb.
Qed.

Lemma wf_commit slot pv s :
  wf_redundant s → wf_token (p3_commit pv) → rs_state s = SessionActive →
  wf_redundant (commit slot pv s).2 ∧
  rs_state (commit slot pv s).2 = rs_state s ∧ rs_delivered (commit slot pv s).2 = rs_delivered s ∧
  rs_receive_preview (commit slot pv s).2 = rs_receive_preview s ∧
  rs_receive_generation (commit slot pv s).2 = rs_receive_generation s ∧
  rs_dedup (commit slot pv s).2 = rs_dedup s ∧ safe (commit slot pv s).1 ∧
  ∀ r, (commit slot pv s).1 = Ok r → r = (p3_delivery_id pv, p3_plaintext pv).
Proof.
  intros Hw Ht Hs. unfold commit. destruct (get_path s slot) as [p| |] eqn:Hp; [|split_and!; done|].
  2:{ unfold get_path in Hp. by destruct (rs_paths s !! Z.to_nat slot). }
  apply get_path_Ok in Hp. destruct (pa_session p) as [x|] eqn:Hx; [|split_and!; done].
  pose proof (wf_get_path _ _ _ Hw Hp) as Hwp. destruct (session_active _ _ Hwp Hx) as [Ha Hwx].
  pose proof (wf_commit_profile3 pv x Ht Hwx) as Hwx'.
  assert (∀ r, (commit_profile3_data pv x).1 = Ok r → r = (p3_delivery_id pv, p3_plaintext pv)) as Hr.
  { unfold commit_profile3_data, mbind, st_bind, get. destruct (negb _); [done|].
    destruct (commit_replay _ x) as [[] ?]; naive_solver. }
  pose proof (safe_commit_profile3 pv x Ht Hwx) as Hsafe.
  destruct (commit_profile3_data pv x) as [r x']. cbn [fst snd] in *.
  split_and!; try done; [|by apply safe_map_err|].
  - apply (wf_update_path _ _ _ p); try done. by apply wf_with_session.
  - intros r' H%map_err_Ok. by apply Hr.
Qed.

Lemma entry_le_iff a b : entry_le a b = true ↔
  dd_expiry_ms a.2 < dd_expiry_ms b.2 ∨ dd_expiry_ms a.2 = dd_expiry_ms b.2 ∧ a.1 ≤ b.1.
Proof. unfold entry_le. rewrite orb_true_iff, andb_true_iff, Z.ltb_lt, Z.eqb_eq, Z.leb_le. done. Qed.

(** The evicted entry is the least of the cache. *)
Lemma oldest_entry_spec m :
  m ≠ ∅ → ∃ old d, oldest_entry m = Some old ∧ m !! old = Some d ∧
    ∀ k e, m !! k = Some e → entry_le (old, d) (k, e) = true.
Proof.
  intros Hm. unfold oldest_entry.
  assert (∀ l e, ∃ a, foldl (λ acc e, match acc with None => Some e
                      | Some a => Some (if entry_le a e then a else e) end) (Some e) l = Some a ∧
            a ∈ e :: l ∧ ∀ b, b ∈ e :: l → entry_le a b = true) as Hfold.
  { induction l as [|x l IH]; intros e; cbn [foldl].
    - exists e. split; [done|]. split; [set_solver|]. intros b [->|?]%elem_of_cons; [|set_solver].
      apply entry_le_iff. lia.
    - destruct (IH (if entry_le e x then e else x)) as (a & -> & Hin & Hle). exists a. split; [done|].
      destruct (entry_le e x) eqn:Hex.
      + split; [set_solver|]. intros b Hb. apply elem_of_cons in Hb as [->|[->|?]%elem_of_cons];
          [apply Hle; set_solver| |apply Hle; set_solver].
        specialize (Hle e ltac:(set_solver)). rewrite entry_le_iff in *. lia.
      + split; [set_solver|]. intros b Hb. apply elem_of_cons in Hb as [->|[->|?]%elem_of_cons];
          [|apply Hle; set_solver..].
        specialize (Hle x ltac:(set_solver)). apply not_true_iff_false in Hex.
        rewrite entry_le_iff in *. lia. }
  destruct (map_to_list m) as [|e l] eqn:Hl; [by apply map_to_list_empty_iff in Hl|].
  cbn [foldl]. destruct (Hfold l e) as ([old d] & Hf & Hin & Hle). rewrite Hf.
  exists old, d. split; [done|]. rewrite <-Hl in Hin. apply elem_of_map_to_list in Hin. split; [done|].
  intros k v Hkv. apply Hle. rewrite <-Hl. by apply elem_of_map_to_list.
Qed.

(** Remembering a fresh delivery. *)
Lemma remember_Ok id l now s :
  wf_redundant s → rs_state s = SessionActive → 1 ≤ id → too_old (rs_delivered s) id = false →
  ∃ s', remember id l now s = Ok s' ∧ wf_redundant s' ∧ rs_state s' = SessionActive ∧
    rs_receive_preview s' = rs_receive_preview s ∧ consumed (rs_delivered s') id ∧
    (∀ j, 1 ≤ j → consumed (rs_delivered s) j → consumed (rs_delivered s') j) ∧
    rs_dedup s' !! id = Some (mkDedup l (sat_add now DEDUP_LIFETIME_MS)).
Proof.
  intros Hw Hs Hid Hold. destruct (wr_window _ Hw) as [m Hm].
  destruct (insert_spec (E:=RedundantError.t) _ m id l Hm Hid Hold) as (w' & Hi & Hr & _).
  destruct (consumed_insert _ m id l w' Hm Hid Hold Hi) as [Hc1 Hc2].
  assert (∃ d, (if DEDUP_IDS <=? Z.of_nat (size (rs_dedup s))
       then old ← expect (E:=RedundantError.t) (oldest_entry (rs_dedup s)); Ok (delete old (rs_dedup s))
       else Ok (rs_dedup s)) = Ok d ∧ Z.of_nat (size d) < DEDUP_IDS) as (d & Hd & Hsz).
  { pose proof (wr_dedup _ Hw) as Hle. destruct (Z.leb_spec DEDUP_IDS (Z.of_nat (size (rs_dedup s)))) as [Hf|Hf];
      [|by eexists].
    destruct (oldest_entry_spec (rs_dedup s)) as (old & e & Ho & Hin & _).
    { intros Hn. rewrite Hn in Hf. by vm_compute in Hf. }
    rewrite Ho. cbn. eexists. split; [done|]. rewrite map_size_delete_Some by by eexists.
    unfold DEDUP_IDS in *. lia. }
  unfold remember. rewrite Hd. cbn [mbind outcome_bind]. rewrite Hi. cbn [mbind outcome_bind].
  eexists. split; [reflexivity|]. split; [|split_and!; try done; cbn; by rewrite lookup_insert_eq].
  destruct Hw as [? ? ? ? ? ? ? Hlv Hrl]. split; try done.
  - cbn. destruct (d !! id) eqn:Hdi.
    + rewrite map_size_insert_Some by by eexists. lia.
    + rewrite map_size_insert_None by done. lia.
  - by eexists.
  - intros _. by destruct (Hlv Hs).
  - cbn. congruence.
Qed.
End Receiving.
