(* ===== verification/RedundantRuns.v ===== *)
(** * Runs of a redundant session

    The calls of [RedundantSession] as a step relation, with the previews and
    mobility commits the caller still holds and the delivery identifiers that
    were accepted so far, and what holds along every run. *)

From stdpp Require Import gmap sets.
From S2P Require Import Prelude Wire Checksum Codec HeaderRules Crypto SessionMsg Replay SessionCrypto Directional Client Server ServerInv Control Mobility DeliveryWindow Redundant RedundantInv.
#[local] Open Scope Z_scope.

(** ** Quiet changes

    A change that delivers nothing: the pending preview is the same or gone, and while the session
    is active the delivered window is the same.  Leases are only ever added. *)
Definition quiet : RState → RState → Prop := λ '(s, w) '(s', w'),
  rw_next_lease w ≤ rw_next_lease w' ∧
  (rs_receive_preview s' = rs_receive_preview s ∧ rs_delivered s' = rs_delivered s ∨
   rs_receive_preview s' = None) ∧
  (rs_state s' = SessionActive → rs_state s = SessionActive ∧ rs_delivered s' = rs_delivered s).

Lemma quiet_refl σ : quiet σ σ.
Proof. destruct σ. split_and!; auto with lia. Qed.

Lemma quiet_trans σ1 σ2 σ3 : quiet σ1 σ2 → quiet σ2 σ3 → quiet σ1 σ3.
Proof.
  destruct σ1, σ2, σ3. intros (? & [[]|] & ?) (? & [[]|] & ?); split_and!; try lia; try naive_solver congruence.
  all: try (right; congruence). all: try (left; split; congruence).
  all: intros Hs; naive_solver congruence.
Qed.

#[global] Instance quiet_preorder : PreOrder quiet.
Proof. split; [exact quiet_refl|exact quiet_trans]. Qed.

Section Runs.
Context `{C : Crypto} `{DA : Build} {L : CryptoLaws C}.
Implicit Types s : RedundantSession.

(** Well formed after a quiet change. *)
Definition sound (σ σ' : RState) : Prop := wf_redundant σ.1 → wf_redundant σ'.1 ∧ quiet σ σ'.

Lemma sound_refl σ : sound σ σ.
Proof. intros H. split; [done|apply quiet_refl]. Qed.

Lemma sound_trans σ1 σ2 σ3 : sound σ1 σ2 → sound σ2 σ3 → sound σ1 σ3.
Proof. intros H1 H2 Hw. destruct (H1 Hw) as [Hw2 ?]. destruct (H2 Hw2). split; [done|]. by etrans. Qed.

Lemma close_lease s w : rw_next_lease (redundant_close (s, w)).2 = rw_next_lease w.
Proof.
  unfold redundant_close. case_bool_decide; [done|]. cbn [snd].
  assert (∀ ps w, rw_next_lease (foldl (λ w p, path_drop_session p w) w ps) = rw_next_lease w) as Hf.
  { induction ps as [|p ps IH]; intros v; [done|]. cbn [foldl]. rewrite IH. unfold path_drop_session.
    by destruct (pa_session p). }
  destruct (rs_receive_preview s), (rs_bootstrap s); cbn; by rewrite ?Hf.
Qed.

Lemma sound_close s w : sound (s, w) (redundant_close (s, w)).
Proof.
  intros Hw. split; [by apply wf_close|]. pose proof (close_state s w) as Hs.
  pose proof (close_preview s w Hw) as Hp.
  pose proof (close_lease s w) as Hn.
  destruct (redundant_close (s, w)) as [s' w']. cbn [fst snd] in *. split_and!; [lia|by right|].
  rewrite Hs. done.
Qed.

Lemma sound_event e s w : sound (s, w) (event e s, w).
Proof. intros Hw. split; [by apply wf_event|]. split_and!; auto with lia. Qed.

Lemma sound_reap s w : sound (s, w) (reap_preview w s, w).
Proof.
  intros Hw. split; [by apply wf_reap|]. unfold reap_preview.
  destruct (rs_receive_preview s) as [l|] eqn:Hp; [|apply quiet_refl].
  destruct (lease_active w l); [apply quiet_refl|]. split_and!; cbn; auto with lia.
Qed.

Lemma sound_expire now s w : sound (s, w) (expire now s, w).
Proof. intros Hw. split; [by apply wf_expire|]. split_and!; cbn; auto with lia. Qed.

(** A change of the world that does not take back lease names. *)
Lemma sound_world s w w' : rw_next_lease w ≤ rw_next_lease w' → sound (s, w) (s, w').
Proof. intros Hl Hw. split; [done|]. split_and!; auto with lia. Qed.

Lemma sound_outbound pt s w : wf_bytes pt → sound (s, w) (outbound pt (s, w)).2.
Proof.
  intros Hpt Hw. pose proof (outbound_cases s w pt Hw Hpt) as H.
  destruct (outbound pt (s, w)) as [r [s' w']]. destruct H as [Hr Hw']. split; [done|].
  destruct r as [[d os|]|e|]; [| | |done].
  - destruct Hr as (_ & _ & Hw'' & _ & s1 & (_ & Heq & _) & Hs'). cbn [fst snd] in *. subst s' w'.
    rewrite Heq. split_and!; cbn; auto with lia.
  - injection Hr as -> ->. by apply sound_event.
  - destruct e; first [injection Hr as -> ->; apply quiet_refl
                      |cbn [snd]; rewrite Hr; by apply sound_close].
Qed.

Lemma sound_confirm slot packet s w s' r :
  confirm_sent slot packet s = (r, s') → sound (s, w) (s', w) ∧ (wf_redundant s → safe r).
Proof.
  intros H. unfold confirm_sent in H.
  destruct (get_path s slot) as [p| |] eqn:Hp; [|injection H as <- <-; split; [apply sound_refl|done]|].
  2:{ unfold get_path in Hp. by destruct (rs_paths s !! Z.to_nat slot). }
  apply get_path_Ok in Hp. destruct (pa_queue p) as [|o q] eqn:Hq;
    [injection H as <- <-; split; [apply sound_refl|done]|].
  destruct (negb _); [injection H as <- <-; split; [apply sound_refl|done]|].
  assert (wf_redundant s → rs_state s = SessionActive ∧ is_active p = true ∧
    checked_sub (pa_queued_bytes p) (len (op_packet o)) = Some (queue_bytes q) ∧
    wf_rpath (set_path_queue q (queue_bytes q) p)) as Hkey.
  { intros Hw. pose proof (wf_get_path _ _ _ Hw Hp) as [Hb Hcnt Hby Hcap Ha Hi].
    assert (is_active p = true) as Hact.
    { destruct (is_active p); [done|]. destruct (Hi eq_refl) as (_ & Hno & _). congruence. }
    assert (0 ≤ queue_bytes q) as Hq0.
    { clear. induction q as [|a q IH]; unfold queue_bytes in *; cbn [foldr]; [lia|].
      pose proof (len_nonneg (op_packet a)). lia. }
    rewrite Hq in *. unfold queue_bytes in Hby. cbn [foldr] in Hby. fold (queue_bytes q) in Hby.
    pose proof (len_nonneg (op_packet o)).
    split_and!; try done.
    - destruct (rs_state s) eqn:Hs; [done|]. pose proof (cl_paths _ (wr_released _ Hw Hs)) as Hall.
      eapply Forall_lookup_1 in Hall; [|done]. cbn in Hall. unfold is_active in Hact.
      rewrite Hall in Hact. done.
    - unfold checked_sub. rewrite (proj2 (Z.leb_le _ _)) by lia. f_equal. lia.
    - split; cbn [set_path_queue pa_budget pa_queue pa_queued_bytes]; try done; try lia.
      + unfold len in *. cbn [length] in Hcnt. lia.
      + change (is_active (set_path_queue _ _ p)) with (is_active p). congruence. }
  destruct (checked_sub _ _) as [n|] eqn:Hsub.
  - injection H as <- <-. split; [|done]. intros Hw. destruct (Hkey Hw) as (Hs & Ha & [= ->] & Hwp).
    split; [|split_and!; cbn; auto with lia].
    by apply (wf_update_path _ _ _ p).
  - split; [|intros Hw; by destruct (Hkey Hw) as (_ & _ & ? & _)].
    intros Hw. by destruct (Hkey Hw) as (_ & _ & ? & _).
Qed.

Lemma sound_issue policy s w : sound (s, w) (issue_profile3_admission_owner policy (s, w)).2.
Proof.
  unfold issue_profile3_admission_owner. destruct (is_ok (live s)) eqn:Hl; [|apply sound_refl].
  apply live_Ok in Hl. cbn [negb].
  assert (sound (s, w) (set_issuer None s, w)) as H0.
  { intros Hw. split; [by apply wf_set_issuer|]. split_and!; cbn; auto with lia. }
  destruct (get_path s 1) as [p1| |]; [|apply sound_refl..].
  destruct (_ || _); [apply sound_refl|].
  cbn [rs_bootstrap set_issuer]. destruct (rs_bootstrap s) as [b|]; [|apply H0].
  change (get_path (set_issuer None s) 0) with (get_path s 0).
  destruct (get_path s 0) as [p0| |]; [|apply H0..].
  destruct (pa_session p0) as [x|]; [|apply H0].
  destruct (owner_issue _ _ _ _) as [r caps].
  destruct r as [[owner issuer]| |]; cbn [snd]; intros Hw.
  all: split; [repeat apply wf_set_issuer; done|split_and!; cbn; auto with lia].
Qed.

Lemma sound_update_path slot f s w p :
  rs_state s = SessionActive → rs_paths s !! Z.to_nat slot = Some p →
  (wf_redundant s → wf_rpath (f p)) → (is_active p = true → is_active (f p) = true) →
  sound (s, w) (update_path slot f s, w).
Proof.
  intros Hs Hp Hf Ha Hw. split; [apply (wf_update_path _ _ _ p); auto|]. split_and!; cbn; auto with lia.
Qed.

Lemma sound_remove_path slot s w : sound (s, w) (remove_path slot (s, w)).2.
Proof.
  unfold remove_path. destruct (is_ok (live s)) eqn:Hl; [|apply sound_refl].
  apply live_Ok in Hl. cbn [negb].
  set (s1 := set_receive_preview None (reap_preview w s)).
  set (w1 := match rs_receive_preview (reap_preview w s) with Some l => lease_release l w | None => w end).
  assert (rw_next_lease w1 = rw_next_lease w) as Hw1.
  { unfold w1. by destruct (rs_receive_preview _). }
  assert (rs_state s1 = SessionActive) as Hs1.
  { unfold s1, reap_preview. destruct (rs_receive_preview s) as [l|]; [|done].
    by destruct (lease_active w l). }
  assert (sound (s, w) (s1, w1)) as H1.
  { eapply sound_trans; [apply sound_reap|]. intros Hw. split; [apply wf_set_preview; auto|].
    split_and!; cbn; auto with lia. }
  destruct (checked_add _ _) as [g|] eqn:Hg; [|exact H1]. apply checked_add_inv in Hg as [-> Hg].
  destruct (get_path s1 slot) as [p| |] eqn:Hp; [|exact H1..].
  apply get_path_Ok in Hp. destruct (_ || _); [exact H1|].
  destruct (is_active p) eqn:Ha; [|exact H1]. cbn [negb].
  set (s2 := event _ _). set (w2 := path_drop_session p w1).
  assert (rw_next_lease w2 = rw_next_lease w1) as Hw2 by (unfold w2, path_drop_session; by destruct (pa_session p)).
  intros Hw. destruct (H1 Hw) as [Hwf1 Hq1]. cbn [fst] in Hwf1.
  assert (is_u64 (rs_receive_generation s1 + 1)) as Hgen'.
  { pose proof (wr_generation _ Hwf1) as Hg1. cbn [fst] in Hg1. unfold is_u64 in *. lia. }
  assert (Forall wf_rpath (rs_paths s2)) as Hps2.
  { apply Forall_alter; [apply Hwf1|]. intros q Hq Hwq. destruct Hwq. by split. }
  assert (existsb is_active (rs_paths s2) = true → wf_redundant s2) as Hwf2.
  { intros He. apply wf_event. destruct Hwf1 as [Htwo Hps ? ? ? Hgen ? Hlv Hrl]. split; cbn; try done.
    - by rewrite length_alter.
    - intros _. destruct (Hlv Hs1). by split.
    - intros Hrs. change (rs_state s1 = SessionReleased) in Hrs. congruence. }
  assert (quiet (s1, w1) (s2, w2)) as Hq2.
  { split_and!; cbn; auto with lia. }
  destruct (existsb is_active (rs_paths s2)) eqn:He.
  - split; [by apply Hwf2|]. by etrans.
  - assert (wf_redundant (redundant_close (s2, w2)).1) as Hc.
    { destruct Hwf1. apply wf_close_active; try done; [cbn; by rewrite length_alter|by apply event_bounded]. }
    cbn [snd]. split; [done|]. etrans; [exact Hq1|]. etrans; [exact Hq2|].
    pose proof (close_state s2 w2) as Hcs.
    assert (rs_receive_preview (redundant_close (s2, w2)).1 = None) as Hcp.
    { by destruct (wr_released _ Hc Hcs). }
    assert (rw_next_lease (redundant_close (s2, w2)).2 = rw_next_lease w2) as Hn by apply close_lease.
    destruct (redundant_close (s2, w2)) as [s' w']. cbn [fst snd] in *.
    split_and!; [lia|by right|]. by rewrite Hcs.
Qed.

Lemma sound_tick now s w : sound (s, w) (tick now (s, w)).2.
Proof.
  unfold tick. destruct (negb _); [apply sound_refl|]. cbn [snd].
  eapply sound_trans; [apply sound_reap|apply sound_expire].
Qed.

(** ** Activation *)

Lemma take_slot1_wf b sw r b' sw' :
  wf_bootstrap b → take_slot1_after_admission (b, sw) = (r, (b', sw')) →
  wf_bootstrap b' ∧ pb_scid b' = pb_scid b ∧ ∀ x, r = Ok x → wf_directional x.
Proof.
  intros Hb H. unfold take_slot1_after_admission in H.
  destruct (pb_schedule b) as [k|] eqn:Hk; [|by injection H as <- <- <-].
  pose proof (wb_schedule _ Hb _ Hk) as Hkw. pose proof (wb_roles _ Hb) as (Hr1 & Hr2 & Hne).
  destruct (derive_key_Ok k (pb_transcript_hash b) 3 (pb_local_role b) (pb_peer_role b) 1)
    as (k1 & Hk1 & Hwk1); try done; [apply Hb|].
  destruct (derive_key_Ok k (pb_transcript_hash b) 3 (pb_peer_role b) (pb_local_role b) 1)
    as (k2 & Hk2 & Hwk2); try done; [apply Hb|].
  rewrite Hk1, Hk2 in H. cbn [mbind outcome_bind] in H.
  destruct (session_new _ _ _ _ _) as [r1 sw1] eqn:Hnew. injection H as <- <- <-.
  split; [|split; [done|]].
  - destruct Hb. by split.
  - intros x ->. apply session_new_inv in Hnew as [-> _]. split; [exists ∅; apply repr_new|].
    split; [|done]. cbn. unfold_widths. lia.
Qed.

Lemma admit_slot1_sound a s w r s' w' :
  rs_state s = SessionActive → admit_slot1_session a (s, w) = (r, (s', w')) →
  sound (s, w) (s', w') ∧ (wf_redundant s → ∀ x, r = Ok x → wf_directional x) ∧
  rs_state s' = SessionActive ∧ rs_paths s' = rs_paths s ∧
  rs_receive_generation s' = rs_receive_generation s.
Proof.
  intros Hs H. unfold admit_slot1_session in H.
  destruct (rs_bootstrap s) as [b|] eqn:Hb; [|injection H as <- <- <-; split; [apply sound_refl|done]].
  destruct (_ ≫= pa_session) as [x0|]; [|injection H as <- <- <-; split; [apply sound_refl|done]].
  destruct (_ || _); [injection H as <- <- <-; split; [apply sound_refl|done]|].
  destruct (take_slot1_after_admission _) as [r1 [b' sw']] eqn:Ht.
  assert (wf_redundant s → wf_bootstrap b) as Hwb.
  { intros Hw. destruct (wr_live _ Hw Hs) as [(b0 & Hb0 & Hw0) _]. congruence. }
  assert (∀ v, sound (s, w) (set_bootstrap (Some b') s, set_sessions v w)) as Hsound.
  { intros v Hw. pose proof (take_slot1_wf b _ _ _ _ (Hwb Hw) Ht) as (? & _).
    split; [by apply wf_set_bootstrap|]. split_and!; cbn; auto with lia. }
  destruct r1 as [x| |]; [|injection H as <- <- <-; by split_and!..].
  destruct (negb _).
  - injection H as <- <- <-. by split_and!.
  - injection H as <- <- <-. split; [apply Hsound|]. split_and!; try done.
    intros Hw y [= <-]. by eapply (take_slot1_wf b _ _ _ _ (Hwb Hw) Ht).
Qed.

Lemma sound_intro (σ σ' : RState) : (wf_redundant σ.1 → sound σ σ') → sound σ σ'.
Proof. intros H Hw. by apply H. Qed.

(** Marking a path that is not active. *)
Lemma sound_idle_path st s q w :
  rs_state s = SessionActive → rs_paths s !! 1%nat = Some q → is_active q = false → st ≠ PathActive →
  sound (s, w) (update_path 1 (set_path_state st) s, w).
Proof.
  intros Hs Hq Hina Hne. apply (sound_update_path _ _ _ _ q); try done; [|congruence].
  intros Hw. destruct (wf_get_path _ 1 _ Hw Hq) as [? ? ? ? ? Hid]. specialize (Hid Hina).
  assert (is_active (set_path_state st q) = false) as Hi by (by apply bool_decide_eq_false).
  split; try done. congruence.
Qed.

Lemma sound_activate a budget s w :
  wf_array 16 (ad_local_loc a) → wf_array 16 (ad_peer_loc a) →
  sound (s, w) (activate a budget (s, w)).2.
Proof.
  intros Hll Hpl. unfold activate.
  assert (∀ (x : outcome RedundantError.t unit * RState), sound (s, w) x.2 → sound (s, w)
    (let '(r, (s, w)) := x in (r, (s, set_caps (owner_drop (ad_owner a) (rw_caps w)) w))).2) as Hfin.
  { intros [r [s' w']] Hx. eapply sound_trans; [exact Hx|]. apply sound_world. cbn. lia. }
  apply Hfin. clear Hfin.
  destruct (binding_validate (ad_binding a)) as [[]| |] eqn:Hbv; cbn [map_err]; [|apply sound_refl..].
  destruct (is_ok (live s)) eqn:Hl; [|apply sound_refl]. apply live_Ok in Hl. cbn [negb].
  pose proof (sound_reap s w) as Hreap. set (s1 := reap_preview w s) in *.
  assert (rs_state s1 = SessionActive) as Hs1.
  { unfold s1, reap_preview. destruct (rs_receive_preview s); [|done]. by destruct (lease_active w _). }
  destruct (rs_paths s1 !! 1%nat) as [p1|] eqn:Hp1; [|exact Hreap].
  destruct (_ || _) eqn:Hc; [exact Hreap|].
  apply orb_false_iff in Hc as [[Habs%negb_false_iff%bool_decide_eq_true Hbud%negb_false_iff]%orb_false_iff Hnp].
  destruct (checked_add _ _) as [g|] eqn:Hg; [|exact Hreap]. apply checked_add_inv in Hg as [-> Hg].
  assert (is_active p1 = false) as Hina by (unfold is_active; by rewrite Habs).
  set (s2 := update_path 1 (set_path_state PathCandidate) s1).
  assert (sound (s, w) (s2, w)) as H2 by (eapply sound_trans; [exact Hreap|by apply (sound_idle_path _ _ p1)]).
  destruct (admit_slot1_session a (s2, w)) as [r [s3 w3]] eqn:Hadm.
  apply admit_slot1_sound in Hadm as (H3 & Hx & Hs3 & Hp3 & Hg3); [|done].
  assert (sound (s, w) (s3, w3)) as Hs13 by by eapply sound_trans.
  assert (rs_paths s3 !! 1%nat = Some (set_path_state PathCandidate p1)) as Hp31.
  { rewrite Hp3. unfold s2. cbn [rs_paths update_path set_paths]. change (Z.to_nat 1) with 1%nat.
    by rewrite list_lookup_alter_eq, Hp1. }
  destruct r as [x|e|]; [| |exact Hs13]; cbn [snd].
  - apply sound_intro. intros Hw0. pose proof (proj1 (H2 Hw0)) as Hws2.
    eapply sound_trans; [exact Hs13|].
    set (s4 := update_path 1 _ _).
    assert (sound (s3, w3) (s4, w3)) as H4.
    { intros Hw3.
      assert (sound (s3, w3) (set_issuer None s3, w3)) as Hiss.
      { intros _. split; [by apply wf_set_issuer|]. split_and!; cbn; auto with lia. }
      destruct (Hiss Hw3) as [Hw3' Hq3]. pose proof (wf_get_path _ 1 _ Hw3 Hp31) as [? ? ? ? _ _].
      split; [|].
      { apply (wf_update_path _ _ _ (set_path_state PathCandidate p1)); try done.
        split; cbn; try done.
        - unfold budget_ok in Hbud. unfold OVERHEAD in *. lia.
        - intros _. split; [by eexists|]. split; [by eexists|]. split; [by eexists|].
          exists x. split; [done|]. by apply Hx. }
      split_and!; cbn; auto with lia. }
    eapply sound_trans; [exact H4|]. eapply sound_trans; [apply (sound_event Recovered)|].
    intros Hw. split; [apply wf_set_generation'; try done|split_and!; cbn; auto with lia].
    pose proof (wr_generation _ (proj1 (Hreap Hw0))) as Hg0. cbn [fst] in Hg0. unfold is_u64 in *. lia.
  - eapply sound_trans; [exact Hs13|]. by apply (sound_idle_path _ _ (set_path_state PathCandidate p1)).
Qed.

(** ** Previews *)

(** A preview the caller holds: its lease is old, its contents were authenticated, and as long as
    it is the pending one a new identifier stays new. *)
Definition wf_lease s w (l id : Z) (d : ReceiveDecision) : Prop :=
  l < rw_next_lease w ∧ 1 ≤ id ∧
  (rs_receive_preview s = Some l → d = New → ¬ consumed (rs_delivered s) id).

Definition wf_preview s w (p : InboundPreview) : Prop := ∃ pv l,
  ip_session_preview p = Some pv ∧ ip_lease p = Some l ∧ wf_token (p3_commit pv) ∧
  wf_lease s w l (p3_delivery_id pv) (ip_decision p).

Definition wf_held_commit s w (c : MobilityInboundCommit) : Prop :=
  (∀ proof pv, tr_profile3_proof (mic_transition c) = Some proof → p3p_preview proof = Some pv →
     wf_token (p3_commit pv)) ∧
  wf_lease s w (rl_lease (mic_lease c)) (mic_delivery_id c) (mic_decision c).

Lemma wf_lease_quiet s w s' w' l id d :
  quiet (s, w) (s', w') → wf_lease s w l id d → wf_lease s' w' l id d.
Proof.
  intros (? & Hp & _) (? & ? & Hf). split_and!; [lia|done|].
  destruct Hp as [[-> ->]| ->]; [done|done].
Qed.

Lemma wf_preview_quiet s w s' w' p : quiet (s, w) (s', w') → wf_preview s w p → wf_preview s' w' p.
Proof. intros Hq (pv & l & ? & ? & ? & ?). exists pv, l. split_and!; [done..|]. by eapply wf_lease_quiet. Qed.

Lemma wf_held_quiet s w s' w' c : quiet (s, w) (s', w') → wf_held_commit s w c → wf_held_commit s' w' c.
Proof. intros Hq [? ?]. split; [done|]. by eapply wf_lease_quiet. Qed.

Lemma safe_binding_validate b : safe (binding_validate b).
Proof.
  destruct b as [u|i hop]; unfold binding_validate; [|by case_match].
  apply safe_bind; [|done]. unfold udp_parse. apply safe_bind; [|intros v _; by destruct v].
  unfold udp_valid. repeat case_match; try done.
  match goal with |- context [len ?l =? 37] => destruct (Z.eqb_spec (len l) 37) as [Hl|]; [|done] end.
  unfold len in Hl. unfold andM. solve_safe; cbn [length] in *; lia.
Qed.

Lemma safe_authenticate s slot b packet req :
  wf_redundant s → wf_bytes packet → safe (authenticate s slot b packet req).
Proof.
  intros Hw Hpk. unfold authenticate. apply safe_bind; [apply safe_ok_or|]. intros p Hp.
  apply get_path_Ok in Hp. case_match; [done|].
  apply safe_bind; [apply safe_map_err, safe_unpack|]. intros [h pl] _.
  apply safe_bind; [apply safe_ok_or|]. intros bs _. case_match; [done|].
  apply safe_bind; [apply safe_ok_or|]. intros x Hx%ok_or_Ok. apply safe_map_err.
  destruct (session_active _ _ (wf_get_path _ _ _ Hw Hp) Hx) as [_ [[acc Hr] _]].
  by eapply safe_preview_profile3.
Qed.

(** What a call that previews a packet returns and leaves behind. *)
Definition preview_result s w (r : outcome RedundantError.t InboundPreview) (σ : RState) : Prop :=
  match r with
  | Ok p =>
      wf_redundant σ.1 ∧ rw_next_lease w < rw_next_lease σ.2 ∧
      rs_receive_preview σ.1 = Some (rw_next_lease w) ∧ ip_lease p = Some (rw_next_lease w) ∧
      rs_delivered σ.1 = rs_delivered s ∧ rs_state s = SessionActive ∧ wf_preview σ.1 σ.2 p
  | Err _ => wf_redundant σ.1 ∧ quiet (s, w) σ
  | Panic => False
  end.

Lemma preview_inner_result slot b packet now req s w r σ :
  wf_redundant s → wf_bytes packet →
  preview_inbound_inner slot b packet now req (s, w) = (r, σ) → preview_result s w r σ.
Proof.
  intros Hw Hpk H. unfold preview_inbound_inner in H.
  pose proof (sound_refl (s, w) Hw) as Hrefl.
  pose proof (safe_binding_validate b) as Hsb.
  destruct (binding_validate b) as [[]|e|]; cbn [map_err] in H; [|by injection H as <- <-|done].
  destruct (is_ok (live s)) eqn:Hl; [|by injection H as <- <-]. apply live_Ok in Hl. cbn [negb] in H.
  destruct (sound_reap s w Hw) as [Hw1 Hq1]. cbn [fst] in Hw1.
  assert (rs_state (reap_preview w s) = SessionActive ∧ rs_delivered (reap_preview w s) = rs_delivered s)
    as [Hs1 Hd1].
  { unfold reap_preview. destruct (rs_receive_preview s); [|done]. by destruct (lease_active w _). }
  set (s1 := reap_preview w s) in *.
  destruct (bool_decide _) eqn:Hnp in H; [by injection H as <- <-|].
  pose proof (safe_authenticate s1 slot b packet req Hw1 Hpk) as Hsa.
  destruct (authenticate s1 slot b packet req) as [pv|e|] eqn:Ha; [|by injection H as <- <-|done].
  apply authenticate_Ok in Ha as (Htok & Hid & _); [|done..].
  destruct (too_old _ _) eqn:Hold; [by injection H as <- <-|].
  destruct (wr_window _ Hw1) as [m Hm].
  assert (∀ d, (d = New → ¬ consumed (rs_delivered s1) (p3_delivery_id pv)) →
    preview_result s w (lease_preview slot now pv d (s1, w)).1 (lease_preview slot now pv d (s1, w)).2) as Hlease.
  { intros d Hnew. unfold lease_preview, lease_new. cbn. split_and!; try done; try lia.
    - by apply wf_set_preview; [|left].
    - exists pv, (rw_next_lease w). split_and!; try done. split_and!; cbn; try lia. intros _. done. }
  rewrite (delivered_seen_spec _ m) in H by (done || lia). case_bool_decide as Hseen.
  - destruct Hseen as [f Hf]. rewrite (matches_spec _ m _ _ f) in H by (done || lia).
    case_bool_decide as Hmatch.
    + specialize (Hlease Equal). rewrite H in Hlease. apply Hlease. done.
    + injection H as <- <-. cbn [preview_result].
      destruct (sound_event Divergence s1 w Hw1) as [Hwe Hqe].
      destruct (sound_close (event Divergence s1) w Hwe) as [Hwc Hqc]. split; [done|].
      etrans; [exact Hq1|]. etrans; [exact Hqe|exact Hqc].
  - destruct (beyond_gap _ _); [by injection H as <- <-|].
    specialize (Hlease New). rewrite H in Hlease. apply Hlease. intros _ Hcons.
    destruct Hcons as [Hcs|Hcs]; [|congruence]. rewrite (delivered_seen_spec _ m) in Hcs by (done || lia).
    apply Ok_inj, bool_decide_eq_true in Hcs. done.
Qed.

(** ** Commits *)

(** The call accepted a new identifier: it was not consumed, it is now, and no preview is pending. *)
Definition accepted s w (id : Z) (σ : RState) : Prop :=
  wf_redundant σ.1 ∧ rw_next_lease w ≤ rw_next_lease σ.2 ∧ rs_state s = SessionActive ∧
  rs_receive_preview σ.1 = None ∧ 1 ≤ id ∧ ¬ consumed (rs_delivered s) id ∧
  consumed (rs_delivered σ.1) id ∧
  ∀ j, 1 ≤ j → consumed (rs_delivered s) j → consumed (rs_delivered σ.1) j.

(** The end of both commits: the generation moves on, the cache expires, a new identifier is
    remembered. *)
Lemma finish_commit s s1 w id pt now g d :
  wf_redundant s1 → rs_state s1 = SessionActive → rs_state s = SessionActive → is_u64 g →
  rs_delivered s1 = rs_delivered s → rs_receive_preview s1 = None → 1 ≤ id →
  (d = New → ¬ consumed (rs_delivered s) id) →
  let s2 := expire now (set_receive_generation g s1) in
  (d = Equal → wf_redundant s2 ∧ quiet (s, w) (s2, w)) ∧
  (d = New → ∃ s3, remember id pt now s2 = Ok s3 ∧ accepted s w id (s3, w)).
Proof.
  intros Hw Hs1 Hs Hg Hd Hp Hid Hnew s2.
  assert (wf_redundant s2) as Hw2 by by apply wf_expire, wf_set_generation'.
  split.
  - intros _. split; [done|]. split_and!; cbn; auto with lia.
  - intros Hn. specialize (Hnew Hn).
    destruct (remember_Ok id pt now s2) as (s3 & Hr & Hw3 & _ & Hp3 & Hc & Hmono & _); try done.
    { cbn. rewrite Hd. destruct (too_old _ _) eqn:Ho; [|done]. exfalso. apply Hnew. by right. }
    exists s3. split; [done|]. change (rs_delivered s2) with (rs_delivered s1) in Hmono. rewrite Hd in Hmono.
    split_and!; try done; cbn; try lia. by rewrite Hp3.
Qed.

Lemma preview_drop_lease p w : rw_next_lease (preview_drop p w) = rw_next_lease w.
Proof. unfold preview_drop. by destruct (ip_lease p). Qed.

Lemma accepts_preview_inv w s p :
  accepts_preview w s p = true → ip_generation p = rs_receive_generation s ∧
  ∃ l, ip_lease p = Some l ∧ rs_receive_preview s = Some l.
Proof.
  unfold accepts_preview. rewrite !andb_true_iff. intros [[_ Hg%Z.eqb_eq] H].
  destruct (ip_lease p) as [l|]; [|done]. apply andb_true_iff in H as [_ H%bool_decide_eq_true].
  split; [done|]. by exists l.
Qed.

(** A quiet outcome of a call that ends a lease. *)
Lemma quiet_end s s' w w' :
  rw_next_lease w' = rw_next_lease w → wf_redundant s' → quiet (s, w) (s', w) →
  wf_redundant s' ∧ quiet (s, w) (s', w').
Proof. intros Hn Hw Hq. split; [done|]. etrans; [exact Hq|]. split_and!; auto with lia. Qed.

Definition commit_result s w (id : Z) (r : outcome RedundantError.t ReceiveOutcome) (σ : RState) : Prop :=
  match r with
  | Ok (Delivered _) => accepted s w id σ
  | Ok Suppressed | Err _ => wf_redundant σ.1 ∧ quiet (s, w) σ
  | Panic => False
  end.

Lemma commit_inbound_result p s w r σ pv :
  wf_redundant s → wf_preview s w p → ip_session_preview p = Some pv →
  commit_inbound p (s, w) = (r, σ) → commit_result s w (p3_delivery_id pv) r σ.
Proof.
  intros Hw (pv' & l & Hpv' & Hl & Htok & _ & Hid & Hnew) Hpv H. assert (pv' = pv) as -> by congruence.
  unfold commit_inbound in H. cbv zeta in H.
  assert (∀ r0 s0, (let '(r, s) := (r0, s0) in (r, (s, preview_drop p w))) = (r, σ) →
    commit_result s w (p3_delivery_id pv) r0 (s0, w) → commit_result s w (p3_delivery_id pv) r σ) as Hfin.
  { intros r0 s0 [= -> <-]. destruct r as [[]| |]; cbn [commit_result].
    - intros (? & ? & ? & ?). split; [done|]. cbn [snd]. by rewrite preview_drop_lease.
    - intros [? ?]. apply quiet_end; [apply preview_drop_lease|done..].
    - intros [? ?]. apply quiet_end; [apply preview_drop_lease|done..].
    - done. }
  pose proof (sound_refl (s, w) Hw) as Hrefl.
  destruct (is_ok (live s)) eqn:Hlive; [|by apply (Hfin _ _ H)]. apply live_Ok in Hlive. cbn [negb] in H.
  destruct (accepts_preview w s p) eqn:Hacc; [|by apply (Hfin _ _ H)].
  apply accepts_preview_inv in Hacc as (_ & l' & Hl' & Hpend). assert (l' = l) as -> by congruence.
  cbn [negb] in H.
  destruct (checked_add _ _) as [g|] eqn:Hg; [|by apply (Hfin _ _ H)]. apply checked_add_inv in Hg as [-> Hg].
  rewrite Hpv in H. set (s0 := set_receive_preview None s) in H.
  assert (wf_redundant s0) as Hw0 by (apply wf_set_preview; auto).
  assert (quiet (s, w) (s0, w)) as Hq0 by (split_and!; cbn; auto with lia).
  destruct (wf_commit (ip_slot p) pv s0 Hw0 Htok Hlive) as (Hwc & Hst & Hdl & Hpr & Hgn & _ & Hsafe & Hval).
  destruct (commit (ip_slot p) pv s0) as [rc s1]. cbn [fst snd] in *.
  assert (quiet (s, w) (s1, w)) as Hq1.
  { split_and!; cbn; [lia|right; by rewrite Hpr|]. intros _. by rewrite Hdl. }
  destruct rc as [[id pt]|e|]; [|by apply (Hfin _ _ H)|done].
  { specialize (Hval _ eq_refl). injection Hval as -> ->.
    pose proof (wr_generation _ Hw) as Hgw.
    destruct (finish_commit s s1 w (p3_delivery_id pv) (p3_plaintext pv) (ip_now_ms p)
      (rs_receive_generation s + 1) (ip_decision p)) as [Heq Hne]; try done.
    { by rewrite Hst. } { unfold is_u64 in *. lia. } { by apply Hnew. }
    destruct (ip_decision p).
    + destruct (Hne eq_refl) as (s3 & Hr & Hac). rewrite Hr in H. by apply (Hfin _ _ H).
    + apply (Hfin _ _ H). by apply Heq. }
Qed.

#[export] Instance ReceiveDecision_eq_dec : EqDecision ReceiveDecision.
Proof. solve_decision. Defined.

Definition mobility_result s w (c : MobilityInboundCommit) (r : outcome RedundantError.t unit) (σ : RState) : Prop :=
  match r with
  | Ok _ => if decide (mic_decision c = New) then accepted s w (mic_delivery_id c) σ
            else wf_redundant σ.1 ∧ quiet (s, w) σ
  | Err _ | Panic => wf_redundant σ.1 ∧ quiet (s, w) σ
  end.

Lemma commit_mobility_result m c s w ms r σ ms' :
  wf_redundant s → wf_held_commit s w c →
  commit_mobility m c ((s, w), ms) = (r, (σ, ms')) → mobility_result s w c r σ.
Proof.
  intros Hw [Htok (_ & Hid & Hnew)] H. unfold commit_mobility in H. cbv zeta in H.
  assert (∀ r0 s0 m0, (let '(r, (s, ms)) := (r0, (s0, m0)) in
      (r, ((s, replay_lease_drop (mic_lease c) w), ms))) = (r, (σ, ms')) →
    mobility_result s w c r0 (s0, w) → mobility_result s w c r σ) as Hfin.
  { intros r0 s0 m0 [= -> <- _]. destruct r as [[]| |]; cbn [mobility_result].
    - destruct (decide _); [done|]. intros [? ?]. by apply quiet_end.
    - intros [? ?]. by apply quiet_end.
    - intros [? ?]. by apply quiet_end. }
  pose proof (sound_refl (s, w) Hw) as Hrefl.
  destruct (is_ok (live s)) eqn:Hlive; [|by apply (Hfin _ _ _ H)]. apply live_Ok in Hlive. cbn [negb] in H.
  destruct (accepts_replay_lease w s (mic_lease c)) eqn:Hacc; [|by apply (Hfin _ _ _ H)].
  unfold accepts_replay_lease in Hacc. apply andb_true_iff in Hacc as [_ Hpend%bool_decide_eq_true].
  cbn [negb] in H.
  destruct (checked_add _ _) as [g|] eqn:Hg; [|by apply (Hfin _ _ _ H)]. apply checked_add_inv in Hg as [-> Hg].
  destruct (get_path s _) as [p| |] eqn:Hp; [|by apply (Hfin _ _ _ H)..]. apply get_path_Ok in Hp.
  destruct (pa_session p) as [x|] eqn:Hx; [|by apply (Hfin _ _ _ H)].
  pose proof (wf_get_path _ _ _ Hw Hp) as Hwp. destruct (session_active _ _ Hwp Hx) as [Hact Hwx].
  pose proof (wf_commit_manager m (mic_transition c) ms x Htok Hwx) as Hwx'.
  destruct (commit_profile3 m (mic_transition c) (ms, x)) as [rc [ms1 x1]]. cbn [snd] in Hwx'.
  set (s1 := update_path _ _ s) in H.
  assert (sound (s, w) (s1, w)) as Hs1.
  { apply (sound_update_path _ _ _ _ p); [done|done|intros _; by apply wf_with_session|done]. }
  destruct (Hs1 Hw) as [Hw1 Hq1]. cbn [fst] in Hw1.
  destruct rc as [[]|e|]; [|by apply (Hfin _ _ _ H)..].
  pose proof (wr_generation _ Hw) as Hgw.
  destruct (finish_commit s (set_receive_preview None s1) w (mic_delivery_id c) (mic_plaintext c)
    (mic_now_ms c) (rs_receive_generation s + 1) (mic_decision c)) as [Heq Hne]; try done.
  { apply wf_set_preview; auto. } { unfold is_u64 in *. lia. } { by apply Hnew. }
  destruct (mic_decision c) eqn:Hdec.
  - destruct (Hne eq_refl) as (s3 & Hr & Hac). rewrite Hr in H. apply (Hfin _ _ _ H).
    cbn [mobility_result]. by rewrite decide_True.
  - apply (Hfin _ _ _ H). cbn [mobility_result]. rewrite decide_False by congruence. by apply Heq.
Qed.

Lemma abort_sound p s w : sound (s, w) (abort_inbound p (s, w)).2.
Proof.
  intros Hw. unfold abort_inbound. cbv zeta.
  assert (∀ r0 s0, wf_redundant s0 → quiet (s, w) (s0, w) →
    wf_redundant (let '(r, s) := (r0 : outcome RedundantError.t unit, s0) in (r, (s, preview_drop p w))).2.1 ∧
    quiet (s, w) (let '(r, s) := (r0, s0) in (r, (s, preview_drop p w))).2) as Hfin.
  { intros r0 s0 Hw0 Hq0. apply quiet_end; [apply preview_drop_lease|done..]. }
  destruct (negb _); [by apply Hfin|]. destruct (negb _); [by apply Hfin|].
  apply Hfin; [apply wf_set_preview; auto|]. split_and!; cbn; auto with lia.
Qed.

(** Handing a preview to the manager: the session is unchanged, and the commit carries the
    preview's lease, identifier, decision and proof. *)
Lemma prepare_result m ms b p now s w r σ :
  wf_redundant s → wf_preview s w p →
  prepare_mobility_commit m ms b p now (s, w) = (r, σ) →
  wf_redundant σ.1 ∧ quiet (s, w) σ ∧ ∀ c, r = Ok c → wf_held_commit σ.1 σ.2 c.
Proof.
  intros Hw Hwp H. unfold prepare_mobility_commit in H. cbv zeta in H.
  match type of H with match ?o with _ => _ end = _ => destruct o as [c|e|] eqn:Hr end; injection H as <- <-.
  2,3: destruct (quiet_end s s w (preview_drop p w) (preview_drop_lease p w) Hw (quiet_refl _)); by split_and!.
  split; [done|]. split; [apply quiet_refl|]. intros c' [= <-].
  do 2 (destruct (negb _) in Hr; [done|]).
  apply bind_Ok in Hr as (pv & Hpv%ok_or_Ok & Hr). apply bind_Ok in Hr as (pt & _ & Hr).
  apply bind_Ok in Hr as (t & Ht%map_err_Ok & Hr).
  destruct Hwp as (pv' & l & Hpv' & Hl & Htok & Hlease). assert (pv' = pv) as -> by congruence.
  unfold into_mobility_commit in Hr. rewrite Hl in Hr. cbn in Hr. injection Hr as <-. split; [|done].
  intros proof pv0 Hproof Hpv0. cbn [mic_transition] in Hproof.
  assert (tr_profile3_proof t = Some (p3_into_replay_proof pv)) as Htr.
  { unfold preview_profile3 in Ht. destruct (_ || _); [done|]. destruct (negb _); [done|].
    unfold preview_inner in Ht. apply bind_Ok in Ht as (_ & _ & Ht). apply bind_Ok in Ht as (ctl & _ & Ht).
    destruct (negb _); [done|]. destruct (_ || _); [done|]. by apply bind_Ok in Ht as (a & _ & <-%Ok_inj). }
  rewrite Htr in Hproof. injection Hproof as <-. cbn in Hpv0. by injection Hpv0 as <-.
Qed.

(** ** Steps *)

(** The session with its world, what the caller holds, and the identifiers accepted so far. *)
Record RSys : Type := mkRSys {
  ry_state : RState;
  ry_previews : list InboundPreview;
  ry_commits : list MobilityInboundCommit;
  ry_accepted : list Z;
}.

(** The calls that neither hand out nor consume a preview, and what happens elsewhere: other
    objects are dropped, other sessions take leases and capabilities. *)
Inductive rcall : RState → RState → Prop :=
| call_issue policy σ : rcall σ (issue_profile3_admission_owner policy σ).2
| call_activate a budget σ :
    wf_array 16 (ad_local_loc a) → wf_array 16 (ad_peer_loc a) → rcall σ (activate a budget σ).2
| call_outbound pt σ : wf_bytes pt → rcall σ (outbound pt σ).2
| call_confirm slot packet s w : rcall (s, w) ((confirm_sent slot packet s).2, w)
| call_remove slot σ : rcall σ (remove_path slot σ).2
| call_tick now σ : rcall σ (tick now σ).2
| call_expire now s w : rcall (s, w) (expire now s, w)
| call_drain s w : rcall (s, w) ((drain_events s).2, w)
| call_close σ : rcall σ (redundant_close σ)
| call_elsewhere s w w' : rw_next_lease w ≤ rw_next_lease w' → rcall (s, w) (s, w').

(** What a commit adds to the accepted identifiers. *)
Definition accepts_id (r : outcome RedundantError.t ReceiveOutcome) (p : InboundPreview) : list Z :=
  match r, ip_session_preview p with Ok (Delivered _), Some pv => [p3_delivery_id pv] | _, _ => [] end.
Definition accepts_control (r : outcome RedundantError.t unit) (c : MobilityInboundCommit) : list Z :=
  match r, mic_decision c with Ok _, New => [mic_delivery_id c] | _, _ => [] end.

Inductive rstep : RSys → RSys → Prop :=
| rs_call σ σ' ps cs a : rcall σ σ' → rstep (mkRSys σ ps cs a) (mkRSys σ' ps cs a)
| rs_preview slot b packet now req σ r σ' ps cs a :
    wf_bytes packet → preview_inbound_inner slot b packet now req σ = (r, σ') →
    rstep (mkRSys σ ps cs a)
          (mkRSys σ' (match r with Ok p => p :: ps | _ => ps end) cs a)
| rs_commit p σ r σ' ps1 ps2 cs a :
    commit_inbound p σ = (r, σ') →
    rstep (mkRSys σ (ps1 ++ p :: ps2) cs a) (mkRSys σ' (ps1 ++ ps2) cs (accepts_id r p ++ a))
| rs_abort p σ ps1 ps2 cs a :
    rstep (mkRSys σ (ps1 ++ p :: ps2) cs a) (mkRSys (abort_inbound p σ).2 (ps1 ++ ps2) cs a)
| rs_drop p s w ps1 ps2 cs a :
    rstep (mkRSys (s, w) (ps1 ++ p :: ps2) cs a) (mkRSys (s, preview_drop p w) (ps1 ++ ps2) cs a)
| rs_prepare m ms b p now σ r σ' ps1 ps2 cs a :
    prepare_mobility_commit m ms b p now σ = (r, σ') →
    rstep (mkRSys σ (ps1 ++ p :: ps2) cs a)
          (mkRSys σ' (ps1 ++ ps2) (match r with Ok c => c :: cs | _ => cs end) a)
| rs_mobility m ms ms' c σ r σ' ps cs1 cs2 a :
    commit_mobility m c (σ, ms) = (r, (σ', ms')) →
    rstep (mkRSys σ ps (cs1 ++ c :: cs2) a) (mkRSys σ' ps (cs1 ++ cs2) (accepts_control r c ++ a))
| rs_drop_commit c s w ps cs1 cs2 a :
    rstep (mkRSys (s, w) ps (cs1 ++ c :: cs2) a)
          (mkRSys (s, replay_lease_drop (mic_lease c) w) ps (cs1 ++ cs2) a).

(** The runs of a session from its construction. *)
Inductive rrun : RSys → Prop :=
| rrun_new b binding seed s w w' :
    wf_bootstrap b → 1 ≤ seed ≤ u64_max → redundant_new b binding seed w = (Ok s, w') →
    rrun (mkRSys (s, w') [] [] [])
| rrun_step x y : rrun x → rstep x y → rrun y.

(** ** The invariant *)

Record rsys_ok (x : RSys) : Prop := {
  ro_session : wf_redundant (ry_state x).1;
  ro_pending l : rs_receive_preview (ry_state x).1 = Some l → l < rw_next_lease (ry_state x).2;
  ro_previews p : p ∈ ry_previews x → wf_preview (ry_state x).1 (ry_state x).2 p;
  ro_commits c : c ∈ ry_commits x → wf_held_commit (ry_state x).1 (ry_state x).2 c;
  ro_nodup : NoDup (ry_accepted x);
  ro_positive id : id ∈ ry_accepted x → 1 ≤ id;
  ro_consumed id : rs_state (ry_state x).1 = SessionActive → id ∈ ry_accepted x →
    consumed (rs_delivered (ry_state x).1) id;
}.

Lemma rcall_sound σ σ' : rcall σ σ' → sound σ σ'.
Proof.
  destruct 1; repeat match goal with σ : RState |- _ => destruct σ as [? ?] end.
  - apply sound_issue.
  - by apply sound_activate.
  - by apply sound_outbound.
  - destruct (confirm_sent slot packet s) as [r s'] eqn:Hc. by eapply sound_confirm.
  - apply sound_remove_path.
  - apply sound_tick.
  - apply sound_expire.
  - intros Hw. split; [by apply wf_drain|]. split_and!; cbn; auto with lia.
  - apply sound_close.
  - by apply sound_world.
Qed.

(** A quiet step, after which the caller holds some of what it held. *)
Lemma ok_quiet σ σ' ps ps' cs cs' a :
  rsys_ok (mkRSys σ ps cs a) → wf_redundant σ'.1 → quiet σ σ' → ps' ⊆ ps → cs' ⊆ cs →
  rsys_ok (mkRSys σ' ps' cs' a).
Proof.
  intros [Hw Hpend Hps Hcs Hnd Hpos Hc] Hw' Hq Hsp Hsc. destruct σ as [s w], σ' as [s' w'].
  cbn [ry_state ry_previews ry_commits ry_accepted fst snd] in *. pose proof Hq as (Hl & Hp & Hst).
  split; cbn [ry_state ry_previews ry_commits ry_accepted fst snd]; try done.
  - intros l Hpl. destruct Hp as [[Hp _]|Hp]; [|congruence]. rewrite Hp in Hpl. specialize (Hpend _ Hpl). lia.
  - intros p Hp'. eapply wf_preview_quiet; [done|auto].
  - intros c Hc'. eapply wf_held_quiet; [done|auto].
  - intros id Hs Hid. destruct (Hst Hs) as [Hs0 ->]. by apply Hc.
Qed.

(** A step that accepts an identifier. *)
Lemma ok_accepted s w σ' ps ps' cs cs' a id :
  rsys_ok (mkRSys (s, w) ps cs a) → accepted s w id σ' → ps' ⊆ ps → cs' ⊆ cs →
  rsys_ok (mkRSys σ' ps' cs' (id :: a)).
Proof.
  intros [Hw Hpend Hps Hcs Hnd Hpos Hc] (Hw' & Hl & Hs & Hnone & Hid & Hfresh & Hcid & Hmono) Hsp Hsc.
  destruct σ' as [s' w']. cbn [ry_state ry_previews ry_commits ry_accepted fst snd] in *.
  split; cbn [ry_state ry_previews ry_commits ry_accepted fst snd]; try done.
  - intros l Hpl. congruence.
  - intros p Hp%Hsp%Hps. destruct Hp as (pv & l & ? & ? & ? & ? & ? & _). exists pv, l.
    split_and!; try done. split_and!; try done; [lia|congruence].
  - intros c Hc'%Hsc%Hcs. destruct Hc' as [? (? & ? & _)]. split; [done|].
    split_and!; try done; [lia|congruence].
  - constructor; [|done]. intros Hin. apply Hfresh. by apply Hc.
  - intros j [->|?]%elem_of_cons; auto.
  - intros j _ [->|Hj]%elem_of_cons; [done|]. apply Hmono; auto.
Qed.

Lemma sub_middle {A} (l1 l2 : list A) x : l1 ++ l2 ⊆ l1 ++ x :: l2.
Proof. set_solver. Qed.

Lemma rstep_ok x y : rsys_ok x → rstep x y → rsys_ok y.
Proof.
  intros Hx Hstep. destruct Hstep as
    [σ σ' ps cs a Hc|slot b packet now req [s w] r σ' ps cs a Hpk Hp|p [s w] r σ' ps1 ps2 cs a Hc
    |p [s w] ps1 ps2 cs a|p s w ps1 ps2 cs a|m ms b p now [s w] r σ' ps1 ps2 cs a Hc
    |m ms ms' c [s w] r σ' ps cs1 cs2 a Hc|c s w ps cs1 cs2 a];
    pose proof (ro_session _ Hx) as Hw; cbn [ry_state fst] in Hw.
  - destruct (rcall_sound _ _ Hc Hw) as [Hw' Hq]. by eapply ok_quiet.
  - pose proof (preview_inner_result _ _ _ _ _ _ _ _ _ Hw Hpk Hp) as Hr.
    destruct r as [p|e|]; [|destruct Hr as [Hw' Hq]; by eapply ok_quiet|done].
    destruct Hr as (Hw' & Hlt & Hpend & Hlp & Hd & Hs & Hwp).
    destruct Hx as [_ Hpe Hps Hcs Hnd Hpos Hcn]. destruct σ' as [s' w'].
    cbn [ry_state ry_previews ry_commits ry_accepted fst snd] in *.
    assert (∀ l id d, wf_lease s w l id d → wf_lease s' w' l id d) as Hmono.
    { intros l id d (? & ? & _). split_and!; try done; [lia|]. intros Heq. rewrite Hpend in Heq.
      injection Heq as <-. lia. }
    split; cbn [ry_state ry_previews ry_commits ry_accepted fst snd]; try done.
    + intros l Hl. rewrite Hpend in Hl. injection Hl as <-. done.
    + intros q [->|Hq]%elem_of_cons; [done|]. destruct (Hps q Hq) as (pv & l & ? & ? & ? & ?).
      exists pv, l. split_and!; try done. by apply Hmono.
    + intros c Hc. destruct (Hcs c Hc) as [? ?]. split; [done|]. by apply Hmono.
    + intros id _ Hid. rewrite Hd. by apply Hcn.
  - assert (wf_preview s w p) as Hwp by (apply (ro_previews _ Hx); set_solver).
    pose proof Hwp as (pv & l & Hpv & _). pose proof (commit_inbound_result p s w r σ' pv Hw Hwp Hpv Hc) as Hr.
    unfold accepts_id. rewrite Hpv. destruct r as [[]|e|]; cbn [commit_result] in Hr; [| | |done].
    + eapply ok_accepted; [done..|apply sub_middle|done].
    + destruct Hr. eapply ok_quiet; [done..|apply sub_middle|done].
    + destruct Hr. eapply ok_quiet; [done..|apply sub_middle|done].
  - destruct (abort_sound p s w Hw). eapply ok_quiet; [done..|apply sub_middle|done].
  - destruct (quiet_end s s w (preview_drop p w) (preview_drop_lease p w) Hw (quiet_refl _)).
    eapply ok_quiet; [done..|apply sub_middle|done].
  - assert (wf_preview s w p) as Hwp by (apply (ro_previews _ Hx); set_solver).
    destruct (prepare_result m ms b p now s w r σ' Hw Hwp Hc) as (Hw' & Hq & Hcom).
    assert (rsys_ok (mkRSys σ' (ps1 ++ ps2) cs a)) as Hok by (eapply ok_quiet; [done..|apply sub_middle|done]).
    destruct r as [c|e|]; [|done..]. destruct Hok as [? ? ? Hcs ? ? ?]. split; try done.
    intros c' [->|Hc']%elem_of_cons; [by apply Hcom|by apply Hcs].
  - assert (wf_held_commit s w c) as Hwc by (apply (ro_commits _ Hx); set_solver).
    pose proof (commit_mobility_result m c s w ms r σ' ms' Hw Hwc Hc) as Hr.
    unfold accepts_control. destruct r as [[]|e|]; cbn [mobility_result] in Hr.
    + destruct (mic_decision c); cbn in Hr.
      * eapply ok_accepted; [done..|apply sub_middle].
      * destruct Hr. eapply ok_quiet; [done..|apply sub_middle].
    + destruct Hr. eapply ok_quiet; [done..|apply sub_middle].
    + destruct Hr. eapply ok_quiet; [done..|apply sub_middle].
  - destruct (quiet_end s s w (replay_lease_drop (mic_lease c) w) eq_refl Hw (quiet_refl _)).
    eapply ok_quiet; [done..|apply sub_middle].
Qed.

(** A new session is well formed. *)
Lemma redundant_new_wf b binding seed w s w' :
  wf_bootstrap b → 1 ≤ seed ≤ u64_max → redundant_new b binding seed w = (Ok s, w') →
  wf_redundant s ∧ rs_receive_preview s = None ∧ rs_state s = SessionActive.
Proof.
  intros Hb Hseed H. unfold redundant_new in H.
  destruct (binding_validate binding) as [[]| |] eqn:Hbv; cbn [map_err] in H; [|done..].
  destruct (budget_ok (pb_budget b)) eqn:Hbud; [|done]. cbn [negb] in H.
  destruct (pb_slot0 b) as [x|] eqn:Hx; unfold take_slot0 in H; rewrite Hx in H; [|done].
  destruct (negb _); [done|]. injection H as <- _.
  unfold budget_ok in Hbud. apply andb_true_iff in Hbud as [H1%Z.leb_le H2%Z.leb_le].
  assert (wf_bootstrap (set_slot0 None b)) as Hb' by (by destruct Hb; split).
  split; [|done]. apply wf_event. split; cbn; try done.
  - constructor; [|constructor; [by split|constructor]]. split; try done. intros _.
    split; [by exists binding|]. split; [eexists; split; [done|apply Hb]|].
    split; [eexists; split; [done|apply Hb]|]. exists x. split; [done|by apply Hb].
  - exists ∅. apply represents_empty.
  - intros _. split; [by exists (set_slot0 None b)|done].
Qed.

Lemma rrun_ok x : rrun x → rsys_ok x.
Proof.
  induction 1 as [b binding seed s w w' Hb Hseed Hnew|x y _ IH Hstep]; [|by eapply rstep_ok].
  destruct (redundant_new_wf _ _ _ _ _ _ Hb Hseed Hnew) as (Hw & Hp & _).
  split; cbn; try done; try (intros; set_solver). constructor.
Qed.

(** C19: along any run of calls, whatever the caller does with the previews and commits it holds,
    the session stays well formed: queues hold at most 256 packets and 256 KiB and count their bytes
    exactly, the cache at most 4096 identifiers, the events at most 64, an active path has a
    validated carrier, locators and keys, an idle path nothing, a live session has an active path,
    and a released one keeps no key, packet, identifier or preview. *)
Theorem redundant_invariant x : rrun x → wf_redundant (ry_state x).1.
Proof. intros H. apply (ro_session _ (rrun_ok x H)). Qed.

(** C10: no delivery identifier is accepted twice along any run, neither as data nor as a mobility
    control, on whichever paths, in whatever order and however late its copies arrive. *)
Theorem delivery_accepted_once x : rrun x → NoDup (ry_accepted x).
Proof. intros H. apply (ro_nodup _ (rrun_ok x H)). Qed.
End Runs.
