(* ===== verification/RedundantDelivery.v ===== *)
(** * End-to-end redundant delivery

    Two redundant sessions that share their keys path by path: what one sends
    on its active paths the other delivers exactly once, from whichever copy
    arrives first, and suppresses the other copy.  And the verdict on every
    copy that is received. *)

From stdpp Require Import gmap sets.
From S2P Require Import Prelude Wire Checksum Codec HeaderRules Crypto SessionMsg Replay SessionCrypto Directional Client Server ServerInv Control Mobility DeliveryWindow Redundant RedundantInv RedundantRuns.
#[local] Open Scope Z_scope.

Section Delivery.
Context `{C : Crypto} `{DA : Build} {L : CryptoLaws C}.
Implicit Types s : RedundantSession.

(** A packet that the path of the slot authenticates as [pt] under identifier [d], and the session
    of the path after its replay commit. *)
Record copy_for s (slot d : Z) (pt packet : bytes) (x' : DirectionalSession) : Prop := {
  cf_path : ∃ p x b, rs_paths s !! Z.to_nat slot = Some p ∧ is_active p = true ∧ pa_session p = Some x ∧
    rs_bootstrap s = Some b ∧
    (∃ h pl, unpack_with_budget packet (pa_budget p) = Ok (h, pl) ∧ scid h = pb_scid b ∧
       path_slot h = slot ∧ pa_peer_loc p = Some (src h) ∧ pa_local_loc p = Some (dst h)) ∧
    ∃ tok, preview_profile3_data x packet = Ok (mkProfile3Preview d pt tok (receive_owner x)) ∧
      commit_replay tok x = (Ok (), x');
  cf_session : wf_directional x';
}.

Lemma authenticate_copy s slot d pt packet x' b req :
  copy_for s slot d pt packet x' →
  (req = true → ∀ p, rs_paths s !! Z.to_nat slot = Some p → pa_binding p = Some b) →
  ∃ pv, authenticate s slot b packet req = Ok pv ∧ p3_delivery_id pv = d ∧ p3_plaintext pv = pt ∧
    commit slot pv s = (Ok (d, pt), update_path slot (set_path_session (Some x')) s).
Proof.
  intros [(p & x & bs & Hp & Ha & Hx & Hb & (h & pl & Hu & Hsc & Hsl & Hpl & Hll) & tok & Hpv & Hcom) _] Hbind.
  exists (mkProfile3Preview d pt tok (receive_owner x)).
  unfold authenticate, commit. rewrite (proj2 (get_path_Ok s slot p)) by done.
  cbn [mbind outcome_bind]. rewrite Ha. cbn [negb orb].
  assert (req && negb (bool_decide (pa_binding p = Some b)) = false) as ->.
  { destruct req; [|done]. rewrite bool_decide_eq_true_2; [done|by apply Hbind]. }
  rewrite Hu. cbn [mbind outcome_bind map_err]. rewrite Hb. cbn [mbind outcome_bind ok_or].
  rewrite Hsc, Hsl, !Z.eqb_refl, Hpl, Hll, !bool_decide_eq_true_2 by done. cbn [negb orb].
  rewrite Hx. cbn [mbind outcome_bind ok_or]. rewrite Hpv. split; [done|]. split; [done|]. split; [done|].
  unfold commit_profile3_data, mbind, st_bind, get. cbn [p3_receive_owner p3_commit].
  rewrite Z.eqb_refl. cbn [negb]. by rewrite Hcom.
Qed.

(** The session after it accepted a copy. *)
Definition after_copy s (slot now : Z) x' : RedundantSession :=
  expire now (set_receive_generation (rs_receive_generation s + 1)
    (update_path slot (set_path_session (Some x')) (set_receive_preview None s))).

(** The state in which a session takes a packet. *)
Record ready s (slot : Z) (b : ObservedBinding) : Prop := {
  rd_wf : wf_redundant s;
  rd_live : rs_state s = SessionActive;
  rd_idle : rs_receive_preview s = None;
  rd_generation : rs_receive_generation s < u64_max;
  rd_binding p : rs_paths s !! Z.to_nat slot = Some p → pa_binding p = Some b;
  rd_valid : binding_validate b = Ok ();
}.

Lemma after_copy_wf s slot b d pt packet now x' :
  ready s slot b → copy_for s slot d pt packet x' → wf_redundant (after_copy s slot now x').
Proof.
  intros [Hw Hs _ Hg _ _] Hcopy. apply wf_expire, wf_set_generation'; [|done|].
  - assert (wf_redundant (set_receive_preview None s)) as Hw' by (apply wf_set_preview; auto).
    destruct Hcopy as [(p & x & _ & Hp & Hact & _) Hx'].
    apply (wf_update_path _ _ _ p); try done. apply wf_with_session; [by eapply wf_get_path|done..].
  - pose proof (wr_generation _ Hw). unfold is_u64 in *. lia.
Qed.

(** The judgement on an authentic copy. *)
Lemma preview_copy s w slot b d pt packet now x' m :
  ready s slot b → copy_for s slot d pt packet x' → 1 ≤ d → represents (rs_delivered s) m →
  ∃ pv, p3_delivery_id pv = d ∧ p3_plaintext pv = pt ∧
    commit slot pv s = (Ok (d, pt), update_path slot (set_path_session (Some x')) s) ∧
    preview_inbound slot b packet now (s, w) =
    if too_old (rs_delivered s) d then (Err RedundantError.Replay, (s, w)) else
    match m !! d with
    | Some f => if decide (f = fingerprint pt) then lease_preview slot now pv Equal (s, w)
                else (Err RedundantError.DivergentDelivery, redundant_close (event Divergence s, w))
    | None => if beyond_gap s d then (Err RedundantError.DeliveryGap, (s, w))
              else lease_preview slot now pv New (s, w)
    end.
Proof.
  intros [Hw Hs Hidle Hg Hbind Hval] Hcopy Hd Hm.
  destruct (authenticate_copy s slot d pt packet x' b true Hcopy) as (pv & Ha & Hid & Hpt & Hcom);
    [intros _; exact Hbind|].
  exists pv. split; [done|]. split; [done|]. split; [done|].
  unfold preview_inbound, preview_inbound_inner. rewrite Hval. cbn [map_err].
  assert (is_ok (live s) = true) as -> by by apply live_Ok. cbn [negb].
  unfold reap_preview. rewrite Hidle. rewrite bool_decide_eq_false_2 by (intros [? ?]; congruence).
  rewrite Ha, Hid, Hpt. destruct (too_old _ _); [done|]. rewrite (delivered_seen_spec _ m) by done.
  destruct (m !! d) as [f|] eqn:Hmd.
  - rewrite bool_decide_eq_true_2 by by eexists. rewrite (matches_spec _ m _ _ f) by done.
    destruct (decide (f = fingerprint pt)); [by rewrite bool_decide_eq_true_2|by rewrite bool_decide_eq_false_2].
  - by rewrite bool_decide_eq_false_2 by (intros [? ?]; congruence).
Qed.

(** Committing the preview of an authentic copy. *)
Lemma commit_copy s w slot d pt now x' pv dec :
  rs_state s = SessionActive → rs_receive_generation s < u64_max →
  commit slot pv s = (Ok (d, pt), update_path slot (set_path_session (Some x')) s) →
  let '(r, σ) := (lease_preview slot now pv dec ≫= commit_inbound) (s, w) in
  match dec with
  | Equal => r = Ok Suppressed ∧ σ.1 = after_copy s slot now x'
  | New => match remember d pt now (after_copy s slot now x') with
           | Ok s' => r = Ok (Delivered pt) ∧ σ.1 = s'
           | _ => True
           end
  end.
Proof.
  intros Hs Hg Hcom. unfold mbind, st_bind, lease_preview, lease_new. unfold commit_inbound. cbv zeta.
  assert (is_ok (live (set_receive_preview (Some (rw_next_lease w)) s)) = true) as -> by by apply live_Ok.
  cbn [negb]. set (p := mkInbound _ _ _ _ _ _ _). set (w1 := mkRWorld _ _ _ _ _).
  assert (accepts_preview w1 (set_receive_preview (Some (rw_next_lease w)) s) p = true) as ->.
  { unfold accepts_preview. cbn [p ip_owner ip_generation ip_lease rs_receive_owner rs_receive_generation
      rs_receive_preview set_receive_preview]. rewrite !Z.eqb_refl. cbn [andb].
    rewrite bool_decide_eq_true_2 by done. rewrite andb_true_r. unfold lease_active.
    apply bool_decide_eq_true_2. cbn. set_solver. }
  cbn [negb rs_receive_generation set_receive_preview].
  unfold checked_add. rewrite (proj2 (Z.leb_le _ _)) by lia.
  cbn [p ip_session_preview ip_slot ip_now_ms ip_decision].
  change (set_receive_preview None (set_receive_preview (Some (rw_next_lease w)) s))
    with (set_receive_preview None s).
  assert (commit slot pv (set_receive_preview None s) =
    (Ok (d, pt), update_path slot (set_path_session (Some x')) (set_receive_preview None s))) as ->.
  { revert Hcom. unfold commit. change (get_path (set_receive_preview None s) slot) with (get_path s slot).
    destruct (get_path s slot) as [q| |]; [|done..]. destruct (pa_session q) as [x|]; [|done].
    destruct (commit_profile3_data pv x) as [r x1]. intros [= Hr Hx]. rewrite Hr. f_equal.
    unfold update_path, set_paths, set_receive_preview in *. cbn in *. by rewrite Hx. }
  fold (after_copy s slot now x'). destruct dec; [|done].
  by destruct (remember d pt now (after_copy s slot now x')).
Qed.

(** The verdict on an authentic copy, by what the window remembers of its identifier. *)
Lemma inbound_copy s w slot b d pt packet now x' m :
  ready s slot b → copy_for s slot d pt packet x' → 1 ≤ d → represents (rs_delivered s) m →
  let '(r, σ) := inbound slot b packet now (s, w) in
  if too_old (rs_delivered s) d then r = Err RedundantError.Replay ∧ σ = (s, w) else
  match m !! d with
  | Some f =>
      if decide (f = fingerprint pt) then r = Ok Suppressed ∧ σ.1 = after_copy s slot now x'
      else r = Err RedundantError.DivergentDelivery ∧ σ = redundant_close (event Divergence s, w)
  | None =>
      if beyond_gap s d then r = Err RedundantError.DeliveryGap ∧ σ = (s, w)
      else r = Ok (Delivered pt) ∧ remember d pt now (after_copy s slot now x') = Ok σ.1
  end.
Proof.
  intros Hready Hcopy Hd Hm.
  destruct (preview_copy s w slot b d pt packet now x' m Hready Hcopy Hd Hm) as (pv & Hid & Hpt & Hcom & Hprev).
  pose proof (after_copy_wf s slot b d pt packet now x' Hready Hcopy) as Hwa.
  destruct Hready as [Hw Hs Hidle Hg Hbind Hval].
  pose proof (λ dec, commit_copy s w slot d pt now x' pv dec Hs Hg Hcom) as Hdec.
  unfold inbound, mbind, st_bind in *. rewrite Hprev.
  destruct (too_old (rs_delivered s) d) eqn:Hold; [done|].
  destruct (m !! d) as [f|].
  - destruct (decide (f = fingerprint pt)); [|done]. exact (Hdec Equal).
  - destruct (beyond_gap s d); [done|]. specialize (Hdec New). cbv beta in Hdec.
    destruct (remember_Ok d pt now (after_copy s slot now x')) as (s2 & Hr & _); try done.
    rewrite Hr in *. destruct (lease_preview slot now pv New (s, w)) as [[p| |] [s1 w1]]; [|by destruct Hdec..].
    destruct (commit_inbound p (s1, w1)) as [r σ]. by destruct Hdec as [-> ->].
Qed.

(** ** From the sender to the receiver *)

(** The paths of a slot at the two ends: crossed locators, the sender's key at the receiver, and
    room at the receiver for the sender's next counter and a packet of the size. *)
Record linked_path (sa sb : RedundantSession) (i : nat) (n : Z) (pa pb : Path)
    (xa xb : DirectionalSession) : Prop := {
  lp_sender : rs_paths sa !! i = Some pa ∧ pa_session pa = Some xa ∧ is_active pa = true;
  lp_receiver : rs_paths sb !! i = Some pb ∧ pa_session pb = Some xb ∧ is_active pb = true;
  lp_locs : pa_peer_loc pb = pa_local_loc pa ∧ pa_local_loc pb = pa_peer_loc pa;
  lp_key : receive_key xb = send_key xa;
  lp_counter : ∃ acc, repr (replay xb) acc ∧
    acceptable acc (largest (replay xb)) (next (send_counters xa)) ∧ generation (replay xb) < u64_max;
  lp_budget : n ≤ pa_budget pb ∧ n ≤ receive_budget xb;
}.

Definition same_scid (sa sb : RedundantSession) : Prop :=
  ∃ ba bb, rs_bootstrap sa = Some ba ∧ rs_bootstrap sb = Some bb ∧ pb_scid ba = pb_scid bb.

Lemma copy_from_packet sa sb i d pt pa pb xa xb o hop :
  wf_redundant sa → rs_state sa = SessionActive → wf_redundant sb → same_scid sa sb →
  linked_path sa sb i (84 + len pt) pa pb xa xb → packet_of sa (Z.of_nat i) d pt pa o →
  1 ≤ d < u64_max → wf_bytes pt → is_u8 hop → hop ≠ 0 →
  ∃ x', copy_for sb (Z.of_nat i) d pt (<[5%nat := hop]> (op_packet o)) x'.
Proof.
  intros Hwa Hsa Hwb (ba & bb & Hba & Hbb & Hsc) [(Hpa & Hxa & Hact) (Hpb & Hxb & Hactb) [Hl1 Hl2] Hkey
    (acc & Hrep & Hacc & Hgen) [Hbud Hrbud]] (_ & _ & _ & Hfit & h & x & Hh & Hx & Henc) Hd Hpt Hhop H0.
  assert (x = xa) as -> by congruence.
  apply path_fits_inv in Hfit as (Hpbud & _ & y & Hy & Hres). assert (y = xa) as -> by congruence.
  pose proof (wf_get_path _ (Z.of_nat i) _ Hwa ltac:(by rewrite Nat2Z.id)) as Hwpa.
  destruct (session_active _ _ Hwpa Hxa) as [_ Hwxa].
  assert (Z.of_nat i = 0 ∨ Z.of_nat i = 1) as Hslot.
  { apply lookup_lt_Some in Hpa. rewrite (wr_two _ Hwa) in Hpa. lia. }
  destruct (header_Ok sa (Z.of_nat i) pa) as (h' & Hh' & Hses & Hprof & Hsl & (b' & Hb' & Hscid) & Hloc & Hpeer);
    [done..|by rewrite Nat2Z.id|done|]. assert (h' = h) as -> by congruence.
  assert (b' = ba) as -> by congruence.
  destruct (encrypt_profile3_Ok xa h d pt (pa_budget pa)) as (ct & Hop & Hctl & Hrun);
    try done; [apply (pw_budget _ Hwpa)|lia|].
  rewrite Hrun in Henc. cbn [fst] in Henc. apply Ok_inj in Henc as <-.
  destruct (commit_replay_acceptable xb acc (next (send_counters xa))) as (w' & Hcom & Hrep' & _); [done..|].
  exists (set_replay w' xb). rewrite insert_hop by apply Hses.
  pose proof (with_hop_ses hop h SESSION_DATA Hhop H0 Hses) as Hses'.
  pose proof (pw_budget _ Hwpa) as Hpb1280. pose proof Hacc as [Hcr _].
  pose proof (len_nonneg pt). replace (36 + len pt) with (20 + len ct) in * by lia.
  pose proof (wf_get_path _ (Z.of_nat i) _ Hwb ltac:(by rewrite Nat2Z.id)) as Hwpb.
  destruct (session_active _ _ Hwpb Hxb) as [_ (_ & Hcb & Hkb)].
  split; [|split; [by exists ({[next (send_counters xa)]} ∪ acc)|done]].
  exists pb, xb, bb. rewrite Nat2Z.id. split; [done|]. split; [done|]. split; [done|]. split; [done|]. split.
  - exists (with_hop hop h), (profile3_layout (next (send_counters xa)) d ct).
    rewrite unpack_profile3_layout by (try done; unfold SERIALIZED_R8_MAX; lia).
    split; [done|]. split; [by rewrite <-Hsc|]. split; [done|]. by rewrite Hl1, Hl2.
  - exists (mkCommit (next (send_counters xa)) (generation (replay xb))). split; [|done].
    rewrite preview_profile3_layout by (try done; unfold SERIALIZED_R8_MAX; lia).
    rewrite (preview_acceptable _ acc) by done. cbn [mbind outcome_bind].
    change (profile3_aad (with_hop hop h)) with (profile3_aad h). by rewrite Hkey, Hop.
Qed.

(** What [remember] leaves alone, and the window it leaves. *)
Lemma remember_inv id l now s s' :
  remember id l now s = Ok s' →
  rs_paths s' = rs_paths s ∧ rs_bootstrap s' = rs_bootstrap s ∧ rs_state s' = rs_state s ∧
  rs_receive_preview s' = rs_receive_preview s ∧ rs_receive_generation s' = rs_receive_generation s ∧
  insert (E:=RedundantError.t) id l (rs_delivered s) = Ok (rs_delivered s').
Proof.
  unfold remember. intros H. apply bind_Ok in H as (d & _ & H). apply bind_Ok in H as (w' & Hi & H).
  apply Ok_inj in H as <-. by split_and!.
Qed.

Lemma copy_for_same s s' slot d pt packet x' :
  rs_paths s' !! Z.to_nat slot = rs_paths s !! Z.to_nat slot → rs_bootstrap s' = rs_bootstrap s →
  copy_for s slot d pt packet x' → copy_for s' slot d pt packet x'.
Proof.
  intros Hp Hb [(p & x & b & ? & ? & ? & ? & ? & ?) ?]. split; [|done].
  exists p, x, b. rewrite Hp, Hb. by split_and!.
Qed.

Lemma path_ready s (i : nat) p b :
  wf_redundant s → rs_state s = SessionActive → rs_receive_preview s = None →
  rs_receive_generation s < u64_max → rs_paths s !! i = Some p → is_active p = true →
  pa_binding p = Some b → ready s (Z.of_nat i) b.
Proof.
  intros Hw Hs Hn Hg Hp Ha Hb. split; try done.
  - intros q. rewrite Nat2Z.id, Hp. by intros [= <-].
  - pose proof (wf_get_path s (Z.of_nat i) p Hw ltac:(by rewrite Nat2Z.id)) as Hwp.
    destruct (pw_active _ Hwp Ha) as ((b' & Hb' & Hv) & _). congruence.
Qed.

(** Two copies of one datagram on two paths, in the order of arrival. *)
Lemma inbound_two_copies s w (i j : nat) d pt ki kj xi xj bi bj pi pj now now' :
  wf_redundant s → rs_state s = SessionActive → rs_receive_preview s = None →
  rs_receive_generation s + 1 < u64_max → 1 ≤ d → i ≠ j →
  ¬ consumed (rs_delivered s) d → beyond_gap s d = false →
  copy_for s (Z.of_nat i) d pt ki xi → copy_for s (Z.of_nat j) d pt kj xj →
  rs_paths s !! i = Some pi → rs_paths s !! j = Some pj →
  is_active pi = true → is_active pj = true → pa_binding pi = Some bi → pa_binding pj = Some bj →
  let '(r1, σ1) := inbound (Z.of_nat i) bi ki now (s, w) in
  let '(r2, σ2) := inbound (Z.of_nat j) bj kj now' σ1 in
  r1 = Ok (Delivered pt) ∧ r2 = Ok Suppressed.
Proof.
  intros Hw Hs Hn Hg Hd Hij Hfresh Hgap Hci Hcj Hpi Hpj Hai Haj Hbi Hbj.
  destruct (wr_window _ Hw) as [m Hm].
  assert (too_old (rs_delivered s) d = false) as Hold.
  { destruct (too_old _ _) eqn:Ho; [|done]. exfalso. apply Hfresh. by right. }
  assert (m !! d = None) as Hmd.
  { destruct (m !! d) eqn:Hmd; [|done]. exfalso. apply Hfresh. apply (consumed_iff _ m); [done..|].
    left. by eexists. }
  assert (ready s (Z.of_nat i) bi) as Hri by (eapply path_ready; [done..|lia|done|done|done]).
  pose proof (inbound_copy s w (Z.of_nat i) bi d pt ki now xi m Hri Hci Hd Hm) as Hnew.
  destruct (inbound (Z.of_nat i) bi ki now (s, w)) as [r1 [s2 w1]].
  rewrite Hold, Hmd, Hgap in Hnew. destruct Hnew as [-> Hrem]. cbn [fst] in Hrem.
  pose proof (after_copy_wf s (Z.of_nat i) bi d pt ki now xi Hri Hci) as Hwa.
  destruct (remember_Ok d pt now (after_copy s (Z.of_nat i) now xi)) as (s2' & Hrem' & Hw2 & Hst2 & _); try done.
  assert (s2' = s2) as -> by congruence.
  pose proof (remember_inv _ _ _ _ _ Hrem) as (Hpaths & Hboot & _ & Hprev & Hgen & Hins).
  cbn in Hboot, Hprev, Hgen, Hins.
  destruct (insert_spec (E:=RedundantError.t) (rs_delivered s) m d pt Hm Hd Hold) as (w' & Hins' & Hrep & Hhigh).
  assert (w' = rs_delivered s2) as -> by congruence.
  assert (rs_paths s2 !! j = Some pj) as Hpj2.
  { rewrite Hpaths. cbn. rewrite Nat2Z.id. by rewrite list_lookup_alter_ne. }
  assert (ready s2 (Z.of_nat j) bj) as Hrj by (eapply path_ready; [done..|lia|done|done|done]).
  assert (copy_for s2 (Z.of_nat j) d pt kj xj) as Hcj2.
  { eapply copy_for_same; [|exact Hboot|exact Hcj]. by rewrite Nat2Z.id, Hpj2, Hpj. }
  assert (too_old (rs_delivered s2) d = false) as Hold2.
  { rewrite (too_old_spec _ _ _ _ Hrep Hhigh). apply bool_decide_eq_false. unfold new_high.
    unfold too_old, DELIVERED_WINDOW_IDS in Hold. destruct (high_water (rs_delivered s)); [|lia]. lia. }
  pose proof (inbound_copy s2 w1 (Z.of_nat j) bj d pt kj now' xj _ Hrj Hcj2 Hd Hrep) as Hsup.
  destruct (inbound _ bj kj now' _) as [r2 σ2]. rewrite Hold2 in Hsup.
  unfold spec_insert in Hsup. rewrite lookup_insert_eq, decide_True in Hsup by done.
  split; [done|]. by destruct Hsup.
Qed.

(** C8: end-to-end redundant delivery.  When one session enqueues a datagram, its peer delivers the
    plaintext from whichever of the two copies arrives first, whatever non-zero hop limits they
    arrive with, and suppresses the other. *)
Theorem redundant_delivery sa wa sb wb pt d os σa i j pai paj pbi pbj xai xaj xbi xbj bi bj
    hop hop' now now' :
  wf_redundant sa → wf_redundant sb → same_scid sa sb → wf_bytes pt →
  outbound pt (sa, wa) = (Ok (Enqueued d os), σa) →
  linked_path sa sb i (84 + len pt) pai pbi xai xbi →
  linked_path sa sb j (84 + len pt) paj pbj xaj xbj → i ≠ j →
  pa_binding pbi = Some bi → pa_binding pbj = Some bj →
  rs_state sb = SessionActive → rs_receive_preview sb = None → rs_receive_generation sb + 1 < u64_max →
  ¬ consumed (rs_delivered sb) d → beyond_gap sb d = false →
  is_u8 hop → hop ≠ 0 → is_u8 hop' → hop' ≠ 0 →
  ∃ oi oj, oi ∈ os ∧ oj ∈ os ∧ op_slot oi = Z.of_nat i ∧ op_slot oj = Z.of_nat j ∧
    let '(r1, σ1) := inbound (Z.of_nat i) bi (<[5%nat := hop]> (op_packet oi)) now (sb, wb) in
    let '(r2, σ2) := inbound (Z.of_nat j) bj (<[5%nat := hop']> (op_packet oj)) now' σ1 in
    r1 = Ok (Delivered pt) ∧ r2 = Ok Suppressed.
Proof.
  intros Hwa Hwb Hsc Hpt Hout Hli Hlj Hij Hbi Hbj Hsb Hnp Hgen Hfresh Hgap Hh H0 Hh' H0'.
  pose proof (outbound_cases sa wa pt Hwa Hpt) as Hcase. rewrite Hout in Hcase.
  destruct Hcase as [(Hdn & Hdm & _ & Hne & s1 & (_ & _ & _ & Hsent) & _) _].
  assert (rs_state sa = SessionActive) as Hsa.
  { apply live_Ok. destruct (is_ok (live sa)) eqn:Hl; [done|]. unfold outbound in Hout. by rewrite Hl in Hout. }
  pose proof (wr_next _ Hwa) as Hnext.
  assert (∀ k pa pb xa xb, linked_path sa sb k (84 + len pt) pa pb xa xb →
    ∃ o, o ∈ os ∧ packet_of sa (Z.of_nat k) d pt pa o) as Hpk.
  { intros k pa pb xa xb [(Hp & _ & Ha) _ _ _ _ _].
    destruct (Hsent k pa Hp) as [(o & Ho & Hof & _)|[Hno _]]; [by exists o|].
    exfalso. apply Hno. apply (active_slots_spec sa Hwa). by exists k, pa. }
  destruct (Hpk _ _ _ _ _ Hli) as (oi & Hoi & Hpi). destruct (Hpk _ _ _ _ _ Hlj) as (oj & Hoj & Hpj).
  exists oi, oj. split; [done|]. split; [done|]. split; [apply Hpi|]. split; [apply Hpj|].
  destruct (copy_from_packet sa sb i d pt pai pbi xai xbi oi hop) as [xi Hci]; try done; [lia|].
  destruct (copy_from_packet sa sb j d pt paj pbj xaj xbj oj hop') as [xj Hcj]; try done; [lia|].
  destruct (lp_receiver _ _ _ _ _ _ _ _ Hli) as (Hqi & _ & Hai).
  destruct (lp_receiver _ _ _ _ _ _ _ _ Hlj) as (Hqj & _ & Haj).
  eapply (inbound_two_copies sb wb i j d pt); try done. lia.
Qed.

(** C22: the verdict on every authentic copy that reaches a session which takes packets.  An
    identifier below the window is a replay and changes nothing; one that was delivered is
    suppressed when the plaintext has the remembered fingerprint, and otherwise the session reports
    the divergence and closes, keeping no key or identifier; one too far ahead is refused and changes
    nothing; any other is delivered and remembered with its plaintext. *)
Theorem copy_verdict s w slot b d pt packet now x' m :
  ready s slot b → copy_for s slot d pt packet x' → 1 ≤ d → represents (rs_delivered s) m →
  let '(r, (s', w')) := inbound slot b packet now (s, w) in
  (too_old (rs_delivered s) d = true → r = Err RedundantError.Replay ∧ (s', w') = (s, w)) ∧
  (m !! d = Some (fingerprint pt) → r = Ok Suppressed ∧ rs_delivered s' = rs_delivered s) ∧
  (∀ f, m !! d = Some f → f ≠ fingerprint pt →
     r = Err RedundantError.DivergentDelivery ∧ rs_state s' = SessionReleased ∧ cleared_session s') ∧
  (too_old (rs_delivered s) d = false → m !! d = None → beyond_gap s d = true →
     r = Err RedundantError.DeliveryGap ∧ (s', w') = (s, w)) ∧
  (too_old (rs_delivered s) d = false → m !! d = None → beyond_gap s d = false →
     r = Ok (Delivered pt) ∧ rs_dedup s' !! d = Some (mkDedup pt (sat_add now DEDUP_LIFETIME_MS)) ∧
     represents (rs_delivered s') (spec_insert (high_water (rs_delivered s)) d (fingerprint pt) m)).
Proof.
  intros Hready Hcopy Hd Hm.
  pose proof (inbound_copy s w slot b d pt packet now x' m Hready Hcopy Hd Hm) as H.
  pose proof (after_copy_wf s slot b d pt packet now x' Hready Hcopy) as Hwa.
  destruct Hready as [Hw Hs _ _ _ _].
  assert (∀ f, m !! d = Some f → too_old (rs_delivered s) d = false) as Hin.
  { intros f Hf. destruct (high_water (rs_delivered s)) as [h|] eqn:Hh; [|unfold too_old; by rewrite Hh].
    rewrite (too_old_spec _ _ _ _ Hm Hh). apply bool_decide_eq_false.
    pose proof (rp_dom _ _ Hm h d f Hh Hf). lia. }
  destruct (inbound slot b packet now (s, w)) as [r [s' w']]. split_and!.
  - intros Ho. by rewrite Ho in H.
  - intros Hf. rewrite (Hin _ Hf), Hf, decide_True in H by done. destruct H as [-> Heq]. cbn [fst] in Heq. by subst s'.
  - intros f Hf Hne. rewrite (Hin _ Hf), Hf, decide_False in H by done. destruct H as [-> Heq].
    pose proof (close_state (event Divergence s) w) as Hst.
    pose proof (wf_close (event Divergence s) w (wf_event Divergence s Hw)) as Hwc.
    rewrite <-Heq in Hst, Hwc. split; [done|]. split; [done|]. by apply (wr_released _ Hwc).
  - intros Ho Hn Hg. by rewrite Ho, Hn, Hg in H.
  - intros Ho Hn Hg. rewrite Ho, Hn, Hg in H. destruct H as [-> Hrem]. cbn [fst] in Hrem. split; [done|].
    destruct (remember_Ok d pt now (after_copy s slot now x')) as (s2 & Hr & _ & _ & _ & _ & _ & Hdd); try done.
    assert (s2 = s') as -> by congruence. split; [done|].
    pose proof (remember_inv _ _ _ _ _ Hrem) as (_ & _ & _ & _ & _ & Hins). cbn in Hins.
    destruct (insert_spec (E:=RedundantError.t) (rs_delivered s) m d pt Hm Hd Ho) as (w1 & Hins' & Hrep & _).
    congruence.
Qed.
End Delivery.
