(* ===== verification/Activation.v ===== *)
(** * Activating the second path

    [RedundantSession::activate] consumes the admission that the candidate
    manager of the same session minted: what it takes to activate the second
    path, what activation installs, and that it happens once. *)

From stdpp Require Import gmap sets.
From S2P Require Import Prelude Wire Checksum Codec HeaderRules Crypto SessionMsg Replay SessionCrypto Directional Client Server ServerInv Control Mobility DeliveryWindow Redundant RedundantInv RedundantRuns.
#[local] Open Scope Z_scope.

Section Activation.
Context `{C : Crypto}.

(** The authority that [activate] checks. *)
Record authorized (s : RedundantSession) (w : RWorld) (a : Profile3Admission)
    (b : Profile3Bootstrap) (x0 : DirectionalSession) : Prop := {
  au_issuer : ∃ i, rs_admission_issuer s = Some i ∧ admits (rw_caps w) i a = true;
  au_bootstrap : rs_bootstrap s = Some b ∧ ad_scid a = pb_scid b;
  au_slot0 : rs_paths s !! 0%nat ≫= pa_session = Some x0;
  au_owner : p3b_receive_owner (ao_replay_binding (ad_owner a)) = receive_owner x0;
}.

(** The session of the second slot: fresh counters, and the keys derived for slot one. *)
Definition slot1_session (b : Profile3Bootstrap) (x : DirectionalSession) : Prop :=
  ∃ k, pb_schedule b = Some k ∧
    derive_key_from_prk k (pb_transcript_hash b) 3 (pb_local_role b) (pb_peer_role b) 1 = Ok (send_key x) ∧
    derive_key_from_prk k (pb_transcript_hash b) 3 (pb_peer_role b) (pb_local_role b) 1 = Ok (receive_key x) ∧
    send_counters x = counters_new ∧ replay x = window_new.

Lemma take_slot1_inv b sw x b' sw' :
  take_slot1_after_admission (b, sw) = (Ok x, (b', sw')) →
  b' = set_schedule None b ∧ slot1_session b x ∧ receive_owner x = next_owner sw.
Proof.
  unfold take_slot1_after_admission. destruct (pb_schedule b) as [k|] eqn:Hk; [|done].
  destruct (derive_key_from_prk k _ 3 (pb_local_role b) _ 1) as [k1| |] eqn:H1; [|done..].
  destruct (derive_key_from_prk k _ 3 (pb_peer_role b) _ 1) as [k2| |] eqn:H2; [|done..].
  cbn [mbind outcome_bind]. destruct (session_new _ _ _ _ _) as [r w'] eqn:Hn. intros [= -> <- <-].
  apply session_new_inv in Hn as [-> _]. split; [done|]. split; [|done]. by exists k.
Qed.

Lemma admit_slot1_inv a s w x s' w' :
  admit_slot1_session a (s, w) = (Ok x, (s', w')) →
  ∃ b x0, authorized s w a b x0 ∧ slot1_session b x ∧ rw_caps w' = rw_caps w ∧
    s' = set_bootstrap (Some (set_schedule None b)) s.
Proof.
  unfold admit_slot1_session. destruct (rs_bootstrap s) as [b|] eqn:Hb; [|done].
  destruct (_ ≫= pa_session) as [x0|] eqn:Hx0; [|done].
  destruct (_ || _) eqn:Hc; [done|].
  apply orb_false_iff in Hc as [[Hsc Hi]%orb_false_iff Ho].
  destruct (take_slot1_after_admission _) as [r [b' sw']] eqn:Ht.
  destruct r as [y| |]; [|done..]. destruct (session_can_reserve y); [|done]. cbn [negb]. intros [= <- <- <-].
  apply take_slot1_inv in Ht as (-> & Hs1 & _). exists b, x0. split_and!; try done.
  apply negb_false_iff, Z.eqb_eq in Hsc. apply negb_false_iff in Hi. apply negb_false_iff, Z.eqb_eq in Ho.
  split; try done. destruct (rs_admission_issuer s) as [i|]; [|done]. by exists i.
Qed.

(** C24: the second path is activated only by an admission whose capability is alive and was issued
    by this session, for its session id and the owner of its first path, while the second path is
    absent.  Activation installs the admitted carrier and locators and the keys derived for slot
    one, kills the capability and forgets the schedule, and no admission activates the session
    again. *)
Theorem activation_authorized_once a budget s w s' w' :
  activate a budget (s, w) = (Ok (), (s', w')) →
  (∃ b x0 p1 p1' x,
    authorized s w a b x0 ∧ rs_paths s !! 1%nat = Some p1 ∧ pa_state p1 = PathAbsent ∧
    OVERHEAD ≤ budget ≤ 1280 ∧
    rs_paths s' !! 1%nat = Some p1' ∧ pa_state p1' = PathActive ∧ pa_budget p1' = budget ∧
    pa_binding p1' = Some (ad_binding a) ∧ pa_local_loc p1' = Some (ad_local_loc a) ∧
    pa_peer_loc p1' = Some (ad_peer_loc a) ∧ pa_session p1' = Some x ∧ slot1_session b x ∧
    rs_bootstrap s' = Some (set_schedule None b)) ∧
  rs_admission_issuer s' = None ∧ ao_capability (ad_owner a) ∉ live_capabilities (rw_caps w') ∧
  ∀ a' budget' w'', (activate a' budget' (s', w'')).1 ≠ Ok ().
Proof.
  intros H. unfold activate in H.
  destruct (binding_validate (ad_binding a)) as [[]| |]; cbn [map_err] in H; [|by inversion H..].
  destruct (is_ok (live s)) eqn:Hl; [|by inversion H]. cbn [negb] in H.
  assert (rs_paths (reap_preview w s) = rs_paths s ∧ rs_bootstrap (reap_preview w s) = rs_bootstrap s ∧
    rs_admission_issuer (reap_preview w s) = rs_admission_issuer s) as (Hpe & Hbe & Hie).
  { unfold reap_preview. destruct (rs_receive_preview s); [|done]. by destruct (lease_active w _). }
  set (s1 := reap_preview w s) in *.
  destruct (rs_paths s1 !! 1%nat) as [p1|] eqn:Hp1; [|by inversion H].
  destruct (_ || _) eqn:Hc; [by inversion H|].
  apply orb_false_iff in Hc as [[Habs%negb_false_iff%bool_decide_eq_true Hbud%negb_false_iff]%orb_false_iff _].
  destruct (checked_add _ _) as [g|]; [|by inversion H].
  destruct (admit_slot1_session a _) as [r [s3 w3]] eqn:Hadm.
  destruct r as [x| |]; [|by inversion H..]. injection H as <- <-.
  apply admit_slot1_inv in Hadm as (b & x0 & Hau & Hs1 & Hcaps & ->).
  assert (authorized s w a b x0) as Hauth.
  { destruct Hau as [Hi [Hb Hsc] H0 Ho]. cbn [rs_admission_issuer rs_bootstrap update_path set_paths rs_paths] in *.
    rewrite Hie in Hi. rewrite Hbe in Hb. split; try done.
    change (Z.to_nat 1) with 1%nat in H0. rewrite list_lookup_alter_ne, Hpe in H0 by done. done. }
  split; [|split; [done|split]].
  - exists b, x0, p1. eexists _, x. split; [done|]. rewrite Hpe in Hp1. split; [done|]. split; [done|].
    unfold budget_ok in Hbud. split; [lia|]. split.
    { cbn [rs_paths set_receive_generation event set_events update_path set_paths set_issuer set_bootstrap].
      change (Z.to_nat 1) with 1%nat. rewrite !list_lookup_alter_eq, Hpe, Hp1. reflexivity. }
    by split_and!.
  - cbn. rewrite Hcaps. set_solver.
  - intros a' budget' w'' Hac. unfold activate in Hac.
    set (s' := set_receive_generation _ _) in Hac.
    destruct (binding_validate (ad_binding a')) as [[]| |]; cbn [map_err fst] in Hac; [|done..].
    destruct (is_ok (live s')); [|done]. cbn [negb] in Hac.
    assert (rs_paths (reap_preview w'' s') = rs_paths s') as Hpr.
    { unfold reap_preview. destruct (rs_receive_preview s'); [|done]. by destruct (lease_active w'' _). }
    rewrite Hpr in Hac. subst s'.
    cbn [rs_paths set_receive_generation event set_events update_path set_paths set_issuer set_bootstrap] in Hac.
    change (Z.to_nat 1) with 1%nat in Hac. rewrite !list_lookup_alter_eq, Hp1 in Hac. done.
Qed.
End Activation.
