(* ===== verification/RedundantScenario.v ===== *)
(** * Concrete redundant sessions

    Two sessions built and activated by the modelled calls, over the arithmetic
    stand-ins for the cryptography: the instances at which the theorems on
    redundant sessions are evaluated. *)

From stdpp Require Import gmap sets.
From S2P Require Import Prelude Wire Checksum Codec HeaderRules Crypto SessionMsg Replay SessionCrypto Directional Client Server ServerInv Control Mobility DeliveryWindow Redundant RedundantInv RedundantRuns RedundantDelivery Activation.
Import Toy.
#[local] Open Scope Z_scope.
#[local] Existing Instance release_build.

Definition rs_binding (n : Z) : ObservedBinding := Native n [2; 0; 0; 0; 0; n].
Definition rs_world : RWorld := mkRWorld world_init (mkCaps 1 ∅) 1 ∅ 1.

(** The two ends of one session. *)
Definition rs_boot (client : bool) : Profile3Bootstrap :=
  if client then bootstrap_new 7 demo_src demo_dst 1280 1 2 demo_key demo_key demo_session
  else bootstrap_new 7 demo_dst demo_src 1280 2 1 demo_key demo_key demo_session.

(** A state after a call that is known to succeed. *)
Definition started (client : bool) : RState :=
  match redundant_new (rs_boot client) (rs_binding 1) 100 rs_world with
  | (Ok s, w) => (s, w)
  | (_, w) => (mkRedundant None [] SessionReleased 1 window_empty ∅ [] None 0 0 None, w)
  end.

Definition rs_admission (client : bool) (o : Profile3AdmissionOwner) : Profile3Admission :=
  mkAdmission o 7 5 (rs_binding 2) (if client then demo_src else demo_dst)
    (if client then demo_dst else demo_src) 1.

Definition admission (client : bool) : Profile3Admission :=
  match (issue_profile3_admission_owner 5 (started client)).1 with
  | Ok o => rs_admission client o
  | _ => rs_admission client (mkAdmissionOwner 0 0 (mkProfile3Binding 0) 0)
  end.
Definition issued (client : bool) : RState := (issue_profile3_admission_owner 5 (started client)).2.
Definition dual (client : bool) : RState := (activate (admission client) 1280 (issued client)).2.

Lemma rs_boot_wf client : wf_bootstrap (rs_boot client).
Proof.
  destruct client; split; try compute_decide; try done.
  all: first [split_and!; done|intros k [= <-]; compute_decide|intros x [= <-]; split; [exists ∅; apply repr_new|split; [compute_decide|compute_decide]]|idtac].
Qed.

Lemma started_run client : rrun (mkRSys (started client) [] [] []).
Proof.
  assert (∃ s w, redundant_new (rs_boot client) (rs_binding 1) 100 rs_world = (Ok s, w)) as (s & w & H).
  { destruct client; eexists _, _; reflexivity. }
  unfold started. rewrite H. eapply rrun_new; [apply rs_boot_wf| |exact H]. by vm_compute.
Qed.

Lemma dual_run client : rrun (mkRSys (dual client) [] [] []).
Proof.
  eapply rrun_step; [|apply rs_call, call_activate; by destruct client; compute_decide].
  eapply rrun_step; [apply started_run|]. apply rs_call, call_issue.
Qed.

Lemma dual_wf client : wf_redundant (dual client).1.
Proof. apply (ro_session _ (rrun_ok _ (dual_run client))). Qed.

Definition rs_text : bytes := [1; 2; 3].
Definition rs_sent : list OutboundPacket :=
  match (outbound rs_text (dual true)).1 with Ok (Enqueued _ os) => os | _ => [] end.
Definition rs_packet (slot : nat) : bytes :=
  match rs_sent !! slot with Some o => <[5%nat := 9]> (op_packet o) | None => [] end.

Lemma rs_outbound : outbound rs_text (dual true) = (Ok (Enqueued 100 rs_sent), (outbound rs_text (dual true)).2).
Proof. vm_compute. reflexivity. Qed.

Lemma dual_pair client : dual client = ((dual client).1, (dual client).2).
Proof. by destruct (dual client). Qed.

(** The path of a slot and its session. *)
Definition rs_path (client : bool) (slot : nat) : Path :=
  default (new_path PathAbsent None None None 0 None) (rs_paths (dual client).1 !! slot).
Definition rs_session (client : bool) (slot : nat) : DirectionalSession :=
  default demo_session (pa_session (rs_path client slot)).

Lemma rs_linked slot :
  slot = 0%nat ∨ slot = 1%nat →
  linked_path (dual true).1 (dual false).1 slot 87 (rs_path true slot) (rs_path false slot)
    (rs_session true slot) (rs_session false slot).
Proof.
  intros Hslot. split.
  1, 2: destruct Hslot as [-> | ->]; split_and!; vm_compute; reflexivity.
  - destruct Hslot as [-> | ->]; split; vm_compute; reflexivity.
  - destruct Hslot as [-> | ->]; vm_compute; reflexivity.
  - exists ∅. destruct Hslot as [-> | ->].
    + assert (replay (rs_session false 0) = window_new) as -> by (vm_compute; reflexivity).
      assert (next (send_counters (rs_session true 0)) = 1) as -> by (vm_compute; reflexivity).
      split; [apply repr_new|]. split; [apply demo_acceptable|done].
    + assert (replay (rs_session false 1) = window_new) as -> by (vm_compute; reflexivity).
      assert (next (send_counters (rs_session true 1)) = 1) as -> by (vm_compute; reflexivity).
      split; [apply repr_new|]. split; [apply demo_acceptable|done].
  - destruct Hslot as [-> | ->]; split; vm_compute; congruence.
Qed.

(** ** Witnesses *)

Lemma redundant_invariant_witness :
  rrun (mkRSys (dual true) [] [] []) ∧ wf_redundant (dual true).1 ∧ active_slots (dual true).1 = [0; 1].
Proof.
  split; [apply dual_run|]. split; [|vm_compute; reflexivity].
  apply (redundant_invariant (mkRSys (dual true) [] [] [])), dual_run.
Defined.

Lemma outbound_all_or_nothing_witness :
  outbound rs_text (dual true) = (Ok (Enqueued 100 rs_sent), (outbound rs_text (dual true)).2) ∧
  length rs_sent = 2%nat ∧
  outbound_result (dual true).1 (dual true).2 rs_text (Ok (Enqueued 100 rs_sent)) (outbound rs_text (dual true)).2.
Proof.
  split; [apply rs_outbound|]. split; [vm_compute; reflexivity|].
  pose proof (outbound_all_or_nothing (dual true).1 (dual true).2 rs_text (dual_wf true) ltac:(compute_decide)) as H.
  rewrite <-dual_pair, rs_outbound in H. exact H.
Defined.

Lemma redundant_delivery_witness :
  ∃ oi oj, oi ∈ rs_sent ∧ oj ∈ rs_sent ∧ op_slot oi = 1 ∧ op_slot oj = 0 ∧
    let '(r1, σ1) := inbound 1 (rs_binding 2) (<[5%nat := 9]> (op_packet oi)) 1000 (dual false) in
    let '(r2, σ2) := inbound 0 (rs_binding 1) (<[5%nat := 3]> (op_packet oj)) 1001 σ1 in
    r1 = Ok (Delivered rs_text) ∧ r2 = Ok Suppressed.
Proof.
  rewrite (dual_pair false).
  apply (redundant_delivery (dual true).1 (dual true).2 (dual false).1 (dual false).2 rs_text 100 rs_sent
    (outbound rs_text (dual true)).2 1 0 (rs_path true 1) (rs_path true 0) (rs_path false 1) (rs_path false 0)
    (rs_session true 1) (rs_session true 0) (rs_session false 1) (rs_session false 0)
    (rs_binding 2) (rs_binding 1) 9 3 1000 1001).
  - apply dual_wf.
  - apply dual_wf.
  - eexists _, _. split_and!; vm_compute; reflexivity.
  - compute_decide.
  - rewrite <-dual_pair. apply rs_outbound.
  - apply rs_linked. by right.
  - apply rs_linked. by left.
  - done.
  - vm_compute. reflexivity.
  - vm_compute. reflexivity.
  - vm_compute. reflexivity.
  - vm_compute. reflexivity.
  - vm_compute. reflexivity.
  - intros [H|H]; vm_compute in H; discriminate H.
  - vm_compute. reflexivity.
  - compute_decide.
  - done.
  - compute_decide.
  - done.
Defined.

(** The peer receives both copies; the second is authenticated, judged equal and suppressed. *)
Definition rs_first : outcome RedundantError.t InboundPreview * RState :=
  preview_inbound 0 (rs_binding 1) (rs_packet 0) 1000 (dual false).

Lemma delivery_accepted_once_witness :
  ∃ x, rrun x ∧ ry_accepted x = [100] ∧ NoDup (ry_accepted x).
Proof.
  destruct (preview_inbound 0 (rs_binding 1) (rs_packet 0) 1000 (dual false)) as [r σ] eqn:Hp.
  assert (rrun (mkRSys σ (match r with Ok p => [p] | _ => [] end) [] [])) as Hr1.
  { eapply rrun_step; [apply (dual_run false)|]. eapply (rs_preview 0); [|exact Hp]. compute_decide. }
  destruct r as [p| |]; [|exfalso|exfalso].
  2,3: apply (f_equal (λ x, is_ok x.1)) in Hp; vm_compute in Hp; discriminate Hp.
  destruct (commit_inbound p σ) as [r2 σ2] eqn:Hc.
  assert (rrun (mkRSys σ2 [] [] (accepts_id r2 p ++ []))) as Hr2.
  { eapply rrun_step; [exact Hr1|]. by apply (rs_commit p σ r2 σ2 [] []). }
  eexists. split; [exact Hr2|]. split; [|by apply (delivery_accepted_once _ Hr2)].
  assert (accepts_id r2 p = match rs_first with
    | (Ok p, σ) => accepts_id (commit_inbound p σ).1 p | _ => [] end) as Heq.
  { unfold rs_first. by rewrite Hp, Hc. }
  cbn [ry_accepted]. rewrite Heq. vm_compute. reflexivity.
Defined.

Lemma activation_authorized_once_witness :
  (activate (admission true) 1280 (issued true)).1 = Ok () ∧
  ao_capability (ad_owner (admission true)) ∉ live_capabilities (rw_caps (dual true).2) ∧
  ∀ a' budget' w'', (activate a' budget' ((dual true).1, w'')).1 ≠ Ok ().
Proof.
  split; [vm_compute; reflexivity|].
  assert (activate (admission true) 1280 ((issued true).1, (issued true).2) =
    (Ok (), ((dual true).1, (dual true).2))) as H by (vm_compute; reflexivity).
  destruct (activation_authorized_once _ _ _ _ _ _ H) as (_ & _ & Hc & Hn). by split.
Defined.

Lemma rs_copy : ∃ x', copy_for (dual false).1 0 100 rs_text (rs_packet 0) x'.
Proof.
  destruct (copy_from_packet (dual true).1 (dual false).1 0 100 rs_text (rs_path true 0) (rs_path false 0)
    (rs_session true 0) (rs_session false 0) (default (mkOutboundPacket 0 (rs_binding 1) []) (rs_sent !! 0%nat)) 9)
    as [x' Hx'].
  - apply dual_wf.
  - vm_compute. reflexivity.
  - apply dual_wf.
  - eexists _, _. split_and!; vm_compute; reflexivity.
  - apply rs_linked. by left.
  - split; [vm_compute; reflexivity|]. split; [vm_compute; reflexivity|].
    split; [vm_compute; reflexivity|]. split; [vm_compute; reflexivity|].
    exists demo_data, (rs_session true 0). split; [vm_compute; reflexivity|].
    split; vm_compute; reflexivity.
  - done.
  - compute_decide.
  - compute_decide.
  - done.
  - exists x'. assert (rs_packet 0 = <[5%nat := 9]> (op_packet
      (default (mkOutboundPacket 0 (rs_binding 1) []) (rs_sent !! 0%nat)))) as -> by (vm_compute; reflexivity).
    exact Hx'.
Qed.

Lemma dual_ready : ready (dual false).1 0 (rs_binding 1).
Proof.
  split; [apply dual_wf|vm_compute; reflexivity..| |vm_compute; reflexivity].
  intros p Hp. assert (Some p = Some (rs_path false 0)) as [= ->].
  { rewrite <-Hp. vm_compute. reflexivity. }
  vm_compute. reflexivity.
Qed.

Lemma copy_verdict_witness :
  let '(r, (s', _)) := inbound 0 (rs_binding 1) (rs_packet 0) 1000 ((dual false).1, (dual false).2) in
  r = Ok (Delivered rs_text) ∧ rs_dedup s' !! 100 = Some (mkDedup rs_text 31000).
Proof.
  destruct rs_copy as [x' Hx].
  assert (rs_delivered (dual false).1 = window_empty) as Hwin by (vm_compute; reflexivity).
  pose proof (copy_verdict (dual false).1 (dual false).2 0 (rs_binding 1) 100 rs_text (rs_packet 0) 1000 x' ∅
    dual_ready Hx ltac:(lia) ltac:(rewrite Hwin; apply represents_empty)) as H.
  destruct (inbound 0 (rs_binding 1) (rs_packet 0) 1000 ((dual false).1, (dual false).2)) as [r [s' w']].
  destruct H as (_ & _ & _ & _ & H). destruct H as (Hr & Hdd & _); [by rewrite Hwin|done| |].
  - unfold beyond_gap. by rewrite Hwin.
  - split; [exact Hr|exact Hdd].
Defined.

(** ** What the runs show *)

(** Removing a path that is already removed is reported as done, and still takes the pending preview
    of the other path away: the preview can no longer be committed. *)
Theorem repeated_removal_drops_preview :
  match preview_inbound 0 (rs_binding 1) (rs_packet 0) 1000 (remove_path 1 (dual false)).2 with
  | (Ok p, σ) =>
      path_state σ.1 1 = Some PathRemoved ∧ is_ok (commit_inbound p σ).1 = true ∧
      (remove_path 1 σ).1 = Ok () ∧
      (commit_inbound p (remove_path 1 σ).2).1 = Err RedundantError.Replay
  | _ => False
  end.
Proof. vm_compute. done. Qed.
