(* ===== verification/MoveCli.v ===== *)
(** * The mobility program: arguments and descriptors (src/rust/crates/r8-mobility/src/main.rs)

    The command line of the mobility endpoint, with the reading of a decimal
    fraction as the standard library does it; clocks, records and the schedule on
    descriptors; sending and receiving datagrams.  The two modes are in
    [MoveClient.v] and [MoveServer.v]. *)

From S2P Require Import Prelude Wire Checksum Codec Crypto SessionMsg Control Text Loc Udp SessionCli.
From stdpp Require Import gmap strings.
#[local] Open Scope Z_scope.
#[local] Existing Instance SessionError.eq_dec.
#[local] Existing Instance MobilityError.eq_dec.

(** ** Decimal fractions *)

(** A finite number is [m * 2 ^ e]. *)
Inductive f64 : Set := NaN | Inf (negative : bool) | Fin (negative : bool) (m e : Z).

(** [n / d] to the nearest integer, ties to even. *)
Definition round_half_even (n d : Z) : Z :=
  let q := n / d in let r := n mod d in
  if (2 * r <? d) || ((2 * r =? d) && Z.even q) then q else q + 1.

(** [n / d * 2 ^ - e] as a fraction. *)
Definition scaled (n d e : Z) : Z * Z := if 0 <=? e then (n, d * 2 ^ e) else (n * 2 ^ (- e), d).

(** The double nearest to [n / d], for positive [n] and [d]. *)
Definition nearest (negative : bool) (n d : Z) : f64 :=
  let k := Z.log2 n - Z.log2 d in
  let '(n0, d0) := scaled n d (k - 52) in
  let e := Z.max (-1074) (if n0 / d0 <? 2 ^ 52 then k - 53 else k - 52) in
  let '(n1, d1) := scaled n d e in
  let m := round_half_even n1 d1 in
  if 2 ^ 1024 <=? m * 2 ^ Z.max 0 e then Inf negative else Fin negative m e.

Fixpoint span_digits (s : bytes) : bytes * bytes :=
  match s with
  | c :: s' => if (48 <=? c) && (c <=? 57) then let '(ds, r) := span_digits s' in (c - 48 :: ds, r) else ([], s)
  | [] => ([], [])
  end.

Definition decimal (ds : bytes) : Z := foldl (λ v d, 10 * v + d) 0 ds.

(** The exponent stops to grow once it is past [0x10000]. *)
Definition saturating_decimal (ds : bytes) : Z := foldl (λ v d, if v <? 0x10000 then 10 * v + d else v) 0 ds.

Definition split_sign (s : bytes) : bool * bytes :=
  match s with 45 :: s => (true, s) | 43 :: s => (false, s) | _ => (false, s) end.

(** The exponent after [e]; [None] when it has no digit. *)
Definition parse_exponent (s : bytes) : option (Z * bytes) :=
  let '(neg, s) := split_sign s in
  let '(ds, s) := span_digits s in
  match ds with
  | [] => None
  | _ => Some ((if neg then - saturating_decimal ds else saturating_decimal ds), s)
  end.

Definition lower (c : Z) : Z := if (65 <=? c) && (c <=? 90) then c + 32 else c.

Definition parse_special (negative : bool) (s : bytes) : option f64 :=
  let s := lower <$> s in
  if beq s (ascii_bytes "inf") || beq s (ascii_bytes "infinity") then Some (Inf negative) else
  if beq s (ascii_bytes "nan") then Some NaN else None.

(** [str::parse] at [f64] *)
Definition parse_f64 (text : string) : option f64 :=
  let '(neg, s) := split_sign (ascii_bytes text) in
  let '(whole, s1) := span_digits s in
  let '(part, s2) := match s1 with 46 :: s1 => span_digits s1 | _ => ([], s1) end in
  if (length whole + length part =? 0)%nat then parse_special neg s else
  e ← match s2 with
      | c :: s3 => if lower c =? 101 then parse_exponent s3 else Some (0, s2)
      | [] => Some (0, [])
      end;
  let '(e, rest) := (e : Z * bytes) in
  match rest with
  | [] =>
      let m := decimal (whole ++ part) in
      let e := e - len part in
      Some (if m =? 0 then Fin neg 0 0 else
            if 0 <=? e then nearest neg (m * 10 ^ e) 1 else nearest neg m (10 ^ (- e)))
  | _ => parse_special neg s
  end.

(** [x.is_finite() && !(x <= 0.0)], and the value of such a number. *)
Definition positive_finite (x : f64) : option (Z * Z) :=
  match x with Fin false m e => if m =? 0 then None else Some (m, e) | _ => None end.

(** [Duration::from_secs_f64] of a positive number, in nanoseconds. *)
Definition from_secs_f64 {E} (x : Z * Z) : outcome E Z :=
  let '(m, e) := x in
  let '(n, d) := scaled (m * 1000000000) 1 (- e) in
  if 2 ^ 64 * 1000000000 <=? n / d then Panic else Ok (round_half_even n d).

Example f64_values :
  (λ s, x ← parse_f64 s; positive_finite x) <$> ["5"; "0.5"; "-1"; "1e400"; "nan"; ".5e1"; "5."; "."; "1e"; "0x1"]%string =
  [Some (5 * 2 ^ 50, -50); Some (2 ^ 52, -53); None; None; None; Some (5 * 2 ^ 50, -50);
   Some (5 * 2 ^ 50, -50); None; None; None] ∧
  (λ s, x ← parse_f64 s; x ← positive_finite x; Some (from_secs_f64 (E:=unit) x)) <$>
    ["0.1"; "5"; "1e-300"; "1e20"; "0.0000000025"]%string =
  [Some (Ok 100000000); Some (Ok 5000000000); Some (Ok 0); Some Panic; Some (Ok 3)].
Proof. by vm_compute. Qed.

Module R8move.

Definition BUDGET : Z := 1252.
Definition RECV_EXTRA : Z := 1.

Inductive CliError : Set :=
| Session (error : SessionError.t) | Mobility (error : MobilityError.t) | Io | Config.

#[export] Instance CliError_eq_dec : EqDecision CliError.
Proof. solve_decision. Defined.

Definition as_str (e : CliError) : string :=
  match e with
  | Session e => SessionError.as_str e
  | Mobility e => MobilityError.as_str e
  | Io => "IO"
  | Config => "CONFIG"
  end.

Definition classify_send_result (result : io_error + Z) (length : Z) : outcome CliError unit :=
  match result with
  | inr written => if written =? length then Ok () else Err Io
  | inl e => if is_budget_send_error e then Err (Session SessionError.Budget) else Err Io
  end.

Inductive Command : Set := Serve | Connect.
Inductive MoveMode : Set := Abrupt | Mbb.
Inductive MovingRole : Set := Role1 | Role2.

#[export] Instance Command_eq_dec : EqDecision Command.
Proof. solve_decision. Defined.
#[export] Instance MoveMode_eq_dec : EqDecision MoveMode.
Proof. solve_decision. Defined.
#[export] Instance MovingRole_eq_dec : EqDecision MovingRole.
Proof. solve_decision. Defined.

Record Fds : Set := mkFds {
  fd_ready : option Z;
  fd_schedule : option Z;
  fd_gate : option Z;
  fd_cutover_gate : option Z;
  fd_scheduled : option Z;
  fd_attempt : option Z;
  fd_sent : option Z;
  fd_events : option Z;
  fd_cpu : option Z;
}.

Record Options : Set := mkOptions {
  command : Command;
  seed : bytes;
  peer_key : bytes;
  service : Z;
  server_context : Z;
  old : bytes;
  opt_peer_loc : bytes;
  new : bytes;
  bind : SocketAddr;
  candidate_bind : SocketAddr;
  peer : option SocketAddr;
  policy : Z;
  budget : Z;
  timeout : Z;
  message : bytes;
  mode : MoveMode;
  moving_role : MovingRole;
  stream_rate : Z;
  stream_start_ns : Z;
  stream_cutover_ns : Z;
  stream_end_ns : Z;
  fds : Fds;
  max_sessions : Z;
  expected_post_move : Z;
}.

Record StreamPlan : Set := mkPlan {
  start_ns : Z;
  cutover_ns : Z;
  end_ns : Z;
  period_ns : Z;
  next_sequence : Z;
}.

Definition server_complete (complete expected : Z) (stream_end : option Z) (now_ns : Z) : bool :=
  (expected <=? complete) && match stream_end with Some end_ns => end_ns <=? now_ns | None => true end.

Definition counts_post_move_packet (promoted : bool) (endpoint target : SocketAddr) : bool :=
  promoted && bool_decide (endpoint = target).

(** ** Values *)

Fixpoint hex_loop (s : bytes) (ids : list nat) : outcome CliError bytes :=
  match ids with
  | [] => Ok []
  | i :: ids =>
      digits ← R8session.str_slice s i (i + 2);
      b ← ok_or (from_str_radix 16 u8_max digits) Config;
      l ← hex_loop s ids;
      Ok (b :: l)
  end.

Definition hex (text : string) : outcome CliError bytes :=
  let s := ascii_bytes text in
  if negb (len s mod 2 =? 0) then Err Config else
  hex_loop s ((λ i, 2 * i)%nat <$> seq 0 (length s / 2)).

Definition fixed (n : nat) (text : string) : outcome CliError bytes :=
  l ← hex text; if (length l =? n)%nat then Ok l else Err Config.

(** The first window of two arguments that begins with the flag. *)
Fixpoint optional (args : list string) (flag : string) : option string :=
  match args with
  | a :: ((b :: _) as rest) => if bool_decide (a = flag) then Some b else optional rest flag
  | _ => None
  end.

Definition value (args : list string) (flag : string) : outcome CliError string :=
  ok_or (optional args flag) Config.

Definition number {A} (parse : string → option A) (args : list string) (flag : string) :
    outcome CliError A :=
  v ← value args flag; ok_or (parse v) Config.

Definition loc (args : list string) (flag : string) : outcome CliError bytes :=
  v ← value args flag; ok_or (parse_loc v) Config.

Definition endpoint (args : list string) (flag default_text : string) : outcome CliError SocketAddr :=
  ok_or (parse_socket_addr (default default_text (optional args flag))) Config.

(** An optional number, with its default. *)
Definition parsed {A} (parse : string → option A) (default : A) (args : list string) (flag : string) :
    outcome CliError A :=
  match optional args flag with Some v => ok_or (parse v) Config | None => Ok default end.

Definition VALUE_FLAGS : list string :=
  ["--local-seed-hex"; "--peer-public-key-hex"; "--service-context"; "--server-context-id"; "--address";
   "--peer-address"; "--new-address"; "--bind"; "--candidate-bind"; "--peer"; "--policy";
   "--binding-budget"; "--timeout"; "--message-hex"; "--mode"; "--moving-role"; "--max-sessions";
   "--expected-post-move"; "--stream-rate"; "--stream-start-ns"; "--stream-cutover-ns";
   "--stream-end-ns"; "--ready-fd"; "--schedule-fd"; "--gate-fd"; "--cutover-gate-fd";
   "--scheduled-fd"; "--attempt-fd"; "--sent-fd"; "--events-fd"; "--cpu-fd"]%string.

Definition ISOLATED : string := "--allow-isolated-underlay".

Fixpoint validate_loop (command : Command) (seen : gset string) (args : list string) :
    outcome CliError unit :=
  match args with
  | [] => Ok ()
  | flag :: rest =>
      if bool_decide (flag = ISOLATED) then
        if bool_decide (flag ∈ seen) then Err Config else validate_loop command ({[flag]} ∪ seen) rest
      else if negb (bool_decide (flag ∈ VALUE_FLAGS)) || bool_decide (flag ∈ seen) then Err Config else
      match rest with
      | [] => Err Config
      | v :: rest =>
          if R8session.starts_with_dashes v
             || (bool_decide (command = Serve)
                 && (bool_decide (flag = "--peer"%string) || bool_decide (flag = "--message-hex"%string)))
          then Err Config else validate_loop command ({[flag]} ∪ seen) rest
      end
  end.

Definition validate_args (args : list string) (command : Command) : outcome CliError unit :=
  validate_loop command ∅ (drop 2 args).

Definition allowed_underlay (address : SocketAddr) (isolated : bool) : bool :=
  match address with
  | V4 ip _ => is_loopback address || (isolated && (is_private ip || is_link_local ip))
  | V6 ip _ _ _ => is_loopback address || (isolated && is_unicast_link_local ip)
  end.

(** ** Options *)

Definition fds_of (args : list string) : outcome CliError Fds :=
  let fd := λ flag, parsed (λ v, Some <$> R8session.parse_i32 v) None args flag in
  ready ← fd "--ready-fd"%string; schedule ← fd "--schedule-fd"%string; gate ← fd "--gate-fd"%string;
  cutover_gate ← fd "--cutover-gate-fd"%string; scheduled ← fd "--scheduled-fd"%string;
  attempt ← fd "--attempt-fd"%string; sent ← fd "--sent-fd"%string; events ← fd "--events-fd"%string;
  cpu ← fd "--cpu-fd"%string;
  Ok (mkFds ready schedule gate cutover_gate scheduled attempt sent events cpu).

Definition some {A} (o : option A) : bool := bool_decide (is_Some o).

(** What the numbers, descriptors and modes must not be. *)
Definition inconsistent (command : Command) (role : MovingRole)
    (service server_context max_sessions expected rate start cutover end_ns : Z) (f : Fds) : bool :=
  let all := [fd_ready f; fd_schedule f; fd_gate f; fd_cutover_gate f; fd_scheduled f; fd_attempt f;
              fd_sent f; fd_events f; fd_cpu f] in
  let stream_fds := [fd_scheduled f; fd_attempt f; fd_sent f; fd_events f; fd_cpu f; fd_schedule f;
                     fd_gate f; fd_cutover_gate f] in
  (service =? 0) || (server_context =? 0) || (max_sessions =? 0) || (expected =? 0)
  || existsb (λ o, match o with Some fd => fd <? 0 | None => false end) all
  || negb (Bool.eqb (some (fd_schedule f)) (some (fd_gate f)))
  || (some (fd_cutover_gate f)
      && (negb (some (fd_schedule f)) || (rate =? 0)
          || negb ((bool_decide (command = Connect) && bool_decide (role = Role1))
                   || (bool_decide (command = Serve) && bool_decide (role = Role2)))))
  || ((rate =? 0) && existsb some stream_fds)
  || (negb (rate =? 0)
      && (negb (1000000000 mod rate =? 0)
          || (some (fd_schedule f) && (negb (start =? 0) || negb (cutover =? 0) || negb (end_ns =? 0)))
          || (negb (some (fd_schedule f))
              && ((start =? 0) || (cutover =? 0) || (end_ns =? 0) || (cutover <=? start)
                  || (end_ns <=? cutover))))).

Definition options (args : list string) : outcome CliError Options :=
  command ← match args with
            | _ :: c :: _ =>
                if bool_decide (c = "serve"%string) then Ok Serve else
                if bool_decide (c = "connect"%string) then Ok Connect else Err Config
            | _ => Err Config
            end;
  validate_args args command ;;
  let isolated := bool_decide (ISOLATED ∈ args) in
  budget ← parsed (parse_unsigned usize_max) BUDGET args "--binding-budget";
  timeout ← parsed parse_f64 (Fin false (5 * 2 ^ 50) (-50)) args "--timeout";
  if negb ((48 <=? budget) && (budget <=? BUDGET)) then Err Config else
  timeout ← ok_or (positive_finite timeout) Config;
  bind ← endpoint args "--bind" (match command with Serve => "127.0.0.1:52818" | Connect => "127.0.0.1:0" end);
  candidate_bind ← endpoint args "--candidate-bind" "127.0.0.1:0";
  peer ← match command with
         | Connect => a ← number parse_socket_addr args "--peer"; Ok (Some a)
         | Serve => Ok None
         end;
  if negb (allowed_underlay bind isolated) || negb (allowed_underlay candidate_bind isolated)
     || match peer with Some a => negb (allowed_underlay a isolated) | None => false end
  then Err Config else
  service ← number (parse_unsigned u32_max) args "--service-context";
  server_context ← number (parse_unsigned u32_max) args "--server-context-id";
  policy ← parsed (parse_unsigned u32_max) 1 args "--policy";
  max_sessions ← parsed (parse_unsigned usize_max) 1 args "--max-sessions";
  expected ← parsed (parse_unsigned usize_max) 1 args "--expected-post-move";
  rate ← parsed (parse_unsigned u64_max) 0 args "--stream-rate";
  start ← parsed (parse_unsigned u64_max) 0 args "--stream-start-ns";
  cutover ← parsed (parse_unsigned u64_max) 0 args "--stream-cutover-ns";
  end_ns ← parsed (parse_unsigned u64_max) 0 args "--stream-end-ns";
  f ← fds_of args;
  let role_text := default "1"%string (optional args "--moving-role") in
  role ← (if bool_decide (role_text = "1"%string) then Ok Role1 else
          if bool_decide (role_text = "2"%string) then Ok Role2 else Err Config);
  if inconsistent command role service server_context max_sessions expected rate start cutover end_ns f
  then Err Config else
  message ← match optional args "--message-hex" with Some v => hex v | None => Ok (replicate 64 0) end;
  if bool_decide (command = Connect) && ((len message =? 0) || (sat_sub budget 76 <? len message))
  then Err Config else
  if bool_decide (command = Serve) && bool_decide (role = Role2) && negb (max_sessions =? 1)
  then Err Config else
  let mode_text := default "mbb"%string (optional args "--mode") in
  mode ← (if bool_decide (mode_text = "abrupt"%string) then Ok Abrupt else
          if bool_decide (mode_text = "mbb"%string) then Ok Mbb else Err Config);
  seed ← (v ← value args "--local-seed-hex"; fixed 32 v);
  peer_key ← (v ← value args "--peer-public-key-hex"; fixed 32 v);
  old ← loc args "--address";
  peer_loc ← loc args "--peer-address";
  new ← loc args "--new-address";
  timeout ← from_secs_f64 timeout;
  Ok (mkOptions command seed peer_key service server_context old peer_loc new bind candidate_bind peer
        policy budget timeout message mode role rate start cutover end_ns f max_sessions expected).

(** The repository's test of the validation. *)
Example scheduled_fd_is_accepted :
  validate_args ["r8-mobility"; "connect"; "--scheduled-fd"; "7"]%string Connect = Ok () ∧
  validate_args ["r8-mobility"; "connect"; "--scheduled-fd"; "--gate-fd"]%string Connect = Err Config ∧
  validate_args ["r8-mobility"; "serve"; "--peer"; "127.0.0.1:1"]%string Serve = Err Config.
Proof. by vm_compute. Qed.

(** ** What the options are *)

(** An argument list as a list of items. *)
Inductive item : Set := Isolated | Value (flag v : string).

#[export] Instance item_eq_dec : EqDecision item.
Proof. solve_decision. Defined.

Definition words (i : item) : list string :=
  match i with Isolated => [ISOLATED] | Value flag v => [flag; v] end.
Definition item_flag (i : item) : string := match i with Isolated => ISOLATED | Value flag _ => flag end.

Definition item_ok (command : Command) (i : item) : Prop :=
  match i with
  | Isolated => True
  | Value flag v =>
      flag ∈ VALUE_FLAGS ∧ R8session.starts_with_dashes v = false ∧
      ¬ (command = Serve ∧ (flag = "--peer"%string ∨ flag = "--message-hex"%string))
  end.

(** The value an item list gives to a flag. *)
Definition given (items : list item) (flag : string) : option string :=
  head (omap (λ i, match i with Value f v => if bool_decide (f = flag) then Some v else None | Isolated => None end)
          items).

Lemma flag_dashes flag : flag ∈ VALUE_FLAGS → R8session.starts_with_dashes flag = true.
Proof.
  assert (Forall (λ f, R8session.starts_with_dashes f = true) VALUE_FLAGS) as H by (vm_compute; repeat constructor).
  rewrite Forall_forall in H. apply H.
Qed.

Lemma isolated_not_value : ISOLATED ∉ VALUE_FLAGS.
Proof. apply (bool_decide_eq_false (ISOLATED ∈ VALUE_FLAGS)). by vm_compute. Qed.

Lemma validate_loop_iff command seen args :
  validate_loop command seen args = Ok () ↔
  ∃ items, args = mjoin (words <$> items) ∧ Forall (item_ok command) items ∧
    NoDup (item_flag <$> items) ∧ ∀ f, f ∈ item_flag <$> items → f ∉ seen.
Proof.
  split.
  - revert seen. induction args as [args IH] using (induction_ltof1 _ length). unfold ltof in IH.
    intros seen. destruct args as [|flag rest]; [intros _; exists []; split_and!; [done|constructor|constructor|set_solver]|].
    simpl. case_bool_decide as Hiso.
    + case_bool_decide as Hin; [done|]. intros H. apply IH in H as (items & -> & Hok & Hnd & Hs); [|simpl; lia].
      exists (Isolated :: items). subst flag. split_and!; [done|by constructor| |].
      * constructor; [|done]. intros Hx. specialize (Hs _ Hx). set_solver.
      * intros f [->|Hf]%elem_of_cons; [done|]. specialize (Hs _ Hf). set_solver.
    + case_bool_decide as Hv; [|done]. case_bool_decide as Hin; [done|]. simpl. destruct rest as [|v rest]; [done|].
      destruct (R8session.starts_with_dashes v) eqn:Hd; [done|]. destruct (_ && _) eqn:Hserve; [done|].
      intros H. apply IH in H as (items & -> & Hok & Hnd & Hs); [|simpl; lia].
      exists (Value flag v :: items). split_and!; [done| | |].
      * constructor; [|done]. split_and!; [done..|]. intros [-> [-> | ->]]; done.
      * constructor; [|done]. intros Hx. specialize (Hs _ Hx). set_solver.
      * intros f [->|Hf]%elem_of_cons; [done|]. specialize (Hs _ Hf). set_solver.
  - intros (items & -> & Hok & Hnd & Hs). revert seen Hs. induction items as [|i items IH]; intros seen Hs; [done|].
    apply Forall_cons in Hok as [Hi Hok]. apply NoDup_cons in Hnd as [Hni Hnd].
    assert (∀ f, f ∈ item_flag <$> items → f ∉ {[item_flag i]} ∪ seen) as Hs'.
    { intros f Hf [->%elem_of_singleton|Hx]%elem_of_union; [done|]. by apply (Hs f); [apply elem_of_cons; right|]. }
    assert (item_flag i ∉ seen) as Hnew by (apply Hs, elem_of_cons; by left).
    specialize (IH Hok Hnd _ Hs'). destruct i as [|flag v]; simpl.
    + by rewrite bool_decide_eq_false_2.
    + destruct Hi as (Hv & Hd & Hserve). simpl in Hnew. rewrite (bool_decide_eq_false_2 (flag = ISOLATED)).
      2: { intros ->. by apply isolated_not_value. }
      rewrite (bool_decide_eq_true_2 (flag ∈ VALUE_FLAGS)), (bool_decide_eq_false_2 (flag ∈ seen)), Hd by done.
      simpl. rewrite <- bool_decide_or, <- bool_decide_and, bool_decide_eq_false_2 by done. apply IH.
Qed.

Lemma optional_items items flag command :
  flag ∈ VALUE_FLAGS → Forall (item_ok command) items →
  optional (mjoin (words <$> items)) flag = given items flag.
Proof.
  intros Hf Hok. assert (∀ v rest, R8session.starts_with_dashes v = false →
    optional (v :: rest) flag = optional rest flag) as Hskip.
  { intros v rest Hv. destruct rest as [|b rest]; [done|]. simpl. rewrite bool_decide_eq_false_2; [done|].
    intros ->. by rewrite flag_dashes in Hv. }
  induction Hok as [|i items Hi _ IH]; [done|]. destruct i as [|f v]; simpl.
  - destruct (mjoin _) as [|b rest]; [done|]. rewrite bool_decide_eq_false_2; [done|].
    intros <-. by apply isolated_not_value.
  - destruct Hi as (Hv & Hd & _). unfold given. simpl. case_bool_decide; [done|].
    change (optional (v :: mjoin (words <$> items)) flag = given items flag). by rewrite Hskip.
Qed.

(** The command line is unambiguous.  Validation accepts exactly the argument lists that are a
    sequence of options, each at most once, where an option is the bare switch or a known flag
    with a value that does not look like a flag, and serve has no peer or message; and on such a
    list every later search, which looks for a flag anywhere in the arguments, finds exactly the
    value given to that flag. *)
Theorem options_unambiguous program word rest command :
  R8session.starts_with_dashes program = false → R8session.starts_with_dashes word = false →
  (validate_args (program :: word :: rest) command = Ok () ↔
   ∃ items, rest = mjoin (words <$> items) ∧ Forall (item_ok command) items ∧
     NoDup (item_flag <$> items) ∧
     (∀ flag, flag ∈ VALUE_FLAGS → optional (program :: word :: rest) flag = given items flag) ∧
     (ISOLATED ∈ program :: word :: rest ↔ Isolated ∈ items)).
Proof.
  intros Hp Hw. unfold validate_args. change (drop 2 (program :: word :: rest)) with rest.
  rewrite validate_loop_iff. split.
  - intros (items & -> & Hok & Hnd & _). exists items. split_and!; [done..| |].
    + intros flag Hf. rewrite <- (optional_items items flag command) by done.
      assert (program ≠ flag) by (intros ->; by rewrite flag_dashes in Hp).
      assert (word ≠ flag) by (intros ->; by rewrite flag_dashes in Hw). simpl.
      rewrite bool_decide_eq_false_2 by done. destruct (mjoin _); [done|].
      by rewrite bool_decide_eq_false_2.
    + rewrite !elem_of_cons. split.
      * intros [<-|[<-|Hin]]; [by vm_compute in Hp|by vm_compute in Hw|].
        apply list_elem_of_join in Hin as (l & Hl & (i & -> & Hi)%list_elem_of_fmap).
        rewrite Forall_forall in Hok. specialize (Hok i Hi). destruct i as [|f v]; [done|].
        destruct Hok as (Hv & Hd & _). simpl in Hl. apply elem_of_cons in Hl as [<-|Hl].
        { by destruct isolated_not_value. }
        apply list_elem_of_singleton in Hl as <-. by vm_compute in Hd.
      * intros Hi. right. right. apply list_elem_of_join. exists [ISOLATED]. split; [by apply list_elem_of_singleton|].
        by apply (list_elem_of_fmap_2 words) in Hi.
  - intros (items & -> & Hok & Hnd & _). exists items. split_and!; [done..|set_solver].
Qed.

Lemma options_unambiguous_witness :
  ∃ items, ["--bind"; "127.0.0.1:1"; "--allow-isolated-underlay"]%string = mjoin (words <$> items) ∧
    given items "--bind"%string = Some "127.0.0.1:1"%string.
Proof.
  destruct (options_unambiguous "r8-mobility" "serve" ["--bind"; "127.0.0.1:1"; "--allow-isolated-underlay"]%string Serve)
    as [H _]; [by vm_compute..|]. destruct H as (items & Hi & _ & _ & Hg & _); [by vm_compute|].
  exists items. split; [exact Hi|]. rewrite <- Hg; [by vm_compute|]. compute_decide.
Defined.

End R8move.
