(* ===== verification/MoveIo.v ===== *)
(** * The mobility program: clocks, descriptors and sockets (src/rust/crates/r8-mobility/src/main.rs)

    The helpers of the two modes over the calls of [Udp.v], and the bookkeeping of
    the responder.  Theorems: a record is written and a schedule is read completely
    and in order whatever the lengths of the single calls, and a kernel that makes
    progress ends both loops; an echo counts once, and only for a message that was
    sent after the move. *)

From S2P Require Import Prelude Wire Checksum Codec Crypto SessionMsg Replay SessionCrypto Directional Client Server Control Text Loc Udp SessionCli MoveCli.
From stdpp Require Import gmap strings.
#[local] Open Scope Z_scope.
Import R8move.

Module R8moveIo.

(** [Instant + Duration] *)
Definition instant_add {E} (t d : Z) : outcome E Z :=
  if t + d <? 2 ^ 63 * 1000000000 then Ok (t + d) else Panic.
Definition micros (us : Z) : Z := us * 1000.
Definition secs (s : Z) : Z := s * 1000000000.
Definition EINTR : Z := 4.

Record CpuUsage : Set := mkCpu { timestamp_ns : Z; user_ns : Z; system_ns : Z }.

Definition timeval_ns (sec usec : Z) : outcome CliError Z :=
  if (sec <? 0) || (usec <? 0) || (1000000 <=? usec) then Err Io else
  let seconds := R8session.as_u64 sec * 1000000000 in
  if u64_max <? seconds then Err Io else ok_or (checked_add seconds (usec * 1000)) Io.

Definition cpu_record (before after : CpuUsage) : bytes :=
  be_bytes 8 (timestamp_ns before) ++ be_bytes 8 (user_ns before) ++ be_bytes 8 (system_ns before) ++
  be_bytes 8 (timestamp_ns after) ++ be_bytes 8 (user_ns after) ++ be_bytes 8 (system_ns after).

Section Machines.
Context `{C : Crypto}.

Definition binding (endpoint : SocketAddr) (selector : bytes) : outcome CliError UdpBinding :=
  map_err Session
    match endpoint with
    | V4 ip port => udp_ipv4 ip port 1 selector
    | V6 ip port _ _ => udp_ipv6 ip port 1 selector
    end.

Definition opaque_source (endpoint : SocketAddr) (key : bytes) : bytes :=
  hmac_sha256 key
    match endpoint with
    | V4 ip port => [4] ++ ip ++ be_bytes 2 port
    | V6 ip port _ _ => [6] ++ ip ++ be_bytes 2 port
    end.

Definition config (local peer : Identity) (o : Options) : HandshakeConfig :=
  let connecting := bool_decide (command o = Connect) in
  mkConfig local peer 0 (if connecting then old o else opt_peer_loc o)
    (if connecting then opt_peer_loc o else old o) (budget o) 256 (max_sessions o) (server_context o).

Definition identities (o : Options) : outcome CliError (bytes * Identity * Identity) :=
  let connecting := bool_decide (command o = Connect) in
  local ← map_err Session (identity_from_public_key (if connecting then 1 else 2) (service o)
            (ed25519_public (seed o)));
  peer ← map_err Session (identity_from_public_key (if connecting then 2 else 1) (service o) (peer_key o));
  Ok (seed o, local, peer).

End Machines.

Section Calls.
Context {K : Type} `{NC : Net K}.
Abbreviation M := (st K (stop CliError)).

(** The [?] operator. *)
Definition try {A} (m : outcome CliError A) : M A := lift_err id m.

Definition configure_df (socket : Z) : M unit :=
  r ← ask (SetSockOpt socket IPPROTO_IP IP_MTU_DISCOVER IP_PMTUDISC_DO);
  if r =? 0 then mret () else fail Io.

Definition random (n : nat) : M bytes :=
  r ← ask (GetRandom n);
  match r with Some b => mret b | None => fail (Session SessionError.RngFailure) end.

Fixpoint nonzero_loop (n : nat) (tries : nat) : M bytes :=
  match tries with
  | O => fail (Session SessionError.RngFailure)
  | S tries => value ← random n; if existsb (λ b, negb (b =? 0)) value then mret value else nonzero_loop n tries
  end.
Definition nonzero_random (n : nat) : M bytes := nonzero_loop n 4.

Definition scid : M Z := b ← nonzero_random 8; mret (be_value b).

Definition send (socket : Z) (packet : bytes) (peer : SocketAddr) : M unit :=
  if BUDGET <? len packet then fail (Session SessionError.Budget) else
  r ← ask (SendTo socket packet peer);
  try (classify_send_result r (len packet)).

Definition receive (socket timeout budget : Z) : M (bytes * SocketAddr) :=
  r ← set_read_timeout socket timeout;
  match r with
  | inl _ => fail Io
  | inr _ =>
      size ← try (ok_or (checked_add budget RECV_EXTRA) (Session SessionError.Budget));
      r ← ask (RecvFrom socket size);
      match r with
      | inr (data, peer) => if len data <=? budget then mret (data, peer)
                            else fail (Session SessionError.Budget)
      | inl e => if bool_decide (kind e = TimedOut) || bool_decide (kind e = WouldBlock)
                 then fail (Session SessionError.Timeout) else fail Io
      end
  end.

Definition now_ms {E} (start : Z) : st K E Z :=
  now ← ask Now; mret (saturating_duration_since now start / 1000000 mod 2 ^ 64).

Definition monotonic_ns : M Z :=
  '(r, (sec, nsec)) ← ask MonotonicClock;
  if negb (r =? 0) || (sec <? 0) || (nsec <? 0) then fail Io else
  let seconds := R8session.as_u64 sec * 1000000000 in
  if u64_max <? seconds then fail Io else
  try (ok_or (checked_add seconds (R8session.as_u64 nsec)) Io).

(** ** Descriptors *)

(** What [errno] says of a call that failed. *)
Definition interrupted : M bool := e ← ask Errno; mret (e =? EINTR).

Definition write_pass (fd : Z) (data : bytes) (offset : nat) : M (nat + unit) :=
  if (length data <=? offset)%nat then mret (inr ()) else
  written ← ask (WriteFd fd (drop offset data));
  if 0 <? written then mret (inl (offset + Z.to_nat written)%nat) else
  again ← (if written <? 0 then interrupted else mret false);
  if again : bool then mret (inl offset) else fail Io.

Definition write_all (n : nat) (fd : Z) (data : bytes) : M unit := loop n (write_pass fd data) 0%nat.

(** The bytes a call wrote, at an offset of the buffer. *)
Definition fill (buffer : bytes) (offset : nat) (data : bytes) : bytes :=
  take (length buffer) (take offset buffer ++ data ++ drop (offset + length data) buffer).

Definition read_pass (fd : Z) (x : nat * bytes) : M (nat * bytes + bytes) :=
  let '(offset, buffer) := x in
  if (length buffer <=? offset)%nat then mret (inr buffer) else
  '(read, data) ← ask (ReadFd fd (len buffer - Z.of_nat offset));
  if 0 <? read then mret (inl ((offset + Z.to_nat read)%nat, fill buffer offset (take (Z.to_nat read) data))) else
  again ← (if read <? 0 then interrupted else mret false);
  if again : bool then mret (inl (offset, buffer)) else fail Io.

Definition read_exact (n : nat) (fd : Z) (size : nat) : M bytes :=
  loop n (read_pass fd) (0%nat, replicate size 0).

Definition record (n : nat) (fd : option Z) (sequence timestamp : Z) : M unit :=
  match fd with
  | Some fd => write_all n fd (be_bytes 8 sequence ++ be_bytes 8 timestamp)
  | None => mret ()
  end.

Definition cpu_usage : M CpuUsage :=
  '(r, (us, uu), (ss, su)) ← ask Rusage;
  if negb (r =? 0) then fail Io else
  timestamp ← monotonic_ns;
  user ← try (timeval_ns us uu);
  system ← try (timeval_ns ss su);
  mret (mkCpu timestamp user system).

Definition write_cpu (n : nat) (fd : option Z) (before : CpuUsage) : M unit :=
  match fd with
  | Some fd => after ← cpu_usage; write_all n fd (cpu_record before after)
  | None => mret ()
  end.

Definition finish_cpu (n : nat) (o : Options) (before : option CpuUsage) : M unit :=
  match before with Some before => write_cpu n (fd_cpu (fds o)) before | None => mret () end.

Definition ready (n : nat) (fd : option Z) : M unit :=
  match fd with
  | Some fd => now ← monotonic_ns; write_all n fd (be_bytes 8 now)
  | None => mret ()
  end.

Definition read_stream_plan (n : nat) (o : Options) : M (option StreamPlan) :=
  if stream_rate o =? 0 then mret None else
  '(start, cutover, end_ns) ←
    match fd_schedule (fds o), fd_gate (fds o) with
    | Some schedule, Some gate =>
        b ← read_exact n schedule 24;
        read_exact n gate 1 ;;
        mret (be_value (take 8 b), be_value (take 8 (drop 8 b)), be_value (drop 16 b))
    | None, None => mret (stream_start_ns o, stream_cutover_ns o, stream_end_ns o)
    | _, _ => fail Config
    end;
  if (cutover <=? start) || (end_ns <=? cutover) then fail Config else
  mret (Some (mkPlan start cutover end_ns (1000000000 / stream_rate o) 0)).

Definition receive_timeout (deadline cap : Z) : M (option Z) :=
  now ← ask Now;
  let remaining := saturating_duration_since deadline now in
  mret (if remaining =? 0 then None else Some (Z.max (Z.min remaining cap) (micros 1))).

(** Sleep until the clock has reached an instant. *)
Definition wait_until (n : nat) (due : Z) : M unit :=
  loop n (λ _ : unit,
    now ← monotonic_ns;
    if now <? due then ask (Sleep (micros 100)) ;; mret (inl ()) else mret (inr ())) ().

Definition wait_for_stream_end (n : nat) (end_ns : Z) : M unit := wait_until n end_ns.

Definition await_cutover_gate (n : nat) (o : Options) (plan : StreamPlan) : M unit :=
  match fd_cutover_gate (fds o) with
  | Some fd => wait_until n (cutover_ns plan) ;; read_exact n fd 1 ;; mret ()
  | None => mret ()
  end.

End Calls.

(** When a sequence number of the plan is due. *)
Definition due_ns (plan : StreamPlan) : Z :=
  sat_add (start_ns plan) (sat_mul (next_sequence plan) (period_ns plan)).
Definition set_sequence (v : Z) (p : StreamPlan) : StreamPlan :=
  mkPlan (start_ns p) (cutover_ns p) (end_ns p) (period_ns p) v.

(** ** The bookkeeping of the responder *)

Record ResponderCompletion : Set := mkCompletion {
  initial_echoed : bool;
  post_echoes : Z;
  pending_post_sequences : list Z;
}.

Definition record_stream_send (sequence : Z) (promoted : bool) (c : ResponderCompletion) :=
  if promoted
  then mkCompletion (initial_echoed c) (post_echoes c) (pending_post_sequences c ++ [sequence])
  else c.

(** [Vec::swap_remove]: the last element takes the place. *)
Definition swap_remove {A} (i : nat) (l : list A) : list A :=
  match last l with
  | Some x => take (length l - 1) (<[i := x]> l)
  | None => []
  end.

Definition record_stream_echo (sequence : Z) (c : ResponderCompletion) : ResponderCompletion :=
  match list_find (λ p, p = sequence) (pending_post_sequences c) with
  | Some (i, _) =>
      mkCompletion (initial_echoed c) (sat_add (post_echoes c) 1) (swap_remove i (pending_post_sequences c))
  | None => c
  end.

Definition complete (expected : Z) (c : ResponderCompletion) : bool := expected <=? post_echoes c.

Definition completion_new : ResponderCompletion := mkCompletion false 0 [].

(** The repository's tests. *)
Example post_stream_echoes_require_a_sent_sequence :
  post_echoes (record_stream_echo 7 completion_new) = 0 ∧
  complete 1 (record_stream_echo 7 (record_stream_send 7 true completion_new)) = true ∧
  complete 1 (record_stream_echo 3 (record_stream_send 3 false completion_new)) = false.
Proof. by vm_compute. Qed.

Example cpu_record_has_six_network_order_words :
  let r := cpu_record (mkCpu 1 2 3) (mkCpu 4 5 6) in
  length r = 48%nat ∧ take 8 (drop 24 r) = be_bytes 8 4 ∧ drop 40 r = be_bytes 8 6.
Proof. by vm_compute. Qed.

(** ** Short writes and short reads *)

(** What the calls of a trace wrote to a descriptor, and what they read from it. *)
Definition wrote_of (fd : Z) (e : event) : bytes :=
  match e with
  | mkEvent _ c a =>
      match c in call A return A → bytes with
      | WriteFd fd' data => λ r, if fd' =? fd then take (Z.to_nat r) data else []
      | _ => λ _, []
      end a
  end.
Definition read_of (fd : Z) (e : event) : bytes :=
  match e with
  | mkEvent _ c a =>
      match c in call A return A → bytes with
      | ReadFd fd' _ => λ r, if fd' =? fd then take (Z.to_nat (fst r)) (snd r) else []
      | _ => λ _, []
      end a
  end.
Definition wrote (fd : Z) (t : list event) : bytes := t ≫= wrote_of fd.
Definition fetched (fd : Z) (t : list event) : bytes := t ≫= read_of fd.

Lemma wrote_call fd t e t' : wrote fd (t ++ [e] ++ t') = wrote fd t ++ wrote_of fd e ++ wrote fd t'.
Proof. unfold wrote. by rewrite bind_app. Qed.
Lemma fetched_call fd t e t' : fetched fd (t ++ [e] ++ t') = fetched fd t ++ read_of fd e ++ fetched fd t'.
Proof. unfold fetched. by rewrite bind_app. Qed.

(** write(2) and read(2): the count is at most what was asked, and the buffer holds it. *)
Definition posix (e : event) : Prop :=
  match e with
  | mkEvent _ c a =>
      match c in call A return A → Prop with
      | WriteFd _ data => λ r, r ≤ len data
      | ReadFd _ count => λ r, fst r ≤ count ∧ fst r ≤ len (snd r)
      | _ => λ _, True
      end a
  end.

Section Complete.
Context {K : Type} `{NC : Net K}.
Abbreviation T := (K * list event)%type.

Lemma emits_interrupted fd : emits (interrupted (K:=T)) (λ r t, wrote fd t = [] ∧ fetched fd t = []).
Proof. apply emits_bind, emits_ask. intros e. by apply emits_ret. Qed.

(** The end of a pass whose call moved nothing. *)
Lemma emits_retry {A} fd (r : Z) (a : A) (Q : outcome (stop CliError) A → list event → Prop) :
  (∀ t, wrote fd t = [] → fetched fd t = [] → Q (Ok a) t) →
  (∀ e t, Q (Err e) t) → (∀ t, Q Panic t) →
  emits (again ← (if r <? 0 then interrupted (K:=T) else mret false);
         if again : bool then mret a else fail Io) Q.
Proof.
  intros Ha Hf Hp. apply emits_bind. eapply (emits_mono _ (λ _ t, wrote fd t = [] ∧ fetched fd t = [])).
  { destruct (r <? 0); [apply emits_interrupted|by apply emits_ret]. }
  intros [[]|e|] t [Hw Hd]; [apply emits_ret|by apply emits_throw|done..].
  apply Ha; unfold wrote, fetched; by rewrite app_nil_r.
Qed.

(** A completed [write_all] has written the bytes, all and in order. *)
Lemma write_all_exact n fd data :
  emits (write_all (K:=T) n fd data) (λ r t, r = Ok () → Forall posix t → wrote fd t = data).
Proof.
  pose (I := λ (o : nat) (t : list event), Forall posix t → wrote fd t = take o data ∧ (o ≤ length data)%nat).
  refine (emits_loop _ _ I (λ r t, r = Ok () → Forall posix t → wrote fd t = data) 0%nat [] _ _ _);
    [|intros o t HI|done].
  { intros _. rewrite take_0. split; [done|lia]. }
  unfold write_pass. destruct (Nat.leb_spec (length data) o).
  - apply emits_ret. intros _ Hp. rewrite app_nil_r in *. destruct (HI Hp) as [-> _]. by apply take_ge.
  - apply emits_bind, emits_ask. intros r. destruct (Z.ltb_spec 0 r).
    + apply emits_ret. rewrite app_nil_r. intros [Ht Hr]%Forall_app. destruct (HI Ht) as [Hw Ho].
      rewrite Forall_singleton in Hr. simpl in Hr. rewrite <-(app_nil_r [_]), wrote_call, Hw. simpl.
      rewrite Z.eqb_refl, app_nil_r, take_take_drop. unfold len in Hr. rewrite length_drop in Hr. split; [done|lia].
    + apply (emits_retry fd); [|done..]. intros t' Hw _ Hp. apply Forall_app in Hp as [Ht _].
      rewrite wrote_call, Hw. destruct (HI Ht) as [<- Ho]. split; [|done]. simpl.
      rewrite Z.eqb_refl, app_nil_r. replace (Z.to_nat r) with 0%nat by lia. by rewrite take_0, app_nil_r.
Qed.

Lemma fill_prefix buffer offset data :
  (offset + length data ≤ length buffer)%nat →
  length (fill buffer offset data) = length buffer ∧
  take (offset + length data) (fill buffer offset data) = take offset buffer ++ data.
Proof.
  intros Hl. unfold fill. rewrite take_ge by (rewrite !length_app, length_take, length_drop; lia).
  split; [rewrite !length_app, length_take, length_drop; lia|].
  rewrite (assoc_L (++)), take_app_length'; [done|]. rewrite length_app, length_take. lia.
Qed.

(** A completed [read_exact] has the bytes that were read, all and in order. *)
Lemma read_exact_exact n fd size :
  emits (read_exact (K:=T) n fd size) (λ r t, ∀ b, r = Ok b → Forall posix t → fetched fd t = b ∧ length b = size).
Proof.
  pose (I := λ (x : nat * bytes) (t : list event), Forall posix t →
    fetched fd t = take x.1 x.2 ∧ (x.1 ≤ length x.2)%nat ∧ length x.2 = size).
  refine (emits_loop _ _ I (λ r t, ∀ b, r = Ok b → Forall posix t → fetched fd t = b ∧ length b = size)
    (0%nat, replicate size 0) [] _ _ _); [|intros [o b] t HI|done].
  { intros _. simpl. rewrite take_0, length_replicate. split; [done|split; [lia|done]]. }
  unfold read_pass. destruct (Nat.leb_spec (length b) o).
  - apply emits_ret. intros b' [= <-] Hp. rewrite app_nil_r in *. destruct (HI Hp) as (Hr & _ & Hs).
    split; [|done]. rewrite Hr. by apply take_ge.
  - apply emits_bind, emits_ask. intros [r d]. destruct (Z.ltb_spec 0 r).
    + apply emits_ret. rewrite app_nil_r. intros [Ht Hr]%Forall_app. destruct (HI Ht) as (Hw & Ho & Hs).
      rewrite Forall_singleton in Hr. simpl in Hr, Hw, Ho, Hs. unfold len in Hr.
      destruct (fill_prefix b o (take (Z.to_nat r) d)) as [Hfl Hft]; [rewrite length_take; lia|].
      rewrite length_take, Nat.min_l in Hft by lia.
      rewrite <-(app_nil_r [_]), fetched_call. simpl. rewrite Z.eqb_refl, app_nil_r, Hw, Hft, Hfl.
      split; [done|]. split; [lia|done].
    + apply (emits_retry fd); [|done..]. intros t' _ Hw Hp. apply Forall_app in Hp as [Ht _].
      rewrite fetched_call, Hw. destruct (HI Ht) as (<- & Hr). split; [|done]. simpl.
      rewrite Z.eqb_refl, app_nil_r. replace (Z.to_nat r) with 0%nat by lia. by rewrite take_0, app_nil_r.
Qed.
End Complete.


(** A kernel whose calls make progress ends both loops with success, one pass for each byte and one more. *)
Section Progress.
Context {K : Type} `{NC : Net K}.

Lemma loop_S {E A B} n (body : A → st K (stop E) (A + B)) a k :
  loop (S n) body a k =
  match body a k with
  | (Ok (inl a'), k') => loop n body a' k'
  | (Ok (inr b), k') => (Ok b, k')
  | (Err e, k') => (Err e, k')
  | (Panic, k') => (Panic, k')
  end.
Proof. simpl. unfold mbind, st_bind. by destruct (body a k) as [[[]|e|] k']. Qed.

Lemma write_pass_moves fd data o k :
  (∀ d k, 0 < fst (net (WriteFd fd d) k)) →
  write_pass (K:=K) fd data o k =
  if (length data <=? o)%nat then (Ok (inr ()), k) else
  let '(r, k') := net (WriteFd fd (drop o data)) k in (Ok (inl (o + Z.to_nat r)%nat), k').
Proof.
  intros Hp. unfold write_pass. destruct (_ <=? _)%nat; [done|]. rewrite ask_bind.
  specialize (Hp (drop o data) k). destruct (net _ k) as [r k']. simpl in *. by destruct (Z.ltb_spec 0 r); [|lia].
Qed.

Lemma read_pass_moves fd o b k :
  (∀ c k, 0 < fst (fst (net (ReadFd fd c) k))) →
  read_pass (K:=K) fd (o, b) k =
  if (length b <=? o)%nat then (Ok (inr b), k) else
  let '((r, d), k') := net (ReadFd fd (len b - Z.of_nat o)) k in
  (Ok (inl ((o + Z.to_nat r)%nat, fill b o (take (Z.to_nat r) d))), k').
Proof.
  intros Hp. unfold read_pass. destruct (_ <=? _)%nat; [done|]. rewrite ask_bind.
  specialize (Hp (len b - Z.of_nat o) k). destruct (net _ k) as [[r d] k']. simpl in *.
  by destruct (Z.ltb_spec 0 r); [|lia].
Qed.

Lemma write_all_progress fd data n k :
  (∀ d k, 0 < fst (net (WriteFd fd d) k)) → (length data < n)%nat →
  fst (write_all (K:=K) n fd data k) = Ok ().
Proof.
  intros Hp Hn. unfold write_all.
  enough (∀ m k o, (length data - o < m)%nat → fst (loop m (write_pass (K:=K) fd data) o k) = Ok ()) as Hg
    by (apply Hg; lia).
  clear - Hp. induction m as [|m IH]; intros k o Hm; [lia|]. rewrite loop_S, write_pass_moves by done.
  destruct (Nat.leb_spec (length data) o); [done|]. specialize (Hp (drop o data) k).
  destruct (net _ k) as [r k']. apply IH. simpl in Hp. lia.
Qed.

Lemma read_exact_progress fd size n k :
  (∀ c k, 0 < fst (fst (net (ReadFd fd c) k))) → (size < n)%nat →
  ∃ b, fst (read_exact (K:=K) n fd size k) = Ok b.
Proof.
  intros Hp Hn. unfold read_exact.
  enough (∀ m k o b, length b = size → (size - o < m)%nat →
    ∃ b', fst (loop m (read_pass (K:=K) fd) (o, b) k) = Ok b') as Hg
    by (apply Hg; [apply length_replicate|lia]).
  clear - Hp. induction m as [|m IH]; intros k o b Hb Hm; [lia|]. rewrite loop_S, read_pass_moves by done.
  destruct (Nat.leb_spec (length b) o); [by eexists|].
  specialize (Hp (len b - Z.of_nat o) k). destruct (net _ k) as [[r d] k']. simpl in Hp. apply IH; [|lia].
  unfold fill. rewrite length_take, !length_app, length_take, length_drop. lia.
Qed.
End Progress.

(** ** Counting the echoes *)

Inductive stream_step : Set := Sent (sequence : Z) (promoted : bool) | Echoed (sequence : Z).

Definition completion_step (c : ResponderCompletion) (e : stream_step) : ResponderCompletion :=
  match e with
  | Sent s promoted => record_stream_send s promoted c
  | Echoed s => record_stream_echo s c
  end.
Definition posted (l : list stream_step) : list Z :=
  omap (λ e, match e with Sent s true => Some s | _ => None end) l.
Definition echoed (l : list stream_step) : list Z :=
  omap (λ e, match e with Echoed s => Some s | _ => None end) l.

Lemma echoed_length l : (length (echoed l) ≤ length l)%nat.
Proof. induction l as [|[s p|s] l IH]; [done|..]; simpl; unfold echoed in *; simpl in *; lia. Qed.

Lemma swap_remove_perm {A} i (l : list A) x : l !! i = Some x → x :: swap_remove i l ≡ₚ l.
Proof.
  intros Hi. unfold swap_remove. destruct l as [|y l _] using rev_ind; [done|].
  rewrite last_snoc, length_app, Nat.add_sub. simpl. apply lookup_app_Some in Hi as [Hi|[Hl Hi]].
  - pose proof (lookup_lt_Some _ _ _ Hi). rewrite insert_app_l, take_app_length' by (rewrite ?length_insert; done).
    rewrite insert_take_drop by done. rewrite <-(take_drop_middle _ _ _ Hi) at 3. solve_Permutation.
  - apply list_lookup_singleton_Some in Hi as [Hz ->]. rewrite insert_app_r_alt by done.
    rewrite take_app_length. solve_Permutation.
Qed.

(** Of the messages sent after the move every one is pending or counted, once; each count has its
    own echo, and an echo of anything else changes nothing. *)
Theorem completion_counts l :
  len l ≤ u64_max →
  let c := foldl completion_step completion_new l in
  ∃ counted, counted ++ pending_post_sequences c ≡ₚ posted l ∧ post_echoes c = len counted ∧
    counted ⊆+ echoed l.
Proof.
  cbv zeta. induction l as [|e l IH] using rev_ind; intros Hl.
  { exists []. split; [done|]. split; [done|apply submseteq_nil_l]. }
  rewrite len_app in Hl. change (len [e]) with 1 in Hl. destruct IH as (cs & Hp & He & Hs); [lia|].
  unfold posted, echoed. rewrite foldl_app, !omap_app. simpl. fold (posted l) (echoed l).
  set (c := foldl completion_step completion_new l) in *. destruct e as [s []|s]; simpl.
  - exists cs. rewrite app_nil_r, (assoc_L (++)), Hp. done.
  - exists cs. rewrite !app_nil_r. done.
  - unfold record_stream_echo. destruct (list_find _ _) as [[i s']|] eqn:Hf; simpl.
    + apply list_find_Some in Hf as (Hi & -> & _). exists (s :: cs). rewrite app_nil_r.
      split; [|split].
      * rewrite <-Hp. apply swap_remove_perm in Hi. rewrite <-Hi at 2. solve_Permutation.
      * assert (len cs ≤ len l) as Hcs.
        { unfold len. apply inj_le. rewrite (submseteq_length _ _ Hs). apply echoed_length. }
        unfold sat_add. rewrite He. unfold len in *. simpl. lia.
      * rewrite (Permutation_app_comm _ [s]). by apply submseteq_skip.
    + exists cs. rewrite app_nil_r. split; [done|]. split; [done|]. by apply submseteq_inserts_r.
Qed.

Lemma completion_counts_witness :
  let l := [Sent 1 false; Sent 2 true; Echoed 1; Sent 3 true; Echoed 2; Echoed 2] in
  len l ≤ u64_max ∧ ∃ counted,
    counted ++ pending_post_sequences (foldl completion_step completion_new l) ≡ₚ [2; 3] ∧ len counted = 1.
Proof.
  cbv zeta. split; [by vm_compute|].
  destruct (completion_counts [Sent 1 false; Sent 2 true; Echoed 1; Sent 3 true; Echoed 2; Echoed 2]) as (cs & Hp & He & _);
    [by vm_compute|]. exists cs. split; [exact Hp|]. by rewrite <-He.
Defined.

End R8moveIo.
