(* ===== verification/MoveClient.v ===== *)
(** * The mobility program: the client (src/rust/crates/r8-mobility/src/main.rs)

    The connecting mode: the handshake with its retransmissions, the exchange of
    one message, the move of the client to its new locator, the role of the
    responder when the server moves, and the schedule that ties them together.  At
    the end: what becomes of a move whose retry was missed. *)

From S2P Require Import Prelude Wire Checksum Codec Crypto SessionMsg Replay SessionCrypto Directional Client Server Control Mobility Text Loc Udp SessionCli MoveCli MoveIo.
From stdpp Require Import gmap strings.
#[local] Open Scope Z_scope.
#[local] Existing Instance SessionError.eq_dec.
Import R8move R8moveIo.

Module R8moveClient.

(** The client machine of the process and the manager of its session. *)
Record Side : Set := mkSide { sd_client : ClientMachine; sd_world : World; sd_manager : State }.

Definition set_client (cw : ClientWorld) (s : Side) : Side := mkSide (fst cw) (snd cw) (sd_manager s).
Definition set_manager (v : State) (s : Side) : Side := mkSide (sd_client s) (sd_world s) v.

(** An attempt at the handshake. *)
Record Attempt : Set := mkAttempt { packet : bytes; retry_index : nat; phase : Z; next_retry : Z }.

(** The responder. *)
Record Responder : Set := mkResponder {
  target : SocketAddr;
  initial_sent : bool;
  post_sent : bool;
  completion : ResponderCompletion;
  promoted : bool;
  plan : option StreamPlan;
}.

Definition set_plan (p : StreamPlan) (r : Responder) : Responder :=
  mkResponder (target r) (initial_sent r) (post_sent r) (completion r) (promoted r) (Some p).
Definition set_completion (c : ResponderCompletion) (r : Responder) : Responder :=
  mkResponder (target r) (initial_sent r) (post_sent r) c (promoted r) (plan r).
Definition set_initial_sent (r : Responder) : Responder :=
  mkResponder (target r) true (post_sent r) (completion r) (promoted r) (plan r).
Definition set_post_sent (r : Responder) : Responder :=
  mkResponder (target r) (initial_sent r) true (completion r) (promoted r) (plan r).
Definition promote (endpoint : SocketAddr) (r : Responder) : Responder :=
  mkResponder endpoint (initial_sent r) (post_sent r) (completion r) true (plan r).

Definition is_result (value : Z) (c : Control) : bool :=
  match c with CandidateResult _ _ _ r => r =? value | _ => false end.
Definition is_response (c : Control) : bool := match c with BindResponse _ _ _ _ _ _ => true | _ => false end.
Definition starts_with_magic (l : bytes) : bool := beq (take 4 l) MAGIC.

Section Client.
Context `{C : Crypto} `{DA : Build} {K : Type} `{NC : Net K}.
Abbreviation CM := (st (K * ClientWorld) (stop CliError)).
Abbreviation SM := (st (K * Side) (stop CliError)).

Definition now {S E} : st (K * S) E Z := sysm (ask Now).
Definition later {S E} (t d : Z) : st S E Z := lift (instant_add t d).

(** The [?] operator on a method of the client. *)
Definition client_try {A} (m : st ClientWorld SessionError.t A) : CM A :=
  r ← machine m; match r with inr a => mret a | inl e => fail (Session e) end.

(** ** The handshake *)

Section Handshake.
Context (o : Options) (socket : Z) (peer : SocketAddr) (started deadline : Z) (retry_deadlines : list Z).

Definition resend (a : Attempt) : CM Attempt :=
  sysm (send socket (packet a) peer) ;;
  let i := S (retry_index a) in
  mret (mkAttempt (packet a) i (phase a)
          match retry_deadlines !! i with Some d => Z.min d deadline | None => deadline end).

Definition handshake_packet (a : Attempt) (incoming : bytes) : CM Attempt :=
  if phase a =? 0 then
    t ← sysm (now_ms started);
    r ← machine (receive_verify incoming t);
    match r with
    | inr next => sysm (send socket next peer) ;; mret (mkAttempt next (retry_index a) 1 (next_retry a))
    | inl _ => mret a
    end
  else if phase a =? 1 then
    t ← sysm (now_ms started);
    r ← machine (receive_ack incoming t);
    match r with
    | inr next => mret (mkAttempt next (retry_index a) 2 (next_retry a))
    | inl _ => mret a
    end
  else mret a.

Definition handshake_received (a : Attempt) (r : stop CliError + bytes * SocketAddr) : CM Attempt :=
  match r with
  | inr (incoming, source) => if bool_decide (source = peer) then handshake_packet a incoming else mret a
  | inl (Failed (Session SessionError.Timeout)) =>
      t ← now;
      if (t <? deadline) && (retry_index a <? length retry_deadlines)%nat then resend a else mret a
  | inl (Failed Io) => fail Io
  | inl (Failed _) => mret a
  | inl Running => throw Running
  end.

Definition handshake_pass (a : Attempt) : CM (Attempt + Attempt) :=
  t ← now;
  if negb ((t <? deadline) && (phase a <? 3)) then mret (inr a) else
  t ← now;
  if next_retry a <=? t then
    if (retry_index a <? length retry_deadlines)%nat then a ← resend a; mret (inl a) else mret (inl a)
  else
  let receive_deadline := Z.min (next_retry a) deadline in
  t ← now;
  t ← sysm (receive_timeout receive_deadline (saturating_duration_since receive_deadline t));
  match t with
  | None => mret (inl a)
  | Some t =>
      r ← attempt (sysm (receive socket t (budget o)));
      a ← handshake_received a r;
      if phase a =? 2 then
        sysm (send socket (packet a) peer) ;;
        mret (inl (mkAttempt (packet a) (retry_index a) 3 (next_retry a)))
      else mret (inl a)
  end.
End Handshake.

(** The client, its socket and the id of the session. *)
Definition handshake_run (n : nat) (o : Options) (peer : SocketAddr) (started : Z) : CM (Z * Z) :=
  r ← sysm (ask (UdpBind (bind o)));
  match r with
  | inl _ => fail Io
  | inr socket =>
      sysm (configure_df socket) ;;
      id ← sysm scid;
      ephemeral_secret ← sysm (random 32);
      nonce ← sysm (random 32);
      t ← sysm (now_ms started);
      open ← client_try (start id (mkClientMaterial ephemeral_secret nonce) t);
      opened_at ← now;
      deadline ← later opened_at (Z.min (timeout o) (secs 5));
      d0 ← later opened_at (millis 500);
      d1 ← later opened_at (millis 1500);
      d2 ← later opened_at (millis 3500);
      sysm (send socket open peer) ;;
      a ← loop n (handshake_pass o socket peer started deadline [d0; d1; d2])
            (mkAttempt open 0 0 (Z.min d0 deadline));
      if phase a =? 3 then mret (socket, id) else fail (Session SessionError.Timeout)
  end.

Definition handshake (n : nat) (o : Options) (signing : bytes) (local remote : Identity) (started : Z) :
    st K (stop CliError) (ClientWorld * Z * Z) := λ k,
  match R8move.peer o with
  | None => (Err (Failed Config), k)
  | Some peer =>
      match client_new (config local remote o) signing with
      | Ok client =>
          match handshake_run n o peer started (k, (client, world_init)) with
          | (Ok (socket, id), (k, cw)) => (Ok (cw, socket, id), k)
          | (Err e, (k, _)) => (Err e, k)
          | (Panic, (k, _)) => (Panic, k)
          end
      | Err e => (Err (Failed (Session e)), k)
      | Panic => (Panic, k)
      end
  end.

(** ** One message and its echo *)

Definition exchange_pass (n : nat) (o : Options) (socket : Z) (peer : SocketAddr) (payload : bytes)
    (event : bool) (deadline timeout : Z) : CM (unit + unit) :=
  t ← now;
  if negb (t <? deadline) then fail (Session SessionError.Timeout) else
  t ← sysm (receive_timeout deadline timeout);
  match t with
  | None => fail (Session SessionError.Timeout)
  | Some t =>
      '(incoming, source) ← sysm (receive socket t (budget o));
      if negb (bool_decide (source = peer)) then mret (inl ()) else
      data ← client_try (client_receive_data incoming);
      if negb (beq data payload) then mret (inl ()) else
      (if event && (len payload =? 64) then
         sequence ← lift (slice payload 0 8);
         t ← sysm monotonic_ns;
         sysm (record n (fd_events (fds o)) (be_value sequence) t)
       else mret ()) ;;
      mret (inr ())
  end.

Definition exchange (n : nat) (o : Options) (socket : Z) (peer : SocketAddr) (payload : bytes)
    (event : bool) (timeout : Z) : CM unit :=
  let note fd :=
    if event then
      sequence ← lift (slice payload 0 8);
      t ← sysm monotonic_ns;
      sysm (record n fd (be_value sequence) t)
    else mret () in
  note (fd_attempt (fds o)) ;;
  data ← client_try (client_send_data payload);
  sysm (send socket data peer) ;;
  note (fd_sent (fds o)) ;;
  t ← now;
  deadline ← later t timeout;
  loop n (λ _, exchange_pass n o socket peer payload event deadline timeout) ().

(** ** Calls on the client and the manager *)

Definition on_client {A} (m : CM A) : SM A :=
  zoom (λ x, (fst x, (sd_client (snd x), sd_world (snd x))))
       (λ y x, (fst y, set_client (snd y) (snd x))) m.
Definition side {E} : st (K * Side) E Side := λ x, (Ok (snd x), x).
Definition modify (f : Side → Side) : SM unit := λ x, (Ok (), (fst x, f (snd x))).

Definition on_manager {A} (m : st State MobilityError.t A) : SM (MobilityError.t + A) :=
  machine (zoom sd_manager set_manager m).
Definition manager_try {A} (m : st State MobilityError.t A) : SM A :=
  r ← on_manager m; match r with inr a => mret a | inl e => fail (Mobility e) end.
(** [commit_protected_client] changes both. *)
Definition commit_client (mgr : CandidateManager) (t : Transition) : SM (MobilityError.t + unit) :=
  machine (zoom (λ s, (sd_manager s, (sd_client s, sd_world s)))
                (λ y s, set_client (snd y) (set_manager (fst y) s)) (commit_protected_client mgr t)).
Definition try_mobility {A} (m : outcome MobilityError.t A) : SM A := lift_err Mobility m.

Definition send_with_locs (socket : Z) (plain source destination : bytes) (peer : SocketAddr) : SM unit :=
  data ← on_client (client_try (client_send_data_with_locs plain source destination));
  sysm (send socket data peer).

Definition send_control (socket : Z) (c : Control) (source destination : bytes) (peer : SocketAddr) : SM unit :=
  l ← try_mobility (control_encode c); send_with_locs socket l source destination peer.

(** ** The move *)

Section Move.
Context (o : Options) (mgr : CandidateManager) (old_socket : option Z) (candidate_socket : Z)
  (peer : SocketAddr) (started : Z) (carrier : ObservedBinding) (update probe : bytes).

(** The update on the old socket, if there is one, and the probe on the new. *)
Definition send_proposal : SM unit :=
  send_with_locs (default candidate_socket old_socket) update (old o) (opt_peer_loc o) peer ;;
  send_with_locs candidate_socket probe (new o) (opt_peer_loc o) peer.

(** A packet of the peer on the new socket: whether the move is complete. *)
Definition move_packet (incoming : bytes) : SM bool :=
  s ← side;
  preview ←ok result (client_preview_data_with_locs (sd_client s) incoming [opt_peer_loc o] [new o]) else mret false;
  plain ←ok result (data_plaintext (sd_world s) preview) else mret false;
  control ←ok result (control_parse plain) else mret false;
  t ← sysm (now_ms started);
  transition ←ok result (preview_protected mgr (sd_manager s) carrier t (sd_world s) plain
                           (data_into_replay_proof preview)) else mret false;
  reply ← try_mobility (response_for mgr transition (sd_manager s));
  _u ←ok commit_client mgr transition else mret false;
  (match reply with
   | Some reply => send_control candidate_socket reply (new o) (opt_peer_loc o) peer
   | None => mret ()
   end) ;;
  s ← side;
  let '(results, manager) := take_results (sd_manager s) in
  modify (set_manager manager) ;;
  foldr (λ c rest, send_control candidate_socket c (new o) (opt_peer_loc o) peer ;; rest) (mret ()) results ;;
  if is_result 1 control then
    modify (λ s, set_client (client_promote_local_loc (st_local_loc (sd_manager s)) (sd_client s), sd_world s) s) ;;
    mret true
  else mret false.

Definition move_pass (deadline retry : Z) : SM (Z + unit) :=
  t ← now;
  if negb (t <? deadline) then fail (Session SessionError.Timeout) else
  t ← sysm (receive_timeout (Z.min retry deadline) (millis 400));
  match t with
  | None => mret (inl retry)
  | Some t =>
      r ← attempt (sysm (receive candidate_socket t (budget o)));
      match r with
      | inr (incoming, source) =>
          if bool_decide (source = peer) then
            moved ← move_packet incoming;
            mret (if moved : bool then inr () else inl retry)
          else mret (inl retry)
      | inl (Failed (Session SessionError.Timeout)) =>
          send_proposal ;;
          t ← now;
          retry ← later t (millis 400);
          mret (inl retry)
      | inl (Failed Io) => fail Io
      | inl (Failed _) => mret (inl retry)
      | inl Running => throw Running
      end
  end.
End Move.

(** The socket the session continues on. *)
Definition move_client (n : nat) (o : Options) (mgr : CandidateManager) (old_socket : Z) (peer : SocketAddr)
    (started : Z) : SM Z :=
  r ← sysm (ask (UdpBind (candidate_bind o)));
  match r with
  | inl _ => fail Io
  | inr candidate_socket =>
      sysm (configure_df candidate_socket) ;;
      id ← sysm (nonzero_random 16);
      t ← sysm (now_ms started);
      update ← manager_try (propose_local mgr id (new o) 1 0 t);
      selector ← sysm (random 16);
      u ← sysm (try (binding peer selector));
      nonce ← sysm (random 16);
      t ← sysm (now_ms started);
      probe ← manager_try (make_probe mgr id (Udp u) nonce t);
      update ← try_mobility (control_encode update);
      probe ← try_mobility (control_encode probe);
      let old_socket := if bool_decide (mode o = Mbb) then Some old_socket else None in
      send_proposal o old_socket candidate_socket peer update probe ;;
      t ← now; deadline ← later t (secs 3);
      t ← now; retry ← later t (millis 400);
      loop n (move_pass o mgr old_socket candidate_socket peer started (Udp u) update probe deadline) retry ;;
      mret candidate_socket
  end.

(** ** The responder, when the server moves *)

Section Respond.
Context (n : nat) (o : Options) (mgr : CandidateManager) (socket : Z) (old_binding : ObservedBinding)
  (selector : bytes) (started : Z) (cpu_before : option CpuUsage) (deadline : Z).

Definition stream_ended (r : Responder) (now_ns : Z) : bool :=
  match plan r with Some p => end_ns p <=? now_ns | None => false end.
Definition post_complete (r : Responder) : bool :=
  promoted r && complete (expected_post_move o) (completion r).

(** A message on the session: the one of the schedule that is due, or the configured one.
    [true] when the pass is over. *)
Definition responder_send (r : Responder) (now_ns : Z) : SM (Responder * bool) :=
  match plan r with
  | Some stream =>
      let due := due_ns stream in
      if (due <? end_ns stream) && (due <=? now_ns) then
        let sequence := next_sequence stream in
        sysm (record n (fd_scheduled (fds o)) sequence due) ;;
        r ← (if now_ns <? sat_add due (period_ns stream) then
               let payload := be_bytes 8 sequence ++ replicate 56 0 in
               sysm (record n (fd_attempt (fds o)) sequence now_ns) ;;
               data ← on_client (client_try (client_send_data payload));
               sysm (send socket data (target r)) ;;
               let r := set_completion (record_stream_send sequence (promoted r) (completion r)) r in
               t ← sysm monotonic_ns;
               sysm (record n (fd_sent (fds o)) sequence t) ;;
               mret r
             else mret r);
        mret (set_plan (set_sequence (sat_add sequence 1) stream) r, true)
      else mret (r, false)
  | None =>
      if negb (initial_sent r) then
        data ← on_client (client_try (client_send_data (message o)));
        sysm (send socket data (target r)) ;;
        mret (set_initial_sent r, false)
      else if promoted r && negb (post_sent r) then
        data ← on_client (client_try (client_send_data (message o)));
        sysm (send socket data (target r)) ;;
        mret (set_post_sent r, false)
      else mret (r, false)
  end.

(** A control message: the responder afterwards. *)
Definition responder_control (r : Responder) (incoming : bytes) (endpoint : SocketAddr)
    (observed : ObservedBinding) (preview : DataPreview) (plain : bytes) : SM Responder :=
  unpacked ←ok result (unpack_with_budget incoming (budget o)) else mret r;
  let header := fst unpacked in
  control ←ok result (control_parse plain) else mret r;
  t ← sysm (now_ms started);
  s ← side;
  transition ←ok result (preview_protected mgr (sd_manager s) observed t (sd_world s) plain
                           (data_into_replay_proof preview)) else mret r;
  reply ←ok result (response_for mgr transition (sd_manager s)) else mret r;
  _u ←ok commit_client mgr transition else mret r;
  s ← side;
  r ← (if is_response control && negb (beq (st_peer_loc (sd_manager s)) (opt_peer_loc o)) then
         modify (λ s, set_client (client_promote_peer_loc (st_peer_loc (sd_manager s)) (sd_client s), sd_world s) s) ;;
         mret (promote endpoint r)
       else mret r);
  (match reply with
   | Some reply => send_control socket reply (old o) (src header) endpoint
   | None => mret ()
   end) ;;
  s ← side;
  let '(results, manager) := take_results (sd_manager s) in
  modify (set_manager manager) ;;
  foldr (λ c rest, send_control socket c (old o) (st_peer_loc manager) endpoint ;; rest) (mret ()) results ;;
  mret r.

(** An echo that was received counts. *)
Definition responder_echo (r : Responder) (received : bytes) : SM Responder :=
  if bool_decide (is_Some (plan r)) && (len received =? 64) then
    sequence ← lift (slice received 0 8);
    t ← sysm monotonic_ns;
    sysm (record n (fd_events (fds o)) (be_value sequence) t) ;;
    mret (set_completion (record_stream_echo (be_value sequence) (completion r)) r)
  else if beq received (message o) then
    let c := completion r in
    mret (if negb (promoted r) then set_completion (mkCompletion true (post_echoes c) (pending_post_sequences c)) r
          else if post_sent r then
            set_completion (mkCompletion (initial_echoed c) (sat_add (post_echoes c) 1) (pending_post_sequences c)) r
          else r)
  else mret r.

Definition responder_finish : SM (Responder + unit) := sysm (finish_cpu n o cpu_before) ;; mret (inr ()).

(** A datagram. *)
Definition responder_packet (r : Responder) (incoming : bytes) (endpoint : SocketAddr) : SM (Responder + unit) :=
  u ← sysm (try (binding endpoint selector));
  let observed := Udp u in
  s ← side;
  preview ←ok result (client_preview_data_with_locs (sd_client s) incoming [opt_peer_loc o; new o] [old o])
    else mret (inl r);
  plain ←ok result (data_plaintext (sd_world s) preview) else mret (inl r);
  if starts_with_magic plain then
    r ← responder_control r incoming endpoint observed preview plain; mret (inl r)
  else
  if negb (promoted r) && (negb (bool_decide (endpoint = target r)) || negb (bool_decide (observed = old_binding)))
  then mret (inl r) else
  if negb (bool_decide (endpoint = target r)) then mret (inl r) else
  received ← on_client (client_try (client_commit_data preview));
  r ← responder_echo r received;
  match plan r with
  | None => if initial_echoed (completion r) && post_complete r then responder_finish else mret (inl r)
  | Some stream =>
      t ← sysm monotonic_ns;
      if (end_ns stream <=? t) && post_complete r then responder_finish else mret (inl r)
  end.

Definition responder_pass (r : Responder) : SM (Responder + unit) :=
  now_ns ← sysm monotonic_ns;
  t ← now;
  if negb ((t <? deadline) || match plan r with Some p => now_ns <? end_ns p | None => false end)
  then fail (Session SessionError.Timeout) else
  if stream_ended r now_ns && post_complete r then responder_finish else
  late ← (if promoted r then mret false else t ← now; mret (deadline <=? t));
  if late : bool then fail (Session SessionError.Timeout) else
  t ← sysm (now_ms started);
  _u ← on_manager (expire mgr t);
  '(r, over) ← responder_send r now_ns;
  if over : bool then mret (inl r) else
  until ← match plan r with
          | None => mret deadline
          | Some stream =>
              t ← now; t ← later t (sat_sub (due_ns stream) now_ns); mret (Z.min deadline t)
          end;
  t ← sysm (receive_timeout until (millis 20));
  match t with
  | None => mret (inl r)
  | Some t =>
      d ← attempt (sysm (receive socket t (budget o)));
      match d with
      | inr (incoming, endpoint) => responder_packet r incoming endpoint
      | inl (Failed (Session SessionError.Timeout)) => mret (inl r)
      | inl e => throw e
      end
  end.
End Respond.

Definition connect_role1_responder (n : nat) (o : Options) (mgr : CandidateManager) (socket : Z)
    (peer : SocketAddr) (old_binding : ObservedBinding) (selector : bytes) (started : Z)
    (cpu_before : option CpuUsage) (plan : option StreamPlan) : SM unit :=
  t ← now;
  deadline ← later t (timeout o);
  loop n (responder_pass n o mgr socket old_binding selector started cpu_before deadline)
    (mkResponder peer false false completion_new false plan).

(** ** The schedule of the moving client *)

(** The socket in use: the candidate, once the client has moved. *)
Definition stream_pass (n : nat) (o : Options) (mgr : CandidateManager) (old_socket : Z) (peer : SocketAddr)
    (started : Z) (x : StreamPlan * option Z) : SM (StreamPlan * option Z + StreamPlan * option Z) :=
  let '(plan, candidate) := x in
  let due := due_ns plan in
  if negb (due <? end_ns plan) then mret (inr x) else
  let sequence := next_sequence plan in
  sysm (record n (fd_scheduled (fds o)) sequence due) ;;
  sysm (wait_until n due) ;;
  cut ← match candidate with
        | None => t ← sysm monotonic_ns; mret (cutover_ns plan <=? t)
        | Some _ => mret false
        end;
  candidate ← (if cut : bool then
                 sysm (await_cutover_gate n o plan) ;;
                 candidate ← move_client n o mgr old_socket peer started; mret (Some candidate)
               else mret candidate);
  t ← sysm monotonic_ns;
  if sat_add due (period_ns plan) <=? t then
    skipped ← lift (if period_ns plan =? 0 then Panic else Ok ((t - due) / period_ns plan));
    mret (inl (set_sequence (sat_add sequence skipped) plan, candidate))
  else
  let payload := be_bytes 8 sequence ++ replicate 56 0 in
  r ← attempt (on_client (exchange n o (default old_socket candidate) peer payload true (period_ns plan)));
  match r with
  | inr _ | inl (Failed (Session SessionError.Timeout)) =>
      mret (inl (set_sequence (sat_add sequence 1) plan, candidate))
  | inl e => throw e
  end.

(** What follows the handshake and the schedule. *)
Definition connect_session (n : nat) (o : Options) (mgr : CandidateManager) (socket : Z) (peer : SocketAddr)
    (carrier : ObservedBinding) (selector : bytes) (started : Z) (plan : option StreamPlan)
    (cpu_before : option CpuUsage) : SM unit :=
  if bool_decide (moving_role o = Role2) then
    connect_role1_responder n o mgr socket peer carrier selector started cpu_before plan
  else if stream_rate o =? 0 then
    on_client (exchange n o socket peer (message o) false (timeout o)) ;;
    candidate ← move_client n o mgr socket peer started;
    on_client (exchange n o candidate peer (message o) false (timeout o))
  else
    plan ← lift (map_err Failed (ok_or plan Config));
    '(plan, candidate) ← loop n (stream_pass n o mgr socket peer started) (plan, None);
    match candidate with
    | None => move_client n o mgr socket peer started ;; mret ()
    | Some _ => mret ()
    end ;;
    sysm (wait_for_stream_end n (end_ns plan)) ;;
    sysm (finish_cpu n o cpu_before).

(** Readiness, schedule and manager after the handshake. *)
Definition connect_setup (n : nat) (o : Options) (signing : bytes) (local remote : Identity)
    (peer : SocketAddr) (client : ClientMachine) (id : Z) :
    st K (stop CliError) (option StreamPlan * option CpuUsage * bytes * ObservedBinding * (CandidateManager * State)) :=
  ready n (fd_ready (fds o)) ;;
  plan ← read_stream_plan n o;
  cpu_before ← (if stream_rate o =? 0 then mret None else u ← cpu_usage; mret (Some u));
  selector ← random 16;
  u ← try (binding peer selector);
  secret ← nonzero_random 32;
  b ← lift_err Session (client_protected_replay_binding client);
  mgr ← try (map_err (λ _, Config)
               (fst (new_with_protected_replay_binding
                       (mkManagerConfig signing local remote 0 id (policy o) (old o) (opt_peer_loc o) (Udp u) secret)
                       b 1)));
  mret (plan, cpu_before, selector, Udp u, mgr).

Definition connect (n : nat) (o : Options) (signing : bytes) (local remote : Identity) :
    st K (stop CliError) unit := λ k,
  let '(started, k) := net Now k in
  match R8move.peer o with
  | None => (Err (Failed Config), k)
  | Some peer =>
      match handshake n o signing local remote started k with
      | (Ok ((client, w), socket, id), k) =>
          match connect_setup n o signing local remote peer client id k with
          | (Ok (plan, cpu_before, selector, carrier, (mgr, manager)), k) =>
              let '(r, (k, _)) :=
                connect_session n o mgr socket peer carrier selector started plan cpu_before
                  (k, mkSide client w manager) in
              (r, k)
          | (Err e, k) => (Err e, k)
          | (Panic, k) => (Panic, k)
          end
      | (Err e, k) => (Err e, k)
      | (Panic, k) => (Panic, k)
      end
  end.

End Client.

(** ** A retry that was missed

    The wait of [move_pass] ends the moment [retry] is reached, and only a timed out receive moves
    [retry]; when the clock passes it outside of a receive, the loop reads the clock until the
    deadline and does nothing else. *)
Section Missed.
Context `{C : Crypto} `{DA : Build} {K : Type} `{NC : Net K}.

(** A reading of the clock. *)
Definition tick (k k' : K) : Prop := k' = snd (net Now k).

Lemma sys_now {S E A} (f : Z → st (K * S) E A) k s :
  (sysm (ask Now) ≫= f) (k, s) = f (fst (net Now k)) (snd (net Now k), s).
Proof. unfold sysm, zoom, mbind, st_bind, ask. simpl. by destruct (net Now k). Qed.

Context (o : Options) (mgr : CandidateManager) (old_socket : option Z) (candidate_socket : Z)
  (peer : SocketAddr) (started : Z) (carrier : ObservedBinding) (update probe : bytes) (deadline retry : Z).

(** The clock has passed the instant of the retry. *)
Context (late : K → Prop) (Hlate : ∀ k, late k → retry ≤ fst (net Now k) ∧ late (snd (net Now k))).

Lemma missed_pass k s :
  late k →
  ∃ k', rtc tick k k' ∧ late k' ∧
    (move_pass o mgr old_socket candidate_socket peer started carrier update probe deadline retry (k, s) =
       (Ok (inl retry), (k', s)) ∨
     move_pass o mgr old_socket candidate_socket peer started carrier update probe deadline retry (k, s) =
       (Err (Failed (Session SessionError.Timeout)), (k', s))).
Proof.
  intros Hk. destruct (Hlate _ Hk) as [Hr1 Hk1]. destruct (Hlate _ Hk1) as [Hr2 Hk2].
  unfold move_pass, now. rewrite sys_now. destruct (Z.ltb_spec (fst (net Now k)) deadline) as [Hd|Hd]; simpl.
  - exists (snd (net Now (snd (net Now k)))). split; [by eapply rtc_l, rtc_once|]. split; [done|]. left.
    unfold receive_timeout, sysm, zoom, mbind, st_bind, ask. simpl.
    destruct (net Now (snd (net Now k))) as [t k2]. simpl in *.
    unfold saturating_duration_since. by rewrite Z.max_l by lia.
  - exists (snd (net Now k)). split; [by apply rtc_once|]. split; [done|]. by right.
Qed.

(** No message is sent again and none is received, whatever arrives: the move fails, or is still
    running, and only the clock has been read. *)
Lemma missed_retry n k s :
  late k →
  ∃ k', rtc tick k k' ∧
    (loop n (move_pass o mgr old_socket candidate_socket peer started carrier update probe deadline) retry (k, s) =
       (Err Running, (k', s)) ∨
     loop n (move_pass o mgr old_socket candidate_socket peer started carrier update probe deadline) retry (k, s) =
       (Err (Failed (Session SessionError.Timeout)), (k', s))).
Proof.
  revert k. induction n as [|n IH]; intros k Hk; [exists k; split; [apply rtc_refl|by left]|].
  simpl. unfold mbind, st_bind. destruct (missed_pass k s Hk) as (k1 & Ht & Hk1 & [-> | ->]).
  - destruct (IH _ Hk1) as (k2 & Ht2 & Hr). exists k2. split; [by etrans|done].
  - exists k1. split; [done|by right].
Qed.
End Missed.
End R8moveClient.
