(* ===== verification/MoveServer.v ===== *)
(** * The mobility program: the server (src/rust/crates/r8-mobility/src/main.rs)

    The serving mode: its associations, one per session, with their candidate
    managers; the moving server; and the program. *)

From S2P Require Import Prelude Wire Checksum Codec Crypto SessionMsg Replay SessionCrypto Directional Client Limiter Server Control Mobility Text Loc Udp SessionCli MoveCli MoveIo MoveClient.
From stdpp Require Import gmap strings.
#[local] Open Scope Z_scope.
#[local] Existing Instance SessionError.eq_dec.
Import R8move R8moveIo R8moveClient.

Module R8moveServer.

Record Association : Set := mkAssociation {
  as_endpoint : SocketAddr;
  as_binding : ObservedBinding;
  as_manager : option (CandidateManager * State);
  as_proposals : list bytes;
  as_established : bool;
  as_promoted : bool;
  as_post : Z;
  as_cpu_before : option CpuUsage;
  as_plan : option StreamPlan;
}.

Definition association_new (endpoint : SocketAddr) (observed : ObservedBinding) : Association :=
  mkAssociation endpoint observed None [] false false 0 None None.
Definition set_as_manager (m : option (CandidateManager * State)) (a : Association) : Association :=
  mkAssociation (as_endpoint a) (as_binding a) m (as_proposals a) (as_established a) (as_promoted a)
    (as_post a) (as_cpu_before a) (as_plan a).
Definition add_proposal (loc : bytes) (a : Association) : Association :=
  if bool_decide (loc ∈ as_proposals a) then a else
  mkAssociation (as_endpoint a) (as_binding a) (as_manager a) (as_proposals a ++ [loc])
    (as_established a) (as_promoted a) (as_post a) (as_cpu_before a) (as_plan a).
Definition set_established (plan : option StreamPlan) (cpu : option CpuUsage) (a : Association) : Association :=
  mkAssociation (as_endpoint a) (as_binding a) (as_manager a) (as_proposals a) true (as_promoted a)
    (as_post a) cpu plan.
Definition promote_to (endpoint : SocketAddr) (observed : ObservedBinding) (a : Association) : Association :=
  mkAssociation endpoint observed (as_manager a) (as_proposals a) (as_established a) true (as_post a)
    (as_cpu_before a) (as_plan a).
Definition add_post (a : Association) : Association :=
  mkAssociation (as_endpoint a) (as_binding a) (as_manager a) (as_proposals a) (as_established a)
    (as_promoted a) (as_post a + 1) (as_cpu_before a) (as_plan a).

(** Everything the serving loop changes. *)
Record Host : Set := mkHost {
  server : ServerMachine;
  world : World;
  limiter : PrevalidationLimiter;
  associations : gmap Z Association;
  completed : Z;
  next_manager : Z;
}.

Definition set_server (mw : ServerWorld) (h : Host) : Host :=
  mkHost (fst mw) (snd mw) (limiter h) (associations h) (completed h) (next_manager h).
Definition set_limiter (l : PrevalidationLimiter) (h : Host) : Host :=
  mkHost (server h) (world h) l (associations h) (completed h) (next_manager h).
Definition set_associations (l : gmap Z Association) (h : Host) : Host :=
  mkHost (server h) (world h) (limiter h) l (completed h) (next_manager h).
Definition add_completed (h : Host) : Host :=
  mkHost (server h) (world h) (limiter h) (associations h) (completed h + 1) (next_manager h).
Definition set_next_manager (v : Z) (h : Host) : Host :=
  mkHost (server h) (world h) (limiter h) (associations h) (completed h) v.

(** The server in the middle of its own move. *)
Record Mover : Set := mkMover { mv_server : ServerMachine; mv_world : World; mv_manager : State }.

Definition set_mv_server (mw : ServerWorld) (m : Mover) : Mover := mkMover (fst mw) (snd mw) (mv_manager m).
Definition set_mv_manager (s : State) (m : Mover) : Mover := mkMover (mv_server m) (mv_world m) s.

Record Progress : Set := mkProgress { pg_target : SocketAddr; pg_retry : Z; pg_promoted : bool; pg_post : Z }.

Section Server.
Context `{C : Crypto} `{DA : Build} {K : Type} `{NC : Net K}.
Abbreviation VM := (st (K * Mover) (stop CliError)).
Abbreviation HM := (st (K * Host) (stop CliError)).

(** The state beside the kernel, and an assignment to it. *)
Definition look {S E} : st (K * S) E S := λ x, (Ok (snd x), x).
Definition assign {S E} (f : S → S) : st (K * S) E unit := λ x, (Ok (), (fst x, f (snd x))).

(** ** The moving server *)

Definition mover_server {A} (m : st ServerWorld SessionError.t A) : VM (SessionError.t + A) :=
  machine (zoom (λ v, (mv_server v, mv_world v)) set_mv_server m).
Definition mover_server_try {A} (m : st ServerWorld SessionError.t A) : VM A :=
  r ← mover_server m; match r with inr a => mret a | inl e => fail (Session e) end.
Definition mover_manager {A} (m : st State MobilityError.t A) : VM (MobilityError.t + A) :=
  machine (zoom mv_manager set_mv_manager m).
Definition mover_manager_try {A} (m : st State MobilityError.t A) : VM A :=
  r ← mover_manager m; match r with inr a => mret a | inl e => fail (Mobility e) end.
Definition mover_commit (mgr : CandidateManager) (id now : Z) (t : Transition) : VM (MobilityError.t + unit) :=
  machine (zoom (λ v, (mv_manager v, (mv_server v, mv_world v)))
                (λ y v, set_mv_server (snd y) (set_mv_manager (fst y) v)) (commit_protected_server mgr id now t)).

Section Mover.
Context (n : nat) (o : Options) (mgr : CandidateManager) (old_socket candidate_socket id : Z)
  (old_binding : ObservedBinding) (selector : bytes) (started : Z) (plan : option StreamPlan)
  (cpu_before : option CpuUsage) (update probe : bytes) (deadline proof_deadline : Z).

Definition mover_send_locs (socket : Z) (plain source destination : bytes) (peer : SocketAddr) : VM unit :=
  data ← mover_server_try (server_send_data_with_locs id plain source destination);
  sysm (send socket data peer).

Definition enough (p : Progress) : bool := pg_promoted p && (expected_post_move o <=? pg_post p).
Definition ended (now_ns : Z) : bool := match plan with Some s => end_ns s <=? now_ns | None => false end.

(** [None]: finished; [Some]: the loop is left. *)
Definition mover_finish : VM (Progress + option Progress) := sysm (finish_cpu n o cpu_before) ;; mret (inr None).

Definition mover_retry (p : Progress) : VM Progress :=
  due ← (if pg_promoted p then mret false else t ← now; mret (pg_retry p <=? t));
  if due : bool then
    mover_send_locs (if bool_decide (mode o = Mbb) then old_socket else candidate_socket)
      update (old o) (opt_peer_loc o) (pg_target p) ;;
    mover_send_locs candidate_socket probe (new o) (opt_peer_loc o) (pg_target p) ;;
    t ← now; retry ← later t (millis 400);
    mret (mkProgress (pg_target p) retry (pg_promoted p) (pg_post p))
  else mret p.

(** The grace of the old binding: a message on the old socket is answered on the new one.
    [false]: the pass is over. *)
Definition mover_grace (p : Progress) (now : Z) : VM bool :=
  r ← attempt (sysm (receive old_socket (micros 1) (budget o)));
  match r with
  | inr (incoming, endpoint) =>
      u ← sysm (try (binding endpoint selector));
      v ← look;
      if bool_decide (Udp u = old_binding) && binding_allowed_inbound (mv_manager v) (Udp u) now then
        preview ←ok mover_server (server_preview_data_with_locs incoming [opt_peer_loc o] [old o] now)
          else mret true;
        v ← look;
        plain ←ok result (data_plaintext (mv_world v) preview) else mret false;
        (if starts_with_magic plain then mret () else
           payload ← mover_server_try (server_commit_data preview now);
           output ← mover_server_try (server_send_data id payload);
           sysm (send candidate_socket output (pg_target p))) ;;
        mret true
      else mret true
  | inl (Failed Io) => fail Io
  | inl (Failed _) => mret true
  | inl Running => throw Running
  end.

Definition mover_control (p : Progress) (endpoint : SocketAddr) (observed : ObservedBinding) (now : Z)
    (preview : DataPreview) (plain : bytes) : VM Progress :=
  control ←ok result (control_parse plain) else mret p;
  v ← look;
  transition ←ok result (preview_protected mgr (mv_manager v) observed now (mv_world v) plain
                           (data_into_replay_proof preview)) else mret p;
  reply ←ok result (response_for mgr transition (mv_manager v)) else mret p;
  _u ←ok mover_commit mgr id now transition else mret p;
  (match reply with
   | Some reply =>
       l ← sysm (lift_err Mobility (control_encode reply));
       mover_send_locs candidate_socket l (new o) (opt_peer_loc o) endpoint
   | None => mret ()
   end) ;;
  if is_result 1 control then
    assign (λ v, set_mv_server (server_promote_local_loc (st_local_loc (mv_manager v)) (mv_server v), mv_world v) v) ;;
    mret (mkProgress endpoint (pg_retry p) true (pg_post p))
  else mret p.

Definition mover_packet (p : Progress) (incoming : bytes) (endpoint : SocketAddr) (now : Z) : VM (Progress + option Progress) :=
  u ← sysm (try (binding endpoint selector));
  preview ←ok mover_server (server_preview_data_with_locs incoming [opt_peer_loc o] [new o] now)
    else mret (inl p);
  v ← look;
  plain ←ok result (data_plaintext (mv_world v) preview) else mret (inl p);
  if starts_with_magic plain then
    p ← mover_control p endpoint (Udp u) now preview plain; mret (inl p)
  else if negb (counts_post_move_packet (pg_promoted p) endpoint (pg_target p)) then mret (inl p) else
  payload ← mover_server_try (server_commit_data preview now);
  output ← mover_server_try (server_send_data id payload);
  sysm (send candidate_socket output (pg_target p)) ;;
  let p := mkProgress (pg_target p) (pg_retry p) (pg_promoted p) (sat_add (pg_post p) 1) in
  match plan with
  | None => if expected_post_move o <=? pg_post p then mover_finish else mret (inl p)
  | Some stream =>
      t ← sysm monotonic_ns;
      if (end_ns stream <=? t) && enough p then mover_finish else mret (inl p)
  end.

Definition mover_pass (p : Progress) : VM (Progress + option Progress) :=
  now_ns ← sysm monotonic_ns;
  t ← now;
  if negb ((t <? deadline) || match plan with Some s => now_ns <? end_ns s | None => false end)
  then mret (inr (Some p)) else
  if ended now_ns && enough p then mover_finish else
  t ← sysm (now_ms started);
  _u ← mover_manager (expire mgr t);
  late ← (if pg_promoted p then mret false else t ← now; mret (proof_deadline <=? t));
  if late : bool then fail (Session SessionError.Timeout) else
  p ← mover_retry p;
  go_on ← (if pg_promoted p && bool_decide (mode o = Mbb) then mover_grace p t else mret true);
  if negb go_on then mret (inl p) else
  if ended now_ns && enough p then mover_finish else
  d ← attempt (sysm (receive candidate_socket (millis 20) (budget o)));
  match d with
  | inr (incoming, endpoint) => mover_packet p incoming endpoint t
  | inl (Failed (Session SessionError.Timeout)) =>
      if ended now_ns && enough p then mover_finish else mret (inl p)
  | inl e => throw e
  end.

(** After the loop was left. *)
Definition mover_loop (peer : SocketAddr) (retry : Z) : VM unit :=
  r ← loop n mover_pass (mkProgress peer retry false 0);
  match r, plan with
  | None, _ => mret ()
  | Some p, Some stream =>
      t ← sysm monotonic_ns;
      if (end_ns stream <=? t) && enough p then sysm (finish_cpu n o cpu_before)
      else fail (Session SessionError.Timeout)
  | Some _, None => fail (Session SessionError.Timeout)
  end.
End Mover.

Definition serve_role2_mover (n : nat) (o : Options) (mgr : CandidateManager) (old_socket id : Z)
    (peer : SocketAddr) (old_binding : ObservedBinding) (selector : bytes) (started : Z)
    (plan : option StreamPlan) (cpu_before : option CpuUsage) : VM unit :=
  match plan with Some p => sysm (await_cutover_gate n o p) | None => mret () end ;;
  r ← sysm (ask (UdpBind (candidate_bind o)));
  match r with
  | inl _ => fail Io
  | inr candidate_socket =>
      sysm (configure_df candidate_socket) ;;
      candidate_id ← sysm (nonzero_random 16);
      t ← sysm (now_ms started);
      update ← mover_manager_try (propose_local mgr candidate_id (new o) 1 0 t);
      u ← sysm (try (binding peer selector));
      t ← sysm (now_ms started);
      probe ← mover_manager_try (make_probe mgr candidate_id (Udp u) selector t);
      update ← sysm (lift_err Mobility (control_encode update));
      probe ← sysm (lift_err Mobility (control_encode probe));
      t ← now; deadline ← later t (timeout o);
      t ← now; proof_deadline ← later t (secs 3);
      retry ← now;
      mover_loop n o mgr old_socket candidate_socket id old_binding selector started plan cpu_before
        update probe deadline proof_deadline peer retry
  end.

(** ** The serving loop *)

Definition host_server {A} (m : st ServerWorld SessionError.t A) : HM (SessionError.t + A) :=
  machine (zoom (λ h, (server h, world h)) set_server m).
Definition host_server_try {A} (m : st ServerWorld SessionError.t A) : HM A :=
  r ← host_server m; match r with inr a => mret a | inl e => fail (Session e) end.

Definition set_association (id : Z) (a : Association) (h : Host) : Host :=
  set_associations (<[id := a]> (associations h)) h.

(** What the manager of an association and the server do together. *)
Definition set_managed (id : Z) (mgr : CandidateManager) (a : Association) (y : State * ServerWorld) (h : Host) : Host :=
  set_server (snd y) (set_association id (set_as_manager (Some (mgr, fst y)) a) h).
Definition host_commit (id : Z) (a : Association) (mgr : CandidateManager) (s : State) (now : Z) (t : Transition) :
    HM (MobilityError.t + unit) :=
  machine (zoom (λ h, (s, (server h, world h))) (set_managed id mgr a) (commit_protected_server mgr id now t)).

Inductive Verdict : Set := Break | Return.

Record Lan : Set := mkLan { ln_socket : Z; ln_selector : bytes; ln_source_key : bytes; ln_started : Z; ln_deadline : Z }.

Section Serve.
Context (n : nat) (o : Options) (signing : bytes) (local remote : Identity).
(** The order of the values of a [HashMap]. *)
Context (values : gmap Z Association → list Association).
Context (l : Lan).

Definition host_send_locs (id : Z) (plain source destination : bytes) (peer : SocketAddr) : HM unit :=
  data ← host_server_try (server_send_data_with_locs id plain source destination);
  sysm (send (ln_socket l) data peer).
Definition host_send_control (id : Z) (c : Control) (destination : bytes) (peer : SocketAddr) : HM unit :=
  b ← sysm (lift_err Mobility (control_encode c)); host_send_locs id b (old o) destination peer.

(** OPEN and OPEN_AUTH: the reply, if there is one. *)
Definition on_open (incoming : bytes) (endpoint : SocketAddr) (observed : ObservedBinding) (now : Z) : HM (option bytes) :=
  h ← look;
  let '(r, lim) := receive_open_limited (server h) incoming observed
                     (opaque_source endpoint (ln_source_key l)) now (now / 10000) (limiter h) in
  assign (set_limiter lim) ;;
  match r with Ok reply => mret (Some reply) | Err _ => mret None | Panic => lift Panic end.

Definition on_open_auth (id : Z) (incoming : bytes) (endpoint : SocketAddr) (observed : ObservedBinding) (now : Z) :
    HM (option bytes) :=
  ephemeral_secret ← sysm (random 32);
  nonce ← sysm (random 32);
  reply ←ok host_server (receive_open_auth incoming observed now (now / 10000)
                           (Some (mkServerHandshakeMaterial ephemeral_secret nonce))) else mret None;
  assign (λ h, match associations h !! id with
               | Some _ => h
               | None => set_association id (association_new endpoint observed) h
               end) ;;
  mret (Some reply).

Definition on_accept (id : Z) (incoming : bytes) (endpoint : SocketAddr) (observed : ObservedBinding) (now : Z) : HM unit :=
  h ← look;
  match associations h !! id with
  | None => mret ()
  | Some a =>
      if negb (bool_decide (as_endpoint a = endpoint)) || negb (bool_decide (as_binding a = observed))
      then mret () else
      _u ←ok host_server (receive_accept incoming now) else mret ();
      a ← (if as_established a then mret (set_established (as_plan a) (as_cpu_before a) a) else
           sysm (ready n (fd_ready (fds o))) ;;
           if stream_rate o =? 0 then mret (set_established (as_plan a) (as_cpu_before a) a) else
           plan ← sysm (read_stream_plan n o);
           cpu ← sysm cpu_usage;
           mret (set_established plan (Some cpu) a));
      assign (set_association id a)
  end.

(** [manager.expire]: the state afterwards. *)
Definition expired (mgr : CandidateManager) (now : Z) (s : State) : outcome (stop CliError) State :=
  match expire mgr now s with (Panic, _) => Panic | (_, s) => Ok s end.

(** The association when a data packet has come, and the locators it may come from; [None] when it
    is dropped. *)
Definition allowed_sources (a : Association) (endpoint : SocketAddr) (observed : ObservedBinding) (now : Z) :
    HM (Association * option (list bytes)) :=
  match as_manager a with
  | None =>
      mret (a, if negb (bool_decide (as_endpoint a = endpoint)) || negb (bool_decide (as_binding a = observed))
               then None else Some [])
  | Some (mgr, s) =>
      s ← lift (expired mgr now s);
      let a := set_as_manager (Some (mgr, s)) a in
      let other := negb (bool_decide (observed = as_binding a)) in
      let old_binding := other && binding_allowed_inbound s observed now in
      mret (a, if as_promoted a && other && negb old_binding then None
               else Some (as_proposals a ++ (if as_promoted a && old_binding then [opt_peer_loc o] else [])))
  end.

(** A control message of an association. *)
Definition on_control (id : Z) (header : Header) (a : Association) (mgr : CandidateManager) (s : State)
    (endpoint : SocketAddr) (observed : ObservedBinding) (now : Z) (preview : DataPreview) (plain : bytes) : HM unit :=
  control ←ok result (control_parse plain) else mret ();
  h ← look;
  transition ←ok result (preview_protected mgr s observed now (world h) plain (data_into_replay_proof preview))
    else mret ();
  reply ←ok result (response_for mgr transition s) else mret ();
  _u ←ok host_commit id a mgr s now transition else mret ();
  h ← look;
  match associations h !! id with
  | Some a =>
      let a := match control with LocUpdate _ _ loc _ _ _ _ _ => add_proposal loc a | _ => a end in
      assign (set_association id a) ;;
      (match reply with
       | Some reply => host_send_control id reply (src header) endpoint
       | None => mret ()
       end) ;;
      match as_manager a with
      | Some (mgr, s) =>
          let '(results, s) := take_results s in
          let a := set_as_manager (Some (mgr, s)) a in
          assign (set_association id a) ;;
          foldr (λ c rest, host_send_control id c (st_peer_loc s) endpoint ;; rest) (mret ()) results ;;
          if beq (st_peer_loc s) (opt_peer_loc o) then mret () else
          assign (λ h, set_association id (promote_to endpoint observed a)
                         (set_server (server_promote_peer_loc (st_peer_loc s) (server h), world h) h))
      | None => mret ()
      end
  | None => mret ()
  end.

(** The manager of an association, made for its first data packet. *)
Definition manager_for (id : Z) (a : Association) : HM (CandidateManager * State) :=
  match as_manager a with
  | Some m => mret m
  | None =>
      secret ← sysm (nonzero_random 32);
      h ← look;
      b ← lift (map_err (λ e, Failed (Session e)) (server_protected_replay_binding (server h) id));
      let c := mkManagerConfig signing local remote 0 id (policy o) (old o) (opt_peer_loc o) (as_binding a) secret in
      let '(r, next) := new_with_protected_replay_binding c b (next_manager h) in
      assign (set_next_manager next) ;;
      match r with Ok m => mret m | Err _ => fail Config | Panic => lift Panic end
  end.

(** An application message: it is echoed to the endpoint of the association.  [true] when the server
    is to move next. *)
Definition on_message (id : Z) (a : Association) (initial : bool) (endpoint : SocketAddr)
    (observed : ObservedBinding) (now : Z) (preview : DataPreview) (plain : bytes) : HM bool :=
  if negb initial && negb (as_promoted a)
     && (negb (bool_decide (as_endpoint a = endpoint)) || negb (bool_decide (as_binding a = observed)))
  then mret false else
  _u ←ok host_server (server_commit_data preview now) else mret false;
  (if counts_post_move_packet (as_promoted a) endpoint (as_endpoint a) then
     let a := add_post a in
     assign (set_association id a) ;;
     if as_post a =? expected_post_move o then assign add_completed else mret ()
   else mret ()) ;;
  output ← host_server_try (server_send_data id plain);
  sysm (send (ln_socket l) output (as_endpoint a)) ;;
  mret (initial && bool_decide (moving_role o = Role2)).

(** The server moves: its run ends with that of the mover. *)
Definition host_move (id : Z) (a : Association) (mgr : CandidateManager) (s : State) : HM unit := λ x,
  let '(k, h) := x in
  let '(r, (k, _)) :=
    serve_role2_mover n o mgr (ln_socket l) id (as_endpoint a) (as_binding a) (ln_selector l) (ln_started l)
      (as_plan a) (as_cpu_before a) (k, mkMover (server h) (world h) s) in
  (r, (k, h)).

Definition on_data (id : Z) (header : Header) (incoming : bytes) (endpoint : SocketAddr)
    (observed : ObservedBinding) (now : Z) : HM bool :=
  h ← look;
  match associations h !! id with
  | None => mret false
  | Some a =>
      if negb (as_established a) then mret false else
      let initial := bool_decide (as_manager a = None) in
      '(a, x) ← allowed_sources a endpoint observed now;
      assign (set_association id a) ;;
      match x with
      | None => mret false
      | Some allowed =>
          preview ←ok host_server (server_preview_data_with_locs incoming allowed [] now) else mret false;
          h ← look;
          plain ←ok result (data_plaintext (world h) preview) else mret false;
          '(mgr, s) ← manager_for id a;
          let a := set_as_manager (Some (mgr, s)) a in
          assign (set_association id a) ;;
          if starts_with_magic plain then
            on_control id header a mgr s endpoint observed now preview plain ;; mret false
          else
            moves ← on_message id a initial endpoint observed now preview plain;
            if moves : bool then host_move id a mgr s ;; mret true else mret false
      end
  end.

Definition serve_packet (incoming : bytes) (endpoint : SocketAddr) : HM (unit + Verdict) :=
  u ← sysm (try (binding endpoint (ln_selector l)));
  let observed := Udp u in
  unpacked ←ok result (unpack_with_budget incoming (budget o)) else mret (inl ());
  let '(header, payload) := unpacked in
  msg ←ok result (message_decode payload 0 (budget o)) else mret (inl ());
  now ← sysm (now_ms (ln_started l));
  let id := Wire.scid header in
  let typ := msg_typ msg in
  let reply (m : HM (option bytes)) : HM (unit + Verdict) :=
    output ← m;
    match output with
    | Some output => sysm (send (ln_socket l) output endpoint)
    | None => mret ()
    end ;; mret (inl ()) in
  if typ =? OPEN then reply (on_open incoming endpoint observed now)
  else if typ =? OPEN_AUTH then reply (on_open_auth id incoming endpoint observed now)
  else if typ =? SESSION_ACCEPT then on_accept id incoming endpoint observed now ;; mret (inl ())
  else if typ =? SESSION_DATA then
    over ← on_data id header incoming endpoint observed now;
    mret (if over : bool then inr Return else inl ())
  else mret (inl ()).

(** A pass of the loop: [inr] leaves it. *)
Definition serve_pass : HM (unit + Verdict) :=
  h ← look;
  let stream_end := head (omap (λ a, end_ns <$> as_plan a) (values (associations h))) in
  now_ns ← sysm monotonic_ns;
  over ← (if server_complete (completed h) (max_sessions o) stream_end now_ns
             || match stream_end with Some e => e <=? now_ns | None => false end
          then mret true
          else match stream_end with
               | None => t ← now; mret (ln_deadline l <=? t)
               | Some _ => mret false
               end);
  if over : bool then mret (inr Break) else
  let cap := match stream_end with Some e => sat_sub e now_ns | None => timeout o end in
  until ← match stream_end with Some _ => t ← now; later t cap | None => mret (ln_deadline l) end;
  t ← sysm (receive_timeout until cap);
  match t with
  | None => mret (inl ())
  | Some t =>
      d ← attempt (sysm (receive (ln_socket l) t (budget o)));
      match d with
      | inr (incoming, endpoint) => serve_packet incoming endpoint
      | inl (Failed (Session SessionError.Timeout)) => mret (inr Break)
      | inl (Failed Io) => fail Io
      | inl (Failed _) => mret (inl ())
      | inl Running => throw Running
      end
  end.

Definition serve_loop : HM unit :=
  v ← loop n (λ _, serve_pass) ();
  match v with
  | Return => mret ()
  | Break =>
      h ← look;
      if completed h =? max_sessions o then
        if stream_rate o =? 0 then mret () else
        match head (omap as_cpu_before (values (associations h))) with
        | Some before => sysm (finish_cpu n o (Some before))
        | None => fail (Session SessionError.AuthFailed)
        end
      else fail (Session SessionError.Timeout)
  end.
End Serve.

Definition serve_setup (o : Options) (signing : bytes) (local remote : Identity) : st K (stop CliError) (Lan * Host) :=
  started ← ask Now;
  r ← ask (UdpBind (bind o));
  match r with
  | inl _ => fail Io
  | inr socket =>
      configure_df socket ;;
      selector ← random 16;
      boot_instance ← random 16;
      current ← random 32;
      previous ← random 32;
      server ← lift_err Session (server_new (config local remote o) signing
                                   (mkServerMaterial boot_instance current previous 0));
      source_key ← random 32;
      t ← ask Now;
      deadline ← later t (timeout o);
      mret (mkLan socket selector source_key started deadline,
            mkHost server world_init limiter_new ∅ 0 1)
  end.

Definition serve (n : nat) (o : Options) (signing : bytes) (local remote : Identity)
    (values : gmap Z Association → list Association) : st K (stop CliError) unit := λ k,
  match serve_setup o signing local remote k with
  | (Ok (l, h), k) => let '(r, (k, _)) := serve_loop n o signing local remote values l (k, h) in (r, k)
  | (Err e, k) => (Err e, k)
  | (Panic, k) => (Panic, k)
  end.

(** The exit code. *)
Definition main (n : nat) (values : gmap Z Association → list Association) (args : list string) :
    st K (stop CliError) Z :=
  r ← attempt (
    o ← lift (map_err Failed (options args));
    '(signing, local, remote) ← lift (map_err Failed (identities o));
    match command o with
    | Connect => connect n o signing local remote
    | Serve => serve n o signing local remote values
    end);
  match r with
  | inr _ => print "[r8move] complete" ;; mret 0
  | inl (Failed e) => print ("[r8move] error " +:+ as_str e) ;; mret 1
  | inl Running => throw Running
  end.
End Server.
End R8moveServer.
