(* ===== verification/MoveInv.v ===== *)
(** * What the serving mode of the mobility program guarantees

    The table of associations along any run of the loop on a logged network: every
    association drives its candidate manager by a run in the sense of
    [MobilityInv.v], whose history holds nothing but what the server opened from
    packets that the trace shows as received, each with the binding of its source; an
    association counts as moved only after its manager received a signed location
    update and a response with its own token; and the number of completed
    sessions is the number of those that were served after their move. *)

From S2P Require Import Prelude Wire Checksum Codec Crypto SessionMsg Replay SessionCrypto Directional Client Limiter Server Control Mobility MobilityInv Text Loc Udp SessionCli MoveCli MoveIo MoveClient MoveServer.
From stdpp Require Import gmap strings.
#[local] Open Scope Z_scope.
Import R8move R8moveIo R8moveClient R8moveServer.

(** ** What a computation that succeeds ensures

    An assertion is about the trace of the kernel and the state beside it. *)

Definition triple {K S E A} (P : list event → S → Prop) (m : st (K * list event * S) E A)
    (Q : A → list event → S → Prop) : Prop :=
  ∀ x a y, P (snd (fst x)) (snd x) → m x = (Ok a, y) → Q a (snd (fst y)) (snd y).

(** A longer trace does not falsify the assertion. *)
Class Grows {S} (P : list event → S → Prop) : Prop := grows : ∀ t t' s, P t s → P (t ++ t') s.

#[export] Instance grows_and {S} (F : S → Prop) (P : list event → S → Prop) :
  Grows P → Grows (λ t s, F s ∧ P t s).
Proof. intros HP t t' s [? ?]. split; [done|]. by apply HP. Qed.
#[export] Instance grows_true {S} : Grows (λ (_ : list event) (_ : S), True).
Proof. done. Qed.

(** A program over the kernel adds to the trace. *)
Class Appends {K E A} (m : st (K * list event) E A) : Prop := appends :
  ∀ x, ∃ t, snd (snd (m x)) = snd x ++ t.

Section Appends.
Context {K : Type} `{NC : Net K}.
Abbreviation T := (K * list event)%type.

#[export] Instance appends_ret {E A} (a : A) : Appends (mret (M:=st T E) a).
Proof. intros x. exists []. by rewrite app_nil_r. Qed.
#[export] Instance appends_throw {E A} (e : E) : Appends (throw e : st T E A).
Proof. intros x. exists []. by rewrite app_nil_r. Qed.
#[export] Instance appends_lift {E A} (m : outcome E A) : Appends (lift m : st T E A).
Proof. intros x. exists []. by rewrite app_nil_r. Qed.
#[export] Instance appends_ask {E} {A : Set} (c : call A) : Appends (ask c : st T E A).
Proof.
  intros [k t]. unfold ask, net, logged. destruct (@net K NC A c k) as [a k']. by eexists.
Qed.
Lemma appends_bind {E A B} (m : st T E A) (f : A → st T E B) :
  Appends m → (∀ a, Appends (f a)) → Appends (m ≫= f).
Proof.
  intros Hm Hf x. destruct (Hm x) as [t Ht]. unfold mbind, st_bind.
  destruct (m x) as [[a|e|] y]; [|by exists t..]. destruct (Hf a y) as [t' Ht']. exists (t ++ t').
  simpl in Ht. by rewrite Ht', Ht, (assoc_L (++)).
Qed.
Lemma appends_loop {E A B} n (body : A → st T (stop E) (A + B)) a :
  (∀ a, Appends (body a)) → Appends (loop n body a).
Proof.
  intros Hb. revert a. induction n as [|n IH]; intros a; [apply appends_throw|]. simpl.
  apply appends_bind; [apply Hb|]. intros [a'|b]; [apply IH|apply appends_ret].
Qed.
End Appends.

(** Programs made of calls. *)
Ltac appends :=
  repeat first
    [ progress intros | progress cbv zeta | solve [apply _] | simple apply appends_bind
    | simple apply appends_loop | simple apply appends_ret | case_match ].

Section Calls.
Context {K : Type} `{NC : Net K}.
Abbreviation T := (K * list event)%type.

#[export] Instance appends_fail {E A} (e : E) : Appends (fail e : st T (stop E) A).
Proof. unfold fail. appends. Qed.
#[export] Instance appends_lift_err {E F A} (f : E → F) (m : outcome E A) :
  Appends (lift_err (K:=T) f m).
Proof. unfold lift_err. appends. Qed.
#[export] Instance appends_try {A} (m : outcome CliError A) : Appends (try (K:=T) m).
Proof. unfold try. appends. Qed.
#[export] Instance appends_send s p a : Appends (send (K:=T) s p a).
Proof. unfold send. appends. Qed.
#[export] Instance appends_random n : Appends (random (K:=T) n).
Proof. unfold random. appends. Qed.
#[export] Instance appends_nonzero_random n : Appends (nonzero_random (K:=T) n).
Proof. unfold nonzero_random. generalize 4%nat. intros k. induction k; cbn [nonzero_loop]; appends. Qed.
#[export] Instance appends_now_ms {E} t : Appends (now_ms (K:=T) (E:=E) t).
Proof. unfold now_ms. appends. Qed.
#[export] Instance appends_monotonic_ns : Appends (monotonic_ns (K:=T)).
Proof. unfold monotonic_ns. appends. Qed.
#[export] Instance appends_write_all n fd d : Appends (write_all (K:=T) n fd d).
Proof. unfold write_all, write_pass, interrupted. appends. Qed.
#[export] Instance appends_read_exact n fd k : Appends (read_exact (K:=T) n fd k).
Proof. unfold read_exact, read_pass, interrupted. appends. Qed.
#[export] Instance appends_ready n fd : Appends (ready (K:=T) n fd).
Proof. unfold ready. appends. Qed.
#[export] Instance appends_cpu_usage : Appends (cpu_usage (K:=T)).
Proof. unfold cpu_usage. appends. Qed.
#[export] Instance appends_finish_cpu n o before : Appends (finish_cpu (K:=T) n o before).
Proof. unfold finish_cpu, write_cpu. appends. Qed.
#[export] Instance appends_read_stream_plan n o : Appends (read_stream_plan (K:=T) n o).
Proof. unfold read_stream_plan. appends. Qed.
#[export] Instance appends_receive_timeout d c : Appends (receive_timeout (K:=T) d c).
Proof. unfold receive_timeout. appends. Qed.
#[export] Instance appends_receive s d b : Appends (receive (K:=T) s d b).
Proof. unfold receive, set_read_timeout. appends. Qed.
End Calls.

Section Triples.
Context {K S E : Type} `{NC : Net K}.
Implicit Types P : list event → S → Prop.
Abbreviation M := (st (K * list event * S) E).

Lemma triple_ret {A} P (a : A) (Q : A → list event → S → Prop) :
  (∀ t s, P t s → Q a t s) → triple P (mret (M:=M) a) Q.
Proof. intros H x b y Hp [= <- <-]. by apply H. Qed.

Lemma triple_bind {A B} P (m : M A) (f : A → M B) R Q :
  triple P m R → (∀ a, triple (R a) (f a) Q) → triple P (m ≫= f) Q.
Proof. intros Hm Hf x b z Hp (a & y & H1 & H2)%st_bind_Ok. eapply Hf, H2. by eapply Hm. Qed.

Lemma triple_throw {A} P (e : E) (Q : A → list event → S → Prop) : triple P (throw e : M A) Q.
Proof. by intros x a y _ H. Qed.

Lemma triple_lift {A} P (m : outcome E A) : triple P (lift m : M A) (λ a t s, m = Ok a ∧ P t s).
Proof. intros x a y Hp H. unfold lift in H. by injection H as -> <-. Qed.

Lemma triple_result {A E'} P (m : outcome E' A) :
  triple P (result m : M (E' + A)) (λ r t s, P t s ∧ match r with inr a => m = Ok a | inl _ => True end).
Proof.
  intros x a y Hp H. unfold result in H. destruct m; try injection H as <- <-; try done.
Qed.

(** What a call on the kernel gives, and that it keeps what grows. *)
Lemma triple_sysm_result {A} P (m : st (K * list event) E A) `{!Grows P} `{!Appends m} :
  triple P (sysm m) (λ a t s, P t s ∧ ∃ k t0, m (k, t0) = (Ok a, (fst (snd (m (k, t0))), t))).
Proof.
  intros [[k t] s] a y Hp H. unfold sysm, zoom in H. simpl in H.
  destruct (appends (m:=m) (k, t)) as [t' Ht]. destruct (m (k, t)) as [r [k1 t1]] eqn:Hm.
  simpl in Ht. injection H as -> <-. subst t1. simpl. split; [by apply grows|].
  exists k, t. by rewrite Hm.
Qed.

Lemma triple_sysm {A} P (m : st (K * list event) E A) `{!Grows P} `{!Appends m} :
  triple P (sysm m) (λ _, P).
Proof. intros x a y Hp H. by eapply triple_sysm_result in H as [? _]. Qed.

Lemma triple_attempt_sysm {A E'} P (m : st (K * list event) E' A) `{!Grows P} `{!Appends m} :
  triple P (attempt (E:=E') (E':=E) (sysm m)) (λ r t s, P t s ∧
    match r with inr a => ∃ k t0, m (k, t0) = (Ok a, (fst (snd (m (k, t0))), t)) | inl _ => True end).
Proof.
  intros [[k t] s] a y Hp H. unfold attempt, sysm, zoom in H. simpl in H.
  destruct (appends (m:=m) (k, t)) as [t' Ht]. destruct (m (k, t)) as [r [k1 t1]] eqn:Hm.
  simpl in Ht. subst t1. destruct r; try done; injection H as <- <-; simpl; (split; [by apply grows|]); [|done].
  exists k, t. by rewrite Hm.
Qed.

Lemma triple_look P : triple P (look (K:=K * list event) (E:=E)) (λ h t s, h = s ∧ P t s).
Proof. by intros x a y Hp [= <- <-]. Qed.

Lemma triple_assign P (f : S → S) (Q : unit → list event → S → Prop) :
  (∀ t s, P t s → Q () t (f s)) → triple P (assign (K:=K * list event) (E:=E) f) Q.
Proof. intros H x [] y Hp [= <-]. by apply H. Qed.

Lemma triple_mono {A} P P' (m : M A) (Q Q' : A → list event → S → Prop) :
  triple P' m Q' → (∀ t s, P t s → P' t s) → (∀ a t s, Q' a t s → Q a t s) → triple P m Q.
Proof. intros Hm Hp Hq x a y Hx H. eapply Hq, Hm, H. auto. Qed.

Lemma triple_or_else {A B E1} P (m : M (E1 + A)) (d : M B) (k : A → M B) R Q :
  triple P m R → (∀ e, triple (R (inl e)) d Q) → (∀ a, triple (R (inr a)) (k a) Q) → triple P (or_else m d k) Q.
Proof. intros Hm Hd Hk. eapply triple_bind; [exact Hm|]. by intros [e|a]. Qed.

(** Facts that do not depend on the state move out of a precondition. *)
Lemma triple_fact {A} (F : Prop) P (m : M A) Q :
  (F → triple P m Q) → triple (λ t s, F ∧ P t s) m Q.
Proof. intros H x a y [Hf Hp] Hm. by eapply H. Qed.
Lemma triple_fact_r {A} (F : Prop) P (m : M A) Q :
  (F → triple P m Q) → triple (λ t s, P t s ∧ F) m Q.
Proof. intros H x a y [Hp Hf] Hm. by eapply H. Qed.
End Triples.

(** ** The associations *)

Section Associations.
Context `{C : Crypto} `{DA : Build} (o : Options) (local remote : Identity) (selector : bytes).
(** The states of the server that packets met. *)
Context (met : ServerWorld → Prop).

(** A packet of a session that opens to these bytes in a state of the server that it met. *)
Definition opens (id : Z) (packet plain : bytes) : Prop :=
  (∃ h payload, unpack_with_budget packet (budget o) = Ok (h, payload) ∧ Wire.scid h = id) ∧
  ∃ sources destinations now mw preview mw', met mw ∧
    server_preview_data_with_locs packet sources destinations now mw = (Ok preview, mw') ∧
    data_plaintext (snd mw') preview = Ok plain.

(** A control comes from the network: its bytes are what a packet of the session opens to that was
    received, and its carrier is the binding of the address the packet came from. *)
Definition heard (t : list event) (id : Z) (b : ObservedBinding) (plain : bytes) : Prop :=
  ∃ packet endpoint u, (packet, endpoint) ∈ Udp.received t ∧
    binding endpoint selector = Ok u ∧ b = Udp u ∧ opens id packet plain.

(** At some point of its run a manager believed its peer at another locator than that of the
    handshake, on the strength of an update and a response to its own challenge, both received. *)
Definition peer_moved (m : CandidateManager) (secret : bytes) (s0 : State) (y : Sys) : Prop :=
  ∃ x k r, reachable m false s0 x ∧ rtc (mstep m false) x y ∧
    st_peer_loc (sy_state x) ≠ opt_peer_loc o ∧ key_loc k = st_peer_loc (sy_state x) ∧
    signed_update m (sy_history x) k ∧ token_returned m secret (sy_history x) k r.

(** The manager of a session was made by the program for that session and its peer, has run since
    by calls of its interface on controls from the network, and has a reason for having moved. *)
Definition managed (t : list event) (id : Z) (m : CandidateManager) (s : State) (promoted : bool) : Prop :=
  ∃ c b n s0 n' T B,
    new_with_protected_replay_binding c b n = (Ok (m, s0), n') ∧ reachable m false s0 (mkSys s T B []) ∧
    (cf_scid c = id ∧ cf_local c = local ∧ cf_peer c = remote ∧
     cf_local_loc c = old o ∧ cf_peer_loc c = opt_peer_loc o) ∧
    (∀ x, x ∈ hi_received B → heard t id (rc_binding x) (rc_plaintext x)) ∧
    (promoted = true → peer_moved m (cf_candidate_secret c) s0 (mkSys s T B [])).

Record assoc_ok (t : list event) (id : Z) (a : Association) : Prop := {
  ao_post : 0 ≤ as_post a;
  ao_counted : 0 < as_post a → as_promoted a = true;
  ao_binding : ∃ u, as_binding a = Udp u ∧ binding (as_endpoint a) selector = Ok u;
  ao_heard : ∃ packet, (packet, as_endpoint a) ∈ Udp.received t;
  ao_manager : match as_manager a with
               | Some (m, s) => managed t id m s (as_promoted a)
               | None => as_promoted a = false
               end;
}.

(** The sessions that were served often enough after their move. *)
Definition done_ids (m : gmap Z Association) : gset Z :=
  dom (filter (λ p : Z * Association, expected_post_move o ≤ as_post p.2) m).

Record good (t : list event) (m : gmap Z Association) (completed : Z) : Prop := {
  gd_completed : completed = Z.of_nat (size (done_ids m));
  gd_associations id a : m !! id = Some a → assoc_ok t id a;
}.

Definition goodat (id : Z) (a : Association) (t : list event) (m : gmap Z Association) (completed : Z) : Prop :=
  good t m completed ∧ m !! id = Some a.

(** What was received stays received. *)
Lemma received_grows t t' : Udp.received t ⊆ Udp.received (t ++ t').
Proof. rewrite received_app. set_solver. Qed.
Lemma heard_grows t t' id b plain : heard t id b plain → heard (t ++ t') id b plain.
Proof. intros (p & e & u & Hin & ?). exists p, e, u. split; [by apply received_grows|done]. Qed.
Lemma managed_grows t t' id m s promoted : managed t id m s promoted → managed (t ++ t') id m s promoted.
Proof.
  intros (c & b & n & s0 & n' & T & B & ? & ? & ? & ? & ?). exists c, b, n, s0, n', T, B.
  split_and!; eauto using heard_grows; naive_solver.
Qed.
Lemma assoc_ok_grows t t' id a : assoc_ok t id a → assoc_ok (t ++ t') id a.
Proof.
  intros [H1 H2 H3 [p H4] H5]. split; [done..| |].
  - exists p. by apply received_grows.
  - destruct (as_manager a) as [[m s]|]; [|done]. by apply managed_grows.
Qed.
Lemma good_grows t t' m c : good t m c → good (t ++ t') m c.
Proof. intros [H1 H2]. split; [done|]. intros id a Hl. by apply assoc_ok_grows, H2. Qed.
Lemma goodat_grows id a t t' m c : goodat id a t m c → goodat id a (t ++ t') m c.
Proof. intros [H1 H2]. split; [by apply good_grows|done]. Qed.

Lemma elem_of_done id m : id ∈ done_ids m ↔ ∃ a, m !! id = Some a ∧ expected_post_move o ≤ as_post a.
Proof.
  unfold done_ids. rewrite elem_of_dom. split.
  - intros [a [Ha He]%map_lookup_filter_Some]. eauto.
  - intros (a & Ha & He). exists a. by apply map_lookup_filter_Some.
Qed.

(** Replacing an association by one that is as good. *)
Definition similar (t : list event) (id : Z) (a a' : Association) : Prop :=
  as_post a' = as_post a ∧ assoc_ok t id a'.

Lemma done_insert m id a : (id ∈ done_ids m ↔ expected_post_move o ≤ as_post a) → done_ids (<[id := a]> m) = done_ids m.
Proof.
  intros Hd. apply set_eq. intros j. destruct (decide (j = id)) as [->|Hj].
  - rewrite Hd, elem_of_done, lookup_insert_eq. naive_solver.
  - by rewrite !elem_of_done, lookup_insert_ne.
Qed.

Lemma good_insert t m c id a :
  good t m c → assoc_ok t id a → (id ∈ done_ids m ↔ expected_post_move o ≤ as_post a) →
  goodat id a t (<[id := a]> m) c.
Proof.
  intros [Hc Ha] Hok Hd. split; [|apply lookup_insert_eq]. split; [by rewrite done_insert|].
  intros j b. destruct (decide (j = id)) as [->|Hj].
  - rewrite lookup_insert_eq. by intros [= <-].
  - rewrite lookup_insert_ne by done. apply Ha.
Qed.

Lemma goodat_update t m c id a a' :
  goodat id a t m c → similar t id a a' → goodat id a' t (<[id := a']> m) c.
Proof.
  intros [Hg Hl] [Hp Hok]. apply good_insert; [done..|].
  rewrite elem_of_done, Hp, Hl. naive_solver.
Qed.

Lemma goodat_ok t m c id a : goodat id a t m c → assoc_ok t id a.
Proof. intros [Hg Hl]. by apply (gd_associations _ _ _ Hg). Qed.

(** A message after the move: the session is completed with the last that is expected. *)
Lemma goodat_post t m c id a :
  goodat id a t m c → as_promoted a = true →
  goodat id (add_post a) t (<[id := add_post a]> m)
    (if as_post (add_post a) =? expected_post_move o then c + 1 else c).
Proof.
  intros [[Hc Ha] Hl] Hp. pose proof (Ha _ _ Hl) as [H0 _ Hb Hh Hm].
  assert (assoc_ok t id (add_post a)) as Hok by (split; simpl; [lia|done..]).
  split; [|apply lookup_insert_eq]. split.
  - simpl. destruct (Z.eqb_spec (as_post a + 1) (expected_post_move o)) as [He|He].
    + assert (id ∉ done_ids m) as Hnot by (rewrite elem_of_done, Hl; intros (? & [= <-] & ?); lia).
      assert (done_ids (<[id := add_post a]> m) = {[id]} ∪ done_ids m) as ->.
      { apply set_eq. intros j. rewrite elem_of_union, elem_of_singleton, !elem_of_done.
        destruct (decide (j = id)) as [->|Hj].
        - rewrite lookup_insert_eq. split; [by left|]. intros ?. exists (add_post a). simpl. split; [done|lia].
        - rewrite lookup_insert_ne by done. naive_solver. }
      rewrite size_union by set_solver. rewrite size_singleton. lia.
    + rewrite done_insert; [done|]. rewrite elem_of_done, Hl. simpl. split.
      * intros (? & [= <-] & ?). lia.
      * intros. exists a. split; [done|lia].
  - intros j b. destruct (decide (j = id)) as [->|Hj].
    + rewrite lookup_insert_eq. by intros [= <-].
    + rewrite lookup_insert_ne by done. apply Ha.
Qed.

(** ** The calls of a manager *)

(** A manager goes on by calls of its interface; what it hears comes from the network. *)
Lemma managed_step t id m s promoted :
  managed t id m s promoted → ∀ s',
  (∀ T B, ∃ T' B', rtc (mstep m false) (mkSys s T B []) (mkSys s' T' B' []) ∧
     ∀ x, x ∈ hi_received B' → x ∈ hi_received B ∨ heard t id (rc_binding x) (rc_plaintext x)) →
  managed t id m s' promoted.
Proof.
  intros (c & b & n & s0 & n' & T & B & Hn & Hr & Hc & Hh & Hp) s' Hs.
  destruct (Hs T B) as (T' & B' & Hsteps & HB). exists c, b, n, s0, n', T', B'.
  split; [done|]. split; [|split; [done|split]].
  - clear - Hr Hsteps. induction Hsteps as [|x y z Hxy _ IH]; [done|]. apply IH. by eapply reach_step.
  - intros x [?|?]%HB; auto.
  - intros (x & k & r & Hrx & Hx & ?)%Hp. exists x, k, r. split; [done|]. split; [|done]. by etrans.
Qed.

Lemma managed_expire t id m s promoted now r s' :
  managed t id m s promoted → expire m now s = (r, s') → r ≠ Panic → managed t id m s' promoted.
Proof.
  intros Hm He Hpn. apply (managed_step _ _ _ _ _ Hm). intros T B. exists T, B. split; [|by left].
  apply rtc_once. by eapply step_expire.
Qed.

Lemma managed_take_results t id m s promoted l s' :
  managed t id m s promoted → take_results s = (l, s') → managed t id m s' promoted.
Proof.
  intros Hm He. apply (managed_step _ _ _ _ _ Hm). intros T B. exists T, B. split; [|by left].
  apply rtc_once. by eapply step_take_results.
Qed.

Lemma managed_commit {R} (commit : ProtectedReplayProof → R → outcome SessionError.t unit * ProtectedReplayProof * R)
    t id m s promoted observed now w plain proof tr (x : R) r s' x' :
  managed t id m s promoted → heard t id observed plain →
  preview_protected m s observed now w plain proof = Ok tr →
  commit_protected_replay m commit tr (s, x) = (r, (s', x')) → r ≠ Panic → managed t id m s' promoted.
Proof.
  intros Hm Hh Ht Hcm Hpn. unfold preview_protected in Ht. destruct (_ || _); [done|].
  apply (managed_step _ _ _ _ _ Hm). intros T B.
  exists (tr :: T), (add_received (mkReceipt observed now plain) B). split.
  - eapply rtc_l; [by eapply step_preview|]. apply rtc_once.
    eapply step_commit_protected; [by left|done|exact Hcm|done].
  - intros y [->|?]%elem_of_cons; [by right|by left].
Qed.

(** A manager whose peer is no longer at the locator of the handshake has a reason for it. *)
Lemma managed_moved t id m s promoted :
  managed t id m s promoted → st_peer_loc s ≠ opt_peer_loc o → managed t id m s true.
Proof.
  intros (c & b & n & s0 & n' & T & B & Hn & Hr & Hc & Hh & Hp) Hne. exists c, b, n, s0, n', T, B.
  split_and!; try done; try apply Hc. intros _.
  pose proof (manager_wf _ _ _ _ _ _ _ _ _ Hn Hr) as [[_ _ _ [Hpl _ _] _ _] _ _].
  destruct Hc as (_ & _ & _ & _ & Hc). simpl in Hpl. destruct Hpl as [?|(k & r & ? & ? & ?)]; [congruence|].
  by exists (mkSys s T B []), k, r.
Qed.
End Associations.

(** ** The loop *)

(** A property of the trace, the table of a host and its count, when some packets were received. *)
Definition on (ps : list (bytes * SocketAddr)) (F : list event → gmap Z Association → Z → Prop) :
    list event → Host → Prop := λ t h,
  ps ⊆ Udp.received t ∧ F t (associations h) (completed h).

Section Loop.
Context `{C : Crypto} `{DA : Build} {K : Type} `{NC : Net K}.
Context (n : nat) (o : Options) (signing : bytes) (local remote : Identity)
  (values : gmap Z Association → list Association) (l : Lan) (ps : list (bytes * SocketAddr)).
(** The pass starts in the state [mw0] of the server. *)
Context (met : ServerWorld → Prop) (mw0 : ServerWorld) (Hmet : met mw0).
Context (Hexpected : 0 < expected_post_move o) (Hrole : moving_role o = Role1).
Abbreviation T := (K * list event)%type.
Abbreviation good := (good o local remote (ln_selector l) met).
Abbreviation goodat := (goodat o local remote (ln_selector l) met).
Abbreviation similar := (similar o local remote (ln_selector l) met).
Abbreviation managed := (managed o local remote (ln_selector l) met).
Abbreviation heard := (heard o (ln_selector l) met).
Abbreviation on := (on ps).

(** The server is still as at the start of the pass. *)
Definition still (P : list event → Host → Prop) : list event → Host → Prop := λ t h,
  (server h, world h) = mw0 ∧ P t h.
#[local] Instance grows_still P : Grows P → Grows (still P).
Proof. apply grows_and. Qed.

#[local] Instance grows_on_good : Grows (on good).
Proof. intros t t' h [? ?]. split; [by etrans; [|apply received_grows]|by apply good_grows]. Qed.
#[local] Instance grows_on_goodat id a : Grows (on (goodat id a)).
Proof. intros t t' h [? ?]. split; [by etrans; [|apply received_grows]|by apply goodat_grows]. Qed.
#[local] Instance grows_similar id a a' : Grows (λ t (h : Host), similar t id a a' ∧ on (goodat id a) t h).
Proof. intros t t' h [[? ?] ?]. split; [split; [done|by apply assoc_ok_grows]|by apply grows]. Qed.

(** The machine of the server touches neither the trace nor the table. *)
Lemma triple_server_result {A} F (m : st ServerWorld SessionError.t A) :
  triple (on F) (host_server (K:=T) m) (λ r t h, on F t h ∧
    match r with inr a => ∃ mw, m mw = (Ok a, (server h, world h)) | inl _ => True end).
Proof.
  intros [k h] a y Hp H. unfold host_server, machine, zoom in H. simpl in H.
  destruct (m (server h, world h)) as [[b|e|] mw] eqn:Hm; simplify_eq/=; split; try done.
  exists (server h, world h). by destruct mw.
Qed.

(** The first call of the pass on the server starts from [mw0]. *)
Lemma triple_still_result {A} F (m : st ServerWorld SessionError.t A) :
  triple (still (on F)) (host_server (K:=T) m) (λ r t h, on F t h ∧
    match r with inr a => m mw0 = (Ok a, (server h, world h)) | inl _ => True end).
Proof.
  intros [k h] a y [Hmw Hp] H. unfold host_server, machine, zoom in H. simpl in H, Hmw. rewrite Hmw in H.
  destruct (m mw0) as [[b|e|] mw] eqn:Hm; simplify_eq/=; split; try done. by destruct mw.
Qed.

(** What does not touch the server leaves it as it was. *)
Lemma triple_still {A} P (m : st (T * Host) (stop CliError) A) Q :
  (∀ x a y, m x = (Ok a, y) → server (snd y) = server (snd x) ∧ world (snd y) = world (snd x)) →
  triple P m Q → triple (still P) m (λ a, still (Q a)).
Proof.
  intros Hf Hm x a y [Hmw Hp] H. destruct (Hf _ _ _ H) as [Hs Hw]. split; [congruence|]. by eapply Hm.
Qed.

Lemma triple_host_server {A} F (m : st ServerWorld SessionError.t A) :
  triple (on F) (host_server (K:=T) m) (λ _, on F).
Proof. intros x r y Hp H. by eapply triple_server_result in H as [? _]. Qed.

Lemma triple_host_server_try {A} F (m : st ServerWorld SessionError.t A) :
  triple (on F) (host_server_try (K:=T) m) (λ _, on F).
Proof.
  eapply triple_bind; [apply triple_host_server|]. intros [e|a]; [apply triple_throw|by apply triple_ret].
Qed.

#[local] Hint Resolve triple_host_server triple_host_server_try triple_throw : move.
#[local] Hint Extern 1 (triple _ (sysm _) _) => (apply triple_sysm; apply _) : move.

Lemma triple_sends F id plain source destination peer :
  Grows (on F) →
  triple (on F) (host_send_locs (K:=T) l id plain source destination peer) (λ _, on F).
Proof. intros HF. unfold host_send_locs. eapply triple_bind; [auto with move|]. intros. auto with move. Qed.

Lemma triple_send_control F id c destination peer :
  Grows (on F) →
  triple (on F) (host_send_control (K:=T) o l id c destination peer) (λ _, on F).
Proof.
  intros HF. unfold host_send_control. eapply triple_bind; [auto with move|]. intros. by apply triple_sends.
Qed.
#[local] Hint Extern 1 (triple _ (host_send_control _ _ _ _ _ _) _) => (apply triple_send_control; apply _) : move.

(** Assigning an association that is similar to the one in the table. *)
Lemma triple_assign_similar id a a' :
  triple (λ t h, similar t id a a' ∧ on (goodat id a) t h)
    (assign (K:=T) (E:=stop CliError) (set_association id a')) (λ _, on (goodat id a')).
Proof. apply triple_assign. intros t h [Hs [Hps Hg]]. split; [done|]. by eapply goodat_update. Qed.

Lemma triple_assign_alike id a a' :
  (∀ t, assoc_ok o local remote (ln_selector l) met t id a → similar t id a a') →
  triple (on (goodat id a)) (assign (K:=T) (E:=stop CliError) (set_association id a')) (λ _, on (goodat id a')).
Proof.
  intros Ha. eapply triple_mono; [apply (triple_assign_similar id a)| |done]. intros t h Hg. split; [|done].
  destruct Hg as [_ Hg%goodat_ok]. by apply Ha.
Qed.

Lemma triple_on_open incoming endpoint observed now :
  triple (on good) (on_open (K:=T) l incoming endpoint observed now) (λ _, on good).
Proof.
  eapply triple_bind; [apply triple_look|]. intros h. destruct (receive_open_limited _ _ _ _ _ _ _) as [r lim].
  eapply triple_bind; [eapply (triple_assign _ _ (λ _, on good)); by intros t s [_ Hg]|]. intros [].
  destruct r; [by apply triple_ret..|]. by intros x b y _ H.
Qed.

Lemma triple_on_open_auth id incoming endpoint u now :
  (incoming, endpoint) ∈ ps → binding endpoint (ln_selector l) = Ok u →
  triple (on good) (on_open_auth (K:=T) id incoming endpoint (Udp u) now) (λ _, on good).
Proof.
  intros Hin Hu. unfold on_open_auth. do 2 (eapply triple_bind; [auto with move|]; intros ?).
  eapply triple_or_else; [auto with move|intros; by apply triple_ret|]. intros reply.
  eapply triple_bind; [eapply (triple_assign _ _ (λ _, on good))|intros; by apply triple_ret].
  intros t h [Hps Hg]. destruct (associations h !! id) eqn:Hl; [done|]. split; [done|].
  eapply (good_insert _ _ _ _ _ _ _ _ id (association_new endpoint (Udp u))) in Hg as [Hg _]; [exact Hg| |].
  - split; simpl; [lia|lia|by exists u|exists incoming; by apply Hps|done].
  - rewrite elem_of_done, Hl. simpl. naive_solver lia.
Qed.

(** Having looked up an association. *)
Lemma triple_found {A} id a h (m : st (T * Host) (stop CliError) A) Q :
  associations h !! id = Some a → triple (on (goodat id a)) m Q → triple (λ t s, h = s ∧ on good t s) m Q.
Proof. intros Hl Hm. eapply triple_mono; [exact Hm| |done]. intros t s [Hh [? Hg]]. subst s. by split. Qed.

Lemma triple_found_still {A} id a h (m : st (T * Host) (stop CliError) A) Q :
  associations h !! id = Some a → triple (still (on (goodat id a))) m Q →
  triple (λ t s, h = s ∧ still (on good) t s) m Q.
Proof. intros Hl Hm. eapply triple_mono; [exact Hm| |done]. intros t s [Hh [? [? Hg]]]. subst s. by repeat (split; [done|]). Qed.

Lemma still_forget P t h : still P t h → P t h.
Proof. by intros [_ H]. Qed.

Lemma allowed_still a endpoint observed now x r y :
  allowed_sources (K:=T) o a endpoint observed now x = (Ok r, y) →
  server (snd y) = server (snd x) ∧ world (snd y) = world (snd x).
Proof.
  unfold allowed_sources. destruct (as_manager a) as [[m s]|].
  - intros (s' & x' & H & H')%st_bind_Ok. injection H as _ <-. by injection H' as _ <-.
  - by intros [= _ <-].
Qed.

Lemma triple_skip {A} P h (a : A) :
  triple (λ t s, h = s ∧ P t s) (mret (M:=st (T * Host) (stop CliError)) a) (λ _, P).
Proof. apply triple_ret. by intros t s [_ H]. Qed.

Lemma goodat_good id a t h : on (goodat id a) t h → on good t h.
Proof. by intros [? [H _]]. Qed.

Lemma triple_forget {A} id a (m : st (T * Host) (stop CliError) A) :
  triple (on (goodat id a)) m (λ _, on (goodat id a)) → triple (on (goodat id a)) m (λ _, on good).
Proof. intros Hm. eapply triple_mono; [exact Hm|done|]. intros ? t s. apply goodat_good. Qed.

Lemma alike_established id plan cpu a t :
  assoc_ok o local remote (ln_selector l) met t id a → similar t id a (set_established plan cpu a).
Proof. intros [H1 H2 H3 H4 H5]. by repeat split. Qed.

Lemma triple_on_accept id incoming endpoint observed now :
  triple (on good) (on_accept (K:=T) n o id incoming endpoint observed now) (λ _, on good).
Proof.
  unfold on_accept. eapply triple_bind; [apply triple_look|]. intros h.
  destruct (associations h !! id) as [a|] eqn:Hl; [|apply triple_skip].
  eapply triple_found; [done|]. destruct (_ || _); [apply triple_ret, goodat_good|].
  eapply triple_or_else; [auto with move|intros; apply triple_ret, goodat_good|]. intros ?.
  apply (triple_bind _ _ _ (λ a' t s, (∃ plan cpu, a' = set_established plan cpu a) ∧ on (goodat id a) t s)).
  - destruct (as_established a); [apply triple_ret; eauto|].
    eapply triple_bind; [auto with move|]. intros ?.
    destruct (stream_rate o =? 0); [apply triple_ret; eauto|].
    do 2 (eapply triple_bind; [auto with move|]; intros ?). apply triple_ret. eauto.
  - intros a'. apply triple_fact. intros (plan & cpu & ->).
    eapply triple_mono; [apply triple_assign_alike; by apply alike_established|done|].
    intros ? t s. apply goodat_good.
Qed.

(** *** Managers *)

Lemma alike_manager t id a m s :
  assoc_ok o local remote (ln_selector l) met t id a → managed t id m s (as_promoted a) →
  similar t id a (set_as_manager (Some (m, s)) a).
Proof. intros [H1 H2 H3 H4 H5] Hm. by repeat split. Qed.

Lemma goodat_managed id a t h m s :
  on (goodat id a) t h → as_manager a = Some (m, s) → managed t id m s (as_promoted a).
Proof. intros [_ Hg%goodat_ok] Hm. destruct Hg as [_ _ _ _ H]. by rewrite Hm in H. Qed.

(** The association with a manager that goes on. *)
Lemma goodat_manager id a t h m s :
  on (goodat id a) t h → managed t id m s (as_promoted a) →
  similar t id a (set_as_manager (Some (m, s)) a) ∧ on (goodat id a) t h.
Proof. intros Hg Hm. split; [|done]. destruct Hg as [_ Hg%goodat_ok]. by apply alike_manager. Qed.

Lemma triple_allowed id a endpoint observed now :
  triple (on (goodat id a)) (allowed_sources (K:=T) o a endpoint observed now)
    (λ x t s, similar t id a x.1 ∧ on (goodat id a) t s).
Proof.
  unfold allowed_sources. destruct (as_manager a) as [[m s]|] eqn:Hm.
  - eapply triple_bind; [apply triple_lift|]. intros s'. apply triple_fact. intros He.
    apply triple_ret. intros t h Hg. apply goodat_manager; [done|].
    pose proof (goodat_managed _ _ _ _ _ _ Hg Hm) as Hmg. unfold expired in He.
    destruct (expire m now s) as [r s1] eqn:Hx. destruct r; simplify_eq; by eapply managed_expire.
  - apply triple_ret. intros t h Hg. split; [|done]. destruct Hg as [_ Hg%goodat_ok]. by split.
Qed.

Lemma triple_manager_for id a :
  triple (on (goodat id a)) (manager_for (K:=T) o signing local remote id a)
    (λ m t s, similar t id a (set_as_manager (Some m) a) ∧ on (goodat id a) t s).
Proof.
  unfold manager_for. destruct (as_manager a) as [[m s]|] eqn:Hm.
  { apply triple_ret. intros t h Hg. apply goodat_manager; [done|]. by eapply goodat_managed. }
  eapply triple_bind; [auto with move|]. intros secret.
  eapply triple_bind; [apply triple_look|]. intros h.
  apply (triple_mono _ (on (goodat id a)) _ _
    (λ m t s, similar t id a (set_as_manager (Some m) a) ∧ on (goodat id a) t s)); [|by intros t s [_ H]|done].
  eapply triple_bind; [apply triple_lift|]. intros b. apply triple_fact. intros _.
  destruct (new_with_protected_replay_binding _ b (next_manager h)) as [r next] eqn:Hn.
  eapply (triple_bind _ _ _ (λ _, on (goodat id a))); [by apply triple_assign|]. intros ?.
  destruct r as [[m s]|e|]; [|apply triple_throw|by intros x y z _ H].
  apply triple_ret. intros t h' Hg. apply goodat_manager; [done|].
  eexists _, b, _, s, next, [], no_history. split_and!; [exact Hn|constructor|done..|set_solver|].
  destruct Hg as [_ Hg%goodat_ok]. destruct Hg as [_ _ _ _ Hp]. rewrite Hm in Hp. by rewrite Hp.
Qed.

(** A commit of the manager and the server together. *)
Lemma triple_host_commit id a m s observed now w plain proof tr :
  as_manager a = Some (m, s) → preview_protected m s observed now w plain proof = Ok tr →
  (∀ t, ps ⊆ Udp.received t → heard t id observed plain) →
  triple (on (goodat id a)) (host_commit (K:=T) id a m s now tr)
    (λ _, on (λ t tb c, ∃ s', goodat id (set_as_manager (Some (m, s')) a) t tb c)).
Proof.
  intros Hm Ht Hh [[k t] h] r y Hg H. pose proof (goodat_managed _ _ _ _ _ _ Hg Hm) as Hmg. simpl in Hg, Hmg.
  unfold host_commit, machine, zoom in H. cbn [snd fst] in H.
  destruct (commit_protected_server m id now tr (s, (server h, world h))) as [r' [s' mw]] eqn:Hcm.
  assert (r' ≠ Panic → managed t id m s' (as_promoted a)) as Hmg'.
  { intros Hr. eapply managed_commit; [exact Hmg|apply Hh, Hg|exact Ht|exact Hcm|exact Hr]. }
  assert (r' ≠ Panic ∧ y = (k, t, set_managed id m a (s', mw) h)) as [Hr ->].
  { destruct r'; simplify_eq/=; (split; [discriminate|done]) || done. }
  destruct (goodat_manager _ _ _ _ _ _ Hg (Hmg' Hr)) as [Hs [Hps Hg']]. split; [done|].
  exists s'. by eapply goodat_update.
Qed.

Lemma alike_proposal id loc a t :
  assoc_ok o local remote (ln_selector l) met t id a → similar t id a (add_proposal loc a).
Proof.
  intros H. unfold add_proposal. case_bool_decide; [by split|]. destruct H as [H1 H2 H3 H4 H5]. by repeat split.
Qed.

(** The end of a control message: results are announced, and a peer that has moved is followed. *)
Lemma triple_announce id a m s incoming endpoint u :
  (incoming, endpoint) ∈ ps → binding endpoint (ln_selector l) = Ok u → as_manager a = Some (m, s) →
  triple (on (goodat id a))
    (let '(results, s) := take_results s in
     let a := set_as_manager (Some (m, s)) a in
     assign (set_association id a) ;;
     foldr (λ c rest, host_send_control (K:=T) o l id c (st_peer_loc s) endpoint ;; rest) (mret ()) results ;;
     if beq (st_peer_loc s) (opt_peer_loc o) then mret () else
     assign (λ h, set_association id (promote_to endpoint (Udp u) a)
                    (set_server (server_promote_peer_loc (st_peer_loc s) (server h), world h) h)))
    (λ _, on good).
Proof.
  intros Hin Hu Hm. destruct (take_results s) as [results s'] eqn:Ht. cbv zeta.
  set (a' := set_as_manager (Some (m, s')) a).
  apply (triple_mono _ (λ t h, similar t id a a' ∧ on (goodat id a) t h) _ _ (λ _, on good)); [| |done].
  2: { intros t h Hg. apply goodat_manager; [done|].
       eapply managed_take_results; [by eapply goodat_managed|done]. }
  eapply triple_bind; [apply triple_assign_similar|]. intros ?.
  apply (triple_bind _ _ _ (λ _, on (goodat id a'))).
  { clear Ht. induction results as [|c results IH]; [by apply triple_ret|].
    eapply triple_bind; [auto with move|]. intros ?. apply IH. }
  intros ?. destruct (beq (st_peer_loc s') (opt_peer_loc o)) eqn:Hl; [apply triple_ret, goodat_good|].
  apply beq_false in Hl. apply triple_assign. intros t h Hg. pose proof Hg as [Hps Hg'].
  split; [done|]. eapply goodat_update in Hg' as [Hg' _]; [exact Hg'|]. split; [done|].
  pose proof (goodat_managed _ _ _ _ _ _ Hg eq_refl) as Hmg.
  destruct Hg as [_ [H1 H2 H3 H4 H5]%goodat_ok].
  split; simpl; [done..|by exists u|exists incoming; by apply Hps|]. by eapply managed_moved.
Qed.

Lemma triple_on_control id header a m s incoming endpoint u now preview plain :
  (incoming, endpoint) ∈ ps → binding endpoint (ln_selector l) = Ok u → opens o met id incoming plain →
  as_manager a = Some (m, s) →
  triple (on (goodat id a)) (on_control (K:=T) o l id header a m s endpoint (Udp u) now preview plain)
    (λ _, on good).
Proof.
  intros Hin Hu Hop Hm. unfold on_control.
  eapply triple_or_else; [apply triple_result|intros; apply triple_ret; intros t h [Hg _]; by eapply goodat_good|].
  intros control. apply triple_fact_r. intros _.
  eapply triple_bind; [apply triple_look|]. intros h0.
  apply (triple_mono _ (on (goodat id a)) _ _ (λ _, on good)); [|by intros ? ? [_ ?]|done].
  eapply triple_or_else; [apply triple_result|intros; apply triple_ret; intros t h [Hg _]; by eapply goodat_good|].
  intros tr. apply triple_fact_r. intros Ht.
  eapply triple_or_else; [apply triple_result|intros; apply triple_ret; intros t h [Hg _]; by eapply goodat_good|].
  intros reply. apply triple_fact_r. intros _.
  eapply triple_or_else; [eapply triple_host_commit; [done|exact Ht|]|..].
  { intros t Hps. exists incoming, endpoint, u. auto. }
  { intros e. apply triple_ret. intros t h [Hps (s' & Hg & _)]. by split. }
  intros ?. eapply triple_bind; [apply triple_look|]. intros h.
  destruct (associations h !! id) as [a1|] eqn:Hl.
  2: { apply triple_ret. intros t h' [_ [Hps (s' & Hg & _)]]. by split. }
  enough (∀ s', triple (λ t h', h = h' ∧ on (goodat id (set_as_manager (Some (m, s')) a)) t h')
    (let a := match control with LocUpdate _ _ loc _ _ _ _ _ => add_proposal loc a1 | _ => a1 end in
     assign (K:=T) (set_association id a) ;;
     (match reply with
      | Some reply => host_send_control o l id reply (src header) endpoint
      | None => mret ()
      end) ;;
     match as_manager a with
     | Some (mgr, s) =>
         let '(results, s) := take_results s in
         let a := set_as_manager (Some (mgr, s)) a in
         assign (set_association id a) ;;
         foldr (λ c rest, host_send_control (K:=T) o l id c (st_peer_loc s) endpoint ;; rest) (mret ()) results ;;
         if beq (st_peer_loc s) (opt_peer_loc o) then mret () else
         assign (λ h, set_association id (promote_to endpoint (Udp u) a)
                        (set_server (server_promote_peer_loc (st_peer_loc s) (server h), world h) h))
     | None => mret ()
     end) (λ _, on good)) as Hrest.
  { intros x b y [Hh [Hps (s' & Hg)]] Hrun. eapply (Hrest s'), Hrun. split; [exact Hh|]. by split. }
  intros s'. eapply (triple_mono _ (λ t h', (a1 = set_as_manager (Some (m, s')) a) ∧
    on (goodat id (set_as_manager (Some (m, s')) a)) t h') _ _ (λ _, on good)); [| |done].
  2: { intros t h' [Hh Hg]. split; [|done]. subst h'. destruct Hg as [_ [_ Hg]]. congruence. }
  apply triple_fact. intros ->. set (a2 := match control with LocUpdate _ _ _ _ _ _ _ _ => _ | _ => _ end).
  assert ((∀ t, assoc_ok o local remote (ln_selector l) met t id (set_as_manager (Some (m, s')) a) →
             similar t id (set_as_manager (Some (m, s')) a) a2) ∧ as_manager a2 = Some (m, s')) as [Hs Hm2].
  { destruct control; subst a2; (split; [intros t Hok; try (by apply alike_proposal); by split|]); try done.
    unfold add_proposal. by case_bool_decide. }
  cbv zeta. eapply triple_bind; [by apply triple_assign_alike|]. intros ?.
  apply (triple_bind _ _ _ (λ _, on (goodat id a2))).
  { destruct reply; [auto with move|by apply triple_ret]. }
  intros ?. rewrite Hm2. by eapply triple_announce.
Qed.

(** A server that is not to move itself goes on serving. *)
Lemma triple_on_message id a initial endpoint observed now preview plain :
  triple (on (goodat id a)) (on_message (K:=T) o l id a initial endpoint observed now preview plain)
    (λ moves t h, moves = false ∧ on good t h).
Proof.
  assert (∀ t h, on (goodat id a) t h → false = false ∧ on good t h) as Hgood
    by (intros; split; [done|by eapply goodat_good]).
  unfold on_message. destruct (_ && _); [by apply triple_ret|].
  eapply triple_or_else; [auto with move|intros; by apply triple_ret|]. intros ?.
  apply (triple_bind _ _ _ (λ _, on good)).
  - unfold counts_post_move_packet. destruct (as_promoted a) eqn:Hp; [|apply triple_ret, goodat_good].
    simpl. case_bool_decide; [|apply triple_ret, goodat_good]. cbv zeta.
    intros [[k t] h] r y [Hps Hg] Hrun. unfold mbind, st_bind, assign in Hrun. cbn [fst snd] in Hrun.
    pose proof (goodat_post _ _ _ _ _ _ _ _ _ _ Hg Hp) as Hpost. simpl in Hpost, Hrun, Hps.
    destruct (as_post a + 1 =? expected_post_move o); injection Hrun as _ <-;
      (split; [exact Hps|exact (proj1 Hpost)]).
  - intros ?. do 2 (eapply triple_bind; [auto with move|]; intros ?). apply triple_ret.
    intros t h Hg. rewrite Hrole, andb_false_r. done.
Qed.

Lemma triple_on_data id header payload incoming endpoint u now :
  (incoming, endpoint) ∈ ps → binding endpoint (ln_selector l) = Ok u →
  unpack_with_budget incoming (budget o) = Ok (header, payload) → Wire.scid header = id →
  triple (still (on good)) (on_data (K:=T) n o signing local remote l id header incoming endpoint (Udp u) now)
    (λ over t h, over = false ∧ on good t h).
Proof.
  intros Hin Hu Hunpack Hid.
  assert (∀ a t h, on (goodat id a) t h → false = false ∧ on good t h) as Hgood
    by (intros; split; [done|by eapply goodat_good]).
  unfold on_data. eapply triple_bind; [apply triple_look|]. intros h.
  destruct (associations h !! id) as [a|] eqn:Hl;
    [|apply triple_ret; intros t h' [_ [_ Hg]]; by split].
  eapply triple_found_still; [done|].
  destruct (negb _); [apply triple_ret; intros t h' Hg%still_forget; by eapply Hgood|]. cbv zeta.
  eapply triple_bind; [apply triple_still; [apply allowed_still|apply triple_allowed]|].
  intros [a1 allowed]. cbn [fst].
  eapply triple_bind; [apply triple_still; [by intros x [] y [= <-]|apply triple_assign_similar]|]. intros ?.
  destruct allowed as [allowed|]; [|apply triple_ret; intros t h' Hg%still_forget; by eapply Hgood].
  eapply triple_or_else; [apply triple_still_result|intros; apply triple_ret; intros t h' [Hg _]; by eapply Hgood|].
  intros preview. eapply triple_bind; [apply triple_look|]. intros h1.
  apply (triple_mono _ (λ t h, server_preview_data_with_locs incoming allowed [] now mw0 =
      (Ok preview, (server h1, world h1)) ∧ on (goodat id a1) t h) _ _
    (λ over t h, over = false ∧ on good t h)); [|by intros t s [-> [? ?]]|done].
  apply triple_fact. intros Hopen.
  eapply triple_or_else; [apply triple_result|intros; apply triple_ret; intros t h' [Hg _]; by eapply Hgood|].
  intros plain. apply triple_fact_r. intros Hplain.
  eapply triple_bind; [apply triple_manager_for|]. intros [m s].
  eapply triple_bind; [apply triple_assign_similar|]. intros ?.
  destruct (starts_with_magic plain).
  - eapply triple_bind; [|intros ?; apply triple_ret; intros t h' Hg; split; [done|exact Hg]].
    eapply triple_on_control; [done..| |done]. split; [eauto|].
    exists allowed, [], now, mw0, preview, (server h1, world h1). done.
  - eapply triple_bind; [apply triple_on_message|]. intros moves. apply triple_fact. intros ->.
    by apply triple_ret.
Qed.

Lemma triple_serve_packet incoming endpoint :
  (incoming, endpoint) ∈ ps →
  triple (still (on good)) (serve_packet (K:=T) n o signing local remote l incoming endpoint)
    (λ r t h, r = inl () ∧ on good t h).
Proof.
  intros Hin. unfold serve_packet.
  apply (triple_bind _ _ _ (λ u t s, binding endpoint (ln_selector l) = Ok u ∧ still (on good) t s)).
  { intros x u y Hg H. unfold sysm, zoom, try, lift_err, lift, id in H.
    destruct (binding endpoint (ln_selector l)) as [u'| |]; simpl in H; try discriminate H.
    by injection H as <- <-. }
  intros u. apply triple_fact. intros Hu. cbv zeta.
  eapply triple_or_else; [apply triple_result|intros; apply triple_ret; by intros ? ? [[_ Hg] _]|].
  intros [header payload]. apply triple_fact_r. intros Hunpack. cbv beta iota.
  eapply triple_or_else; [apply triple_result|intros; apply triple_ret; by intros ? ? [[_ Hg] _]|].
  intros msg. apply triple_fact_r. intros _. eapply triple_bind; [auto with move|]. intros now. cbv zeta.
  assert (∀ m : st (T * Host) (stop CliError) (option bytes), triple (on good) m (λ _, on good) →
    triple (still (on good)) (output ← m;
      match output with Some output => sysm (send (ln_socket l) output endpoint) | None => mret () end ;;
      mret (inl (B:=Verdict) ())) (λ r t h, r = inl () ∧ on good t h)) as Hreply.
  { intros m Hm. apply (triple_mono _ (on good) _ _ (λ r t h, r = inl () ∧ on good t h)); [|apply still_forget|done]. eapply triple_bind; [exact Hm|]. intros out.
    apply (triple_bind _ _ _ (λ _, on good)); [destruct out; [auto with move|by apply triple_ret]|].
    intros ?. by apply triple_ret. }
  destruct (msg_typ msg =? OPEN); [apply Hreply, triple_on_open|].
  destruct (msg_typ msg =? OPEN_AUTH); [by apply Hreply, triple_on_open_auth|].
  destruct (msg_typ msg =? SESSION_ACCEPT).
  { apply (triple_mono _ (on good) _ _ (λ r t h, r = inl () ∧ on good t h)); [|apply still_forget|done].
    eapply triple_bind; [apply triple_on_accept|]. intros ?. by apply triple_ret. }
  destruct (msg_typ msg =? SESSION_DATA); [|apply triple_ret; by intros ? ? [_ ?]].
  eapply triple_bind; [by eapply triple_on_data|]. intros over. apply triple_fact. intros ->. by apply triple_ret.
Qed.
End Loop.

(** The passes of a run, and the states of the server between them. *)
Section Served.
Context `{C : Crypto} `{DA : Build} {K : Type} `{NC : Net K}.
Context (n : nat) (o : Options) (signing : bytes) (local remote : Identity)
  (values : gmap Z Association → list Association) (l : Lan).

Definition passes (x y : K * list event * Host) : Prop :=
  serve_pass (K:=K * list event) n o signing local remote values l x = (Ok (inl ()), y).
Definition served (x0 : K * list event * Host) (mw : ServerWorld) : Prop :=
  ∃ x, rtc passes x0 x ∧ mw = (server (snd x), world (snd x)).
End Served.

Section Passes.
Context `{C : Crypto} `{DA : Build} {K : Type} `{NC : Net K}.
Context (n : nat) (o : Options) (signing : bytes) (local remote : Identity)
  (values : gmap Z Association → list Association) (l : Lan).
Context (Hexpected : 0 < expected_post_move o) (Hrole : moving_role o = Role1).
Abbreviation T := (K * list event)%type.
Abbreviation good met := (on [] (good o local remote (ln_selector l) met)).

(** A packet the program goes on with was received from its source. *)
Lemma receive_received socket timeout b (k : T) d k' t :
  receive (K:=T) socket timeout b k = (Ok d, (k', t)) → d ∈ Udp.received t.
Proof.
  unfold receive. intros H. apply st_bind_Ok in H as (r & [k1 t1] & _ & H). destruct r; [done|].
  apply st_bind_Ok in H as (size & [k2 t2] & _ & H). unfold mbind, st_bind, ask, net, logged in H.
  destruct (@net K NC _ (RecvFrom socket size) k2) as [r k3]. destruct r as [e|[data peer]].
  - by destruct (_ || _).
  - destruct (len data <=? b); [|done]. injection H as <- _ <-. rewrite received_app. set_solver.
Qed.

Lemma triple_serve_pass met mw0 :
  met mw0 →
  triple (still mw0 (good met)) (serve_pass (K:=T) n o signing local remote values l)
    (λ r t h, r ≠ inr Return ∧ good met t h).
Proof.
  intros Hmet. pose proof (grows_still mw0 _ (grows_on_good o local remote l [] met)) as Hgrows.
  unfold serve_pass. eapply triple_bind; [apply triple_look|]. intros h.
  apply (triple_mono _ (still mw0 (good met)) _ _ (λ r t h, r ≠ inr Return ∧ good met t h));
    [|by intros ? ? [_ ?]|done]. cbv zeta.
  assert (∀ (r : () + Verdict) t h, r ≠ inr Return → still mw0 (good met) t h → r ≠ inr Return ∧ good met t h)
    as Hend by (intros r t h' Hr [_ Hg]; by split).
  eapply triple_bind; [apply triple_sysm; apply _|]. intros now_ns.
  apply (triple_bind _ _ _ (λ _, still mw0 (good met))).
  { destruct (_ || _); [by apply triple_ret|].
    destruct (head _); [by apply triple_ret|eapply triple_bind; [apply triple_sysm; apply _|]; intros; by apply triple_ret]. }
  intros over. destruct over; [apply triple_ret; intros; by apply Hend|].
  apply (triple_bind _ _ _ (λ _, still mw0 (good met))).
  { destruct (head _); [|by apply triple_ret]. eapply triple_bind; [apply triple_sysm; apply _|]. intros t.
    eapply triple_mono; [apply triple_lift|done|]. by intros ? ? ? [_ ?]. }
  intros deadline. eapply triple_bind; [apply triple_sysm; apply _|].
  intros [t|]; [|apply triple_ret; intros; by apply Hend].
  eapply triple_bind; [apply triple_attempt_sysm; apply _|].
  intros [[[[]|?| |]|]|[incoming endpoint]]; try apply triple_throw;
    try (apply triple_ret; intros ? ? [? _]; by apply Hend).
  eapply triple_mono;
    [apply (triple_serve_packet n o signing local remote l [(incoming, endpoint)] met mw0); try done; by left| |].
  - intros t' h' [[Hmw [_ Hg]] (k & t0 & Hr)]. split; [done|]. split; [|exact Hg].
    apply receive_received in Hr. set_solver.
  - intros r t' h' [-> [_ Hg]]. split; [done|]. split; [set_solver|exact Hg].
Qed.

(** The passes of the loop, from a state of a run. *)
Lemma loop_passes x0 k x v y :
  let met := served n o signing local remote values l x0 in
  rtc (passes n o signing local remote values l) x0 x → good met (snd (fst x)) (snd x) →
  loop k (λ _, serve_pass (K:=T) n o signing local remote values l) () x = (Ok v, y) →
  v = Break ∧ good met (snd (fst y)) (snd y).
Proof.
  intros met. revert x. induction k as [|k IH]; intros x Hx Hg H; [done|]. simpl in H.
  apply st_bind_Ok in H as (r & x1 & Hpass & H).
  assert (met (server (snd x), world (snd x))) as Hmet by (by exists x).
  destruct (triple_serve_pass met _ Hmet _ _ _ (conj eq_refl Hg) Hpass) as [Hr Hg1].
  destruct r as [[]|r].
  - eapply IH, H; [by eapply rtc_r|done].
  - injection H as <- <-. by destruct r.
Qed.
End Passes.

Section Ends.
Context `{C : Crypto} `{DA : Build} {K : Type} `{NC : Net K}.
Context (n : nat) (o : Options) (signing : bytes) (local remote : Identity)
  (values : gmap Z Association → list Association).
Abbreviation T := (K * list event)%type.

Lemma serve_setup_good met k l h k' t' :
  serve_setup (K:=T) o signing local remote k = (Ok (l, h), (k', t')) → 0 < expected_post_move o →
  on [] (good o local remote (ln_selector l) met) t' h.
Proof.
  unfold serve_setup. intros H He. rewrite ask_bind, ask_bind in H. destruct (fst (net (UdpBind _) _)); [done|].
  repeat (apply st_bind_Ok in H as (? & ? & _ & H)). rewrite ?ask_bind in H.
  repeat (apply st_bind_Ok in H as (? & ? & _ & H)). injection H as <- <- _.
  split; [set_solver|]. split; simpl; [|done].
  unfold done_ids. by rewrite map_filter_empty, dom_empty_L, size_empty.
Qed.

(** C3: When a server that does not move itself ([moving_role] is the client's) ends well, the moves
    it was asked for have taken place: exactly [max_sessions] sessions have been served the expected
    number of messages after their move, and each of them was followed to an address a packet was
    received from.  The manager of each was made for that session and its peer and has run by calls
    of its interface on controls, each of which the server, as it stood between two passes of this
    run, opened from a packet of the session received from the carrier's address; in that run it came to believe the peer at another locator than that of
    the handshake, after receiving an update to this locator with the peer's signature and, before
    its expiry, a response with the token issued to the carrier it came from. *)
Theorem serve_success k l h k1 k2 t2 h2 :
  moving_role o = Role1 → 0 < expected_post_move o →
  serve_setup (K:=T) o signing local remote k = (Ok (l, h), k1) →
  serve_loop n o signing local remote values l (k1, h) = (Ok (), ((k2, t2), h2)) →
  Z.of_nat (size (done_ids o (associations h2))) = max_sessions o ∧
  ∀ id, id ∈ done_ids o (associations h2) → ∃ a m s,
    associations h2 !! id = Some a ∧ as_promoted a = true ∧ as_manager a = Some (m, s) ∧
    (∃ packet, (packet, as_endpoint a) ∈ Udp.received t2) ∧
    managed o local remote (ln_selector l) (served n o signing local remote values l (k1, h)) t2 id m s true.
Proof.
  intros Hrole He Hs Hrun. destruct k1 as [k1 t1]. set (met := served _ _ _ _ _ _ _ _).
  pose proof (serve_setup_good met _ _ _ _ _ Hs He) as Hg.
  apply st_bind_Ok in Hrun as (v & x & Hloop & Hrun).
  destruct (loop_passes n o signing local remote values l He Hrole (k1, t1, h) n _ _ _ (rtc_refl _ _) Hg Hloop)
    as [-> Hgx].
  assert (triple (on [] (good o local remote (ln_selector l) met))
    (h' ← look;
     if completed h' =? max_sessions o then
       if stream_rate o =? 0 then mret () else
       match head (omap as_cpu_before (values (associations h'))) with
       | Some before => sysm (finish_cpu (K:=T) n o (Some before))
       | None => fail (Session SessionError.AuthFailed)
       end
     else fail (Session SessionError.Timeout))
    (λ _ t h, completed h = max_sessions o ∧ on [] (good o local remote (ln_selector l) met) t h)) as Ht.
  { pose proof (grows_on_good o local remote l [] met) as Hgrows.
    eapply triple_bind; [apply triple_look|]. intros h'.
    destruct (Z.eqb_spec (completed h') (max_sessions o)) as [Hc|]; [|apply triple_throw].
    apply (triple_mono _ (λ t h, completed h = max_sessions o ∧ on [] (good o local remote (ln_selector l) met) t h) _ _
      (λ _ t h, completed h = max_sessions o ∧ on [] (good o local remote (ln_selector l) met) t h));
      [|by intros ? ? [<- ?]|done].
    destruct (stream_rate o =? 0); [by apply triple_ret|].
    destruct (head _); [apply triple_sysm; apply _|apply triple_throw]. }
  destruct (Ht x _ _ Hgx Hrun) as [Hm [_ [Hc Ha]]]. simpl in Hc, Ha, Hm. split; [congruence|].
  intros id (a & Hl & Hp)%elem_of_done. destruct (Ha _ _ Hl) as [_ Hpr _ Hh Hmg]. specialize (Hpr ltac:(lia)).
  rewrite Hpr in Hmg. destruct (as_manager a) as [[m s]|] eqn:Hm2; [|done]. by exists a, m, s.
Qed.
End Ends.
