(* ===== verification/MoveScenario.v ===== *)
(** * A move of the client between the two modes of the mobility program

    The client and the server of [MoveClient.v] and [MoveServer.v] on one network,
    as in [SessionScenario.v]; the client has a socket at its old address and one
    at its new. *)

From S2P Require Import Prelude Wire Checksum Codec Crypto SessionMsg Replay SessionCrypto Directional Client Limiter Server Control Mobility Text Loc Udp Responder SessionCli SessionScenario MoveCli MoveIo MoveClient MoveServer MoveInv.
From stdpp Require Import gmap strings.
#[local] Open Scope Z_scope.
#[local] Existing Instance release_build.
Import R8move R8moveIo R8moveClient R8moveServer.

Definition ms_fds : Fds := mkFds None None None None None None None None None.
Definition ms_new : bytes := replicate 15 0 ++ [3].
Definition ms_client : Options :=
  mkOptions Connect demo_client_key (ed25519_public demo_server_key) 7 12 demo_src demo_dst ms_new
    (V4 [127; 0; 0; 1] 4000) (V4 [127; 0; 0; 1] 4001) (Some (V4 [127; 0; 0; 1] 5000)) 1 1252
    (secs 5) (replicate 64 7) Mbb Role1 0 0 0 0 ms_fds 1 1.
Definition ms_server : Options :=
  mkOptions Serve demo_server_key (ed25519_public demo_client_key) 7 12 demo_dst demo_src ms_new
    (V4 [127; 0; 0; 1] 5000) (V4 [127; 0; 0; 1] 5001) None 1 1252
    (secs 5) (replicate 64 0) Mbb Role1 0 0 0 0 ms_fds 1 1.

Definition ms_values (m : gmap Z Association) : list Association := (map_to_list m).*2.

Record Link : Set := mkLink { link_host : option (Lan * Host); link_back : list (bytes * SocketAddr) }.

(** A pass of the server on a datagram of the client, and what it sends. *)
Definition link_pass (lan : Lan) (h : Host) (packet : bytes) (from : SocketAddr) : Host * list (bytes * SocketAddr) :=
  let '(_, ((_, t), h)) :=
    serve_pass (NC:=logged (NC:=inbox_net)) 100 ms_server demo_server_key demo_server_id demo_client_id ms_values lan
      (([(packet, from)], []), h) in
  (h, sent t).

(** The address of a socket of the client. *)
Definition address (socket : Z) : SocketAddr := if socket =? 3 then bind ms_client else candidate_bind ms_client.

Fixpoint take_for (to : SocketAddr) (l : list (bytes * SocketAddr)) : option (bytes * list (bytes * SocketAddr)) :=
  match l with
  | [] => None
  | (d, a) :: l =>
      if bool_decide (a = to) then Some (d, l) else
      match take_for to l with Some (d', l) => Some (d', (d, a) :: l) | None => None end
  end.

Definition link_net {A : Set} (c : call A) : Link → A * Link :=
  match c in call A return Link → A * Link with
  | UdpBind a => λ k, (inr (if bool_decide (a = bind ms_client) then 3 else 4), k)
  | SendTo socket p _ => λ k,
      match link_host k with
      | Some (lan, h) =>
          let '(h, back) := link_pass lan h p (address socket) in
          (inr (len p), mkLink (Some (lan, h)) (link_back k ++ back))
      | None => (inr (len p), k)
      end
  | RecvFrom socket size => λ k,
      match take_for (address socket) (link_back k) with
      | Some (d, l) => (inr (take (Z.to_nat size) d, bind ms_server), mkLink (link_host k) l)
      | None => (inl (mkIoError WouldBlock (Some 11)), k)
      end
  | c => λ k, (fst (R8d.script_net c []), k)
  end.
Definition link : Net Link := {| net A c := link_net c |}.

Definition ms_start := serve_setup (NC:=inbox_net) ms_server demo_server_key demo_server_id demo_client_id [].
Definition ms_link : Link := mkLink (match fst ms_start with Ok lh => Some lh | _ => None end) [].

Definition ms_run : outcome (stop CliError) unit * (Link * list event) :=
  connect (NC:=logged (NC:=link)) 100 ms_client demo_client_key demo_client_id demo_server_id (ms_link, []).

(** Handshake, message and echo, the move to the new address, message and echo: the client ends
    well, and the server counts the session, whose association has the client's new address. *)
Example move_run :
  fst ms_run = Ok () ∧
  (λ lh : Lan * Host, (completed (snd lh),
    (λ a, (as_endpoint a, as_promoted a, as_post a, as_proposals a)) <$> ms_values (associations (snd lh)))) <$>
    link_host (fst (snd ms_run)) = Some (1, [(candidate_bind ms_client, true, 1, [ms_new])]) ∧
  length (sent (snd (snd ms_run))) = 8%nat.
Proof. by vm_compute. Qed.

(** The datagrams of the client, as the server's socket receives them. *)
Definition sent_from (e : event) : option (bytes * SocketAddr) :=
  match e with
  | mkEvent _ c _ =>
      match c with SendTo socket packet _ => Some (packet, address socket) | _ => None end
  end.
Definition ms_inbox : Inbox := Eval vm_compute in omap sent_from (snd (snd ms_run)).

(** The server alone on what it received, with the trace of its calls. *)
Definition ms_setup := serve_setup (NC:=logged (NC:=inbox_net)) ms_server demo_server_key demo_server_id demo_client_id (ms_inbox, []).

(** One session is served after its move, whose update and response are in the history of its
    manager and in the trace of the server. *)
Lemma serve_success_witness :
  ∃ l k h k2 t2 h2,
    ms_setup = (Ok (l, h), k) ∧
    serve_loop (NC:=logged (NC:=inbox_net)) 100 ms_server demo_server_key demo_server_id demo_client_id ms_values l (k, h) =
      (Ok (), ((k2, t2), h2)) ∧
    size (done_ids ms_server (associations h2)) = 1%nat ∧
    ∃ id a m s, associations h2 !! id = Some a ∧ as_manager a = Some (m, s) ∧
      managed ms_server demo_server_id demo_client_id (ln_selector l)
        (served (NC:=inbox_net) 100 ms_server demo_server_key demo_server_id demo_client_id ms_values l (k, h))
        t2 id m s true.
Proof.
  assert (match fst ms_setup with
          | Ok (l, h) =>
              fst (serve_loop (NC:=logged (NC:=inbox_net)) 100 ms_server demo_server_key demo_server_id demo_client_id ms_values l
                     (snd ms_setup, h))
          | _ => Panic
          end = Ok ()) as Hrun by (vm_compute; reflexivity).
  destruct ms_setup as [r k] eqn:Hs. simpl in Hrun. destruct r as [[l h]|e|]; [|discriminate Hrun..].
  destruct (serve_loop _ _ _ _ _ _ _ (k, h)) as [r [[k2 t2] h2]] eqn:Hl. simpl in Hrun. rewrite Hrun in Hl.
  exists l, k, h, k2, t2, h2. split; [reflexivity|]. split; [exact Hl|].
  destruct (serve_success (NC:=inbox_net) 100 ms_server demo_server_key demo_server_id demo_client_id ms_values
    (ms_inbox, []) l h k k2 t2 h2 eq_refl eq_refl Hs Hl) as [Hsize Hids].
  apply (Nat2Z.inj _ 1) in Hsize. split; [exact Hsize|].
  destruct (size_pos_elem_of (done_ids ms_server (associations h2))) as [id Hid]; [rewrite Hsize; exact (Nat.lt_0_succ 0)|].
  destruct (Hids id Hid) as (a & m & s & Ha & _ & Hm & _ & Hmanaged). exists id, a, m, s.
  split; [exact Ha|]. split; [exact Hm|exact Hmanaged].
Defined.
