(* ===== verification/Device.v ===== *)
(** * Programs on packet devices

    The endpoint of the redundant session uses raw packet sockets, inherited
    descriptors, the clock and the privileges of the process at once.  Its calls
    are those of [Linux.v] and [Udp.v], embedded here in one type, with the few
    more that it makes; a program of either family runs on such a kernel, and one
    trace holds the calls of all of them in their order. *)

From S2P Require Import Prelude Wire Bpf Text Linux Loc Udp.
From stdpp Require Import gmap strings.
#[local] Open Scope Z_scope.

(** What recvfrom writes to a [sockaddr_ll], and its length. *)
Record LinkAddress : Set := mkLinkAddress {
  sll_length : Z;
  sll_ifindex : Z;
  sll_halen : Z;
  sll_addr : bytes;
}.

(** A call by the type of its answer. *)
Inductive device_call : Set → Type :=
| Common {A : Set} (c : Udp.call A) : device_call A
| System {A : Set} (c : Linux.call A) : device_call A
| Getrandom (count : Z) : device_call (Z * bytes)
| FcntlGetfd (fd : Z) : device_call Z
| StatMode (fd : Z) : device_call (Z * Z)
| Geteuid : device_call Z
| IfNametoindex (name : bytes) : device_call Z
| SendtoLink (fd : Z) (frame : bytes) (protocol ifindex halen : Z) (address : bytes) : device_call Z
| PollIn (fd timeout : Z) : device_call Z
| RecvfromLink (fd size : Z) : device_call (Z * bytes * LinkAddress).

Class Device (K : Type) := { device : ∀ {A : Set}, device_call A → K → A * K }.

(** The kernels of the two families. *)
#[export] Instance device_net {K} `{DV : Device K} : Net K := {| net A c := device (Common c) |}.
#[export] Instance device_kernel {K} `{DV : Device K} : Kernel K := {| sys A c := device (System c) |}.

Section Calls.
Context {K : Type} `{DV : Device K}.

Definition ask_device {E} {A : Set} (c : device_call A) : st K E A := λ k,
  let '(a, k') := device c k in (Ok a, k').

(** Run [m] with a descriptor that is dropped at its end. *)
Definition holding {E A} (fd : Z) (m : st K (stop E) A) : st K (stop E) A := λ k,
  match m k with
  | (Err Running, k') => (Err Running, k')
  | (r, k') => (r, snd (sys (Close fd) k'))
  end.
End Calls.

(** ** Traces *)

Record device_event : Type := mkDeviceEvent { de_type : Set; de_call : device_call de_type; de_answer : de_type }.

(** Every kernel with the calls it answered. *)
#[export] Instance recorded {K} `{DV : Device K} : Device (K * list device_event) := {|
  device A c '(k, t) := let '(a, k') := device c k in (a, (k', t ++ [mkDeviceEvent A c a]))
|}.

(** [traces log m Q]: whatever the kernel answers, [m] extends the trace by a part that satisfies [Q]
    together with the result; [log] is the trace in the state. *)
Section Traces.
Context {X : Type} (log : X → list device_event).

Definition traces {E A} (m : st X E A) (Q : outcome E A → list device_event → Prop) : Prop :=
  ∀ x, ∃ t, log (snd (m x)) = log x ++ t ∧ Q (fst (m x)) t.

(** A result without a call. *)
Definition silent {E A} (m : st X E A) : Prop := ∀ x, log (snd (m x)) = log x.

Lemma traces_silent {E A} (m : st X E A) (Q : outcome E A → list device_event → Prop) :
  silent m → (∀ r, Q r []) → traces m Q.
Proof. intros Hm HQ x. exists []. by rewrite app_nil_r. Qed.

Lemma traces_ret {E A} (a : A) (Q : outcome E A → list device_event → Prop) : Q (Ok a) [] → traces (mret a) Q.
Proof. intros HQ x. exists []. by rewrite app_nil_r. Qed.

Lemma traces_throw {E A} (e : E) (Q : outcome E A → list device_event → Prop) : Q (Err e) [] → traces (throw e) Q.
Proof. intros HQ x. exists []. by rewrite app_nil_r. Qed.

Lemma traces_lift {E A} (m : outcome E A) (Q : outcome E A → list device_event → Prop) :
  Q m [] → traces (lift m) Q.
Proof. intros HQ x. exists []. by rewrite app_nil_r. Qed.

Lemma traces_bind {E A B} (m : st X E A) (f : A → st X E B) (Q : outcome E B → list device_event → Prop) :
  traces m (λ r t, match r with
                   | Ok a => traces (f a) (λ r' t', Q r' (t ++ t'))
                   | Err e => Q (Err e) t
                   | Panic => Q Panic t
                   end) →
  traces (m ≫= f) Q.
Proof.
  intros Hm x. destruct (Hm x) as (t & Ht & HQ). unfold mbind, st_bind.
  destruct (m x) as [[a|e|] x1]; simpl in *; [|by eexists..].
  destruct (HQ x1) as (t' & Ht' & HQ'). exists (t ++ t'). by rewrite Ht', Ht, (assoc_L (++)).
Qed.

Lemma traces_mono {E A} (m : st X E A) (Q Q' : outcome E A → list device_event → Prop) :
  traces m Q → (∀ r t, Q r t → Q' r t) → traces m Q'.
Proof. intros Hm HQ x. destruct (Hm x) as (t & Ht & Hr). eauto. Qed.

Lemma traces_attempt {E E' A} (m : st X E A) (Q : outcome E' (E + A) → list device_event → Prop) :
  traces m (λ r t, match r with
                   | Ok a => Q (Ok (inr a)) t
                   | Err e => Q (Ok (inl e)) t
                   | Panic => Q Panic t
                   end) →
  traces (attempt m) Q.
Proof.
  intros Hm x. destruct (Hm x) as (t & Ht & HQ). unfold attempt.
  destruct (m x) as [[a|e|] x1]; simpl in *; eauto.
Qed.

(** A loop keeps what every pass adds to. *)
Lemma traces_loop {E A B} n (body : A → st X (stop E) (A + B)) (I : A → list device_event → Prop)
    (Q : outcome (stop E) B → list device_event → Prop) a t :
  I a t →
  (∀ a t, I a t → traces (body a) (λ r t', match r with
     | Ok (inl a) => I a (t ++ t')
     | Ok (inr b) => Q (Ok b) (t ++ t')
     | Err e => Q (Err e) (t ++ t')
     | Panic => Q Panic (t ++ t')
     end)) →
  (∀ a t, I a t → Q (Err Running) t) →
  traces (loop n body a) (λ r t', Q r (t ++ t')).
Proof.
  intros HI Hbody Hrun. revert a t HI. induction n as [|n IH]; intros a t HI.
  { apply traces_throw. rewrite app_nil_r. by eapply Hrun. }
  apply traces_bind. eapply traces_mono; [by apply Hbody|]. intros [[a'|b]|e|] t' Hr; [|..|done|done].
  - eapply traces_mono; [by apply (IH a')|]. simpl. intros r t''. by rewrite (assoc_L (++)).
  - apply traces_ret. by rewrite app_nil_r.
Qed.
End Traces.

Section Kernels.
Context {K : Type} `{DV : Device K}.
Abbreviation T := (K * list device_event)%type.

Lemma traces_device {E} {A : Set} (c : device_call A) (Q : outcome E A → list device_event → Prop) :
  (∀ a, Q (Ok a) [mkDeviceEvent A c a]) → traces (X:=T) snd (ask_device c) Q.
Proof.
  intros HQ [k t0]. unfold ask_device, device, recorded. destruct (@device K DV A c k) as [a k'].
  exists [mkDeviceEvent A c a]. split; [done|apply HQ].
Qed.

Lemma traces_ask {E} {A : Set} (c : Udp.call A) (Q : outcome E A → list device_event → Prop) :
  (∀ a, Q (Ok a) [mkDeviceEvent A (Common c) a]) → traces (X:=T) snd (ask c) Q.
Proof. exact (traces_device (Common c) Q). Qed.

Lemma traces_system {E} {A : Set} (c : Linux.call A) (Q : outcome E A → list device_event → Prop) :
  (∀ a, Q (Ok a) [mkDeviceEvent A (System c) a]) → traces (X:=T) snd (Linux.ask c) Q.
Proof. exact (traces_device (System c) Q). Qed.

(** A call of [Linux.v] adds one event. *)
Lemma sys_log {A : Set} (c : Linux.call A) (x : T) :
  snd (snd (sys c x)) = snd x ++ [mkDeviceEvent A (System c) (fst (sys c x))].
Proof.
  destruct x as [k t]. unfold sys, device_kernel, device, recorded. by destruct (@device K DV A (System c) k).
Qed.

Lemma traces_holding {E A} fd (m : st T (stop E) A) (Q : outcome (stop E) A → list device_event → Prop) :
  traces (X:=T) snd m (λ r t, Q r t ∧ Q r (t ++ [mkDeviceEvent unit (System (Close fd)) ()])) →
  traces (X:=T) snd (holding fd m) Q.
Proof.
  intros Hm x. destruct (Hm x) as (t & Ht & HQ & HQ'). unfold holding.
  assert (∀ y : T, snd (snd (sys (Close fd) y)) = snd y ++ [mkDeviceEvent unit (System (Close fd)) ()]) as Hc.
  { intros y. rewrite (sys_log (Close fd) y). by destruct (fst (sys (Close fd) y)). }
  destruct (m x) as [[a|[e|]|] x1]; simpl in *; [eexists; by rewrite Hc, Ht, <-(assoc_L (++))..|by exists t|].
  eexists. by rewrite Hc, Ht, <-(assoc_L (++)).
Qed.

(** Beside the state of a machine. *)
Lemma traces_sysm {S E A} (m : st T E A) (Q : outcome E A → list device_event → Prop) :
  traces (X:=T) snd m Q → traces (X:=T * S) (λ x, snd (fst x)) (sysm m) Q.
Proof.
  intros Hm [x s]. destruct (Hm x) as (t & Ht & HQ). unfold sysm, zoom. simpl.
  destruct (m x) as [r x1]. simpl in *. eauto.
Qed.

Lemma silent_machine {S E E' A} (m : st S E A) :
  silent (X:=T * S) (E:=E') (λ x, snd (fst x)) (machine m).
Proof. intros [x s]. unfold machine. simpl. by destruct (m s) as [[]]. Qed.
End Kernels.
