(* ===== verification/NativeLoop.v ===== *)
(** * The native daemon at work (src/rust/crates/r8d/src/bin/r8-native.rs)

    The launcher of [Launcher.v] and the runtime of [Native.v] in one program: the
    interfaces, the route watch and the clock are descriptors and calls of one
    kernel, and the endless loop waits in poll and calls the runtime.  The
    theorem: as long as the daemon serves it has no privilege of any kind and its
    descriptors have their filters. *)

From S2P Require Import Prelude Wire Checksum Codec Crypto SessionMsg Replay SessionCrypto Directional Loc Udp Manifest Forward Native Bpf Text Linux Topology LinuxInv Launcher.
From stdpp Require Import gmap strings.
#[local] Open Scope Z_scope.

Module R8native.

Definition POLLERR : Z := 0x8.
Definition POLLHUP : Z := 0x10.
Definition POLLNVAL : Z := 0x20.

Section Loop.
Context {K : Type} `{KC : Kernel K} {J : Type} `{JD : JsonDecoder J}.

(** ** The objects of the loop, over one kernel *)

Record Objects : Type := mkObjects {
  kernel : K;
  ob_io : LinuxIo;
  ob_watch : Watch;
  ob_sessions : DropSessions;
}.

Definition set_kernel (k : K) (o : Objects) : Objects := mkObjects k (ob_io o) (ob_watch o) (ob_sessions o).
Definition set_sessions (s : DropSessions) (o : Objects) : Objects :=
  mkObjects (kernel o) (ob_io o) (ob_watch o) s.
Definition on_kernel {E A} (m : st K E A) : st Objects E A := zoom kernel set_kernel m.

#[export] Instance linux_io : NativeIo Objects := {|
  io_receive := λ id buffer o,
    match linux_receive (ob_io o) id buffer (kernel o) with
    | (Ok (length, buffer), k) => (Ok length, buffer, set_kernel k o)
    | (Err e, k) => (Err e, buffer, set_kernel k o)
    | (Panic, k) => (Panic, buffer, set_kernel k o)
    end;
  io_send := λ id frame o, on_kernel (linux_send (ob_io o) id frame) o;
|}.
#[export] Instance linux_watch : EventSource Objects :=
  {| event := λ o, on_kernel (watch_event (ob_watch o)) o |}.
#[export] Instance linux_clock : Clock Objects := {| now := on_kernel monotonic_now |}.
#[export] Instance linux_sessions : SessionDelivery Objects :=
  {| deliver := λ packet binding, zoom ob_sessions set_sessions (deliver packet binding) |}.

(** ** The loop *)

(** Wait for any of the descriptors. *)
Definition wait {E} : st (Node (W:=Objects)) E (Z * list Z) := λ n,
  let o := world n in
  zoom world set_world (on_kernel (ask (Poll ((snd <$> ob_io o) ++ [watch_fd (ob_watch o)]) (-1)))) n.

Definition poll_pass (_ : unit) : st (Node (W:=Objects)) (stop LauncherError) (unit + Empty_set) :=
  '(ready, revents) ← wait;
  if (ready <=? 0)
     || existsb (λ r, negb (Z.land r (Z.lor (Z.lor POLLERR POLLHUP) POLLNVAL) =? 0)) revents
  then throw (Failed (Message "poll failed")) else
  with_err (λ e, Failed (FromNative e)) step_with_clock ;;
  mret (inl ()).

(** The loop ends only by an error. *)
Definition serve (n : nat) (r : Ready) : st K (stop LauncherError) Empty_set := λ k,
  let '(res, node) := loop n poll_pass ()
    (mkNode (runtime r) (mkObjects k (ready_io r) (ready_watch r) (mkDropSessions 0))) in
  (res, kernel (world node)).

(** The owners of descriptors, which are dropped in order when the program ends. *)
Definition held {E A} (fds : list Z) (m : st K (stop E) A) : st K (stop E) A := λ k,
  match m k with
  | (Err Running, k') => (Err Running, k')
  | (r, k') => (r, close_all fds k')
  end.

Definition main (n : nat) (args : list string) : st K (stop LauncherError) Empty_set :=
  r ← with_err Failed (launch args);
  held ((snd <$> ready_io r) ++ [watch_fd (ready_watch r)]) (serve n r).

(** ** What the loop keeps *)

Section Keeps.
Context (P : K → Prop).

(** The calls of the loop. *)
Definition serving {A : Set} (c : call A) : bool :=
  match c with
  | ReadToString _ | Metadata _ | PathExists _ | Getifaddrs | Freeifaddrs
  | Recv _ _ _ | WouldBlock | LastOsError | SendTo _ _ | Poll _ _ | ClockGettime => true
  | _ => false
  end.

Hypothesis serving_keeps : ∀ (A : Set) (c : call A) k, serving c = true → P k → P (snd (sys c k)).

Lemma quiet_serving (A : Set) (c : call A) k : quiet c = true → P k → P (snd (sys c k)).
Proof. intros Hc. apply serving_keeps. by destruct c. Qed.

Lemma preserves_serving {E} {A : Set} (c : call A) : serving c = true → preserves (E:=E) P (ask c).
Proof. intros Hc. apply preserves_ask. intros k. by apply serving_keeps. Qed.

#[local] Hint Extern 1 (preserves _ (ask _)) => by apply preserves_serving : kernel.

Lemma keeps_event w : preserves P (watch_event w).
Proof.
  unfold watch_event. pose proof (keeps_topology P quiet_serving) as Ht.
  unfold verify_isolated_namespace. keeps.
Qed.

(** Of a node. *)
Definition node_keeps {E A} (m : st (Node (W:=Objects)) E A) : Prop :=
  preserves (λ n, P (kernel (world n))) m.

Lemma zoom_keeps {E A} (m : st K E A) : preserves P m → preserves (λ o, P (kernel o)) (on_kernel m).
Proof. intros Hm o Ho. specialize (Hm _ Ho). unfold on_kernel, zoom. by destruct (m (kernel o)). Qed.

Lemma world_keeps {E A} (m : st Objects E A) :
  preserves (λ o, P (kernel o)) m → node_keeps (zoom world set_world m).
Proof. intros Hm n Hn. specialize (Hm _ Hn). unfold zoom. by destruct (m (world n)). Qed.

Lemma fatal_keeps {A} e : node_keeps (fatal (A:=A) e).
Proof. intros n Hn. rewrite fatal_failed. done. Qed.

Lemma or_fatal_keeps {A} (m : st (Node (W:=Objects)) NativeError.t A) : node_keeps m → node_keeps (or_fatal m).
Proof.
  intros Hm n Hn. specialize (Hm n Hn). unfold or_fatal. destruct (m n) as [[a|e|] n']; [done| |done].
  by apply fatal_keeps.
Qed.

Lemma count_keeps f : node_keeps (count f).
Proof. by intros n. Qed.

Lemma send_keeps d dest p : node_keeps (Native.send d dest p).
Proof.
  intros n Hn. pose proof (send_spec d dest p n) as H. destruct (Native.send d dest p n) as [res n'].
  destruct H as [[Hw|(frame & _ & Hw)] _]; simpl; rewrite Hw; [done|].
  apply (zoom_keeps (linux_send (ob_io (world n)) d frame)); [|done].
  unfold linux_send. keeps.
Qed.

Lemma drop_keeps {E A} (m : outcome E A) k : (∀ a, node_keeps (k a)) → node_keeps (or_drop m k).
Proof. intros Hk. destruct m; [apply Hk|apply count_keeps|by intros n]. Qed.

Lemma deliver_keeps packet b : preserves (λ o, P (kernel o)) (deliver packet b).
Proof. by intros o. Qed.

Lemma local_keeps packet b : node_keeps (Native.local packet b).
Proof.
  pose proof send_keeps as Hs. pose proof (λ f, count_keeps f) as Hc. unfold Native.local.
  apply preserves_bind; [by intros k|intros n]. apply drop_keeps. intros [h payload].
  destruct (_ =? NH_CTL).
  { apply drop_keeps. intros [[typ code] body]. destruct (_ =? _); [|apply Hc].
    apply preserves_bind; [by intros k|]. intros [route|]; [|apply Hc].
    destruct (budgets_get _ _); [|apply Hc]. apply drop_keeps. intros p. apply Hs. }
  destruct (_ =? NH_DGRAM); [apply Hc|]. destruct (_ =? NH_SES); [|apply Hc].
  apply preserves_bind; [apply or_fatal_keeps, world_keeps, deliver_keeps|intros _; apply Hc].
Qed.

Lemma receive_keeps id buffer o : P (kernel o) → P (kernel (snd (io_receive id buffer o))).
Proof.
  intros Ho. unfold io_receive, linux_io.
  assert (preserves P (linux_receive (ob_io o) id buffer)) as Hr by (unfold linux_receive; keeps).
  specialize (Hr _ Ho). by destruct (linux_receive _ _ _ _) as [[[]|e|] k].
Qed.

Lemma poll_keeps id : node_keeps (Native.poll id).
Proof.
  intros n Hn. unfold Native.poll. unfold mbind at 1, st_bind at 1, get.
  pose proof (receive_keeps id (replicate (Z.to_nat RECEIVE_CAPACITY) 0) (world n) Hn) as Hw.
  destruct (io_receive _ _ _) as [[res buffer] w]. unfold mbind at 1, st_bind at 1, put.
  match goal with |- context [(or_fatal ?m ≫= ?f) ?x] => assert (node_keeps (or_fatal m ≫= f)) as Hr end; [|by apply Hr].
  pose proof (λ f, count_keeps f) as Hc.
  apply preserves_bind; [apply or_fatal_keeps; by intros k|]. intros [l|]; [|by intros k].
  apply preserves_bind; [apply Hc|intros _]. destruct (_ <? l); [apply Hc|].
  apply preserves_bind; [by intros k|]. intros frame. apply preserves_bind; [by intros k|].
  intros [reason|packet b|packet e mac];
    [apply Hc|apply or_fatal_keeps, local_keeps|apply or_fatal_keeps, send_keeps].
Qed.

Lemma step_keeps : node_keeps step_with_clock.
Proof.
  apply preserves_bind; [apply or_fatal_keeps, world_keeps, zoom_keeps; unfold monotonic_now; keeps|intros _].
  apply preserves_bind; [by intros k|intros n]. destruct (stopped _); [by intros k|].
  apply preserves_bind; [apply or_fatal_keeps, world_keeps; intros o; apply (zoom_keeps _ (keeps_event (ob_watch o)))|].
  intros []; [apply fatal_keeps|]. generalize (fst <$> local_macs (rt n)) as ids.
  induction ids as [|id ids IH]; [by intros k|]. apply preserves_bind; [apply poll_keeps|intros _; exact IH].
Qed.

Lemma pass_keeps a : node_keeps (poll_pass a).
Proof.
  apply preserves_bind.
  { intros n Hn. unfold wait. by apply (world_keeps _ (zoom_keeps _ (preserves_serving (Poll _ _) eq_refl))). }
  intros [ready revents]. destruct (_ || _); [by intros k|].
  apply preserves_bind; [apply preserves_with_err, step_keeps|by intros _ k].
Qed.

Lemma serve_keeps n r : preserves P (serve n r).
Proof.
  intros k Hk. unfold serve.
  assert (∀ m, node_keeps (loop m poll_pass ())) as Hl.
  { induction m as [|m IH]; [by intros k'|]. apply preserves_bind; [apply pass_keeps|].
    intros [[]|[]]. exact IH. }
  specialize (Hl n (mkNode (runtime r) (mkObjects k (ready_io r) (ready_watch r) (mkDropSessions 0))) Hk).
  by destruct (loop n _ _ _) as [res node].
Qed.
End Keeps.
End Loop.

(** ** Confinement *)

Section Confined.
Context {K : Type} `{KL : KernelLaws K} {J : Type} `{JD : JsonDecoder J}.

Lemma close_all_security fds k : security (close_all fds k) = security k.
Proof. revert k. induction fds as [|fd fds IH]; intros k; [done|]. cbn [close_all]. rewrite IH. by apply security_frame. Qed.

Lemma serving_confined fds σ (A : Set) (c : call A) k :
  serving c = true → filtered fds k ∧ security k = σ →
  filtered fds (snd (sys c k)) ∧ security (snd (sys c k)) = σ.
Proof.
  intros Hc [[Hn Hf] Hs]. split; [|by rewrite security_frame by by destruct c].
  split; [done|]. eapply Forall_impl; [exact Hf|]. intros e He. apply filter_frame; [by destruct c|done].
Qed.

(** C30: the daemon stays confined for as long as it runs.  When the launcher fails the program ends
    with its error and nothing else; otherwise, however many passes the loop has made and whatever
    ended it, the process has the requested unprivileged ids and no privilege of any kind, and
    its memory cannot be dumped; and while it serves, every interface is a distinct descriptor
    with the R8 filter attached. *)
Theorem daemon_confined n args (k : K) :
  let '(res, k') := main n args k in
  match launch args k with
  | (Ok r, _) =>
      ∃ a, arguments args = Ok a ∧ arg_uid a ≠ 0 ∧ arg_gid a ≠ 0 ∧
        security k' = mkSecurity (clean (arg_uid a) (arg_gid a)) 0 ∧
        (res = Err Running → filtered (ready_io r) k')
  | (Err e, k1) => res = Err (Failed e) ∧ k' = k1
  | (Panic, k1) => res = Panic ∧ k' = k1
  end.
Proof.
  pose proof (launch_ok args k) as Hl. unfold main, ok_post, mbind, st_bind, with_err in *.
  destruct (launch args k) as [[r|e|] k1]; [|done..].
  destruct Hl as (a & _ & _ & _ & _ & Ha & _ & _ & _ & _ & _ & _ & _ & _ & Hf & Hu & Hg & Hs & _).
  assert (filtered (ready_io r) (snd (serve n r k1)) ∧ security (snd (serve n r k1)) = security k1) as [Hf' Hs']
    by exact (serve_keeps _ (serving_confined (ready_io r) (security k1)) n r k1 (conj Hf eq_refl)).
  unfold held. cbn [map_err]. destruct (serve n r k1) as [[[]|[e|]|] k2]; cbn [fst snd] in *; exists a;
    rewrite ?close_all_security, Hs'; by split_and!.
Qed.
End Confined.
End R8native.
