(* ===== verification/NativeRelay.v ===== *)
(** * What the native daemon relays

    A run of the program of [NativeLoop.v], seen from the kernel: the trace of its
    calls pairs every frame it sends with the frame it has just read, and every
    frame that is to be forwarded with the frame it sends next. *)

From S2P Require Import Prelude Wire Checksum Codec Crypto SessionMsg Replay SessionCrypto Directional Loc Udp Device Manifest Forward Native Bpf Text Linux Topology LinuxInv Launcher NativeLoop.
From stdpp Require Import gmap strings.
#[local] Open Scope Z_scope.
Import R8native.

(** The cases of a call. *)
Ltac by_call c := destruct c; repeat match goal with b : bool |- _ => destruct b end; done.

(** ** Frames in a trace *)

(** The frame of an interface, and the descriptor. *)
Definition frame_sent (e : device_event) : option (Z * bytes) :=
  match e with
  | mkDeviceEvent _ c _ =>
      match c with
      | System c => match c with SendTo fd frame => Some (fd, frame) | _ => None end
      | _ => None
      end
  end.

Definition system_read {A : Set} (c : Linux.call A) : A → option (Z * bytes) :=
  match c in Linux.call A return A → option (Z * bytes) with
  | Recv fd count true => λ '(n, data),
      if 0 <=? n then Some (fd, take (Z.to_nat n) (zip_copy (replicate (Z.to_nat count) 0) data)) else None
  | _ => λ _, None
  end.

Definition frame_read (e : device_event) : option (Z * bytes) :=
  match e with
  | mkDeviceEvent _ c a =>
      match c in device_call A return A → option (Z * bytes) with
      | System c => system_read c
      | _ => λ _, None
      end a
  end.

Definition calm (e : device_event) : Prop := frame_sent e = None ∧ frame_read e = None.

Section Orderly.
Context (r : NativeRuntime) (fds : LinuxIo).

(** The event reads a frame of the interface [ingress] that is to be forwarded. *)
Definition reads_transit (ingress : Z) (packet : bytes) (egress : Z) (next_hop : bytes) (e : device_event) : Prop :=
  ∃ fd frame, frame_read e = Some (fd, frame) ∧ (ingress, fd) ∈ fds ∧
    len frame ≤ ETHERNET_HEADER_LEN + SERIALIZED_R8_MAX ∧
    process_frame (E:=NativeError.t) (manifest r) (budgets r) ingress frame = Ok (Forward packet egress next_hop).

(** The event sends a packet on the interface [egress], from its own address. *)
Definition sends_on (egress : Z) (next_hop packet : bytes) (e : device_event) : Prop :=
  ∃ fd frame, frame_sent e = Some (fd, frame) ∧ (egress, fd) ∈ fds ∧ sends r egress next_hop packet frame.

(** The second event relays the frame of the first. *)
Definition relay (e e' : device_event) : Prop :=
  ∃ ingress packet egress next_hop,
    reads_transit ingress packet egress next_hop e ∧ sends_on egress next_hop packet e'.

(** Nothing is sent but the frame just read, and what is to be forwarded is sent next. *)
Definition orderly (t : list device_event) : Prop :=
  (∀ t1 e t2, t = t1 ++ e :: t2 → is_Some (frame_sent e) → ∃ t0 e0, t1 = t0 ++ [e0] ∧ relay e0 e) ∧
  (NoDup (snd <$> fds) → ∀ t1 e t2 ingress packet egress next_hop,
    t = t1 ++ e :: t2 → reads_transit ingress packet egress next_hop e →
    ∃ e' t3, t2 = e' :: t3 ∧ sends_on egress next_hop packet e').

Lemma orderly_app t t' : orderly t → orderly t' → orderly (t ++ t').
Proof.
  intros [Hs Hr] [Hs' Hr']. split.
  - intros t1 e t2 Ht He. apply app_eq_inv in Ht as [(l & -> & Hl)|(l & -> & Hl)].
    + destruct l as [|e1 l]; [simpl in Hl; subst t'; rewrite app_nil_r in Hs|injection Hl as <- ->].
      * destruct (Hs' [] e t2 eq_refl He) as (t0 & e0 & Ht0 & _). by destruct t0.
      * by eapply Hs.
    + destruct (Hs' l e t2 Hl He) as (t0 & e0 & -> & ?). exists (t ++ t0), e0. by rewrite (assoc_L (++)).
  - intros Hnd t1 e t2 ingress packet egress next_hop Ht He.
    apply app_eq_inv in Ht as [(l & -> & Hl)|(l & -> & Hl)].
    + destruct l as [|e1 l]; [simpl in Hl; subst t'|injection Hl as <- ->].
      * by eapply (Hr' Hnd []).
      * destruct (Hr Hnd t1 e l _ _ _ _ eq_refl He) as (e' & t3 & -> & ?). by exists e', (t3 ++ t').
    + by eapply Hr'.
Qed.

Lemma orderly_calm t : Forall calm t → orderly t.
Proof.
  rewrite Forall_forall. intros Hc. split.
  - intros t1 e t2 -> [x He]. destruct (Hc e) as [Hn _]; [set_solver|congruence].
  - intros _ t1 e t2 ????-> (fd & f & He & _). destruct (Hc e) as [_ Hn]; [set_solver|congruence].
Qed.

Lemma transit_unique i p eg nh i' p' eg' nh' e :
  NoDup (snd <$> fds) → reads_transit i p eg nh e → reads_transit i' p' eg' nh' e → p = p' ∧ eg = eg' ∧ nh = nh'.
Proof.
  intros Hnd (fd & f & He & Hin & _ & Hp) (fd' & f' & He' & Hin' & _ & Hp').
  rewrite He in He'. injection He' as <- <-.
  apply list_elem_of_lookup in Hin as [x Hx], Hin' as [x' Hx'].
  assert (x = x') as <- by (eapply NoDup_lookup; [exact Hnd|..]; rewrite list_lookup_fmap, ?Hx, ?Hx'; done).
  rewrite Hx in Hx'. injection Hx' as <-. rewrite Hp in Hp'. by injection Hp' as <- <- <-.
Qed.

(** A frame that is not to be forwarded, and one that is. *)
Lemma orderly_read e :
  frame_sent e = None → (NoDup (snd <$> fds) → ∀ i p eg nh, ¬ reads_transit i p eg nh e) → orderly [e].
Proof.
  intros Hs Hr. split.
  - intros t1 e' t2 Ht [x He]. destruct t1 as [|? [|]]; try done. injection Ht as <- <-. congruence.
  - intros Hnd t1 e' t2 i p eg nh Ht He. destruct t1 as [|? [|]]; try done. injection Ht as <- <-.
    by destruct (Hr Hnd i p eg nh).
Qed.

Lemma orderly_plain id fd frame e :
  frame_sent e = None → frame_read e = Some (fd, frame) → (id, fd) ∈ fds →
  (len frame ≤ ETHERNET_HEADER_LEN + SERIALIZED_R8_MAX → ∀ p eg nh,
     process_frame (E:=NativeError.t) (manifest r) (budgets r) id frame ≠ Ok (Forward p eg nh)) →
  orderly [e].
Proof.
  intros Hs He Hin Hp. apply orderly_read; [done|]. intros Hnd i p eg nh (fd' & f & He' & Hin' & Hl & Hp').
  rewrite He in He'. injection He' as <- <-. apply (Hp Hl p eg nh).
  apply list_elem_of_lookup in Hin as [x Hx], Hin' as [x' Hx'].
  assert (x = x') as <- by (eapply NoDup_lookup; [exact Hnd|..]; rewrite list_lookup_fmap, ?Hx, ?Hx'; done).
  rewrite Hx in Hx'. by injection Hx' as ->.
Qed.

Lemma orderly_relay i p eg nh e e' :
  frame_sent e = None → frame_read e' = None → reads_transit i p eg nh e → sends_on eg nh p e' → orderly [e; e'].
Proof.
  intros Hs Hr He He'. split.
  - intros t1 e1 t2 Ht [x Hx]. destruct t1 as [|e0 [|? [|]]]; try done; injection Ht; intros; subst.
    + congruence.
    + exists [], e0. split; [done|]. by exists i, p, eg, nh.
  - intros Hnd t1 e1 t2 i' p' eg' nh' Ht H1. destruct t1 as [|e0 [|? [|]]]; try done; injection Ht; intros; subst.
    + exists e', []. split; [done|]. by destruct (transit_unique _ _ _ _ _ _ _ _ _ Hnd He H1) as (<- & <- & <-).
    + destruct H1 as (? & ? & H1 & _). congruence.
Qed.

(** The interfaces of all routes are there. *)
Definition wired : Prop :=
  ∀ ingress frame packet egress next_hop,
    process_frame (E:=NativeError.t) (manifest r) (budgets r) ingress frame = Ok (Forward packet egress next_hop) →
    ∃ fd mac out, descriptor_of NativeError.Invariant fds egress = Ok fd ∧ mac_of r egress = Ok mac ∧
      build_ethernet_frame next_hop mac packet = Ok out.
End Orderly.

(** ** The calls of the runtime *)

Section Calls.
Context {K : Type} `{DV : Device K}.
Abbreviation T := (K * list device_event)%type.
Abbreviation RNode := (Node (W:=Objects (K:=T))).

Definition log_of (n : RNode) : list device_event := snd (kernel (world n)).

Lemma descriptor_member {E} (e : E) fds id fd : descriptor_of e fds id = Ok fd → (id, fd) ∈ fds.
Proof.
  unfold descriptor_of. destruct (find _ fds) as [[id' fd']|] eqn:Hf; [|done]. intros [= <-].
  apply find_some in Hf as [Hin Heq%Z.eqb_eq]. simpl in Heq. subst id'. by apply list_elem_of_In.
Qed.

Lemma ask_run {E} {A : Set} (c : Linux.call A) (x : T) :
  Linux.ask (E:=E) c x = (Ok (fst (sys c x)), snd (sys c x)).
Proof. unfold Linux.ask. by destruct (sys c x). Qed.

(** A receive: one frame read, or none. *)
Lemma receive_trace fds id count (x : T) :
  let m := linux_receive fds id (replicate count 0) x in
  ∃ t, snd (snd m) = snd x ++ t ∧
    ((∃ fd n data e, (id, fd) ∈ fds ∧ t = [e] ∧ frame_sent e = None ∧ 0 ≤ n ∧
        frame_read e = Some (fd, take (Z.to_nat n) (zip_copy (replicate count 0) data)) ∧
        fst m = Ok (Some n, zip_copy (replicate count 0) data)) ∨
     (Forall calm t ∧ ∀ n b, fst m ≠ Ok (Some n, b))).
Proof.
  unfold linux_receive, mbind, st_bind, lift.
  destruct (descriptor_of _ fds id) as [fd|e|] eqn:Hfd; [|exists []; rewrite app_nil_r; by split; [|right]..].
  apply descriptor_member in Hfd. rewrite ask_run.
  pose proof (sys_log (Recv fd (len (replicate count 0)) true) x) as Hl.
  destruct (sys (Recv fd _ true) x) as [[n data] x1]. simpl in Hl |- *.
  destruct (Z.leb_spec 0 n) as [Hn|Hn].
  - eexists. split; [exact Hl|]. left. eexists fd, n, data, _. split_and!; [done..| |done].
    simpl. rewrite (proj2 (Z.leb_le 0 n) Hn). unfold len. by rewrite length_replicate, Nat2Z.id.
  - rewrite ask_run. pose proof (sys_log WouldBlock x1) as Hl1.
    destruct (sys WouldBlock x1) as [b x2]. simpl in Hl1. rewrite Hl, <-(assoc_L (++)) in Hl1.
    simpl. exists ([mkDeviceEvent _ (System (Recv fd (len (replicate count 0)) true)) (n, data)] ++ [mkDeviceEvent _ (System WouldBlock) b]).
    split; [by destruct b|]. right. split; [|by destruct b].
    repeat constructor. simpl. by rewrite (proj2 (Z.leb_gt 0 n) Hn).
Qed.

(** A send on an interface the daemon has is one call. *)
Lemma send_trace fds id frame fd (x : T) :
  descriptor_of NativeError.Invariant fds id = Ok fd →
  ∃ e, snd (snd (linux_send fds id frame x)) = snd x ++ [e] ∧ frame_sent e = Some (fd, frame) ∧ frame_read e = None.
Proof.
  intros Hfd. unfold linux_send, mbind, st_bind, lift. rewrite Hfd, ask_run.
  pose proof (sys_log (SendTo fd frame) x) as Hl. destruct (sys (SendTo fd frame) x) as [n x1].
  simpl in Hl |- *. exists (mkDeviceEvent _ (System (SendTo fd frame)) n). split; [by destruct (n <? 0)|done].
Qed.

(** A part of a run: its events are in order, and the interfaces stay. *)
Definition relays_in (r : NativeRuntime) (fds : LinuxIo) (n n' : RNode) : Prop :=
  ob_io (world n') = fds ∧ ∃ t, log_of n' = log_of n ++ t ∧ orderly r fds t.

Lemma relays_calm r fds n n' t :
  ob_io (world n') = fds → log_of n' = log_of n ++ t → Forall calm t → relays_in r fds n n'.
Proof. intros ?? Ht. split; [done|]. exists t. split; [done|]. by apply orderly_calm. Qed.

Lemma relays_trans r fds n1 n2 n3 : relays_in r fds n1 n2 → relays_in r fds n2 n3 → relays_in r fds n1 n3.
Proof.
  intros (_ & t & Ht & Ho) (Hio & t' & Ht' & Ho'). split; [done|]. exists (t ++ t').
  rewrite Ht', Ht, (assoc_L (++)). split; [done|]. by apply orderly_app.
Qed.

Lemma send_relays r fds ingress frame p eg nh n :
  same_config r (rt n) → ob_io (world n) = fds → wired r fds →
  process_frame (E:=NativeError.t) (manifest r) (budgets r) ingress frame = Ok (Forward p eg nh) →
  let n' := snd (or_fatal (Native.send eg nh p) n) in
  ob_io (world n') = fds ∧
  ∃ e, log_of n' = log_of n ++ [e] ∧ sends_on r fds eg nh p e ∧ frame_read e = None.
Proof.
  intros (_ & _ & Hmacs) Hio Hw Hp. destruct (Hw _ _ _ _ _ Hp) as (fd & mac & out & Hfd & Hmac & Hout).
  assert (mac_of (rt n) eg = Ok mac) as Hmac' by by rewrite <-Hmac; unfold mac_of; rewrite Hmacs.
  destruct (send_trace fds eg out fd (kernel (world n)) Hfd) as (e & Hl & Hs & Hr).
  assert (sends_on r fds eg nh p e) as Hon.
  { exists fd, out. split; [done|]. split; [by eapply descriptor_member|]. by exists mac. }
  assert (world (snd (or_fatal (Native.send eg nh p) n)) = set_kernel (snd (linux_send fds eg out (kernel (world n)))) (world n)) as Hworld.
  { unfold Native.send, or_fatal, mbind, st_bind, get, lift, zoom. rewrite Hmac', Hout. simpl.
    unfold on_kernel, zoom. rewrite Hio. destruct (linux_send fds eg out (kernel (world n))) as [[w|er|] x]; simpl.
    - destruct (w =? len out); [done|]. rewrite fatal_failed. cbv beta iota. by rewrite fatal_failed.
    - by destruct (stopped (rt n)) eqn:Hst; simpl; rewrite ?Hst.
    - done. }
  cbv zeta. unfold log_of. rewrite Hworld. split; [done|]. by exists e.
Qed.

Lemma zip_copy_length (buffer source : bytes) : length (zip_copy buffer source) = length buffer.
Proof. unfold zip_copy, overwrite. rewrite !length_app, !length_take, length_drop. lia. Qed.

(** What the runtime has of a receive, beside the state of the kernel. *)
Lemma io_receive_trace fds id count n :
  ob_io (world n) = fds →
  ∃ res buffer x, io_receive id (replicate count 0) (world n) = (res, buffer, set_kernel x (world n)) ∧
    ((∃ fd l e, res = Ok (Some l) ∧ 0 ≤ l ∧ length buffer = count ∧
        snd x = log_of n ++ [e] ∧ (id, fd) ∈ fds ∧ frame_sent e = None ∧
        frame_read e = Some (fd, take (Z.to_nat l) buffer)) ∨
     (∃ t, snd x = log_of n ++ t ∧ Forall calm t ∧ ∀ l, res ≠ Ok (Some l))).
Proof.
  intros Hio. destruct (receive_trace fds id count (kernel (world n))) as (t & Hl & Ht).
  unfold io_receive, linux_io. rewrite Hio.
  destruct (linux_receive fds id _ (kernel (world n))) as [m x]. cbn [fst snd] in *.
  destruct Ht as [(fd & l & data & e & Hin & -> & Hs & Hn & Hr & ->)|[Hc Hno]].
  - eexists _, _, x. split; [done|]. left. exists fd, l, e. split_and!; try done.
    by rewrite zip_copy_length, length_replicate.
  - destruct m as [[l b]|e|]; (eexists _, _, x; split; [done|right; exists t; split_and!; try done]).
    intros l' [= ->]. by eapply Hno.
Qed.

Lemma poll_relays r fds id n :
  same_config r (rt n) → local_locs (manifest r) = [] → ob_io (world n) = fds → wired r fds →
  relays_in r fds n (snd (Native.poll id n)).
Proof.
  intros Hc Hl Hio Hw. pose proof Hc as (Hm & Hb & _).
  unfold Native.poll, mbind at 1, st_bind at 1, get.
  destruct (io_receive_trace fds id (Z.to_nat RECEIVE_CAPACITY) n Hio) as (res & buffer & x & -> & Hx).
  unfold mbind at 1, st_bind at 1, put. unfold mbind at 1, st_bind at 1. rewrite or_fatal_lift.
  destruct Hx as [(fd & l & e & -> & Hl0 & Hlen & Hx & Hin & Hs & He)|(t & Hx & Hcalm & Hno)]; last first.
  { destruct res as [[l|]|er|]; [by destruct (Hno l)|..]; by apply (relays_calm r fds _ _ t). }
  unfold mbind at 1, st_bind at 1, count at 1. set (n1 := set_rt _ _).
  assert (same_config r (rt n1)) as Hc1 by done. assert (ob_io (world n1) = fds) as Hio1 by done.
  assert (log_of n1 = log_of n ++ [e]) as Hlog1 by done.
  assert (∀ n', log_of n' = log_of n1 → ob_io (world n') = fds →
    (len (take (Z.to_nat l) buffer) ≤ ETHERNET_HEADER_LEN + SERIALIZED_R8_MAX → ∀ p eg nh,
       process_frame (E:=NativeError.t) (manifest r) (budgets r) id (take (Z.to_nat l) buffer) ≠ Ok (Forward p eg nh)) →
    relays_in r fds n n') as Hplain.
  { intros n' Hn' Hio' Hp. split; [done|]. exists [e]. split; [by rewrite Hn'|]. by eapply orderly_plain. }
  clearbody n1. destruct (Z.ltb_spec (ETHERNET_HEADER_LEN + SERIALIZED_R8_MAX) l) as [Hlong|Hshort].
  { apply Hplain; [done..|]. unfold len. rewrite length_take, Hlen. intros Hle. exfalso.
    change RECEIVE_CAPACITY with (ETHERNET_HEADER_LEN + SERIALIZED_R8_MAX + 1) in *. lia. }
  rewrite st_bind_lift. rewrite slice_Ok by (change RECEIVE_CAPACITY with (ETHERNET_HEADER_LEN + SERIALIZED_R8_MAX + 1) in *; lia).
  rewrite Nat.sub_0_r, drop_0, st_bind_lift. rewrite <-Hm, <-Hb in *.
  destruct (process_frame _ _ _ _) as [[reason|p b|p eg nh]|er|] eqn:Hp; [..|].
  - by apply Hplain.
  - by destruct (no_local_delivery (E:=NativeError.t) (manifest (rt n)) (budgets (rt n)) id (take (Z.to_nat l) buffer) p b).
  - destruct (send_relays r fds id (take (Z.to_nat l) buffer) p eg nh n1 Hc1 Hio1 Hw) as (Hio2 & e' & Hlog & Hon & Hr');
      [by rewrite Hm, Hb in Hp|].
    split; [done|]. exists [e; e']. split; [by rewrite Hlog, Hlog1, <-(assoc_L (++))|].
    eapply (orderly_relay r fds id p eg nh); [done..| |done]. exists fd, (take (Z.to_nat l) buffer).
    split_and!; [done..| |by rewrite Hm, Hb in Hp].
    unfold len. rewrite length_take. change RECEIVE_CAPACITY with (ETHERNET_HEADER_LEN + SERIALIZED_R8_MAX + 1) in *. lia.
  - by destruct (process_frame_no_err _ _ _ _ _ Hp).
  - by apply Hplain.
Qed.
(** ** The rest of a pass *)

(** The calls that move no frame. *)
Definition calm_call {A : Set} (c : Linux.call A) : bool :=
  match c with SendTo _ _ | Recv _ _ true => false | _ => true end.

Definition calm_since (t0 : list device_event) (x : T) : Prop := ∃ t, snd x = t0 ++ t ∧ Forall calm t.

Lemma calm_keeps t0 (A : Set) (c : Linux.call A) x :
  calm_call c = true → calm_since t0 x → calm_since t0 (snd (sys c x)).
Proof.
  intros Hc (t & Ht & Hcalm). eexists. rewrite sys_log, Ht, <-(assoc_L (++)). split; [done|].
  apply Forall_app. split; [done|]. repeat constructor; by_call c.
Qed.

Lemma calm_quiet t0 (A : Set) (c : Linux.call A) x : quiet c = true → calm_since t0 x → calm_since t0 (snd (sys c x)).
Proof. intros Hc. apply calm_keeps. by_call c. Qed.

Definition calmly {E A} (m : st (Objects (K:=T)) E A) : Prop := ∀ o,
  ob_io (snd (m o)) = ob_io o ∧ calm_since (snd (kernel o)) (kernel (snd (m o))).

Lemma calm_on_kernel {E A} (m : st T E A) : (∀ t0, preserves (calm_since t0) m) → calmly (on_kernel m).
Proof.
  intros Hm o. unfold on_kernel, zoom. specialize (Hm (snd (kernel o)) (kernel o)).
  destruct (m (kernel o)) as [a x]. split; [done|]. apply Hm. exists []. by rewrite app_nil_r.
Qed.

#[local] Hint Extern 1 (preserves _ (Linux.ask _)) => apply preserves_ask; intros ?; by apply calm_keeps : kernel.

Lemma calm_clock : calmly now.
Proof. apply calm_on_kernel. intros t0. unfold monotonic_now. keeps. Qed.

Lemma calm_event : calmly event.
Proof.
  intros o. revert o. assert (∀ w, calmly (on_kernel (watch_event w))) as Hw; [|intros o; apply (Hw (ob_watch o) o)].
  intros w. apply calm_on_kernel. intros t0. pose proof (keeps_topology (calm_since t0) (calm_quiet t0)) as Ht.
  unfold watch_event, verify_isolated_namespace. keeps.
Qed.

(** The state a pass starts from. *)
Definition ready_node (r : NativeRuntime) (fds : LinuxIo) (n : RNode) : Prop :=
  runtime_inv (rt n) ∧ stopped (rt n) = false ∧ same_config r (rt n) ∧ ob_io (world n) = fds.

Lemma calm_relays r fds {E A} (m : st (Objects (K:=T)) E A) n n' :
  calmly m → ob_io (world n) = fds → world n' = snd (m (world n)) → relays_in r fds n n'.
Proof.
  intros Hm Hio Hn'. destruct (Hm (world n)) as (Hio' & t & Ht & Hc).
  by apply (relays_calm r fds n n' t); [rewrite Hn', Hio'|unfold log_of; rewrite Hn'|].
Qed.

Section Pass.
Context (r : NativeRuntime) (fds : LinuxIo) (Hl : local_locs (manifest r) = []) (Hw : wired r fds).

Lemma poll_all_relays ids n : ready_node r fds n → relays_in r fds n (snd (poll_all ids n)).
Proof using Hl Hw.
  revert n. induction ids as [|id ids IH]; intros n (Hi & Hs & Hc & Hio).
  { by apply (relays_calm _ _ _ _ []); [|rewrite app_nil_r|]. }
  cbn [poll_all]. unfold mbind, st_bind.
  pose proof (poll_relays r fds id n Hc Hl Hio Hw) as H1. pose proof (poll_post id n Hi Hs) as Hp.
  destruct (Native.poll id n) as [[u|e|] n1]; [|done..]. cbn [snd] in H1.
  destruct Hp as (Hi1 & Hs1 & ? & ? & ?), Hc as (?&?&?).
  eapply relays_trans; [exact H1|]. apply IH. split; [done|]. split; [done|]. split; [|by destruct H1].
  split_and!; congruence.
Qed.

Lemma step_relays n : ready_node r fds n → relays_in r fds n (snd (step_with_clock n)).
Proof using Hl Hw.
  intros (Hi & Hs & Hc & Hio). unfold step_with_clock, mbind, st_bind, or_fatal, zoom.
  pose proof (λ n', calm_relays r fds now n n' calm_clock Hio) as Hclock.
  destruct (now (world n)) as [[[]|e|] w] eqn:Hnow; cbn [snd] in Hclock;
    [|rewrite fatal_failed; by apply Hclock|by apply Hclock].
  set (n1 := set_world w n). assert (relays_in r fds n n1) as H1 by by apply Hclock.
  eapply relays_trans; [exact H1|]. destruct H1 as [Hio1 _].
  rewrite step_running by done.
  pose proof (λ n', calm_relays r fds event n1 n' calm_event Hio1) as Hevent.
  destruct (event (world n1)) as [[[]|e|] w2]; cbn [snd] in Hevent; [by apply Hevent| |by apply Hevent..].
  assert (relays_in r fds n1 (set_world w2 n1)) as H2 by by apply Hevent.
  eapply relays_trans; [exact H2|]. apply poll_all_relays. by destruct H2.
Qed.

Lemma pass_relays n :
  ready_node r fds n →
  relays_in r fds n (snd (poll_pass () n)) ∧
  (is_ok (fst (poll_pass () n)) = true → ready_node r fds (snd (poll_pass () n))).
Proof using Hl Hw.
  intros Hr. pose proof Hr as (Hi & Hs & Hc & Hio). unfold poll_pass, mbind, st_bind.
  assert (relays_in r fds n (snd (wait (E:=stop LauncherError) n)) ∧ rt (snd (wait (E:=stop LauncherError) n)) = rt n ∧
    is_ok (fst (wait (E:=stop LauncherError) n)) = true) as (H1 & Hrt & Hok).
  { unfold wait. set (c := Poll _ _).
    pose proof (λ n', calm_relays r fds (on_kernel (E:=stop LauncherError) (Linux.ask c)) n n') as Hc'.
    unfold zoom, on_kernel, zoom in *. rewrite ask_run in *. split_and!; [|done..]. apply Hc'; [|done..].
    apply calm_on_kernel. intros t0. keeps. }
  destruct (wait n) as [[[ready revents]|e|] n1]; [|done..]. cbn [fst snd] in *.
  destruct (_ || _); [done|]. assert (ready_node r fds n1) as Hr1.
  { destruct H1 as [Hio1 _]. unfold ready_node. by rewrite Hrt. }
  pose proof (step_relays n1 Hr1) as H2. unfold with_err.
  assert (∀ n2, step_with_clock n1 = (Ok (), n2) → ready_node r fds n2) as Hkeep.
  { intros n2 Hn2. rewrite Hn2 in H2. destruct Hr1 as (Hi1 & Hs1 & (?&?&?) & _).
    destruct (stepped_post n1 (Ok ()) n2 Hi1 Hs1 (or_intror Hn2)) as (? & ? & ? & ? & ?).
    split; [done|]. split; [done|]. split; [|by destruct H2]. split_and!; congruence. }
  destruct (step_with_clock n1) as [[[]|e|] n2]; cbn [fst snd map_err mret st_ret] in *;
    (split; [by eapply relays_trans|]); [|done..]. intros _. by apply Hkeep.
Qed.

Lemma loop_relays k n : ready_node r fds n → relays_in r fds n (snd (loop k poll_pass () n)).
Proof using Hl Hw.
  revert n. induction k as [|k IH]; intros n Hr.
  { destruct Hr as (_ & _ & _ & Hio). by apply (relays_calm _ _ _ _ []); [|rewrite app_nil_r|]. }
  cbn [loop]. unfold mbind, st_bind. destruct (pass_relays n Hr) as [H1 Hnext].
  destruct (poll_pass () n) as [[[[]|[]]|e|] n1]; [|done..]. cbn [fst snd] in *.
  eapply relays_trans; [exact H1|]. by apply IH, Hnext.
Qed.
End Pass.
End Calls.

(** ** Startup *)

Section Startup.
Context {K : Type} `{KC : Kernel K} {J : Type} `{JD : JsonDecoder J} (P : K → Prop).
Hypothesis calm_call_keeps : ∀ (A : Set) (c : Linux.call A) k, calm_call c = true → P k → P (snd (sys c k)).

#[local] Hint Extern 1 (preserves _ (Linux.ask _)) => by (apply preserves_ask; intros ?; apply calm_call_keeps) : kernel.

Lemma keeps_owned {E A} fd (m : st K E A) : preserves P m → preserves P (owned fd m).
Proof.
  intros Hm k Hk. specialize (Hm k Hk). unfold owned.
  destruct (m k) as [[a|e|] k1]; [done|..]; by apply calm_call_keeps.
Qed.

Lemma keeps_with_fd {E A} fd (m : st K E A) : preserves P m → preserves P (with_fd fd m).
Proof. intros Hm k Hk. specialize (Hm k Hk). unfold with_fd. destruct (m k). by apply calm_call_keeps. Qed.

Lemma keeps_close_all fds k : P k → P (close_all fds k).
Proof. revert k. induction fds as [|fd fds IH]; intros k Hk; [done|]. by apply IH, calm_call_keeps. Qed.

Lemma keeps_owned_all {E A} fds (m : st K E A) : preserves P m → preserves P (owned_all fds m).
Proof.
  intros Hm k Hk. specialize (Hm k Hk). unfold owned_all.
  destruct (m k) as [[a|e|] k1]; [done|..]; by apply keeps_close_all.
Qed.

#[local] Hint Resolve keeps_owned keeps_with_fd keeps_owned_all : kernel.

Ltac launches :=
  keeps; repeat (first [apply keeps_owned|apply keeps_with_fd|apply keeps_owned_all
                       |apply preserves_with_err|apply preserves_is_err]; keeps).

Lemma keeps_verify fd : preserves P (verify_immutable_manifest fd).
Proof. unfold verify_immutable_manifest. keeps. Qed.

Lemma keeps_sealed raw names : preserves P (sealed_manifest raw names).
Proof.
  assert (∀ n fd data offset, preserves P (write_loop n fd data offset)) as Hw.
  { induction n; intros; simpl; keeps. }
  assert (∀ n fd data offset, preserves P (read_loop n fd data offset)) as Hr.
  { induction n; intros; simpl; keeps. }
  pose proof keeps_verify.
  unfold sealed_manifest, create_immutable_manifest, read_immutable_manifest.
  launches.
Qed.

Lemma keeps_open name : preserves P (open_filtered_descriptor name).
Proof.
  unfold open_filtered_descriptor, interface_details, set_socket_option. launches.
Qed.

Lemma keeps_launch args : preserves P (launch args).
Proof.
  assert (∀ A (c : Linux.call A) k, quiet c = true → P k → P (snd (sys c k))) as Hq.
  { intros A c k Hc. apply calm_call_keeps. by_call c. }
  pose proof (keeps_topology P Hq) as Ht. pose proof (keeps_watch P) as Hwatch.
  assert (∀ u g, preserves P (drop_privileges u g)) as Hd.
  { apply keeps_drop. intros A c k Hc. apply calm_call_keeps. by_call c. }
  pose proof keeps_sealed. pose proof keeps_open.
  assert (∀ names, preserves P (verify_isolated_namespace names)) as Hn by (intros; unfold verify_isolated_namespace; keeps).
  assert (∀ rs bs fds ifs, preserves P (open_loop rs bs fds ifs)) as Ho.
  { intros rs bs fds ifs. revert rs bs fds. induction ifs; intros; simpl; launches. }
  assert (∀ a m w rs bs fds, preserves P (ready_phase a m w rs bs fds)) as Hr.
  { intros. unfold ready_phase, set_nondumpable, verify_isolated_namespace_after_drop. specialize (Hwatch w Hq). launches. }
  unfold launch, route_watch. launches.
Qed.
End Startup.

(** ** Wiring *)

Lemma max_by_key_member {A} (key : A → Z) l x : max_by_key key l = Some x → x ∈ l.
Proof. destruct l as [|y l]; [done|]. intros [= <-]. by apply max_by_key_foldl. Qed.

Lemma budgets_loop_inv l values v id b :
  budgets_loop values l = Ok v → v !! id = Some b →
  values !! id = Some b ∨ id ∈ fst <$> l ∧ b ≤ SERIALIZED_R8_MAX.
Proof.
  revert values. induction l as [|[i c] l IH]; intros values; simpl.
  { intros [= <-]. by left. }
  destruct (_ && _) eqn:Hc; [|done]. destruct (bool_decide _); [done|]. simpl.
  intros Hv Hid. destruct (IH _ Hv Hid) as [Hi|[??]]; [|by right; split; [right|]].
  apply lookup_insert_Some in Hi as [[-> ->]|[_ ?]]; [|by left].
  right. split; [by left|]. apply andb_true_iff in Hc as [_ ?%Z.leb_le]. done.
Qed.

Lemma decrement_hop_length {E} p p' : decrement_hop (E:=E) p = Ok p' → length p' = length p.
Proof.
  unfold decrement_hop. intros H. apply bind_Ok in H as (h & _ & H). apply bind_Ok in H as (h' & _ & H).
  unfold idx_set in H. case_decide; [|done]. injection H as <-. apply length_insert.
Qed.

(** A packet goes out on an interface with a budget it fits. *)
Lemma forward_budget {E} m b id frame p egress nh :
  process_frame (E:=E) m b id frame = Ok (Forward p egress nh) →
  ∃ eb, budgets_get b egress = Some eb ∧ len p ≤ eb.
Proof.
  unfold process_frame. intros H.
  repeat first
    [ discriminate H
    | match type of H with
      | (decrement_hop _ ≫= _) = _ => apply bind_Ok in H as (fp & Hd & H)
      | (_ ≫= _) = _ => apply bind_Ok in H as (? & _ & H)
      | (if ?l <? ?x then _ else _) = _ => destruct (Z.ltb_spec l x)
      | (if ?b then _ else _) = _ => destruct b
      | (match ?x with _ => _ end) = _ => destruct x eqn:?
      end ].
  injection H as <- <- <-. eexists. split; [done|].
  apply decrement_hop_length in Hd. unfold len in *. by rewrite Hd.
Qed.

Lemma find_member {A} (l : list (Z * A)) id : id ∈ fst <$> l → ∃ x, find (λ e, fst e =? id) l = Some (id, x).
Proof.
  induction l as [|[i x] l IH]; [by intros ?%elem_of_nil|]. simpl. intros Hin.
  destruct (Z.eqb_spec i id) as [->|Hne]; [by exists x|].
  apply elem_of_cons in Hin as [->|Hin]; [done|by apply IH].
Qed.

(** A launcher that is ready has an interface, an address and a budget for every descriptor of its
    manifest, and for no other. *)
Definition launched (r : Ready) : Prop :=
  ∃ m b records budgets,
    local_locs m = [] ∧ budgets_new m budgets = Ok b ∧ runtime_new m b records = Ok (runtime r) ∧
    fst <$> budgets = descriptor_id <$> interfaces m ∧ fst <$> records = descriptor_id <$> interfaces m ∧
    fst <$> ready_io r = descriptor_id <$> interfaces m.

Section Launched.
Context {K : Type} `{KC : Kernel K} {J : Type} `{JD : JsonDecoder J}.

Lemma open_loop_ids records budgets fds ifs (k : K) :
  ok_post (open_loop records budgets fds ifs) k (λ '(records', budgets', fds') _,
    fst <$> records' = (fst <$> records) ++ (descriptor_id <$> ifs) ∧
    fst <$> budgets' = (fst <$> budgets) ++ (descriptor_id <$> ifs) ∧
    fst <$> fds' = (fst <$> fds) ++ (descriptor_id <$> ifs)).
Proof.
  revert records budgets fds k. induction ifs as [|i ifs IH]; intros records budgets fds k.
  { apply ok_ret. by rewrite !app_nil_r. }
  apply ok_bind. unfold ok_post at 1. destruct (owned_all _ _ k) as [[d| |] k1]; [|done..].
  eapply ok_mono; [apply IH|]. intros [[r b] f] k2 (-> & -> & ->).
  rewrite !fmap_app, <-!(assoc_L (++)). done.
Qed.

Lemma launch_launched args (k : K) : ok_post (launch args) k (λ r _, launched r).
Proof.
  unfold launch. destruct (arguments args) as [a| |]; [|done..]. apply ok_bind, ok_ret.
  apply ok_bind, ok_ask. destruct (fst (sys _ k)) as [raw|]; [|done].
  apply ok_bind. unfold ok_post at 1. destruct (sealed_manifest _ _ _) as [[m| |] k2]; [|done..].
  destruct (bool_decide_reflect (local_locs m = [])) as [Hl|]; [|done]. simpl.
  destruct (existsb _ _); [done|]. destruct (negb _); [done|].
  apply ok_bind. unfold ok_post at 1. destruct (with_err FromNative _ k2) as [[w| |] k3]; [|done..].
  apply ok_owned, ok_bind. unfold ok_post at 1. destruct (with_err FromLinux _ k3) as [[[]| |] k4]; [|done..].
  apply ok_bind. eapply ok_mono; [apply open_loop_ids|].
  intros [[records budgets] fds] k5 (Hr & Hb & Hf). simpl in Hr, Hb, Hf. apply ok_owned_all. unfold ready_phase.
  apply ok_bind. destruct (budgets_new m budgets) as [b| |] eqn:Hbn; [|done..]. apply ok_ret.
  apply ok_bind. unfold ok_post at 1. destruct (or_else _ _ k5) as [[[]| |] k6]; [done| |done..].
  apply ok_bind. unfold ok_post at 1. destruct (with_err FromLinux _ k6) as [[[]| |] k7]; [|done..].
  apply ok_bind. unfold ok_post at 1. destruct (with_err FromLinux _ k7) as [[[]| |] k8]; [|done..].
  apply ok_bind. destruct (runtime_new m b records) as [rt| |] eqn:Hrt; [|done..]. apply ok_ret.
  apply ok_bind. unfold ok_post at 1. destruct (is_err _ k8) as [[[]| |] k9]; [done| |done..].
  apply ok_bind. unfold ok_post at 1. destruct (is_err _ k9) as [[[]| |] k10]; [done| |done..].
  apply ok_ret. by exists m, b, records, budgets.
Qed.
End Launched.

Lemma launched_wired r : launched r → wired (runtime r) (ready_io r).
Proof.
  intros (m & b & records & budgets & _ & Hb & Hr & Hbi & Hri & Hfi) ingress frame p egress nh Hp.
  destruct (new_inv _ _ _ _ Hr) as (_ & _ & Hm & Hbs & _). rewrite Hm, Hbs in Hp.
  assert (local_macs (runtime r) = records) as Hmacs.
  { unfold runtime_new in Hr. apply bind_Ok in Hr as ([] & _ & Hr); [done|]. case_match; [done|].
    by injection Hr as <-. }
  destruct (forward_budget _ _ _ _ _ _ _ Hp) as (eb & Hget & Hlen).
  assert (egress ∈ descriptor_id <$> interfaces m ∧ eb ≤ SERIALIZED_R8_MAX) as [Hin Heb].
  { unfold budgets_new in Hb. apply bind_Ok in Hb as (v & Hv & Hb). destruct (_ || _); [done|].
    injection Hb as <-. destruct (budgets_loop_inv _ _ _ _ _ Hv Hget) as [Hno|[? ?]]; [by rewrite lookup_empty in Hno|].
    by rewrite <-Hbi. }
  destruct (find_member (ready_io r) egress) as [fd Hfd]; [by rewrite Hfi|].
  destruct (find_member records egress) as [mac Hmac]; [by rewrite Hri|].
  exists fd, mac, (nh ++ mac ++ be_bytes 2 R8_ETHERTYPE ++ p). unfold descriptor_of, mac_of, build_ethernet_frame.
  rewrite Hfd, Hmacs, Hmac. split_and!; [done..|]. by assert (SERIALIZED_R8_MAX <? len p = false) as -> by lia.
Qed.

(** ** The daemon *)

Section Daemon.
Context {K : Type} `{DV : Device K} {J : Type} `{JD : JsonDecoder J}.
Abbreviation T := (K * list device_event)%type.

Lemma close_all_log fds (x : T) : calm_since (snd x) (close_all fds x).
Proof. apply keeps_close_all; [intros A c y; apply calm_keeps|]. exists []. by rewrite app_nil_r. Qed.

(** C5: the daemon only relays, and relays everything it should.  Along the calls of the program, on
    every kernel: no frame is read or sent before the launcher is ready; afterwards every frame
    that is sent is the one [process_frame] makes of the frame read just before, on the interface
    of its route and from that interface's own address, and, the descriptors being distinct, every
    frame read that [process_frame] forwards is sent by the very next call. *)
Theorem daemon_relays n args (k : K) :
  let '(_, (_, t)) := main n args (k, []) in
  match launch args (k, []) with
  | (Ok r, (_, t0)) => Forall calm t0 ∧ ∃ t1, t = t0 ++ t1 ∧ orderly (runtime r) (ready_io r) t1
  | (_, (_, t0)) => t = t0 ∧ Forall calm t
  end.
Proof.
  assert (calm_since [] (snd (launch args (k, [])))) as (t0 & Ht0 & Hcalm).
  { apply keeps_launch; [intros A c x; apply calm_keeps|]. by exists []. }
  pose proof (launch_launched args (k, [])) as Hl. unfold main, mbind, st_bind, with_err, ok_post in *.
  destruct (launch args (k, [])) as [[r|e|] [k1 t]]; cbn [map_err snd] in *; simpl in Ht0; subst t; [|done..].
  pose proof (launched_wired r Hl) as Hw.
  destruct Hl as (m & b & records & budgets & Hlocs & _ & Hnew & _). apply new_inv in Hnew as (Hi & Hs & Hm & _).
  set (node := mkNode (runtime r) (mkObjects (k1, t0) (ready_io r) (ready_watch r) (mkDropSessions 0))).
  assert (ready_node (runtime r) (ready_io r) node) as Hnode by done. rewrite <-Hm in Hlocs.
  destruct (loop_relays _ _ Hlocs Hw n node Hnode) as (_ & t1 & Ht1 & Ho).
  unfold held, serve. fold node. destruct (loop n poll_pass () node) as [res node']. cbn [snd] in Ht1.
  unfold log_of in Ht1. destruct (kernel (world node')) as [k2 t2]. simpl in Ht1. subst t2.
  destruct (close_all_log ((snd <$> ready_io r) ++ [watch_fd (ready_watch r)]) (k2, t0 ++ t1)) as (t3 & Ht3 & Hc3).
  destruct (close_all _ (k2, t0 ++ t1)) as [k3 t4]. simpl in Ht3. subst t4.
  destruct res as [[]|[e|]|]; (split; [done|]).
  1, 3: exists (t1 ++ t3); rewrite (assoc_L (++)); split; [done|]; apply orderly_app; [done|by apply orderly_calm].
  by exists t1.
Qed.
End Daemon.
