(* ===== verification/NativeLab.v ===== *)
(** * The native daemon on a small kernel

    The daemon of [NativeLoop.v] from its arguments to the frames it relays, on the
    kernel of [LinuxScenario.v] with frames that wait on its descriptors. *)

From S2P Require Import Prelude Wire Checksum Codec Crypto SessionMsg Replay SessionCrypto Directional Loc Udp Responder Device Manifest Forward Native Bpf Text Linux Topology LinuxInv Launcher LinuxScenario NativeLoop NativeRelay.
From stdpp Require Import gmap strings.
#[local] Open Scope Z_scope.
Import R8native.

#[local] Instance lab_decoder : JsonDecoder bool := {|
  from_slice := λ data, if beq data [123; 125] then inr demo_raw else inl true;
  is_syntax := λ e, e;
  is_eof := λ e, negb e;
|}.

(** On the kernel of the scenario, where no frame arrives, the daemon goes on waiting. *)
Lemma daemon_confined_witness :
  fst (main 3 demo_args demo_start) = Err Running ∧
  security (snd (main 3 demo_args demo_start)) = mkSecurity (clean 1000 1000) 0 ∧
  match fst (launch (K:=Demo) demo_args demo_start) with
  | Ok r => filtered (ready_io r) (snd (main 3 demo_args demo_start))
  | _ => False
  end.
Proof.
  pose proof (daemon_confined 3 demo_args demo_start) as H.
  assert (fst (main 3 demo_args demo_start) = Err Running) as Hrun by (vm_compute; reflexivity).
  assert (is_ok (fst (launch (K:=Demo) demo_args demo_start)) = true) as Hok by (vm_compute; reflexivity).
  assert (match arguments demo_args with Ok a => (arg_uid a, arg_gid a) | _ => (0, 0) end = (1000, 1000)) as Hids
    by (vm_compute; reflexivity).
  destruct (main 3 demo_args demo_start) as [res k']. destruct (launch demo_args demo_start) as [[r|e|] k1]; [|done..].
  destruct H as (a & Ha & _ & _ & Hs & Hf). rewrite Ha in Hids. injection Hids as Hu Hg. rewrite Hu, Hg in Hs.
  split; [exact Hrun|]. split; [exact Hs|]. exact (Hf Hrun).
Defined.

(** ** Frames *)

Record Wires : Type := mkWires { wires_system : Demo; wires_inbox : list (Z * bytes) }.

(** The first frame is taken when it is for the descriptor. *)
Definition wires_sys {A : Set} (c : Linux.call A) (k : Wires) : A * Wires :=
  match c in Linux.call A return A * Wires with
  | Recv fd count true =>
      match wires_inbox k with
      | (fd', f) :: l =>
          if fd' =? fd then ((len f, take (Z.to_nat count) f), mkWires (wires_system k) l) else ((-1, []), k)
      | [] => ((-1, []), k)
      end
  | Poll fds _ => ((if wires_inbox k then 0 else 1, replicate (length fds) 1), k)
  | c => let '(a, d) := demo_sys c (wires_system k) in (a, mkWires d (wires_inbox k))
  end.

Definition wires_device {A : Set} (c : device_call A) (k : Wires) : A * Wires :=
  match c in device_call A return A * Wires with
  | Common c => (fst (R8d.script_net c []), k)
  | System c => wires_sys c k
  | Getrandom count => ((count, replicate (Z.to_nat count) 0), k)
  | FcntlGetfd _ => (-1, k)
  | StatMode _ => ((-1, 0), k)
  | Geteuid => (0, k)
  | IfNametoindex _ => (0, k)
  | SendtoLink _ _ _ _ _ _ => (-1, k)
  | PollIn _ _ => (-1, k)
  | RecvfromLink _ _ => ((-1, [], mkLinkAddress 0 0 0 []), k)
  end.
#[local] Instance wires : Device Wires := {| device A c := wires_device c |}.

(** The descriptors of the two interfaces. *)
Definition lab_fds : LinuxIo :=
  match fst (launch (K:=Demo) demo_args demo_start) with Ok r => ready_io r | _ => [] end.
Definition lab_fd (id : Z) : Z := match find (λ e, fst e =? id) lab_fds with Some (_, fd) => fd | None => 0 end.

Definition lab_inbox : list (Z * bytes) :=
  [(lab_fd 7, demo_frame demo_transit); (lab_fd 7, [1; 2; 3]); (lab_fd 7, demo_frame demo_transit)].
Definition lab_relay : outcome (stop LauncherError) Empty_set * (Wires * list device_event) :=
  main 10 demo_args (mkWires demo_start lab_inbox, []).

(** Two of three frames leave, on the other interface, and the daemon ends when poll fails. *)
Example daemon_relays_two :
  let '(res, (_, t)) := lab_relay in
  res = Err (Failed (Message "poll failed")) ∧ fst <$> omap frame_sent t = [lab_fd 9; lab_fd 9] ∧
  fst <$> omap frame_read t = [lab_fd 7; lab_fd 7; lab_fd 7].
Proof. vm_compute. repeat split. Qed.

Lemma daemon_relays_witness :
  let t := snd (snd lab_relay) in
  match launch demo_args (mkWires demo_start lab_inbox, []) with
  | (Ok r, (_, t0)) => length (omap frame_sent t) = 2%nat ∧ ∃ t1, t = t0 ++ t1 ∧ orderly (runtime r) (ready_io r) t1
  | _ => False
  end.
Proof.
  pose proof (daemon_relays 10 demo_args (mkWires demo_start lab_inbox)) as H.
  change (main 10 demo_args (mkWires demo_start lab_inbox, [])) with lab_relay in H.
  assert (length (omap frame_sent (snd (snd lab_relay))) = 2%nat) as Hn by (vm_compute; reflexivity).
  assert (is_ok (fst (launch demo_args (mkWires demo_start lab_inbox, @nil device_event))) = true) as Hok
    by (vm_compute; reflexivity).
  destruct lab_relay as [res [k t]]. cbn [snd] in Hn |- *.
  destruct (launch demo_args (mkWires demo_start lab_inbox, [])) as [[r|e|] [k0 t0]]; [|done..].
  destruct H as [_ H]. split; [exact Hn|exact H].
Defined.
