(* ===== verification/RedundantIo.v ===== *)
(** * The redundant endpoint: arguments, keys and frames (src/rust/crates/r8-redundant/src/bin/r8-redundant-native.rs)

    The two packet sockets of the endpoint, the frames it accepts and transmits,
    its key descriptor and its random values, and the retransmissions of the
    client in the handshake.  The two roles are in [RedundantNative.v]. *)

From S2P Require Import Prelude Wire Checksum Codec Crypto SessionMsg Replay SessionCrypto Directional Client Bpf Text Linux Loc Udp Device.
From stdpp Require Import gmap strings.
#[local] Open Scope Z_scope.

Module R8redundant.

Definition ETHERTYPE : Z := 0x88b5.
Definition CONTROL_RETRY_DELAYS : list Z := [millis 500; millis 1000; millis 2000].
Definition CLIENT_LOC : bytes :=
  [0; 17; 34; 51; 68; 85; 102; 119; 136; 153; 170; 187; 204; 221; 238; 255].
Definition SERVER_LOC : bytes :=
  [255; 238; 221; 204; 187; 170; 153; 136; 119; 102; 85; 68; 51; 34; 17; 0].
Definition KEY_FD : Z := 3.
Definition KEY_MATERIAL_LEN : nat := 64.
Definition ENDPOINT_UID : Z := 65534.
Definition ENDPOINT_GID : Z := 65534.
Definition MAX_FRAME_LEN : Z := 14 + 1280.
Definition S_IFMT : Z := 0xf000.
Definition S_IFSOCK : Z := 0xc000.
Definition EINVAL : Z := 22.
Definition ETIMEDOUT : Z := 110.
Definition SOCKADDR_LL_LEN : Z := 20.

(** ** Arguments *)

Inductive Mode : Set := Send | Receive.

Record Args : Set := mkArgs {
  mode : Mode;
  interfaces : string * string;
  local : bytes * bytes;
  peer : bytes * bytes;
}.

(** [str::split] at a colon *)
Fixpoint split_colon (s : bytes) : list bytes :=
  match s with
  | [] => [[]]
  | b :: s =>
      if b =? 58 then [] :: split_colon s else
      match split_colon s with part :: parts => (b :: part) :: parts | [] => [[b]] end
  end.

Fixpoint parse_parts (parts : list bytes) : option bytes :=
  match parts with
  | [] => Some []
  | part :: parts =>
      if negb (len part =? 2) then None else
      b ← from_str_radix 16 u8_max part;
      mac ← parse_parts parts;
      Some (b :: mac)
  end.

Definition parse_mac (value : string) : option bytes :=
  let parts := split_colon (ascii_bytes value) in
  if negb (len parts =? 6) then None else parse_parts parts.

Definition args (values : list string) : option Args :=
  match values with
  | [_; m; i0; i1; l0; p0; l1; p1] =>
      m ← (if bool_decide (m = "send"%string) then Some Send else
           if bool_decide (m = "receive"%string) then Some Receive else None);
      l0 ← parse_mac l0; l1 ← parse_mac l1;
      p0 ← parse_mac p0; p1 ← parse_mac p1;
      Some (mkArgs m (i0, i1) (l0, l1) (p0, p1))
  | _ => None
  end.

Definition binding (descriptor_id : Z) (source : bytes) : ObservedBinding := Native descriptor_id source.

(** A socket with its interface and the two ends of the link. *)
Record Port : Set := mkPort { pt_fd : Z; pt_index : Z; pt_local : bytes; pt_peer : bytes }.

Record Credentials : Set := mkCredentials { cr_signing : bytes; cr_local : Identity; cr_peer : Identity }.

(** ** Frames *)

Definition frame_of (p : Port) (payload : bytes) : bytes :=
  pt_peer p ++ pt_local p ++ be_bytes 2 ETHERTYPE ++ payload.

(** The frame of the first [count] bytes of a buffer. *)
Definition accepted_frame (buffer : bytes) (count : Z) (local peer : bytes) : option bytes :=
  if negb ((14 <=? count) && (count <=? MAX_FRAME_LEN)) || (len buffer <? count)
     || negb (beq (take 6 buffer) local) || negb (beq (take 6 (drop 6 buffer)) peer)
     || negb (beq (take 2 (drop 12 buffer)) (be_bytes 2 ETHERTYPE))
  then None else Some (take (Z.to_nat count - 14) (drop 14 buffer)).

(** The payload and the source of a frame, when it is one of the peer's on the interface of the socket. *)
Definition arrived (p : Port) (count : Z) (data : bytes) (address : LinkAddress) : option (bytes * bytes) :=
  if negb (sll_length address =? SOCKADDR_LL_LEN) || negb (sll_ifindex address =? pt_index p)
     || negb (sll_halen address =? 6) then None else
  let source := take 6 (sll_addr address) in
  if negb (beq source (pt_peer p)) then None else
  let buffer := zip_copy (replicate (Z.to_nat (MAX_FRAME_LEN + 1)) 0) data in
  payload ← accepted_frame buffer count (pt_local p) (pt_peer p);
  Some (payload, source).

(** ** Instants *)

Definition checked_instant (t d : Z) : option Z :=
  if t + d <? 2 ^ 63 * 1000000000 then Some (t + d) else None.
Definition checked_duration_since (later earlier : Z) : option Z :=
  if later <? earlier then None else Some (later - earlier).
Definition deadline_at_ms (start absolute_ms : Z) : outcome unit Z :=
  ok_or (checked_instant start (millis absolute_ms)) ().

Definition control_retry_offset (index : nat) : outcome unit Z :=
  if (index <? length CONTROL_RETRY_DELAYS)%nat
  then Ok (foldr Z.add 0 (take (S index) CONTROL_RETRY_DELAYS)) else Panic.

Section Calls.
Context `{C : Crypto} {K : Type} `{DV : Device K}.
Abbreviation M := (st K (stop unit)).

(** [map_err(|_| ())?] *)
Definition quiet {E A} (m : st K (stop E) A) : M A :=
  r ← attempt m;
  match r with inr a => mret a | inl (Failed _) => fail () | inl Running => throw Running end.
Definition try {A} (m : outcome unit A) : M A := lift (map_err Failed m).
Definition last_os_error {A} : st K (stop Z) A := e ← Linux.ask LastOsError; fail e.

Definition elapsed_ms (start : Z) : M Z :=
  now ← ask Now;
  let ms := saturating_duration_since now start / 1000000 in
  if u64_max <? ms then fail () else mret ms.
Definition deadline_after (duration : Z) : M Z :=
  now ← ask Now; try (ok_or (checked_instant now duration) ()).

(** ** Random values and keys *)

(** Read into a buffer until it is full; a call that gives nothing fails. *)
Definition fill_pass (ask_more : Z → M (Z * bytes)) (size : nat) (filled : bytes) : M (bytes + bytes) :=
  if (length filled =? size)%nat then mret (inr filled) else
  if (size <? length filled)%nat then lift Panic else
  '(count, data) ← ask_more (Z.of_nat size - len filled);
  if count <=? 0 then fail () else mret (inl (filled ++ take (Z.to_nat count) data)).

Definition random (n : nat) (size : nat) : M bytes :=
  loop n (fill_pass (λ count, ask_device (Getrandom count)) size) [].

Definition read_key (n : nat) : M bytes :=
  loop n (fill_pass (λ count, ask (ReadFd KEY_FD count)) KEY_MATERIAL_LEN) [].

Definition random_scid (n : nat) : M Z :=
  loop n (λ _ : unit, b ← random n 8; mret (if be_value b =? 0 then inl () else inr (be_value b))) ().

Definition credentials (n : nat) (role : Z) : M Credentials :=
  r ← ask_device (FcntlGetfd KEY_FD);
  if r =? -1 then fail () else
  '(r, stat_mode) ← ask_device (StatMode KEY_FD);
  if negb (r =? 0) || (Z.land stat_mode S_IFMT =? S_IFSOCK) then fail () else
  holding KEY_FD (
    material ← read_key n;
    '(count, _) ← ask (ReadFd KEY_FD 1);
    if negb (count =? 0) then fail () else
    let signing := take 32 material in
    local ← try (map_err (λ _, ()) (identity_from_public_key role 7 (ed25519_public signing)));
    peer ← try (map_err (λ _, ()) (identity_from_public_key (if role =? 1 then 2 else 1) 7 (drop 32 material)));
    mret (mkCredentials signing local peer)).

(** ** Sockets *)

(** The socket and the index of an interface. *)
Definition socket (interface : string) : st K (stop Z) (Z * Z) :=
  let name := ascii_bytes interface in
  if existsb (λ b, b =? 0) name then fail EINVAL else
  index ← ask_device (IfNametoindex name);
  if index <=? 0 then last_os_error else
  fd ← Linux.ask (Socket AF_PACKET (Z.lor SOCK_RAW SOCK_CLOEXEC) (to_be_u16 ETHERTYPE));
  if fd <? 0 then last_os_error else
  owned fd (
    bad ← fails (Setsockopt fd SOL_PACKET PACKET_IGNORE_OUTGOING (OptInt 1));
    if bad : bool then last_os_error else
    bad ← fails (Bind fd (LinkLayer (to_be_u16 ETHERTYPE) index));
    if bad : bool then last_os_error else mret (fd, index)).

Definition transmit (p : Port) (payload : bytes) : st K (stop Z) unit :=
  if 1280 <? len payload then fail EMSGSIZE else
  let frame := frame_of p payload in
  sent ← ask_device (SendtoLink (pt_fd p) frame (to_be_u16 ETHERTYPE) (pt_index p) 6 (pt_peer p));
  if (sent <? 0) || negb (sent =? len frame) then last_os_error else mret ().

(** A pass of the wait for a frame: its payload and its source. *)
Definition receive_pass (p : Port) (deadline : Z) : st K (stop Z) (unit + bytes * bytes) :=
  now ← ask Now;
  match checked_duration_since deadline now with
  | None => fail ETIMEDOUT
  | Some remaining =>
      ready ← ask_device (PollIn (pt_fd p) (Z.min (remaining / 1000000) (2 ^ 31 - 1)));
      if ready =? 0 then fail ETIMEDOUT else
      if ready <? 0 then last_os_error else
      '(count, data, address) ← ask_device (RecvfromLink (pt_fd p) (MAX_FRAME_LEN + 1));
      if count <? 0 then last_os_error else
      mret (match arrived p count data address with Some x => inr x | None => inl () end)
  end.

Definition receive (n : nat) (p : Port) (deadline : Z) : st K (stop Z) (bytes * bytes) :=
  loop n (λ _, receive_pass p deadline) ().

Definition receive_control (n : nat) (p : Port) (descriptor_id deadline : Z) : M (bytes * ObservedBinding) :=
  '(packet, source) ← quiet (receive n p deadline);
  mret (packet, binding descriptor_id source).

(** ** The client's retransmissions *)

(** The instant of a retry. *)
Definition retry_at (started : Z) (index : nat) : outcome unit Z :=
  offset ← control_retry_offset index; ok_or (checked_instant started offset) ().

(** The retries whose instant has passed are left out. *)
Definition skip_pass (started : Z) (next_retry : nat) : M (nat + nat) :=
  if (next_retry <? length CONTROL_RETRY_DELAYS)%nat then
    due ← try (retry_at started next_retry);
    now ← ask Now;
    mret (if due <=? now then inl (S next_retry) else inr next_retry)
  else mret (inr next_retry).

Abbreviation CM := (st (K * ClientWorld) (stop unit)).

(** The [map_err(|_| ())?] of a method of the client. *)
Definition client_try {A} (m : st ClientWorld SessionError.t A) : CM A :=
  r ← machine m; match r with inr a => mret a | inl _ => fail () end.

Definition control_pass (n : nat) (p : Port) (descriptor_id started deadline : Z) (next_retry : nat) :
    CM (nat + bytes * ObservedBinding * nat) :=
  let more := (next_retry <? length CONTROL_RETRY_DELAYS)%nat in
  retry_deadline ← sysm (if more then due ← try (retry_at started next_retry); mret (Z.min due deadline)
                         else mret deadline);
  r ← attempt (sysm (receive n p retry_deadline));
  match r with
  | inr (packet, source) => mret (inr (packet, binding descriptor_id source, next_retry))
  | inl (Failed e) =>
      if (e =? ETIMEDOUT) && more && (retry_deadline <? deadline) then
        t ← sysm (elapsed_ms started);
        retry ← client_try (retry t);
        sysm (quiet (transmit p retry)) ;;
        mret (inl (S next_retry))
      else fail ()
  | inl Running => throw Running
  end.

(** The packet, its carrier and the retries that are used up. *)
Definition receive_client_control (n : nat) (p : Port) (descriptor_id started deadline : Z) (next_retry : nat) :
    CM (bytes * ObservedBinding * nat) :=
  next_retry ← sysm (loop n (skip_pass started) next_retry);
  loop n (control_pass n p descriptor_id started deadline) next_retry.

End Calls.

(** The repository's tests. *)
Example client_retry_schedule :
  control_retry_offset <$> [0; 1; 2]%nat = [Ok (millis 500); Ok (millis 1500); Ok (millis 3500)].
Proof. by vm_compute. Qed.

Example endpoint_accepts_exact_maximum_frame :
  let l := replicate 6 1 in let p := replicate 6 2 in
  let frame := l ++ p ++ be_bytes 2 ETHERTYPE ++ replicate 1280 0 in
  accepted_frame frame (len frame) l p = Some (replicate 1280 0) ∧
  accepted_frame (frame ++ [0]) (len frame + 1) l p = None.
Proof. by vm_compute. Qed.

Example mac_values :
  parse_mac <$> ["02:00:00:00:00:0a"; "2:0:0:0:0:a"; "02:00:00:00:00"; "+2:00:00:00:00:0a"]%string =
  [Some [2; 0; 0; 0; 0; 10]; None; None; Some [2; 0; 0; 0; 0; 10]].
Proof. by vm_compute. Qed.

End R8redundant.
