(* ===== verification/RedundantNative.v ===== *)
(** * The redundant endpoint: its two roles (src/rust/crates/r8-redundant/src/bin/r8-redundant-native.rs)

    The handshake of the client and of the server, the move that authorizes the
    second path, and the datagram that is sent on both: the sending and the
    receiving endpoint, each a straight run that ends at the first failure. *)

From S2P Require Import Prelude Wire Checksum Codec Crypto SessionMsg Replay SessionCrypto Directional Client Server Control Mobility DeliveryWindow Redundant Bpf Text Linux Loc Udp Device RedundantIo.
From stdpp Require Import gmap strings.
#[local] Open Scope Z_scope.
Import R8redundant.

Module R8redundantNative.

(** The process once it has a session: the redundant session and the candidate manager. *)
Definition Ends : Type := RState * State.

(** [[0x5a; 64]] *)
Definition APPLICATION : bytes := replicate 64 0x5a.
Definition SECONDS_5 : Z := millis 5000.

Section Endpoint.
Context `{C : Crypto} `{DA : Build} {K : Type} `{DV : Device K}.
Abbreviation M := (st K (stop unit)).
Abbreviation CM := (st (K * ClientWorld) (stop unit)).
Abbreviation SM := (st (K * ServerWorld) (stop unit)).
Abbreviation EM := (st (K * Ends) (stop unit)).

(** A run with a state of its own, which it returns. *)
Definition within {S A} (s : S) (m : st (K * S) (stop unit) A) : M (A * S) := λ k,
  match m (k, s) with
  | (Ok a, (k, s)) => (Ok (a, s), k)
  | (Err e, (k, _)) => (Err e, k)
  | (Panic, (k, _)) => (Panic, k)
  end.

(** The [map_err(|_| ())?] of a method. *)
Definition method {S E A} (m : st S E A) : st (K * S) (stop unit) A :=
  r ← machine m; match r with inr a => mret a | inl _ => fail () end.

(** ** The handshake *)

Definition config (cr : Credentials) : HandshakeConfig :=
  mkConfig (cr_local cr) (cr_peer cr) 3 CLIENT_LOC SERVER_LOC 1280 4 4 1.

Definition client_handshake (n : nat) (p : Port) (id : Z) : CM Profile3Bootstrap :=
  ephemeral_secret ← sysm (random n 32);
  nonce ← sysm (random n 32);
  open ← client_try (start id (mkClientMaterial ephemeral_secret nonce) 0);
  started ← sysm (ask Now);
  deadline ← sysm (try (ok_or (checked_instant started SECONDS_5) ()));
  sysm (quiet (transmit p open)) ;;
  '(verify, _, next_retry) ← receive_client_control n p 2 started deadline 0;
  t ← sysm (elapsed_ms started);
  auth ← client_try (receive_verify verify t);
  sysm (quiet (transmit p auth)) ;;
  '(ack, _, _) ← receive_client_control n p 2 started deadline next_retry;
  t ← sysm (elapsed_ms started);
  accept ← client_try (receive_ack ack t);
  sysm (quiet (transmit p accept)) ;;
  client_try client_take_profile3_bootstrap.

(** The objects of a process in which only a handshake has taken place. *)
Definition fresh_world (w : World) : RWorld := mkRWorld w (mkCaps 1 ∅) 1 ∅ 1.

(** The redundant session on a bootstrap, with a random first identifier. *)
Definition new_session (n : nat) (p : Port) (descriptor_id : Z) (b : Profile3Bootstrap) (w : World) : M RState :=
  delivery ← random_scid n;
  within (fresh_world w) (method (redundant_new b (binding descriptor_id (pt_peer p)) delivery)).

Definition client_session (n : nat) (cr : Credentials) (p : Port) : M (RState * Z) :=
  id ← random_scid n;
  client ← try (map_err (λ _, ()) (client_new (config cr) (cr_signing cr)));
  '(b, (_, w)) ← within (client, world_init) (client_handshake n p id);
  s ← new_session n p 2 b w;
  mret (s, id).

(** The messages of the server, which waits for each of the client's once. *)
Definition server_handshake (n : nat) (p : Port) (started listen_deadline : Z) : SM (Profile3Bootstrap * Z) :=
  '(open, observed) ← sysm (receive_control n p 4 listen_deadline);
  '(header, _) ← sysm (try (map_err (λ _, ()) (unpack open)));
  verify ← (λ x, lift (map_err (λ _, Failed ()) (receive_open (fst (snd x)) open observed 0)) x);
  sysm (quiet (transmit p verify)) ;;
  auth_deadline ← sysm (deadline_after SECONDS_5);
  '(auth, observed) ← sysm (receive_control n p 4 auth_deadline);
  t ← sysm (elapsed_ms started);
  ephemeral_secret ← sysm (random n 32);
  nonce ← sysm (random n 32);
  ack ← method (receive_open_auth auth observed t 0 (Some (mkServerHandshakeMaterial ephemeral_secret nonce)));
  pending_deadline ← sysm (deadline_after SECONDS_5);
  sysm (quiet (transmit p ack)) ;;
  '(accept, _) ← sysm (receive_control n p 4 pending_deadline);
  t ← sysm (elapsed_ms started);
  method (receive_accept accept t) ;;
  b ← method (server_take_profile3_bootstrap (Wire.scid header));
  mret (b, Wire.scid header).

Definition server_session (n : nat) (cr : Credentials) (p : Port) : M (RState * Z) :=
  started ← ask Now;
  listen_deadline ← deadline_after SECONDS_5;
  boot_instance ← random n 16;
  current ← random n 32;
  previous ← random n 32;
  server ← try (map_err (λ _, ()) (server_new (config cr) (cr_signing cr)
                                     (mkServerMaterial boot_instance current previous 0)));
  '((b, id), (_, w)) ← within (server, world_init) (server_handshake n p started listen_deadline);
  s ← new_session n p 4 b w;
  mret (s, id).

(** ** The manager and its controls *)

Definition manager (n : nat) (cr : Credentials) (local_loc peer_loc : bytes) (id : Z) (carrier : ObservedBinding)
    (owner : Profile3AdmissionOwner) : M (CandidateManager * State) :=
  secret ← random n 32;
  try (map_err (λ _, ())
         (fst (new_with_profile3_admission_owner
                 (mkManagerConfig (cr_signing cr) (cr_local cr) (cr_peer cr) 3 id 9 local_loc peer_loc carrier secret)
                 owner 1))).

(** A control of the peer; the response it calls for.  A commit that is not used is dropped. *)
Definition commit_control (mgr : CandidateManager) (observed : ObservedBinding) (packet : bytes) (now_ms : Z) :
    st Ends RedundantError.t (option Control) := λ '(rs, ms),
  match preview_mobility_inbound 0 observed packet now_ms rs with
  | (Ok p, rs) =>
      match prepare_mobility_commit mgr ms observed p now_ms rs with
      | (Ok c, rs) =>
          match mobility_response mgr ms c with
          | Ok response =>
              let '(r, ends) := commit_mobility mgr c (rs, ms) in
              ((_ ← r; Ok response), ends)
          | Err e => (Err e, ((fst rs, replay_lease_drop (mic_lease c) (snd rs)), ms))
          | Panic => (Panic, ((fst rs, replay_lease_drop (mic_lease c) (snd rs)), ms))
          end
      | (Err e, rs) => (Err e, (rs, ms))
      | (Panic, rs) => (Panic, (rs, ms))
      end
  | (Err e, rs) => (Err e, (rs, ms))
  | (Panic, rs) => (Panic, (rs, ms))
  end.

(** Methods of the session and of the manager. *)
Definition on_session {E A} (m : st RState E A) : EM A := method (zoom fst (λ rs x, (rs, snd x)) m).
Definition on_manager {E A} (m : st State E A) : EM A := method (zoom snd (λ s x, (fst x, s)) m).

(** [confirm_sent] of the session. *)
Definition confirm (slot : Z) (packet : bytes) : EM unit :=
  on_session (zoom fst (λ s x, (s, snd x)) (confirm_sent slot packet)).

Definition send_control (p : Port) (control : Control) : EM unit :=
  l ← sysm (try (map_err (λ _, ()) (control_encode control)));
  sent ← on_session (outbound l);
  match sent with
  | Enqueued _ [packet] =>
      if negb (op_slot packet =? 0) then fail () else
      sysm (quiet (transmit p (op_packet packet))) ;;
      confirm 0 (op_packet packet)
  | _ => fail ()
  end.

(** A control is received on a port and committed. *)
Definition take_control (n : nat) (mgr : CandidateManager) (p : Port) (descriptor_id deadline started : Z) :
    EM (option Control) :=
  '(packet, observed) ← sysm (receive_control n p descriptor_id deadline);
  t ← sysm (elapsed_ms started);
  method (commit_control mgr observed packet t).

(** The one admission the manager has minted, and the second path it opens. *)
Definition activate_path : EM unit :=
  admissions ← on_manager (λ s, let '(l, s) := take_profile3_admissions s in (@Ok unit _ l, s));
  match admissions with
  | [a] => on_session (activate a 1280)
  | _ => fail ()
  end.

(** ** The sending endpoint *)

Definition send_copy (p0 p1 : Port) (packet : OutboundPacket) : EM unit :=
  p ← (if op_slot packet =? 0 then mret p0 else if op_slot packet =? 1 then mret p1 else fail ());
  sysm (quiet (transmit p (op_packet packet))) ;;
  confirm (op_slot packet) (op_packet packet).

(** The move: a proposal and a probe, the answer to the challenge, the result. *)
Definition move_send (n : nat) (mgr : CandidateManager) (p0 p1 : Port) (started : Z) : EM unit :=
  candidate_loc ← sysm (random n 16);
  candidate_id ← sysm (random n 16);
  proposal_now_ms ← sysm (elapsed_ms started);
  later ← sysm (try (ok_or (checked_add proposal_now_ms 5000) ()));
  candidate_deadline ← sysm (try (deadline_at_ms started later));
  update ← on_manager (propose_local mgr candidate_id candidate_loc 1 1 proposal_now_ms);
  send_control p0 update ;;
  probe_nonce ← sysm (random n 16);
  t ← sysm (elapsed_ms started);
  probe ← on_manager (make_probe mgr candidate_id (binding 3 (pt_peer p1)) probe_nonce t);
  send_control p1 probe ;;
  response ← take_control n mgr p1 3 candidate_deadline started;
  response ← sysm (try (ok_or response ()));
  send_control p1 response ;;
  answer ← take_control n mgr p1 3 candidate_deadline started;
  match answer with Some _ => fail () | None => activate_path end.

Definition ready_line : string := "R8-ENDPOINT-READY handshake=5 candidate=5 application=2 total=12".

Definition run_send (n : nat) (mgr : CandidateManager) (p0 p1 : Port) (started : Z) : EM unit :=
  move_send n mgr p0 p1 started ;;
  sysm (print ready_line) ;;
  sent ← on_session (outbound APPLICATION);
  match sent with
  | Enqueued _ [a; b] =>
      send_copy p0 p1 a ;;
      send_copy p0 p1 b ;;
      sysm (print "R8-ENDPOINT-SENT copies=2 handshake=5 candidate=5 application=2 total=12")
  | _ => fail ()
  end.

(** ** The receiving endpoint *)

(** The move: the challenge to the probe, the verdict on the response. *)
Definition move_receive (n : nat) (mgr : CandidateManager) (p0 p1 : Port) (started : Z) : EM unit :=
  update_receive_deadline ← sysm (deadline_after SECONDS_5);
  '(update, observed) ← sysm (receive_control n p0 4 update_receive_deadline);
  update_now_ms ← sysm (elapsed_ms started);
  answer ← method (commit_control mgr observed update update_now_ms);
  match answer with Some _ => fail () | None =>
  later ← sysm (try (ok_or (checked_add update_now_ms 5000) ()));
  candidate_deadline ← sysm (try (deadline_at_ms started later));
  challenge ← take_control n mgr p1 5 candidate_deadline started;
  challenge ← sysm (try (ok_or challenge ()));
  match challenge with
  | BindChallenge _ _ _ _ challenge_expiry_ms _ =>
      challenge_deadline ← sysm (try (deadline_at_ms started challenge_expiry_ms));
      send_control p1 challenge ;;
      answer ← take_control n mgr p1 5 challenge_deadline started;
      match answer with Some _ => fail () | None =>
      results ← on_manager (λ s, let '(l, s) := take_results s in (@Ok unit _ l, s));
      match results with
      | [result] => send_control p1 result ;; activate_path
      | _ => fail ()
      end end
  | _ => fail ()
  end end.

Definition run_receive (n : nat) (mgr : CandidateManager) (p0 p1 : Port) (started : Z) : EM unit :=
  move_receive n mgr p0 p1 started ;;
  sysm (print ready_line) ;;
  application_deadline ← sysm (deadline_after SECONDS_5);
  '(first, first_binding) ← sysm (receive_control n p0 4 application_deadline);
  '(second, second_binding) ← sysm (receive_control n p1 5 application_deadline);
  t ← sysm (elapsed_ms started);
  one ← on_session (inbound 0 first_binding first t);
  t ← sysm (elapsed_ms started);
  two ← on_session (inbound 1 second_binding second t);
  match one, two with
  | Delivered text, Suppressed =>
      if beq text APPLICATION
      then sysm (print "R8-ENDPOINT-PASS delivered=1 suppressed=1 handshake=5 candidate=5 application=2 total=12")
      else fail ()
  | _, _ => fail ()
  end.

(** ** The program *)

(** A role from its session to its end. *)
Definition role (n : nat) (cr : Credentials) (m : Mode) (p0 p1 : Port) (started : Z) : M unit :=
  let '(session, local_loc, peer_loc, descriptor_id) :=
    match m with
    | Send => (client_session n cr p0, CLIENT_LOC, SERVER_LOC, 2)
    | Receive => (print "R8-ENDPOINT-LISTENING" ;; server_session n cr p0, SERVER_LOC, CLIENT_LOC, 4)
    end in
  '(s, id) ← session;
  '(owner, s) ← within s (method (issue_profile3_admission_owner 9));
  '(mgr, ms) ← manager n cr local_loc peer_loc id (binding descriptor_id (pt_peer p0)) owner;
  within (s, ms) (match m with
                  | Send => run_send n mgr p0 p1 started
                  | Receive => run_receive n mgr p0 p1 started
                  end) ;;
  mret ().

(** The role, once both sockets are open and the privileges are gone. *)
Definition unprivileged (n : nat) (a : Args) (cr : Credentials) (started : Z) (s0 s1 : Z * Z) : M unit :=
  dropped ← attempt (drop_privileges ENDPOINT_UID ENDPOINT_GID);
  match dropped with
  | inl _ => fail ()
  | inr _ =>
      role n cr (mode a) (mkPort (fst s0) (snd s0) (fst (local a)) (fst (peer a)))
        (mkPort (fst s1) (snd s1) (snd (local a)) (snd (peer a))) started
  end.

Definition run (n : nat) (a : Args) : M unit :=
  euid ← ask_device Geteuid;
  if negb (euid =? 0) then fail () else
  cr ← credentials n (match mode a with Send => 1 | Receive => 2 end);
  started ← ask Now;
  s0 ← quiet (socket (fst (interfaces a)));
  holding (fst s0) (
    s1 ← quiet (socket (snd (interfaces a)));
    holding (fst s1) (unprivileged n a cr started s0 s1)).

(** The exit code. *)
Definition main (n : nat) (values : list string) : M Z :=
  match args values with
  | None => mret 1
  | Some a =>
      r ← attempt (run n a);
      match r with
      | inr _ => mret 0
      | inl (Failed _) => mret 1
      | inl Running => throw Running
      end
  end.
End Endpoint.
End R8redundantNative.
