(* ===== verification/RedundantFrames.v ===== *)
(** * What a redundant endpoint puts on its links

    The frames of a run of [RedundantNative.v], counted along its trace: twelve
    for a run of both roles that ends well without a retransmission, none of them
    before the privileges are gone, each addressed to the peer of its link. *)

From S2P Require Import Prelude Wire Checksum Codec Crypto SessionMsg Replay SessionCrypto Directional Client Server Control Mobility DeliveryWindow Redundant Bpf Text Linux Topology LinuxInv Loc Udp Device RedundantIo RedundantNative.
From stdpp Require Import gmap strings.
#[local] Open Scope Z_scope.
Import R8redundant R8redundantNative.

(** A frame that was handed to the kernel, with its descriptor. *)
Definition link_sent (e : device_event) : list (Z * bytes) :=
  match e with
  | mkDeviceEvent _ c _ => match c with SendtoLink fd frame _ _ _ _ => [(fd, frame)] | _ => [] end
  end.
Definition link_read (e : device_event) : bool :=
  match e with mkDeviceEvent _ c _ => match c with RecvfromLink _ _ => true | _ => false end end.

(** No frame was sent or read. *)
Definition off_link (e : device_event) : Prop := link_sent e = [] ∧ link_read e = false.

Section Frames.
Context (p0 p1 : Port).

(** The payloads of the frames that were accepted. *)
Definition link_accepted (e : device_event) : list bytes :=
  match e with
  | mkDeviceEvent _ c a =>
      match c in device_call A return A → list bytes with
      | RecvfromLink fd _ => λ '(count, data, address),
          if count <? 0 then [] else
          match arrived (if fd =? pt_fd p0 then p0 else p1) count data address with
          | Some (payload, _) => [payload]
          | None => []
          end
      | _ => λ _, []
      end a
  end.

Definition frames_sent (t : list device_event) : list (Z * bytes) := t ≫= link_sent.
Definition frames_accepted (t : list device_event) : list bytes := t ≫= link_accepted.

(** A frame that leaves goes to the peer of its link, from its address, within the budget. *)
Definition addressed (e : device_event) : Prop :=
  match e with
  | mkDeviceEvent _ c _ =>
      match c with
      | SendtoLink fd frame protocol index halen address =>
          ∃ p payload, (p = p0 ∨ p = p1) ∧ fd = pt_fd p ∧ index = pt_index p ∧ address = pt_peer p ∧
            frame = frame_of p payload ∧ len payload ≤ 1280
      | _ => True
      end
  end.

(** ** Counting along a trace *)

Section Count.
Context {X : Type} (log : X → list device_event).

(** The frames sent and accepted, together with the result; with one descriptor for both ports the
    port of a frame is not known. *)
Definition accepts (t : list device_event) (y : nat) : Prop :=
  pt_fd p0 ≠ pt_fd p1 → y = length (frames_accepted t).

Lemma accepts_app t t' y y' : accepts t y → accepts t' y' → accepts (t ++ t') (y + y').
Proof.
  intros H H' Hfd. unfold frames_accepted. rewrite bind_app, length_app, (H Hfd), (H' Hfd). done.
Qed.

Lemma sent_both t t' : length (frames_sent (t ++ t')) = (length (frames_sent t) + length (frames_sent t'))%nat.
Proof. unfold frames_sent. by rewrite bind_app, length_app. Qed.

Definition costs {E A} (m : st X E A) (P : outcome E A → nat → nat → Prop) : Prop :=
  traces log m (λ r t, Forall addressed t ∧ ∃ y, accepts t y ∧ P r (length (frames_sent t)) y).

(** A success has sent [s] frames and accepted [a]. *)
Definition spends {E A} (m : st X E A) (s a : nat) : Prop :=
  costs m (λ r x y, ∀ v, r = Ok v → x = s ∧ y = a).

Lemma costs_mono {E A} (m : st X E A) (P P' : outcome E A → nat → nat → Prop) :
  costs m P → (∀ r x y, P r x y → P' r x y) → costs m P'.
Proof. intros Hm HP. eapply traces_mono; [exact Hm|]. intros r t (? & y & ? & ?). eauto. Qed.

Lemma costs_silent {E A} (m : st X E A) (P : outcome E A → nat → nat → Prop) :
  silent log m → (∀ r, P r 0 0)%nat → costs m P.
Proof. intros Hm HP. apply traces_silent; [done|]. intros r. split; [constructor|]. by exists 0%nat. Qed.

Lemma costs_bind {E A B} (m : st X E A) (f : A → st X E B) (P : outcome E A → nat → nat → Prop)
    (Q : outcome E B → nat → nat → Prop) :
  costs m P →
  (∀ v x y, P (Ok v) x y → costs (f v) (λ r x' y', Q r (x + x') (y + y'))%nat) →
  (∀ e x y, P (Err e) x y → Q (Err e) x y) → (∀ x y, P Panic x y → Q Panic x y) →
  costs (m ≫= f) Q.
Proof.
  intros Hm Hf He Hp. apply traces_bind. eapply traces_mono; [exact Hm|].
  intros [v|e|] t (Ht & y & Hy & HP); [|split; [done|]; exists y; by auto..].
  eapply traces_mono; [by apply (Hf _ _ _ HP)|]. intros r t' (Ht' & y' & Hy' & HQ).
  split; [by apply Forall_app|]. exists (y + y')%nat. split; [by apply accepts_app|]. by rewrite sent_both.
Qed.

Lemma spends_silent {E A} (m : st X E A) : silent log m → spends m 0 0.
Proof. intros Hm. by apply costs_silent. Qed.

Lemma spends_ret {E A} (a : A) : spends (E:=E) (mret a) 0 0.
Proof. apply spends_silent. by intros x. Qed.

Lemma spends_lift {E A} (m : outcome E A) : spends (lift m) 0 0.
Proof. apply spends_silent. by intros x. Qed.

Lemma spends_throw {E A} (e : E) s a : spends (A:=A) (throw e) s a.
Proof. apply traces_throw. split; [constructor|]. by exists 0%nat. Qed.

Lemma spends_bind {E A B} (m : st X E A) (f : A → st X E B) s1 a1 s2 a2 s a :
  spends m s1 a1 → (∀ v, spends (f v) s2 a2) → (s1 + s2 = s)%nat → (a1 + a2 = a)%nat → spends (m ≫= f) s a.
Proof.
  intros Hm Hf Hs Ha. eapply costs_bind; [exact Hm| |done..]. intros v x y H. destruct (H v eq_refl) as [-> ->].
  eapply costs_mono; [apply Hf|]. intros r x' y' H' w Hw. destruct (H' w Hw) as [-> ->]. by split.
Qed.

(** A loop of passes that move nothing but the last. *)
Lemma costs_attempt {E E' A} (m : st X E A) (P : outcome E' (E + A) → nat → nat → Prop) :
  costs m (λ r x y, match r with
                    | Ok a => P (Ok (inr a)) x y
                    | Err e => P (Ok (inl e)) x y
                    | Panic => P Panic x y
                    end) →
  costs (attempt m) P.
Proof.
  intros Hm. apply traces_attempt. eapply traces_mono; [exact Hm|]. intros [a|e|] t (Ht & y & Hy & HP); eauto.
Qed.

Lemma costs_loop {E A B} n (body : A → st X (stop E) (A + B)) (I : A → nat → nat → Prop)
    (Q : outcome (stop E) B → nat → nat → Prop) a :
  I a 0%nat 0%nat →
  (∀ a x y, I a x y → costs (body a) (λ r x' y', match r with
     | Ok (inl a) => I a (x + x') (y + y')
     | Ok (inr b) => Q (Ok b) (x + x') (y + y')
     | Err e => Q (Err e) (x + x') (y + y')
     | Panic => Q Panic (x + x') (y + y')
     end)%nat) →
  (∀ a x y, I a x y → Q (Err Running) x y) →
  costs (loop n body a) Q.
Proof.
  intros HI Hbody Hrun.
  refine (traces_loop _ n body (λ a t, Forall addressed t ∧ ∃ y, accepts t y ∧ I a (length (frames_sent t)) y)
    (λ r t, Forall addressed t ∧ ∃ y, accepts t y ∧ Q r (length (frames_sent t)) y) a [] _ _ _).
  - split; [constructor|]. by exists 0%nat.
  - intros b t (Ht & y & Hy & Hb). eapply traces_mono; [by apply (Hbody _ _ _ Hb)|]. intros r t' (Ht' & y' & Hy' & HP).
    assert (Forall addressed (t ++ t')) by by apply Forall_app. pose proof (accepts_app _ _ _ _ Hy Hy').
    rewrite sent_both. destruct r as [[b'|c]|e|]; eauto.
  - intros b t (Ht & y & Hy & Hb). eauto 6.
Qed.
End Count.
End Frames.

(** ** The calls of an endpoint *)

Section Endpoint.
Context `{C : Crypto} `{DA : Build} {K : Type} `{DV : Device K}.
Abbreviation T := (K * list device_event)%type.
Context (p0 p1 : Port).

Abbreviation log1 := (snd : T → list device_event).
Abbreviation log2 S := (λ x : T * S, snd (fst x)).
Abbreviation spends1 := (spends p0 p1 log1).
Abbreviation spends2 := (spends p0 p1 (log2 _)).

Lemma costs_device {E} {A : Set} (c : device_call A) (P : outcome E A → nat → nat → Prop) :
  (∀ a, addressed p0 p1 (mkDeviceEvent A c a) ∧
        P (Ok a) (length (link_sent (mkDeviceEvent A c a))) (length (link_accepted p0 p1 (mkDeviceEvent A c a)))) →
  costs p0 p1 log1 (ask_device c) P.
Proof.
  intros HP. apply traces_device. intros a. destruct (HP a) as [Ha Hc]. split; [by apply Forall_singleton|].
  eexists. split; [done|]. unfold frames_sent, frames_accepted. simpl. by rewrite !app_nil_r.
Qed.

Lemma spends_device {E} {A : Set} (c : device_call A) :
  (∀ a, addressed p0 p1 (mkDeviceEvent A c a) ∧ link_sent (mkDeviceEvent A c a) = [] ∧
        link_accepted p0 p1 (mkDeviceEvent A c a) = []) →
  spends1 (ask_device (E:=E) c) 0 0.
Proof. intros Hc. apply costs_device. intros a. destruct (Hc a) as (? & -> & ->). by split. Qed.

Lemma spends_ask {E} {A : Set} (c : Udp.call A) : spends1 (ask (E:=E) c) 0 0.
Proof. exact (spends_device (Common c) (λ _, conj I (conj eq_refl eq_refl))). Qed.
Lemma spends_system {E} {A : Set} (c : Linux.call A) : spends1 (Linux.ask (E:=E) c) 0 0.
Proof. exact (spends_device (System c) (λ _, conj I (conj eq_refl eq_refl))). Qed.

(** Beside the state of a machine, and in a run with a state of its own. *)
Lemma costs_sysm {S E A} (m : st T E A) (P : outcome E A → nat → nat → Prop) :
  costs p0 p1 log1 m P → costs p0 p1 (log2 S) (sysm m) P.
Proof. apply traces_sysm. Qed.

Lemma spends_sysm {S E A} (m : st T E A) s a : spends1 m s a → spends p0 p1 (log2 S) (sysm m) s a.
Proof. apply costs_sysm. Qed.

Lemma spends_method {S E A} (m : st S E A) : spends2 (method m) 0 0.
Proof.
  eapply spends_bind; [apply spends_silent, silent_machine| |done..].
  intros [?|?]; [apply spends_throw|apply spends_ret].
Qed.

Lemma spends_client_try {A} (m : st ClientWorld SessionError.t A) : spends2 (client_try m) 0 0.
Proof. apply (spends_method m). Qed.

Lemma costs_within {S A} (s0 : S) (m : st (T * S) (stop unit) A) (P : A → nat → nat → Prop) :
  costs p0 p1 (log2 S) m (λ r x y, ∀ v, r = Ok v → P v x y) →
  costs p0 p1 log1 (within s0 m) (λ r x y, ∀ v, r = Ok v → P (fst v) x y).
Proof.
  intros Hm x. destruct (Hm (x, s0)) as (t & Ht & Hf & n & Hn & HP). exists t. unfold within. simpl in Ht.
  destruct (m (x, s0)) as [[v|e|] [y s1]]; simpl in *; (split; [done|split; [done|exists n; split; [done|]]]); [|done..].
  intros w [= <-]. by apply (HP v).
Qed.

Lemma spends_within {S A} (s0 : S) (m : st (T * S) (stop unit) A) s a :
  spends2 m s a → spends1 (within s0 m) s a.
Proof. apply (costs_within s0 m (λ _ x y, x = s ∧ y = a)). Qed.

(** [map_err] and [?]: only a success goes on. *)
Lemma spends_attempt {X E E' A B} (log : X → list device_event) (m : st X E A) (f : E + A → st X E' B) s a s' a' x y :
  spends p0 p1 log m s a → (∀ e, costs p0 p1 log (f (inl e)) (λ r _ _, ∀ v, r ≠ Ok v)) →
  (∀ v, spends p0 p1 log (f (inr v)) s' a') →
  (s + s' = x)%nat → (a + a' = y)%nat → spends p0 p1 log (r ← attempt m; f r) x y.
Proof.
  intros Hm He Hf <- <-.
  eapply (costs_bind _ _ _ _ _ (λ r n k, ∀ v, r = Ok (inr v) → n = s ∧ k = a)); [|..|done|done].
  - apply costs_attempt. eapply costs_mono; [exact Hm|]. intros [v|e|] n k H; [|by intros..].
    intros w [= ->]. by apply (H w).
  - intros [e|v] n k H.
    + eapply costs_mono; [apply He|]. intros r n' k' Hr w Hw. by destruct (Hr w).
    + eapply costs_mono; [apply Hf|]. simpl. destruct (H v eq_refl) as [-> ->].
      intros r n' k' Hr w Hw. by destruct (Hr w Hw) as [-> ->].
Qed.

Lemma never_throw {X E A} (log : X → list device_event) (e : E) :
  costs p0 p1 log (throw (A:=A) e) (λ r _ _, ∀ v, r ≠ Ok v).
Proof. apply traces_throw. split; [constructor|]. by exists 0%nat. Qed.

Lemma spends_quiet {E A} (m : st T (stop E) A) s a : spends1 m s a → spends1 (quiet m) s a.
Proof.
  intros Hm. eapply spends_attempt; [exact Hm| |intros v; apply spends_ret|by rewrite Nat.add_0_r..].
  intros [e|]; apply never_throw.
Qed.
End Endpoint.

(** Counting a program down to its calls. *)
Create HintDb frames.
#[export] Hint Resolve spends_ask spends_system spends_ret spends_throw spends_lift spends_method
  spends_client_try : frames.

#[export] Hint Extern 1 (spends _ _ _ (ask_device _) _ _) => apply spends_device; by intros ? : frames.

Ltac spend :=
  repeat first
    [ progress intros
    | apply spends_throw
    | solve [eauto 3 with frames]
    | apply spends_ret
    | apply spends_quiet
    | apply spends_sysm
    | eapply spends_bind
    | match goal with |- @eq nat _ _ => reflexivity end
    | match goal with
      | |- spends _ _ _ (if ?b then _ else _) _ _ => destruct b
      | |- spends _ _ _ (match ?x with _ => _ end) _ _ => destruct x
      | |- spends _ _ _ (let '_ := ?x in _) _ _ => destruct x
      end ].

Section Parts.
Context `{C : Crypto} `{DA : Build} {K : Type} `{DV : Device K}.
Abbreviation T := (K * list device_event)%type.
Context (p0 p1 : Port).
Abbreviation log1 := (snd : T → list device_event).
Abbreviation log2 S := (λ x : T * S, snd (fst x)).
Abbreviation spends1 := (spends p0 p1 log1).
Abbreviation spends2 := (spends p0 p1 (log2 _)).

(** A value of the outcome decides the numbers. *)
Lemma spends_any {X E A} (log : X → list device_event) (m : st X E A) s a s' a' :
  spends p0 p1 log m s a → s = s' → a = a' → spends p0 p1 log m s' a'.
Proof. by intros ? -> ->. Qed.

Lemma spends_last_os_error {A} s a : spends1 (last_os_error (A:=A)) s a.
Proof.
  eapply (spends_bind _ _ _ _ _ 0 0 s a); [apply spends_system|intros; apply spends_throw|done..].
Qed.

Lemma spends_loop0 {E A B} n (body : A → st T (stop E) (A + B)) a :
  (∀ a, spends1 (body a) 0 0) → spends1 (loop n body a) 0 0.
Proof.
  intros Hb. apply (costs_loop _ _ _ n body (λ _ x y, x = 0 ∧ y = 0)%nat); [done| |done].
  intros b x y [-> ->]. eapply costs_mono; [apply Hb|]. intros [[c|v]|e|] x' y' H; simpl; try done.
  - by apply (H (inl c)).
  - intros w [= <-]. by apply (H (inr v)).
Qed.

Lemma spends_elapsed start : spends1 (elapsed_ms start) 0 0.
Proof. unfold elapsed_ms. spend. Qed.
Lemma spends_deadline d : spends1 (deadline_after d) 0 0.
Proof. unfold deadline_after, try. spend. Qed.
Lemma spends_random n size : spends1 (random n size) 0 0.
Proof. apply spends_loop0. intros b. unfold fill_pass. spend. Qed.

Section Port.
Context (p : Port) (Hp : p = p0 ∨ p = p1).

(** A call that moves no frame, then the rest. *)
Lemma costs_ask_bind {E B} {A : Set} (c : device_call A) (f : A → st T E B) Q :
  (∀ a, addressed p0 p1 (mkDeviceEvent A c a) ∧ link_sent (mkDeviceEvent A c a) = [] ∧
        link_accepted p0 p1 (mkDeviceEvent A c a) = []) →
  (∀ a, costs p0 p1 log1 (f a) Q) → costs p0 p1 log1 (ask_device c ≫= f) Q.
Proof.
  intros Hc Hf. eapply (costs_bind _ _ _ _ _ (λ r x y, (∃ a, r = Ok a) ∧ x = 0 ∧ y = 0)%nat).
  - apply costs_device. intros a. destruct (Hc a) as (? & -> & ->). eauto.
  - intros v x y (_ & -> & ->). apply Hf.
  - by intros e x y [[? ?] _].
  - by intros x y [[? ?] _].
Qed.

Lemma costs_throw {X E A} (log : X → list device_event) (e : E) (Q : outcome E A → nat → nat → Prop) :
  Q (Err e) 0%nat 0%nat → costs p0 p1 log (throw e) Q.
Proof. intros HQ. apply traces_throw. split; [constructor|]. by exists 0%nat. Qed.
Lemma costs_ret {X E A} (log : X → list device_event) (a : A) (Q : outcome E A → nat → nat → Prop) :
  Q (Ok a) 0%nat 0%nat → costs p0 p1 log (mret a) Q.
Proof. intros HQ. apply traces_ret. split; [constructor|]. by exists 0%nat. Qed.

Lemma costs_last_os_error {A} (Q : outcome (stop Z) A → nat → nat → Prop) :
  (∀ e, Q (Err e) 0%nat 0%nat) → costs p0 p1 log1 last_os_error Q.
Proof.
  intros HQ. apply (costs_ask_bind (System LastOsError)); [done|]. intros e. by apply costs_throw.
Qed.

(** A pass accepts a frame exactly when it returns it. *)
Lemma costs_receive_pass deadline :
  costs p0 p1 log1 (receive_pass p deadline)
    (λ r x y, x = 0 ∧ y = match r with Ok (inr _) => 1 | _ => 0 end)%nat.
Proof.
  apply (costs_ask_bind (Common Now)); [done|]. intros now.
  destruct (checked_duration_since _ _) as [remaining|]; [|by apply costs_throw].
  apply costs_ask_bind; [done|]. intros ready. destruct (ready =? 0); [by apply costs_throw|].
  destruct (ready <? 0); [by apply costs_last_os_error|].
  eapply (costs_bind _ _ _ _ _ (λ r x y, x = 0 ∧ ∃ (count : Z) data address, r = Ok (count, data, address) ∧
    y = if (count <? 0)%Z then 0 else match arrived p count data address with Some _ => 1 | None => 0 end)%nat).
  - apply traces_device. intros [[count data] address]. split; [by apply Forall_singleton|].
    eexists. split; [|split; [done|]; exists count, data, address; by split]. intros Hfd.
    unfold frames_accepted. simpl. rewrite app_nil_r.
    assert ((if pt_fd p =? pt_fd p0 then p0 else p1) = p) as ->.
    { destruct Hp as [-> | ->]; [by rewrite Z.eqb_refl|]. by destruct (Z.eqb_spec (pt_fd p1) (pt_fd p0)). }
    destruct (count <? 0); [done|]. by destruct (arrived _ _ _ _) as [[??]|].
  - intros v x y (-> & count & data & address & [= ->] & ->). destruct (count <? 0); [by apply costs_last_os_error|].
    apply costs_ret. simpl. by destruct (arrived _ _ _ _) as [[??]|].
  - by intros e x y (_ & ? & ? & ? & ? & _).
  - by intros x y (_ & ? & ? & ? & ? & _).
Qed.

Lemma costs_receive n deadline :
  costs p0 p1 log1 (receive n p deadline) (λ r x y, x = 0 ∧ y = match r with Ok _ => 1 | _ => 0 end)%nat.
Proof.
  apply (costs_loop _ _ _ n _ (λ _ x y, x = 0 ∧ y = 0)%nat); [done| |done].
  intros a x y [-> ->]. eapply costs_mono; [apply costs_receive_pass|].
  by intros [[a'|b]|e|] x y [-> ->].
Qed.

Lemma spends_receive n deadline : spends1 (receive n p deadline) 0 1.
Proof. eapply costs_mono; [apply costs_receive|]. by intros r x y [-> ->] v ->. Qed.

Lemma spends_receive_control n id deadline : spends1 (receive_control n p id deadline) 0 1.
Proof. pose proof spends_receive. unfold receive_control. spend. Qed.

Lemma spends_transmit payload : spends1 (transmit p payload) 1 0.
Proof.
  unfold transmit. destruct (Z.ltb_spec 1280 (len payload)); [apply spends_throw|].
  eapply (spends_bind _ _ _ _ _ 1 0 0 0); [|intros sent|done..].
  - apply costs_device. intros a. split; [|by intros]. exists p, payload. by split_and!.
  - destruct (_ || _); [apply spends_last_os_error|apply spends_ret].
Qed.
(** A part without frames, then the rest of a run of which only the successes count. *)
Lemma costs_then {X E A B} (log : X → list device_event) (m : st X E A) (f : A → st X E B) (Q : B → nat → nat → Prop) :
  spends p0 p1 log m 0 0 →
  (∀ v, costs p0 p1 log (f v) (λ r x y, ∀ w, r = Ok w → Q w x y)) →
  costs p0 p1 log (m ≫= f) (λ r x y, ∀ w, r = Ok w → Q w x y).
Proof.
  intros Hm Hf. eapply costs_bind; [exact Hm| |done..]. intros v x y H. destruct (H v eq_refl) as [-> ->]. apply Hf.
Qed.

Lemma costs_skip n started next :
  costs p0 p1 log1 (loop n (skip_pass started) next)
    (λ r x y, ∀ v, r = Ok v → next ≤ v ≤ Nat.max 3 next ∧ x = 0 ∧ y = 0)%nat.
Proof.
  apply (costs_loop _ _ _ n _ (λ i x y, next ≤ i ≤ Nat.max 3 next ∧ x = 0 ∧ y = 0)%nat); [split; [lia|done]| |done].
  intros i x y (Hi & -> & ->).
  assert (costs p0 p1 log1 (skip_pass started i) (λ r x' y', ∀ v, r = Ok v →
    match v with inl j => (j = S i ∧ i < 3) | inr j => j = i end ∧ x' = 0 ∧ y' = 0)%nat) as Hs.
  - unfold skip_pass. destruct (Nat.ltb_spec i (length CONTROL_RETRY_DELAYS)) as [Hlt|].
    + apply costs_then; [apply spends_lift|]. intros due. apply costs_then; [apply spends_ask|]. intros now.
      apply costs_ret. intros v [= <-]. simpl in Hlt. by destruct (due <=? now).
    + apply costs_ret. by intros v [= <-].
  - eapply costs_mono; [exact Hs|]. intros [[j|j]|e|] x' y' H; try done.
    + destruct (H _ eq_refl) as ([-> Hj] & -> & ->). split; [lia|done].
    + destruct (H _ eq_refl) as (-> & -> & ->). by intros v [= <-].
Qed.

(** A pass sends a frame exactly when it uses up a retry. *)
Lemma costs_control_pass n id started deadline i :
  costs p0 p1 (log2 _) (control_pass n p id started deadline i) (λ r x y, ∀ v, r = Ok v →
    match v with inl j => (j = S i ∧ i < 3) ∧ x = 1 ∧ y = 0 | inr (_, j) => j = i ∧ x = 0 ∧ y = 1 end)%nat.
Proof.
  apply costs_then.
  { apply spends_sysm. destruct (_ <? _)%nat; unfold try; spend. }
  intros retry_deadline.
  eapply (costs_bind _ _ _ _ _ (λ r x y, x = 0 ∧ y = match r with Ok (inr _) => 1 | _ => 0 end)%nat);
    [|intros [[e|]|[packet source]] x y [-> ->]|done|done].
  - apply costs_attempt, costs_sysm. eapply costs_mono; [apply costs_receive|]. by intros [|?|] x y [-> ->].
  - destruct (e =? ETIMEDOUT); [|by apply costs_throw].
    destruct (Nat.ltb_spec i (length CONTROL_RETRY_DELAYS)) as [Hlt|]; [|by apply costs_throw].
    destruct (retry_deadline <? deadline); [|by apply costs_throw]. simpl.
    apply costs_then; [apply spends_sysm, spends_elapsed|]. intros t.
    apply costs_then; [apply spends_client_try|]. intros retry.
    eapply costs_bind; [apply spends_sysm, spends_quiet, spends_transmit| |done..].
    intros v x y H. destruct (H v eq_refl) as [-> ->]. apply costs_ret. intros w [= <-]. simpl in Hlt. by split.
  - by apply costs_throw.
  - apply costs_ret. by intros v [= <-].
Qed.

(** Every frame the client sends while it waits uses up a retry. *)
Lemma costs_client_control n id started deadline i :
  costs p0 p1 (log2 _) (receive_client_control n p id started deadline i)
    (λ r x y, ∀ v, r = Ok v → i + x ≤ snd v ≤ Nat.max 3 i ∧ y = 1)%nat.
Proof.
  eapply costs_bind; [apply costs_sysm, costs_skip| |done..].
  intros j x y H. destruct (H j eq_refl) as (Hj & -> & ->).
  eapply costs_mono.
  - apply (costs_loop _ _ _ n _ (λ k x y, j + x ≤ k ≤ Nat.max 3 j ∧ y = 0)%nat
      (λ r x y, ∀ v, r = Ok v → j + x ≤ snd v ≤ Nat.max 3 j ∧ y = 1)%nat); [split; [lia|done]| |done].
    intros k x y [Hk ->]. eapply costs_mono; [apply costs_control_pass|].
    intros [[k'|[[packet observed] k']]|e|] x' y' Hr; try done.
    + destruct (Hr _ eq_refl) as ([-> Hlt] & -> & ->). split; [lia|done].
    + destruct (Hr _ eq_refl) as (-> & -> & ->). intros v [= <-]. simpl. split; [lia|done].
  - simpl. intros r x y Hr v ->. destruct (Hr v eq_refl) as [Hv ->]. split; [lia|done].
Qed.
End Port.

Lemma costs_next {X E A B} (log : X → list device_event) (m : st X E A) (f : A → st X E B)
    (P : A → nat → nat → Prop) (Q : B → nat → nat → Prop) :
  costs p0 p1 log m (λ r x y, ∀ v, r = Ok v → P v x y) →
  (∀ v x y, P v x y → costs p0 p1 log (f v) (λ r x' y', ∀ w, r = Ok w → Q w (x + x') (y + y'))%nat) →
  costs p0 p1 log (m ≫= f) (λ r x y, ∀ w, r = Ok w → Q w x y).
Proof. intros Hm Hf. eapply costs_bind; [exact Hm| |done..]. intros v x y H. by apply Hf, H. Qed.

Lemma spends_send_to {S} p payload : p = p0 ∨ p = p1 → spends p0 p1 (log2 S) (sysm (quiet (transmit p payload))) 1 0.
Proof. intros Hp. by apply spends_sysm, spends_quiet, spends_transmit. Qed.

Lemma spends_wait {S} n p id deadline :
  p = p0 ∨ p = p1 → spends p0 p1 (log2 S) (sysm (receive_control n p id deadline)) 0 1.
Proof. intros Hp. by apply spends_sysm, spends_receive_control. Qed.

Lemma spends_try {S A} (m : outcome unit A) : spends p0 p1 (log2 S) (sysm (try m)) 0 0.
Proof. apply spends_sysm. unfold try. spend. Qed.
End Parts.

#[export] Hint Resolve spends_random spends_elapsed spends_deadline spends_send_to spends_wait spends_try : frames.

Section Roles.
Context `{C : Crypto} `{DA : Build} {K : Type} `{DV : Device K}.
Abbreviation T := (K * list device_event)%type.
Context (p0 p1 : Port).
Abbreviation log1 := (snd : T → list device_event).
Abbreviation log2 S := (λ x : T * S, snd (fst x)).
Abbreviation spends1 := (spends p0 p1 log1).
Abbreviation spends2 := (spends p0 p1 (log2 _)).

#[local] Hint Extern 0 (p0 = p0 ∨ p0 = p1) => by left : frames.
#[local] Hint Extern 0 (p1 = p0 ∨ p1 = p1) => by right : frames.

Lemma spends_random_scid n : spends1 (random_scid n) 0 0.
Proof. apply spends_loop0. intros []. spend. Qed.
#[local] Hint Resolve spends_random_scid : frames.

(** ** The handshakes *)

Lemma costs_client_handshake n id :
  costs p0 p1 (log2 _) (client_handshake n p0 id) (λ r x y, ∀ v, r = Ok v → 3 ≤ x ≤ 6 ∧ y = 2)%nat.
Proof.
  unfold client_handshake. do 2 (apply costs_then; [apply spends_sysm; eauto with frames|intros ?]).
  apply costs_then; [apply spends_client_try|intros open].
  apply costs_then; [apply spends_sysm, spends_ask|intros started].
  apply costs_then; [apply spends_try|intros deadline].
  eapply costs_next; [apply spends_send_to; by left|intros [] ? ? [-> ->]].
  eapply costs_next; [apply costs_client_control; by left|intros [[verify ?] i] x y [Hi ->]]. simpl in Hi.
  apply costs_then; [by apply spends_sysm, spends_elapsed|intros t].
  apply costs_then; [apply spends_client_try|intros auth].
  eapply costs_next; [apply spends_send_to; by left|intros [] ? ? [-> ->]].
  eapply costs_next; [apply costs_client_control; by left|intros [[ack ?] j] x' y [Hj ->]]. simpl in Hj.
  apply costs_then; [by apply spends_sysm, spends_elapsed|intros t'].
  apply costs_then; [apply spends_client_try|intros accept].
  eapply costs_next; [apply spends_send_to; by left|intros [] ? ? [-> ->]].
  eapply costs_mono; [apply spends_client_try|]. intros r x'' y' H b ->. destruct (H b eq_refl) as [-> ->]. lia.
Qed.

Lemma spends_server_handshake n started deadline : spends2 (server_handshake n p0 started deadline) 2 3.
Proof.
  unfold server_handshake.
  spend; [apply spends_silent; by intros [[]]|done..].
Qed.

(** ** The session, the manager and their controls *)

Lemma spends_on_session {E A} (m : st RState E A) : spends2 (on_session m) 0 0.
Proof. apply spends_method. Qed.
Lemma spends_on_manager {E A} (m : st State E A) : spends2 (on_manager m) 0 0.
Proof. apply spends_method. Qed.
Lemma spends_confirm slot packet : spends2 (confirm slot packet) 0 0.
Proof. apply spends_on_session. Qed.
#[local] Hint Resolve spends_on_session spends_on_manager spends_confirm : frames.

Lemma spends_new_session n p id b w : spends1 (new_session n p id b w) 0 0.
Proof. unfold new_session. spend. apply spends_within, spends_method. all: done. Qed.

Lemma spends_manager n cr a b id carrier owner : spends1 (manager n cr a b id carrier owner) 0 0.
Proof. unfold manager, try. spend. Qed.

Lemma spends_activate : spends2 activate_path 0 0.
Proof. unfold activate_path. spend. Qed.

Section Port.
Context (p : Port) (Hp : p = p0 ∨ p = p1).

Lemma spends_send_control c : spends2 (send_control p c) 1 0.
Proof. unfold send_control. spend. Qed.

Lemma spends_take_control n mgr id deadline started : spends2 (take_control n mgr p id deadline started) 0 1.
Proof. unfold take_control. spend. Qed.
End Port.
#[local] Hint Resolve spends_activate spends_send_control spends_take_control : frames.

Lemma spends_send_copy packet : spends2 (send_copy p0 p1 packet) 1 0.
Proof.
  assert (∀ p, p = p0 ∨ p = p1 →
    spends2 (sysm (quiet (transmit p (op_packet packet))) ;; confirm (op_slot packet) (op_packet packet)) 1 0) as Hp
    by (intros; spend).
  unfold send_copy. destruct (op_slot packet =? 0); [exact (Hp p0 (or_introl eq_refl))|].
  destruct (op_slot packet =? 1); [exact (Hp p1 (or_intror eq_refl))|]. apply spends_throw.
Qed.

Lemma spends_move_send n mgr started : spends2 (move_send n mgr p0 p1 started) 3 2.
Proof. unfold move_send. spend. Qed.
Lemma spends_move_receive n mgr started : spends2 (move_receive n mgr p0 p1 started) 2 3.
Proof. unfold move_receive. spend. Qed.
#[local] Hint Resolve spends_send_copy spends_move_send spends_move_receive : frames.

Lemma spends_run_send n mgr started : spends2 (run_send n mgr p0 p1 started) 5 2.
Proof. unfold run_send, print. spend. Qed.
Lemma spends_run_receive n mgr started : spends2 (run_receive n mgr p0 p1 started) 2 5.
Proof. unfold run_receive, print. spend. Qed.

(** ** The roles *)

#[local] Hint Resolve spends_new_session spends_manager spends_run_send spends_run_receive spends_within : frames.

Lemma costs_client_session n cr :
  costs p0 p1 log1 (client_session n cr p0) (λ r x y, ∀ v, r = Ok v → 3 ≤ x ≤ 6 ∧ y = 2)%nat.
Proof.
  unfold client_session. apply costs_then; [apply spends_random_scid|intros id].
  apply costs_then; [apply spends_lift|intros client].
  eapply (costs_next _ _ _ _ _ (λ _ x y, 3 ≤ x ≤ 6 ∧ y = 2)%nat).
  { apply (costs_within p0 p1 _ _ (λ _ x y, 3 ≤ x ≤ 6 ∧ y = 2)%nat), costs_client_handshake. }
  intros [b [? w]] x y [Hx ->].
  eapply costs_mono; [eapply (spends_bind _ _ _ _ _ 0 0 0 0); [apply spends_new_session|intros; apply spends_ret|done..]|].
  intros r x' y' Hr v ->. destruct (Hr v eq_refl) as [-> ->]. lia.
Qed.

Lemma spends_server_session n cr : spends1 (server_session n cr p0) 2 3.
Proof.
  unfold server_session, try. pose proof spends_server_handshake. spend.
Qed.

(** From the session to the end of the run. *)
Definition after_session (n : nat) (cr : Credentials) (m : Mode) (started : Z) (s : RState) (id : Z) : st T (stop unit) unit :=
  '(owner, s) ← within s (method (issue_profile3_admission_owner 9));
  '(mgr, ms) ← (match m with
                | Send => manager n cr CLIENT_LOC SERVER_LOC id (binding 2 (pt_peer p0)) owner
                | Receive => manager n cr SERVER_LOC CLIENT_LOC id (binding 4 (pt_peer p0)) owner
                end);
  within (s, ms) (match m with
                  | Send => run_send n mgr p0 p1 started
                  | Receive => run_receive n mgr p0 p1 started
                  end) ;;
  mret ().

Lemma spends_after n cr m started s id :
  spends1 (after_session n cr m started s id) (match m with Send => 5 | Receive => 2 end)
    (match m with Send => 2 | Receive => 5 end).
Proof. unfold after_session. destruct m; spend. Qed.

Lemma costs_role n cr m started :
  costs p0 p1 log1 (role n cr m p0 p1 started) (λ r x y, ∀ v, r = Ok v →
    match m with Send => 8 ≤ x ≤ 11 ∧ y = 4 | Receive => x = 4 ∧ y = 8 end)%nat.
Proof.
  destruct m; unfold role.
  - eapply costs_next; [apply costs_client_session|]. intros [s id] x y [Hx ->].
    eapply costs_mono; [apply (spends_after n cr Send started s id)|]. simpl.
    intros r x' y' Hr v ->. destruct (Hr v eq_refl) as [-> ->]. lia.
  - eapply costs_next.
    + eapply (spends_bind _ _ _ _ _ 0 0 2 3); [apply spends_ask|intros []; apply spends_server_session|done..].
    + intros [s id] x y [-> ->]. eapply costs_mono; [apply (spends_after n cr Receive started s id)|]. simpl.
      intros r x' y' Hr v ->. by destruct (Hr v eq_refl) as [-> ->].
Qed.
End Roles.
