(* ===== verification/RedundantEndpoint.v ===== *)
(** * A whole run of a redundant endpoint

    Until it has dropped its privileges the endpoint neither sends nor reads a
    frame; afterwards it is the role of [RedundantFrames.v].  Both facts about one
    trace give what a run of [RedundantNative.v] does to its links. *)

From S2P Require Import Prelude Wire Checksum Codec Crypto SessionMsg Replay SessionCrypto Directional Client Server Control Mobility DeliveryWindow Redundant Bpf Text Linux Topology LinuxInv Loc Udp Device RedundantIo RedundantNative RedundantFrames.
From stdpp Require Import gmap strings.
#[local] Open Scope Z_scope.
Import R8redundant R8redundantNative.

(** ** Before the links are used *)

Section Offline.
Context `{C : Crypto} `{DA : Build} {K : Type} `{DV : Device K}.
Abbreviation T := (K * list device_event)%type.

Definition offline {E A} (m : st T E A) : Prop := traces (X:=T) snd m (λ _ t, Forall off_link t).

Lemma offline_ret {E A} (a : A) : offline (E:=E) (mret a).
Proof. by apply traces_ret. Qed.
Lemma offline_throw {E A} (e : E) : offline (A:=A) (throw e).
Proof. by apply traces_throw. Qed.
Lemma offline_lift {E A} (m : outcome E A) : offline (lift m).
Proof. by apply traces_lift. Qed.

Lemma offline_bind {E A B} (m : st T E A) (f : A → st T E B) :
  offline m → (∀ a, offline (f a)) → offline (m ≫= f).
Proof.
  intros Hm Hf. apply traces_bind. eapply traces_mono; [exact Hm|]. intros [a|e|] t Ht; [|done..].
  eapply traces_mono; [apply Hf|]. intros r t' Ht'. by apply Forall_app.
Qed.

Lemma offline_device {E} {A : Set} (c : device_call A) :
  (∀ a, off_link (mkDeviceEvent A c a)) → offline (ask_device (E:=E) c).
Proof. intros Hc. apply traces_device. intros a. by apply Forall_singleton. Qed.
Lemma offline_ask {E} {A : Set} (c : Udp.call A) : offline (ask (E:=E) c).
Proof. exact (offline_device (Common c) (λ _, conj eq_refl eq_refl)). Qed.
Lemma offline_system {E} {A : Set} (c : Linux.call A) : offline (Linux.ask (E:=E) c).
Proof. exact (offline_device (System c) (λ _, conj eq_refl eq_refl)). Qed.

Lemma offline_attempt {E E' A} (m : st T E A) : offline m → offline (E:=E') (attempt m).
Proof. intros Hm. apply traces_attempt. eapply traces_mono; [exact Hm|]. by intros []. Qed.

Lemma offline_loop {E A B} n (body : A → st T (stop E) (A + B)) a : (∀ a, offline (body a)) → offline (loop n body a).
Proof.
  intros Hb. apply (traces_loop _ n body (λ _ t, Forall off_link t) (λ _ t, Forall off_link t) a []); [constructor| |done].
  intros b t Ht. eapply traces_mono; [apply Hb|]. intros r t' Ht'.
  assert (Forall off_link (t ++ t')) by by apply Forall_app. by destruct r as [[]| |].
Qed.

Lemma off_link_system {A : Set} t (c : Linux.call A) a :
  Forall off_link t → Forall off_link (t ++ [mkDeviceEvent A (System c) a]).
Proof. intros Ht. apply Forall_app. split; [done|]. by repeat constructor. Qed.

Lemma offline_owned {E A} fd (m : st T E A) : offline m → offline (owned fd m).
Proof.
  intros Hm x. destruct (Hm x) as (t & Ht & Hf). unfold owned.
  destruct (m x) as [[a|e|] y]; cbn [fst snd] in *; [by exists t|..];
    (eexists; rewrite sys_log, Ht, <-(assoc_L (++)); split; [done|by apply off_link_system]).
Qed.

Lemma offline_holding {E A} fd (m : st T (stop E) A) : offline m → offline (holding fd m).
Proof.
  intros Hm. apply traces_holding. eapply traces_mono; [exact Hm|]. intros r t Ht. split; [done|].
  by apply off_link_system.
Qed.

Lemma offline_drop u g : offline (drop_privileges (K:=T) u g).
Proof.
  intros x.
  assert (∃ t, snd (snd (drop_privileges u g x)) = snd x ++ t ∧ Forall off_link t) as (t & Ht & Hf); [|by exists t].
  apply (keeps_drop (λ y, ∃ t, snd y = snd x ++ t ∧ Forall off_link t)); [|exists []; by rewrite app_nil_r].
  intros A c y _ (t & Ht & Hf). eexists. rewrite sys_log, Ht, <-(assoc_L (++)).
  split; [done|by apply off_link_system].
Qed.
End Offline.

Create HintDb offline.
#[export] Hint Resolve offline_ret offline_throw offline_lift offline_ask offline_system offline_drop : offline.
#[export] Hint Extern 1 (offline (ask_device _)) => apply offline_device; by intros ? : offline.

Ltac stays_offline :=
  repeat first
    [ progress intros
    | solve [eauto 2 with offline]
    | apply offline_throw
    | apply offline_loop
    | apply offline_holding
    | apply offline_owned
    | apply offline_attempt
    | apply offline_bind
    | match goal with
      | |- offline (if ?b then _ else _) => destruct b
      | |- offline (match ?x with _ => _ end) => destruct x
      end ].

Section Run.
Context `{C : Crypto} `{DA : Build} {K : Type} `{DV : Device K}.
Abbreviation T := (K * list device_event)%type.

Lemma offline_quiet {E A} (m : st T (stop E) A) : offline m → offline (quiet m).
Proof. intros Hm. unfold quiet. stays_offline. Qed.

Lemma offline_socket name : offline (K:=K) (socket name).
Proof. unfold socket, last_os_error, fails. stays_offline. Qed.

Lemma offline_credentials n role : offline (K:=K) (credentials n role).
Proof. unfold credentials, read_key, fill_pass, try. stays_offline. Qed.

(** ** A whole run *)

(** The frames of a run that has ended well. *)
Definition frames_of (m : Mode) (sent accepted : nat) : Prop :=
  match m with Send => 8 ≤ sent ≤ 11 ∧ accepted = 4 | Receive => sent = 4 ∧ accepted = 8 end%nat.

(** The ports of the arguments. *)
Definition ports_of (a : Args) (p0 p1 : Port) : Prop :=
  (pt_local p0, pt_local p1) = local a ∧ (pt_peer p0, pt_peer p1) = peer a.

(** The links after the privileges were dropped, in a run with the trace [t]. *)
Definition linked (a : Args) (r : outcome (stop unit) unit) (t : list device_event) : Prop :=
  ∃ p0 p1 (x y : T) t',
    ports_of a p0 p1 ∧
    drop_privileges ENDPOINT_UID ENDPOINT_GID x = (Ok (), y) ∧
    t = snd y ++ t' ∧ Forall off_link (snd y) ∧ Forall (addressed p0 p1) t' ∧
    ∃ accepted, accepts p0 p1 t' accepted ∧ (r = Ok () → frames_of (mode a) (length (frames_sent t')) accepted).

Definition final (a : Args) (r : outcome (stop unit) unit) (t : list device_event) : Prop :=
  (r ≠ Ok () ∧ Forall off_link t) ∨ linked a r t.

Definition wraps (a : Args) (m : st T (stop unit) unit) : Prop :=
  ∀ x, Forall off_link (snd x) → final a (fst (m x)) (snd (snd (m x))).

Lemma wraps_bind {A} a (m : st T (stop unit) A) f : offline m → (∀ b, wraps a (f b)) → wraps a (m ≫= f).
Proof.
  intros Hm Hf x Hx. destruct (Hm x) as (t & Ht & Hoff). unfold mbind, st_bind.
  destruct (m x) as [[b|e|] y]; cbn [fst snd] in *; [apply Hf|left..]; rewrite Ht; (split || idtac);
    by rewrite ?Forall_app.
Qed.

Lemma wraps_throw a e : wraps a (throw e).
Proof. intros x Hx. by left. Qed.

Lemma wraps_holding a fd m : wraps a m → wraps a (holding fd m).
Proof.
  intros Hm x Hx. specialize (Hm x Hx). unfold holding.
  assert (∀ r y, final a r (snd y) → final a r (snd (snd (sys (Close fd) y)))) as Hc.
  { intros r y. rewrite (sys_log (Close fd) y). intros [[Hr Hy]|(p0 & p1 & u & v & t' & Hp & Hd & Ht & Hv & Ha & c & Hc & Hf)].
    { left. split; [done|by apply off_link_system]. }
    right. exists p0, p1, u, v, (t' ++ [mkDeviceEvent unit (System (Close fd)) (fst (sys (Close fd) y))]).
    rewrite Ht, (assoc_L (++)). split_and!; [done..| |].
    - apply Forall_app. split; [done|by repeat constructor].
    - exists c. unfold accepts, frames_accepted, frames_sent in *. by rewrite !bind_app, !app_nil_r. }
  destruct (m x) as [[[]|[e|]|] y]; cbn [fst snd] in *; auto.
Qed.

Lemma attempt_bind {X E E' A B} (m : st X E A) (f : E + A → st X E' B) x :
  (attempt m ≫= f) x =
    match m x with (Ok v, y) => f (inr v) y | (Err e, y) => f (inl e) y | (Panic, y) => (Panic, y) end.
Proof. unfold attempt, mbind, st_bind. by destruct (m x) as [[]]. Qed.

Lemma wraps_unprivileged n a cr started s0 s1 : wraps a (unprivileged n a cr started s0 s1).
Proof.
  intros x Hx. destruct (offline_drop ENDPOINT_UID ENDPOINT_GID x) as (t & Ht & Hoff).
  unfold unprivileged. rewrite attempt_bind.
  destruct (drop_privileges ENDPOINT_UID ENDPOINT_GID x) as [[[]|e|] y] eqn:Hd; cbn [fst snd] in *.
  2, 3: left; split; [done|]; cbn; rewrite Ht; by apply Forall_app.
  right. set (p0 := mkPort (fst s0) _ _ _). set (p1 := mkPort (fst s1) _ _ _).
  destruct (costs_role p0 p1 n cr (mode a) started y) as (t' & Ht' & Ha & c & Hc & Hf).
  exists p0, p1, x, y, t'. split; [by destruct a as [? ? [] []]|]. do 2 (split; [done|]). split; [|split; [done|]].
  - rewrite Ht. by apply Forall_app.
  - exists c. split; [done|]. intros Hr. specialize (Hf () Hr). by destruct (mode a).
Qed.

(** C4: the links in a run of the redundant endpoint, on every kernel: a frame leaves or is read only
    after the drop of all privileges has succeeded, whatever fails before or after; every frame
    that leaves is one that [transmit] built for the peer named in the arguments, on the socket and
    the interface of its link, with at most 1280 octets behind its header; and a run that ends well has
    sent 4 frames and accepted 8 as the receiver, or accepted 4 and sent 8 as the sender, and up to
    three more where it repeated a message of the handshake. *)
Theorem endpoint_links n a (k : K) :
  let '(r, (_, t)) := run n a (k, []) in (r ≠ Ok () ∧ Forall off_link t) ∨ linked a r t.
Proof.
  assert (wraps a (run n a)) as Hw; [|specialize (Hw (k, []) (Forall_nil_2 _)); by destruct (run n a (k, [])) as [r [k' t]]].
  apply wraps_bind; [apply offline_device; by intros|intros euid]. destruct (negb _); [apply wraps_throw|].
  apply wraps_bind; [apply offline_credentials|intros cr]. apply wraps_bind; [apply offline_ask|intros started].
  apply wraps_bind; [apply offline_quiet, offline_socket|intros s0]. apply wraps_holding.
  apply wraps_bind; [apply offline_quiet, offline_socket|intros s1]. apply wraps_holding.
  apply wraps_unprivileged.
Qed.
End Run.

(** ** A handshake message that arrives again *)

Lemma expire_config now m w : sv_config (fst (Server.expire now (m, w))) = sv_config m.
Proof. done. Qed.

(** A packet the server answers as an OPEN it refuses as an OPEN_AUTH, whatever its state has become:
    it waits for each message once and takes the second copy for the next one. *)
Lemma repeated_open_refused `{C : Crypto} `{DA : Build} m w packet b b' bucket now bucket' hm verify :
  receive_open m packet b bucket = Ok verify →
  binding_validate b' = Ok () →
  fst (receive_open_auth packet b' now bucket' hm (m, w)) = Err SessionError.UnexpectedMessage.
Proof.
  unfold receive_open, receive_open_auth. intros Ho Hb. rewrite Hb.
  destruct (Server.expire now (m, w)) as [m' w'] eqn:He.
  assert (sv_config m' = sv_config m) as -> by by rewrite <-(expire_config now m w), He.
  unfold handshake_message.
  destruct (binding_validate b) as [[]|e|]; [|done..]. cbn in Ho |- *.
  destruct (unpack_with_budget packet (hc_budget (sv_config m))) as [[h payload]|e|]; [|done..]. cbn in Ho |- *.
  destruct (validate_handshake_header (sv_config m) h (scid h)) as [[]|e|]; [|done..]. cbn in Ho |- *.
  destruct (message_decode payload (hc_profile (sv_config m)) (hc_budget (sv_config m))) as [msg|e|]; [|done..].
  cbn in Ho |- *. destruct (Z.eqb_spec (msg_typ msg) OPEN) as [->|]; [done|by cbn in Ho].
Qed.
