(* ===== verification/RedundantLab.v ===== *)
(** * Two redundant endpoints on one pair of links

    The sending and the receiving endpoint of [RedundantNative.v] on small
    kernels.  An endpoint is run on the frames that the other one sends; what
    each sends grows with what it is given, and the runs of both are complete
    after a few rounds. *)

From S2P Require Import Prelude Wire Checksum Codec HeaderRules Crypto SessionMsg Replay SessionCrypto Directional Client Server Control Mobility DeliveryWindow Redundant Bpf Text Linux Topology LinuxInv Loc Udp Responder Launcher LinuxScenario Device RedundantIo RedundantNative RedundantFrames RedundantEndpoint.
From stdpp Require Import gmap strings.
Import Toy R8redundant R8redundantNative.
#[local] Open Scope Z_scope.
#[local] Existing Instance release_build.

(** A kernel: credentials and sockets, the key pipe, the frames that wait on each descriptor, how
    many random values were asked for, and the frames that were sent. *)
Record Lab : Type := mkLab {
  lab_system : Demo;
  lab_key : bytes;
  lab_inbox : list (Z * bytes);
  lab_randoms : Z;
  lab_sent : list (Z * bytes);
}.

Fixpoint take_frame (fd : Z) (l : list (Z * bytes)) : option (bytes * list (Z * bytes)) :=
  match l with
  | [] => None
  | (fd', f) :: l =>
      if fd' =? fd then Some (f, l) else
      match take_frame fd l with Some (g, l) => Some (g, (fd', f) :: l) | None => None end
  end.

Definition lab_common {A : Set} (c : Udp.call A) (k : Lab) : A * Lab :=
  match c in Udp.call A return A * Lab with
  | ReadFd _ count =>
      let d := take (Z.to_nat count) (lab_key k) in
      ((len d, d), mkLab (lab_system k) (drop (Z.to_nat count) (lab_key k)) (lab_inbox k) (lab_randoms k) (lab_sent k))
  | c => (fst (R8d.script_net c []), k)
  end.

Definition lab_device {A : Set} (c : device_call A) (k : Lab) : A * Lab :=
  match c in device_call A return A * Lab with
  | Common c => lab_common c k
  | System c =>
      let '(a, d) := demo_sys c (lab_system k) in
      (a, mkLab d (lab_key k) (lab_inbox k) (lab_randoms k) (lab_sent k))
  | Getrandom count =>
      ((count, replicate (Z.to_nat count) (lab_randoms k)),
       mkLab (lab_system k) (lab_key k) (lab_inbox k) (lab_randoms k + 1) (lab_sent k))
  | FcntlGetfd _ => (0, k)
  | StatMode _ => ((0, 0x1000), k)
  | Geteuid => (let '(_, e, _, _) := d_uid (lab_system k) in e, k)
  | IfNametoindex name => (if bool_decide (name = ascii_bytes "eth0") then 1 else 2, k)
  | SendtoLink fd frame _ _ _ _ =>
      (len frame, mkLab (lab_system k) (lab_key k) (lab_inbox k) (lab_randoms k) (lab_sent k ++ [(fd, frame)]))
  | PollIn fd _ => (if take_frame fd (lab_inbox k) then 1 else -1, k)
  | RecvfromLink fd size =>
      match take_frame fd (lab_inbox k) with
      | Some (f, l) =>
          ((len f, f, mkLinkAddress 20 (if fd =? 4 then 1 else 2) 6 (take 6 (drop 6 f) ++ [0; 0])),
           mkLab (lab_system k) (lab_key k) l (lab_randoms k) (lab_sent k))
      | None => ((-1, [], mkLinkAddress 0 0 0 []), k)
      end
  end.
#[export] Instance lab : Device Lab := {| device A c := lab_device c |}.

Definition lab_root : Demo := mkDemo (0, 0, 0, 0) (0, 0, 0, 0) [0; 4] true true false 1 ∅ ∅ 4.
Definition lab_start (key : bytes) (inbox : list (Z * bytes)) : Lab := mkLab lab_root key inbox 1 [].

(** The addresses of the two ends of the two links. *)
Definition lab_mac (side link : Z) : bytes := [2; 0; 0; 0; side; link].
Definition lab_args (m : Mode) : Args :=
  let '(here, there) := match m with Send => (1, 2) | Receive => (2, 1) end in
  mkArgs m ("eth0"%string, "eth1"%string) (lab_mac here 0, lab_mac here 1) (lab_mac there 0, lab_mac there 1).
Definition lab_material (m : Mode) : bytes :=
  match m with
  | Send => demo_client_key ++ ed25519_public demo_server_key
  | Receive => demo_server_key ++ ed25519_public demo_client_key
  end.

(** The run of an endpoint on the frames of the other. *)
Definition lab_run (m : Mode) (inbox : list (Z * bytes)) : outcome (stop unit) unit * (Lab * list device_event) :=
  run 100 (lab_args m) (lab_start (lab_material m) inbox, []).
Definition lab_frames (m : Mode) (inbox : list (Z * bytes)) : list (Z * bytes) :=
  lab_sent (fst (snd (lab_run m inbox))).
Fixpoint lab_rounds (n : nat) (to_server : list (Z * bytes)) : list (Z * bytes) :=
  match n with
  | O => to_server
  | S n => lab_rounds n (lab_frames Send (lab_frames Receive to_server))
  end.

(** What the two send in the end. *)
Definition to_server : list (Z * bytes) := Eval vm_compute in lab_rounds 5 [].
Definition to_client : list (Z * bytes) := Eval vm_compute in lab_frames Receive to_server.

(** From the first frame to the last: on what the other sends the receiver sends 4 frames, the sender
    8, and both end well. *)
Lemma lab_served :
  (let '(res, (k, _)) := lab_run Receive to_server in (res, lab_sent k)) = (Ok (), to_client).
Proof. vm_compute. reflexivity. Qed.

Example lab_complete :
  (let '(res, (k, _)) := lab_run Send to_client in (res, lab_sent k)) = (Ok (), to_server) ∧
  length to_server = 8%nat ∧ length to_client = 4%nat.
Proof. split; [vm_compute; reflexivity|done]. Qed.

(** The receiver ends as soon as the first message of the handshake arrives twice. *)
Example lab_repeated :
  let '(res, (k, _)) := lab_run Receive (take 1 to_server ++ to_server) in
  res = Err (Failed ()) ∧ length (lab_sent k) = 1%nat.
Proof. vm_compute. repeat split. Qed.

Lemma endpoint_links_witness : linked (lab_args Receive) (Ok ()) (snd (snd (lab_run Receive to_server))).
Proof.
  pose proof lab_served as Hok. revert Hok. generalize to_server as inbox. intros inbox. unfold lab_run.
  pose proof (endpoint_links 100 (lab_args Receive) (lab_start (lab_material Receive) inbox)) as H.
  destruct (run 100 (lab_args Receive) (lab_start (lab_material Receive) inbox, [])) as [r [k t]].
  cbn [fst snd]. intros Hok. injection Hok as -> _. destruct H as [[H _]|H]; [by destruct H|exact H].
Defined.
